(* ===== verification/_CoqProject ===== *)
-Q . S2P
Prelude.v
TextIO.v
Marshall.v
PollMgr.v
Transport.v
ThrPool.v
Protocols.v
PaxosLog.v
Acceptor.v
Proposer.v
PaxosSystem.v
PaxosLive.v
Extent.v
YfsDir.v
Yfs.v
Fuse.v
Lock.v
Config.v
Rsm.v
RpcClient.v
RpcServer.v
Rpc.v
Conns.v
Stubs.v
LockRsm.v
Handle.v
LockServer.v
Handover.v
Shared.v
FileSystem.v
Race.v
Remote.v
RpcTest.v
LockTester.v
Posix.v
LabTests.v
LabPasses.v
Tokenizer.v
Listener.v
ExtentRemote.v
Mutexes.v
Locking.v
Threads.v
Programs.v
