(* ===== verification/Prelude.v ===== *)
(** A verification of SimpleDistributedFilesystem.

    * The program

    A FUSE file system whose files are extents on one server, shared by clients that cache
    extents and locks; the lock service is meant to be replicated over a group of nodes that
    agree on their membership with Paxos.  From the bottom up: an RPC library with at-most-once
    calls (src/rpc), itself a poll manager, framed TCP connections, a thread pool, marshalling,
    and the client and server classes; the Paxos acceptor, proposer and log (paxos.cc, log.cc);
    views (config.cc) and the replicated state machine (rsm.cc), which reach their peers through
    a cache of connections (handle.cc); the lock services (lock_server.cc, lock_server_cache.cc,
    lock_client_cache.cc); the extent server and its write-back clients (extent_server.cc,
    extent_client.cc); and the file system operations (yfs_client.cc), which take the lock of an
    extent before they use it, and whose cached copies are flushed when the lock is given back;
    the FUSE callbacks (fuse.cc) hand the kernel's requests to them.  Test programs exercise the
    RPC library (rpc/rpctest.cc), the lock service (lock_tester.cc) and a mounted file system
    (test-lab-3-b.c, test-lab-3-c.c).

    * Files and what they model

    - [Prelude]: this file: strings, machine integers, outcomes, calls that may fail.
    - [TextIO]: the C++ text streams the log, the views and the directories go through.
    - [Marshall], [Protocols]: rpc/marshall.h and the message structures; the class
      [Marshal] is the contract between a type's operators and their users.
    - [PollMgr]: rpc/pollmgr.cc: the poll thread, threads that register and remove
      descriptors, and a kernel, as a step relation; the class [AioMgr] is the contract of
      which the managers on select and on epoll are instances.
    - [Transport]: rpc/connection.cc: one connection, two of them at the ends of a byte
      stream ([link]), and the accepting side.
    - [ThrPool]: rpc/fifo.h, rpc/thr_pool.cc and [got_pdu] of rpcs.
    - [RpcClient], [RpcServer], [Rpc]: classes rpcc and rpcs, and a client, a server and a
      network put together.
    - [Conns]: the connections of rpcc and rpcs on a heap with their reference counts
      ([get_refconn], the destructors, [dispatch], the listener), with threads inside
      [send] and the poll thread calling back.
    - [Stubs]: the stubs and handlers of all arities of rpc.h, rsm.h and rsm_client.h, the
      handler table and [execute] of rsm.cc, the loop of rsm_client.cc, and the operators
      of [std::map].
    - [PaxosLog], [Acceptor], [Proposer], [PaxosSystem], [PaxosLive]: log.cc, the two
      halves of paxos.cc, all nodes running one instance, and one proposer that runs
      undisturbed.
    - [Config], [Rsm], [Handle]: config.cc, rsm.cc with rsm_client.cc, handle.cc.
    - [Extent]: Modules [extent_server] and [extent_client], and [coherence], the
      clients of one server under locks.
    - [YfsDir], [Yfs]: the directory format, and yfs_client.cc over the class
      [FileStore], of which the extent client is an instance.
    - [Fuse]: the handlers of fuse.cc, over the same class; what libfuse does with a
      directory entry is the class [Libfuse].
    - [Lock], [LockServer]: the caching lock service as a system of threads, clients
      and messages; the plain lock server.
    - [LockRsm]: the replicated lock service (lock_server_cache_rsm.cc,
      lock_client_cache_rsm.cc), as unfinished as it is, and the process of
      lock_smain.cc.
    - [Handover]: the way of a lock from the client that has it cached to another, with the
      flush of the extent on the way.
    - [Shared], [FileSystem]: several clients of one extent server and one lock service as
      one [FileStore], and the operations of yfs_client.cc on it, request by request.
    - [Race]: two of those clients and a file whose creation is not over.
    - [Remote]: one call from end to end, through rpcc, marshalling, rpcs and back.
    - [ExtentRemote]: the process of extent_smain.cc, and extent_client.cc over [Remote].
    - [Listener]: addresses (make_sockaddr), the listening socket, the accepting thread and
      the destructors of tcpsconn and rpcs, over the connections of [Conns].
    - [RpcTest]: what one thread runs of rpc/rpctest.cc, over [Remote].
    - [LockTester]: lock_tester.cc, over the class [LockService], of which the caching lock
      service of [Lock] and the unfinished client of [LockRsm] are instances.
    - [Posix], [LabTests], [LabPasses]: programs that fork and the system calls of an ideal
      system, over the class [System]; test-lab-3-b.c and test-lab-3-c.c; what they check.
    - [Tokenizer]: StringTokenizer.cc, a third-party class that is compiled in and not used.
    - [Mutexes], [Locking]: threads, mutexes and the order in which they are taken, in general;
      and the functions of rsm.cc, config.cc, paxos.cc, handle.cc, rsm_client.cc and of the lock
      and extent services reduced to their locking, across processes.
    - [Threads]: rpc/method_thread.h, [addObjJob] of rpc/thr_pool.h, the deadline of lock.hpp.
    - [Programs]: [main] of fuse.cc, rsm_tester.cc with rsmtest_client.cc, lock_demo.cc.

    A C++ object is a record, a method a function on it that returns the new object and
    the results; a handler that gives its mutex up is cut there, and the pieces are steps
    of a system that interleaves them.  Text and buffers are lists of bytes, integers are
    [Z] with their wrap-around written where the code computes one.  A failed [VERIFY],
    an uncaught exception, an undefined operation, [exit] and a loop out of fuel are the
    faults of type [outcome].  Definitions carry the names of the code; where two classes
    share a name, a Module keeps them apart.

    * What is proved

    - Paxos: two acceptors that decided an instance decided the same value, and no
      assertion fails, whatever messages are lost, repeated or delayed and whichever
      acceptors restart, as long as an accept request is delivered before its acceptor
      has decided the instance ([timely]); without that proviso two nodes can disagree,
      since [acceptreq] does not look at the instance.  A proposer that runs alone and
      reaches a majority decides in one run.  An acceptor restarted from its
      log answers as before; decisions and promises are never taken back; a dumped log
      restores the state elsewhere; reading any log ends, and a record cut short is
      read as a decision.
    - Views: proposals read back as the views they stand for, a restarted node is back in
      its view, and the heartbeater removes exactly the nodes it should.  The primary is
      the old one if it stays, else the first member of the previous view that does (a comment
      in rsm.cc says the lowest); nodes that see the same views agree on it,
      nodes that missed some may not, and a joining node gets the view it joins.
    - RPC: messages are received as they were sent; a call runs the method and returns its
      result, and waits for a bounded number of rounds; the acknowledgement number is exact; a
      client that makes one call at a time and does not give up on one has each request executed
      once, in order, if its first is not delivered again while it runs ([careful]); outside
      those bounds there are two schedules in which one is executed twice.  A call of the
      replicated service runs the method registered for it.  The extent client over the RPC
      library is a refinement: it does what it does with the server at hand.
    - Below RPC: PDUs are received in the order they were sent, and all of them once their bytes
      have arrived, however the stream splits; a size word below -4 aborts the receiver, a
      negative one above overruns a block.  After [block_remove_fd] no callback runs, unless its
      own wait ended spuriously, and the poll thread lets its caller go; the managers on select
      and epoll answer alike.  The pool runs its jobs in order, and its destructor ends with all
      of them done.  A connection is deleted exactly when it is dead and nobody holds it, and
      nobody uses a deleted one; the server loses a reference for each request to an old
      instance, and runs a deleted job if [reachable_] becomes false between the two reads of it
      in [got_pdu].  The accepting thread ends when the destructor wants it to, and what is left
      then is known; an address that was printed is read back.
    - Locks and connections: at most one thread of one client holds a cached lock; the
      plain server grants a lock to one client at a time; handles never touch freed
      records.  A lock nobody is at is handed over in twelve steps, its extent flushed
      before.  The lock server process, which is built with the replicated service, aborts on
      the first request of a client of the file system.
    - Extents and files: caches used under locks show one copy of each extent whose fetches,
      write-backs and removals reach the server, as a removal without a copy does not; a file
      that was created is found, written data is read back, [setAttr] resizes, unlinking undoes
      creation; directories are parsed back; and the error paths where the code loses a lock, a
      removal, an error or part of a name.  Several clients on one server keep a well-formed
      file system between them and see each other's files; what another client writes to a new
      file whose lock its creator has not used yet is lost.  Through FUSE, each request gets its
      reply (one gets two), a file lives and dies as a program expects, and a directory is
      listed whole.
    - Test programs: the tests of rpctest that one thread runs return, so that none of their
      assertions fails, on a machine that keeps up with its clock; the lock tester
      finds nothing wrong with the caching lock service, in any interleaving, and can find
      something wrong with the unfinished one; [dircheck] of the other test programs finds
      every duplicate, and both programs accept an ideal system, in which no call fails and all
      mounts show the same files.
    - Threads: the functions of all services, run by any threads of all processes, never
      deadlock, as long as no prepare request is answered with [oldinstance]; where one is, the
      proposer calls up with its mutex held and two threads of a node wait for each other for
      ever.  A method handed to a new thread or to the pool runs once, on its own arguments, and
      its record is not used after it is freed.
    - The small programs: when the file system is mounted, unmounted or left mounted; the tester
      sets the break points of a node; the demo makes the lock server abort.
    - The tokenizer: its constructor never returns where [size_t] has 64 bits; where it has
      32, the tokens are the fields between delimiters.

    * Bounds

    Loops over a text ([logread], [log_dump], [split], [members]) have one unit of fuel more
    than the text has bytes, and every turn consumes a byte; that they never run out is proved.
    Decimal numbers have fuel for 20 digits, enough for 64 bits.  The carry loop of
    [add_timespec] has one unit per whole second.  The waiting loop of a call runs over the list
    of what each round meets, and the loop of [rsm_client] over the list of what each attempt
    meets.  [drain] has one read callback per byte that has arrived.  The loops of the tokenizer
    have one unit per byte; without a bound they do not end, which is what is proved of them.
    The systems are step functions or relations, run on schedules of any length.

    * What is assumed

    Proposal counters, call numbers and view numbers do not wrap in the theorems that
    say so.  Buffer capacities are [nat]: an [int] overflow of a buffer of 2 GB is not
    modelled.  The number a proposer has used survives in the process; a node whose
    process dies and restarts keeps its acceptor state only.  File names hold no NUL
    byte.  The calls of the lock service are delivered at most once, which is what the
    theorem on RPC gives for its careful clients.  Of the operating system: [read] returns at least one byte and
    no more than asked, [write] takes some of the bytes, [select] reports what is ready
    among what was asked for and returns if the pipe has a byte, a descriptor is not
    reused before it is closed, and Linux refuses a [read] of more than [SSIZE_MAX] bytes.
    Condition variables may wake threads by themselves, but for the wait of the call of
    [block_remove_fd] a theorem is about (an example of [PollMgr] shows what happens then).

    * What is not modelled

    Logging; gettime.cc, a clock in floating point for the Mac, as the other parts that are
    compiled there only; in the test programs, options, printing and alarms; the tests of
    rpctest whose threads make calls at the same time or with messages lost on purpose; the
    signals of the condition variables in the pool's queue, so that lost wake-ups are not looked
    for; the conversion of tokens to floating point numbers.  Mutexes are in [Locking] only: in
    the other files a critical section is one step.  Those inside the RPC library are left out
    of it, as no order of them would do: [decref] and [read_cb] take the two of a connection in
    opposite orders, and it is the reference counts of [Conns] that keep them from meeting, a
    connection whose last reference is given back being dead.  In [Remote] and [RpcTest] one
    call runs at a time over a connection that delivers: calls that overlap, messages that are
    lost or repeated and connections that break are those of [Rpc], [RpcClient] and [Conns]. *)
From Stdlib Require Import ZArith Lia Ascii String.
From stdpp Require Import base gmap list strings.

Local Open Scope Z_scope.

(** * C++ strings

    A [std::string] (and a raw byte buffer) is the list of its bytes. *)

Abbreviation cstring := (list ascii).

(** A string literal of the source, as its bytes. *)
Definition cs (s : string) : cstring := list_ascii_of_string s.

(** * Machine integers

    An integer of width [w] is a [Z] together with the wrap-around of its
    type, which the definitions write where the source computes one. *)

Definition u8 (z : Z) : Z := z mod 2 ^ 8.
Definition u16 (z : Z) : Z := z mod 2 ^ 16.
Definition u32 (z : Z) : Z := z mod 2 ^ 32.
Definition u64 (z : Z) : Z := z mod 2 ^ 64.
Definition s8 (z : Z) : Z := (z + 2 ^ 7) mod 2 ^ 8 - 2 ^ 7.
Definition s16 (z : Z) : Z := (z + 2 ^ 15) mod 2 ^ 16 - 2 ^ 15.
Definition s32 (z : Z) : Z := (z + 2 ^ 31) mod 2 ^ 32 - 2 ^ 31.

Definition is_u8 (z : Z) : Prop := 0 <= z < 2 ^ 8.
Definition is_u16 (z : Z) : Prop := 0 <= z < 2 ^ 16.
Definition is_u32 (z : Z) : Prop := 0 <= z < 2 ^ 32.
Definition is_u64 (z : Z) : Prop := 0 <= z < 2 ^ 64.
Definition is_s8 (z : Z) : Prop := - 2 ^ 7 <= z < 2 ^ 7.
Definition is_s16 (z : Z) : Prop := - 2 ^ 15 <= z < 2 ^ 15.
Definition is_s32 (z : Z) : Prop := - 2 ^ 31 <= z < 2 ^ 31.

(** Unfold every width and hand the rest to [lia]. *)
Ltac width_lia :=
  unfold is_u8, is_u16, is_u32, is_u64, is_s8, is_s16, is_s32,
    u8, u16, u32, u64, s8, s16, s32 in *;
  Z.to_euclidean_division_equations; lia.

Create HintDb width discriminated.

Lemma u8_range z : is_u8 (u8 z).
Proof. apply Z.mod_pos_bound; lia. Qed.
Lemma u16_range z : is_u16 (u16 z).
Proof. apply Z.mod_pos_bound; lia. Qed.
Lemma u32_range z : is_u32 (u32 z).
Proof. apply Z.mod_pos_bound; lia. Qed.
Lemma u64_range z : is_u64 (u64 z).
Proof. apply Z.mod_pos_bound; lia. Qed.
Lemma u8_id z : is_u8 z -> u8 z = z.
Proof. apply Z.mod_small. Qed.
Lemma u16_id z : is_u16 z -> u16 z = z.
Proof. apply Z.mod_small. Qed.
Lemma u32_id z : is_u32 z -> u32 z = z.
Proof. apply Z.mod_small. Qed.
Lemma u64_id z : is_u64 z -> u64 z = z.
Proof. apply Z.mod_small. Qed.
Lemma s8_id z : is_s8 z -> s8 z = z.
Proof. width_lia. Qed.
Lemma s16_id z : is_s16 z -> s16 z = z.
Proof. width_lia. Qed.
Lemma s32_id z : is_s32 z -> s32 z = z.
Proof. width_lia. Qed.
Lemma s32_u32 z : s32 (u32 z) = s32 z.
Proof. width_lia. Qed.
Lemma s16_u16 z : s16 (u16 z) = s16 z.
Proof. width_lia. Qed.
Lemma s8_u8 z : s8 (u8 z) = s8 z.
Proof. width_lia. Qed.

#[export] Hint Resolve u8_range u16_range u32_range u64_range : width.
Create Rewrite HintDb width.
#[export] Hint Rewrite u8_id u16_id u32_id u64_id s8_id s16_id s32_id
  using assumption : width.

(** * Bytes *)

(** The value of a [char] read as [unsigned char]. *)
Definition Z_of_char (c : ascii) : Z := Z.of_N (N_of_ascii c).
(** The conversion of an integer to a byte keeps its low eight bits. *)
Definition char_of_Z (z : Z) : ascii := ascii_of_N (Z.to_N (u8 z)).

Lemma Z_of_char_range c : is_u8 (Z_of_char c).
Proof.
  unfold is_u8, Z_of_char. split; [lia|].
  pose proof (N_ascii_bounded c). lia.
Qed.
Lemma Z_of_char_of_Z z : Z_of_char (char_of_Z z) = u8 z.
Proof.
  unfold Z_of_char, char_of_Z. pose proof (u8_range z) as H.
  rewrite N_ascii_embedding; width_lia.
Qed.
Lemma char_of_Z_of_char c : char_of_Z (Z_of_char c) = c.
Proof.
  unfold char_of_Z. rewrite u8_id by apply Z_of_char_range.
  unfold Z_of_char. rewrite N2Z.id. apply ascii_N_embedding.
Qed.
Lemma Z_of_char_inj a b : Z_of_char a = Z_of_char b -> a = b.
Proof. intros H. rewrite <- (char_of_Z_of_char a), H. apply char_of_Z_of_char. Qed.
#[export] Hint Resolve Z_of_char_range : width.

(** * Lists *)

(** The longest prefix whose elements satisfy [p], and the rest. *)
Fixpoint span {A} (p : A -> bool) (l : list A) : list A * list A :=
  match l with
  | [] => ([], [])
  | x :: l' => if p x then let '(a, b) := span p l' in (x :: a, b) else ([], l)
  end.

Lemma span_app {A} (p : A -> bool) l1 l2 :
  Forall (fun x => p x = true) l1 ->
  match l2 with [] => True | y :: _ => p y = false end ->
  span p (l1 ++ l2) = (l1, l2).
Proof.
  intros H1 H2. induction H1 as [|x l1 Hx _ IH]; simpl.
  - destruct l2; simpl; [done|]. by rewrite H2.
  - by rewrite Hx, IH.
Qed.

Lemma span_all {A} (p : A -> bool) l :
  Forall (fun x => p x = true) l -> span p l = (l, []).
Proof. intros H. pose proof (span_app p l [] H I) as E. by rewrite app_nil_r in E. Qed.

(** Sums over a list of which one element is replaced or taken out. *)
Lemma sum_list_insert {A} (f : A -> nat) l i x y :
  l !! i = Some x -> (sum_list_with f (<[i := y]> l) + f x = sum_list_with f l + f y)%nat.
Proof.
  revert i. induction l as [|z l IH]; intros [|i] Hi; simplify_eq/=; [lia|].
  specialize (IH i Hi). lia.
Qed.
Lemma sum_list_delete {A} (f : A -> nat) l i x :
  l !! i = Some x -> (sum_list_with f (delete i l) + f x = sum_list_with f l)%nat.
Proof.
  revert i. induction l as [|z l IH]; intros [|i] Hi; simplify_eq/=; [lia|].
  specialize (IH i Hi). lia.
Qed.

(** * Strings compare byte by byte, as [std::string::compare] does *)

Fixpoint str_ltb (a b : cstring) : bool :=
  match a, b with
  | _, [] => false
  | [], _ :: _ => true
  | x :: a', y :: b' =>
      (Z_of_char x <? Z_of_char y)
      || ((Z_of_char x =? Z_of_char y) && str_ltb a' b')
  end.
Definition str_gtb (a b : cstring) : bool := str_ltb b a.
Definition str_eqb (a b : cstring) : bool := bool_decide (a = b).

Lemma str_eqb_eq a b : str_eqb a b = true <-> a = b.
Proof. unfold str_eqb. apply bool_decide_eq_true. Qed.
Lemma str_eqb_refl a : str_eqb a a = true.
Proof. by apply str_eqb_eq. Qed.
Lemma str_eqb_neq a b : str_eqb a b = false <-> a <> b.
Proof. unfold str_eqb. apply bool_decide_eq_false. Qed.

Lemma str_ltb_irrefl a : str_ltb a a = false.
Proof.
  induction a as [|x a IH]; simpl; [done|].
  rewrite Z.ltb_irrefl, Z.eqb_refl. done.
Qed.
Lemma str_ltb_trans a b c : str_ltb a b = true -> str_ltb b c = true -> str_ltb a c = true.
Proof.
  revert b c. induction a as [|x a IH]; intros [|y b] [|z c]; simpl; try done.
  rewrite !orb_true_iff, !andb_true_iff, !Z.ltb_lt, !Z.eqb_eq.
  intros [?|[? ?]] [?|[? ?]]; try (left; lia). right. split; [lia|]. by eapply IH.
Qed.
Lemma str_ltb_total a b : str_ltb a b = true \/ a = b \/ str_ltb b a = true.
Proof.
  revert b. induction a as [|x a IH]; intros [|y b]; simpl; auto.
  rewrite !orb_true_iff, !andb_true_iff, !Z.ltb_lt, !Z.eqb_eq.
  destruct (Z.lt_total (Z_of_char x) (Z_of_char y)) as [?|[E|?]]; [by auto| |by auto].
  destruct (IH b) as [?|[->|?]]; [by auto| |by auto 6].
  apply Z_of_char_inj in E as ->. auto.
Qed.
Lemma str_ltb_asym a b : str_ltb a b = true -> str_ltb b a = false.
Proof.
  intros H. destruct (str_ltb b a) eqn:E; [|done].
  pose proof (str_ltb_trans a b a H E) as F. by rewrite str_ltb_irrefl in F.
Qed.

(** * Characters of the C locale *)

Definition is_space (c : ascii) : bool :=
  let z := Z_of_char c in ((9 <=? z) && (z <=? 13)) || (z =? 32).
Definition is_digit (c : ascii) : bool :=
  let z := Z_of_char c in (48 <=? z) && (z <=? 57).
Definition newline : ascii := char_of_Z 10.
Definition space : ascii := char_of_Z 32.

(** A word: what [operator>>] reads back whole from a text. *)
Definition is_word (s : cstring) : Prop :=
  s <> [] /\ Forall (fun c => is_space c = false) s.
(** A line: what [getline] reads back whole. *)
Definition is_line (s : cstring) : Prop := newline ∉ s.

#[global] Instance is_word_dec s : Decision (is_word s).
Proof. unfold is_word. apply _. Defined.
#[global] Instance is_line_dec s : Decision (is_line s).
Proof. unfold is_line. apply _. Defined.

#[global] Instance is_u32_dec z : Decision (is_u32 z).
Proof. unfold is_u32. apply _. Defined.
#[global] Instance is_u64_dec z : Decision (is_u64 z).
Proof. unfold is_u64. apply _. Defined.

(** Prove a decidable proposition about concrete data by computing it. *)
Ltac by_computing := apply (bool_decide_unpack _); vm_compute; exact I.

Lemma digit_not_space c : is_digit c = true -> is_space c = false.
Proof. unfold is_digit, is_space. intros. lia. Qed.

(** * Outcomes

    A piece of code returns, fails a [VERIFY] assertion or throws an exception nobody
    catches (the process aborts),
    does something the language leaves undefined (reads past a buffer, follows an
    end iterator), calls [exit], or is a loop that used up the fuel of its definition. *)

Inductive fault := AssertFail | Uncaught | Undefined | Exited | Diverged.

Inductive outcome (A : Type) :=
| Ret (a : A)
| Fault (f : fault).
Arguments Ret {A} a.
Arguments Fault {A} f.

#[global] Instance outcome_ret : MRet outcome := fun A a => Ret a.
#[global] Instance outcome_bind : MBind outcome := fun A B f c =>
  match c with Ret a => f a | Fault e => Fault e end.

(** [VERIFY(b)]. *)
Definition verify (b : bool) : outcome unit := if b then Ret tt else Fault AssertFail.

#[global] Instance fault_eq_dec : EqDecision fault.
Proof. solve_decision. Defined.
#[global] Instance outcome_eq_dec `{EqDecision A} : EqDecision (outcome A).
Proof. solve_decision. Defined.

Definition is_ret {A} (c : outcome A) : Prop := exists a, c = Ret a.

Lemma bind_ret_inv {A B} (c : outcome A) (f : A -> outcome B) b :
  c ≫= f = Ret b -> exists a, c = Ret a /\ f a = Ret b.
Proof. destruct c; simpl; [eauto|discriminate]. Qed.

(** Split every bind of a hypothesis that says a computation returned. *)
Ltac inv_ret :=
  repeat match goal with
  | H : _ ≫= _ = Ret _ |- _ => apply bind_ret_inv in H as (? & ? & H)
  | H : Ret _ = Ret _ |- _ => injection H as H; subst
  | H : verify ?b = Ret _ |- _ => destruct b eqn:?; [clear H|discriminate H]
  | H : Fault _ = Ret _ |- _ => discriminate H
  end.

(** * Remote calls

    A call either completes, or fails with a negative status: then the handler may
    or may not have run, and the reply variable keeps its value. *)

Inductive fate := Completed | ReplyLost (code : Z) | RequestLost (code : Z).

Definition call {S R} (f : fate) (handler : S -> S * Z * R) (s : S) (r : R) : S * Z * R :=
  match f with
  | Completed => handler s
  | ReplyLost code => ((handler s).1.1, code, r)
  | RequestLost code => (s, code, r)
  end.

(** What a handler keeps, a call of it keeps. *)
Lemma call_keeps {S R} (P : S -> Prop) f (h : S -> S * Z * R) s r :
  P s -> P (h s).1.1 -> P (call f h s r).1.1.
Proof. by destruct f. Qed.
