(* ===== verification/TextIO.v ===== *)
(** Text input and output of the C++ standard library, as the sources use it:
    decimal insertion ([ostream << unsigned]), and extraction from an input
    stream ([>> std::string], [>> unsigned], [get], [getline]) with the stream's
    end-of-file and failure bits.  Round trips between the two are the lemmas
    the log, the view and the directory formats rest on. *)
From Stdlib Require Import ZArith Lia Ascii String.
From stdpp Require Import base list strings.
From S2P Require Import Prelude.
Local Open Scope Z_scope.

(** * Decimal output *)

Definition digit (z : Z) : ascii := char_of_Z (48 + z).

(** [fuel] digits at most; twenty are enough for every 64-bit value. *)
Fixpoint dec_digits (fuel : nat) (n : Z) (acc : cstring) : cstring :=
  match fuel with
  | O => acc
  | S f =>
      let acc' := digit (n mod 10) :: acc in
      if n <? 10 then acc' else dec_digits f (n / 10) acc'
  end.

(** [ost << n] for an unsigned [n]. *)
Definition print_dec (n : Z) : cstring := dec_digits 20 n [].

(** The value of a digit string. *)
Definition digit_val (c : ascii) : Z := Z_of_char c - 48.
Fixpoint dec_val (acc : Z) (s : cstring) : Z :=
  match s with
  | [] => acc
  | c :: s' => dec_val (10 * acc + digit_val c) s'
  end.

Lemma digit_val_digit z : 0 <= z < 10 -> digit_val (digit z) = z.
Proof.
  intros. unfold digit_val, digit. rewrite Z_of_char_of_Z, u8_id by width_lia. lia.
Qed.
Lemma is_digit_digit z : 0 <= z < 10 -> is_digit (digit z) = true.
Proof.
  intros. unfold is_digit, digit. rewrite Z_of_char_of_Z, u8_id by width_lia. lia.
Qed.

Lemma dec_val_digits fuel n acc :
  0 <= n < 10 ^ Z.of_nat fuel ->
  dec_val 0 (dec_digits fuel n acc) = dec_val n acc.
Proof.
  revert n acc.
  induction fuel as [|f IH]; intros n acc Hn.
  - change (10 ^ Z.of_nat 0) with 1 in Hn. replace n with 0 by lia. done.
  - cbn [dec_digits].
    replace (10 ^ Z.of_nat (S f)) with (10 * 10 ^ Z.of_nat f) in Hn
      by (rewrite Nat2Z.inj_succ, Z.pow_succ_r by lia; done).
    destruct (n <? 10) eqn:E.
    + cbn [dec_val]. rewrite digit_val_digit by (apply Z.mod_pos_bound; lia).
      f_equal. rewrite Z.mod_small; lia.
    + rewrite IH.
      * cbn [dec_val]. rewrite digit_val_digit by (apply Z.mod_pos_bound; lia).
        f_equal. pose proof (Z.div_mod n 10). lia.
      * split; [apply Z.div_pos; lia|]. apply Z.div_lt_upper_bound; lia.
Qed.

Lemma dec_digits_digits fuel n acc :
  Forall (fun c => is_digit c = true) acc ->
  Forall (fun c => is_digit c = true) (dec_digits fuel n acc).
Proof.
  revert n acc. induction fuel as [|f IH]; intros n acc H; [done|]. cbn [dec_digits].
  assert (Forall (fun c => is_digit c = true) (digit (n mod 10) :: acc)).
  { constructor; [|done]. apply is_digit_digit, Z.mod_pos_bound. lia. }
  destruct (n <? 10); auto.
Qed.

Lemma dec_digits_nonnil fuel n acc :
  (fuel <> 0%nat \/ acc <> []) -> dec_digits fuel n acc <> [].
Proof.
  revert n acc. induction fuel as [|f IH]; intros n acc H; [by destruct H|].
  cbn [dec_digits]. destruct (n <? 10); [done|]. apply IH. by right.
Qed.

Lemma print_dec_digits n : Forall (fun c => is_digit c = true) (print_dec n).
Proof. by apply dec_digits_digits. Qed.
Lemma print_dec_nonnil n : print_dec n <> [].
Proof. apply dec_digits_nonnil. by left. Qed.
Lemma print_dec_val n : is_u64 n -> dec_val 0 (print_dec n) = n.
Proof.
  intros H. unfold print_dec. rewrite dec_val_digits; [done|].
  unfold is_u64 in H. split; [lia|]. eapply Z.lt_le_trans; [apply H|]. by vm_compute.
Qed.
Lemma print_dec_word n : is_word (print_dec n).
Proof.
  split; [apply print_dec_nonnil|].
  eapply Forall_impl; [apply print_dec_digits|]. apply digit_not_space.
Qed.

(** * Input streams *)

(** What is left to read, and the [eofbit] and [failbit] of the stream. *)
Record istream := Istream { i_rest : cstring; i_eof : bool; i_fail : bool }.

(** A stream freshly opened on the text [s]. *)
Definition open_text (s : cstring) : istream := Istream s false false.

Definition i_good (i : istream) : bool := negb (i_eof i) && negb (i_fail i).
Definition set_fail (i : istream) : istream := Istream (i_rest i) (i_eof i) true.
(** The test [while (from >> x)] and [if (from)]: the stream has not failed. *)
Definition i_ok (i : istream) : bool := negb (i_fail i).

Definition null {A} (l : list A) : bool := match l with [] => true | _ => false end.

(** The sentry of a formatted extraction skips white space; reaching the end of
    the text there sets both bits. *)
Definition sentry_skip (i : istream) : option istream :=
  if i_good i then
    match (span is_space (i_rest i)).2 with
    | [] => None
    | r => Some (Istream r false false)
    end
  else None.

(** The stream a failed sentry leaves. *)
Definition sentry_failed (i : istream) : istream :=
  if i_good i then Istream [] true true else set_fail i.

(** [i >> s]: [s] keeps its old value when the sentry fails. *)
Definition read_word (i : istream) (old : cstring) : istream * cstring :=
  match sentry_skip i with
  | None => (sentry_failed i, old)
  | Some i' =>
      let '(w, r) := span (fun c => negb (is_space c)) (i_rest i') in
      (Istream r (null r) false, w)
  end.

(** [i >> n] for an unsigned type of [w] bits: an optional sign and decimal
    digits; a value that does not fit is the largest one with [failbit], no
    digit at all is zero with [failbit], and a minus sign negates modulo [2^w]. *)
Definition read_unsigned (w : Z) (i : istream) (old : Z) : istream * Z :=
  match sentry_skip i with
  | None => (sentry_failed i, old)
  | Some i' =>
      let '(neg, r0) :=
        match i_rest i' with
        | c :: r => if Z_of_char c =? 45 then (true, r)
                    else if Z_of_char c =? 43 then (false, r) else (false, i_rest i')
        | [] => (false, [])
        end in
      let '(ds, r) := span is_digit r0 in
      let v := dec_val 0 ds in
      if null ds then (Istream r (null r) true, 0)
      else if 2 ^ w <=? v then (Istream r (null r) true, 2 ^ w - 1)
      else (Istream r (null r) false, (if neg : bool then (- v) mod 2 ^ w else v))
  end.

(** [i.get()]: one character, the end of the text sets both bits. *)
Definition get_char (i : istream) : istream :=
  if i_good i then
    match i_rest i with
    | [] => Istream [] true true
    | _ :: r => Istream r false false
    end
  else set_fail i.

(** [getline(i, s, delim)]: up to the delimiter, which is consumed; nothing
    extracted at all sets [failbit]. *)
Definition read_until (delim : ascii) (i : istream) (old : cstring) : istream * cstring :=
  if i_good i then
    match span (fun c => negb (bool_decide (c = delim))) (i_rest i) with
    | (s, []) => (Istream [] true (null s), s)
    | (s, _ :: r) => (Istream r false false, s)
    end
  else (set_fail i, old).

Definition read_line : istream -> cstring -> istream * cstring := read_until newline.

(** ** What a writer wrote, the reader reads back *)

Lemma sentry_skip_nonspace c s :
  is_space c = false -> sentry_skip (open_text (c :: s)) = Some (open_text (c :: s)).
Proof. intros H. unfold sentry_skip; simpl. by rewrite H. Qed.

Lemma is_space_space : is_space space = true.
Proof. done. Qed.
Lemma is_space_newline : is_space newline = true.
Proof. done. Qed.

(** Extraction ignores leading spaces. *)
Lemma sentry_skip_space s : sentry_skip (open_text (space :: s)) = sentry_skip (open_text s).
Proof.
  unfold sentry_skip; cbn [open_text i_good i_eof i_fail i_rest negb andb].
  cbn [span]. rewrite is_space_space. by destruct (span is_space s).
Qed.
Lemma sentry_skip_newline s :
  sentry_skip (open_text (newline :: s)) = sentry_skip (open_text s).
Proof.
  unfold sentry_skip; cbn [open_text i_good i_eof i_fail i_rest negb andb].
  cbn [span]. rewrite is_space_newline. by destruct (span is_space s).
Qed.

(** A blank in front of what is read makes no difference. *)
Lemma read_word_space s old :
  read_word (open_text (space :: s)) old = read_word (open_text s) old.
Proof. unfold read_word. by rewrite sentry_skip_space. Qed.
Lemma read_word_newline s old :
  read_word (open_text (newline :: s)) old = read_word (open_text s) old.
Proof. unfold read_word. by rewrite sentry_skip_newline. Qed.
Lemma read_unsigned_space w s old :
  read_unsigned w (open_text (space :: s)) old = read_unsigned w (open_text s) old.
Proof. unfold read_unsigned. by rewrite sentry_skip_space. Qed.
Lemma read_word_nil old : read_word (open_text []) old = (Istream [] true true, old).
Proof. done. Qed.

(** Where a reader of [p]-characters stops: at the end of the text or before a
    character that is not one. *)
Definition stops (p : ascii -> bool) (r : cstring) : Prop :=
  match r with [] => True | c :: _ => p c = false end.

(** A word comes back whole and leaves what follows it. *)
Lemma read_word_app w r old :
  is_word w -> stops (fun c => negb (is_space c)) r ->
  read_word (open_text (w ++ r)) old = (Istream r (null r) false, w).
Proof.
  intros [Hne Hw] Hr. destruct w as [|x w]; [done|].
  pose proof (proj1 (proj1 (Forall_cons _ _ _) Hw)) as Hx. simpl app.
  unfold read_word. rewrite sentry_skip_nonspace by done. simpl i_rest.
  change (x :: w ++ r) with ((x :: w) ++ r).
  rewrite span_app; [done| |exact Hr].
  eapply Forall_impl; [exact Hw|]. simpl. by intros ? ->.
Qed.

(** A printed number comes back and leaves what follows it. *)
Lemma read_unsigned_app w n r old :
  0 <= n < 2 ^ w -> is_u64 n -> stops is_digit r ->
  read_unsigned w (open_text (print_dec n ++ r)) old = (Istream r (null r) false, n).
Proof.
  intros Hw H64 Hr. pose proof (print_dec_digits n) as Hd.
  pose proof (print_dec_val n H64) as Hv.
  destruct (print_dec n) as [|d ds] eqn:E; [by apply print_dec_nonnil in E|].
  pose proof (proj1 (proj1 (Forall_cons _ _ _) Hd)) as Hd1. simpl app.
  unfold read_unsigned. rewrite sentry_skip_nonspace by by apply digit_not_space.
  cbn [i_rest open_text].
  assert ((Z_of_char d =? 45) = false) as -> by (unfold is_digit in Hd1; lia).
  assert ((Z_of_char d =? 43) = false) as -> by (unfold is_digit in Hd1; lia).
  change (d :: ds ++ r) with ((d :: ds) ++ r).
  rewrite span_app by done. rewrite Hv. cbn [null].
  destruct (2 ^ w <=? n) eqn:F; [lia|done].
Qed.

Lemma read_until_app delim s r old :
  delim ∉ s ->
  read_until delim (open_text (s ++ delim :: r)) old = (open_text r, s).
Proof.
  intros H. unfold read_until; simpl i_good; cbv iota. simpl i_rest.
  rewrite span_app; [done| |by rewrite bool_decide_true].
  apply Forall_forall. intros x Hx. rewrite bool_decide_false; [done|]. by intros ->.
Qed.
Lemma read_until_end delim s old :
  delim ∉ s ->
  read_until delim (open_text s) old = (Istream [] true (null s), s).
Proof.
  intros H. unfold read_until; simpl i_good; cbv iota. simpl i_rest.
  rewrite span_all; [done|].
  apply Forall_forall. intros x Hx. rewrite bool_decide_false; [done|]. by intros ->.
Qed.
Lemma read_line_app s r old :
  is_line s -> read_line (open_text (s ++ newline :: r)) old = (open_text r, s).
Proof. apply read_until_app. Qed.

Lemma get_char_cons c r : get_char (open_text (c :: r)) = open_text r.
Proof. done. Qed.

(** ** A reader never gives characters back

    The loops over a stream end because every turn reads at least one character
    of what is left. *)

Definition i_len (i : istream) : nat := length (i_rest i).

Lemma span_length {A} (p : A -> bool) l :
  length l = (length (span p l).1 + length (span p l).2)%nat.
Proof.
  induction l as [|x l IH]; simpl; [done|].
  destruct (p x); simpl; [|done]. destruct (span p l); simpl in *. lia.
Qed.
Lemma span_eq_length {A} (p : A -> bool) l a b :
  span p l = (a, b) -> length l = (length a + length b)%nat.
Proof. intros E. pose proof (span_length p l) as H. by rewrite E in H. Qed.

Lemma span_rest_stops {A} (p : A -> bool) l :
  match (span p l).2 with [] => True | y :: _ => p y = false end.
Proof.
  induction l as [|x l IH]; simpl; [done|].
  destruct (p x) eqn:E; [|done]. by destruct (span p l).
Qed.

Lemma sentry_skip_shrinks i i' :
  sentry_skip i = Some i' ->
  exists c r, i' = open_text (c :: r) /\ is_space c = false /\ (S (length r) <= i_len i)%nat.
Proof.
  unfold sentry_skip. destruct (i_good i); [|done].
  pose proof (span_rest_stops is_space (i_rest i)) as Hs.
  pose proof (span_length is_space (i_rest i)) as Hl.
  destruct (span is_space (i_rest i)).2 as [|c r] eqn:E; [done|]. intros [= <-].
  eexists c, r. unfold i_len. simpl in Hl. split_and!; [done|done|lia].
Qed.

Lemma sentry_failed_shrinks i : (i_len (sentry_failed i) <= i_len i)%nat.
Proof. unfold sentry_failed, i_len. destruct (i_good i); simpl; lia. Qed.
Lemma sentry_failed_fails i : i_ok (sentry_failed i) = false.
Proof. unfold sentry_failed, i_ok. by destruct (i_good i). Qed.

Lemma read_word_consumes i old :
  i_ok (read_word i old).1 = true -> (i_len (read_word i old).1 < i_len i)%nat.
Proof.
  unfold read_word. destruct (sentry_skip i) as [i'|] eqn:E;
    [|cbn [fst]; by rewrite sentry_failed_fails].
  apply sentry_skip_shrinks in E as (c & r & -> & Hc & Hl). cbn [i_rest open_text span].
  rewrite Hc. cbn [negb]. destruct (span _ r) as [w r'] eqn:Es. intros _.
  apply span_eq_length in Es. unfold i_len in *; simpl. lia.
Qed.
Lemma read_word_shrinks i old : (i_len (read_word i old).1 <= i_len i)%nat.
Proof.
  unfold read_word. destruct (sentry_skip i) as [i'|] eqn:E; [|apply sentry_failed_shrinks].
  apply sentry_skip_shrinks in E as (c & r & -> & Hc & Hl). cbn [i_rest open_text].
  destruct (span _ (c :: r)) as [w r'] eqn:Es.
  apply span_eq_length in Es. unfold i_len in *; simpl in *. lia.
Qed.
Lemma read_unsigned_shrinks w i old : (i_len (read_unsigned w i old).1 <= i_len i)%nat.
Proof.
  unfold read_unsigned. destruct (sentry_skip i) as [i'|] eqn:E; [|apply sentry_failed_shrinks].
  apply sentry_skip_shrinks in E as (c & r & -> & Hc & Hl). cbn [i_rest open_text].
  match goal with |- context [let '(_, _) := ?x in _] => destruct x as [neg r0] eqn:E0 end.
  assert (length r0 <= S (length r))%nat as H0.
  { destruct (Z_of_char c =? 45); [by simplify_eq; lia|].
    destruct (Z_of_char c =? 43); simplify_eq; simpl; lia. }
  destruct (span is_digit r0) as [ds r'] eqn:Es. apply span_eq_length in Es.
  unfold i_len in *. repeat case_match; simpl; lia.
Qed.
Lemma get_char_shrinks i : (i_len (get_char i) <= i_len i)%nat.
Proof.
  unfold get_char, i_len. destruct (i_good i); [|done]. destruct (i_rest i); simpl; lia.
Qed.
Lemma read_until_shrinks d i old : (i_len (read_until d i old).1 <= i_len i)%nat.
Proof.
  unfold read_until, i_len. destruct (i_good i); [|done].
  destruct (span _ _) as [s [|c r]] eqn:Es; apply span_eq_length in Es; simpl in *; lia.
Qed.
Lemma read_until_consumes d i old :
  i_ok (read_until d i old).1 = true -> (i_len (read_until d i old).1 < i_len i)%nat.
Proof.
  unfold read_until, i_len. destruct (i_good i); [|done].
  destruct (span _ _) as [[|x s] [|c r]] eqn:Es; apply span_eq_length in Es; simpl in *;
    try done; lia.
Qed.
Lemma read_line_shrinks i old : (i_len (read_line i old).1 <= i_len i)%nat.
Proof. apply read_until_shrinks. Qed.

(** * Numbers of the C library *)

(** The characters before the first NUL, which is what a function of C sees of a string. *)
Definition c_string (s : cstring) : cstring := (span (fun c => negb (Z_of_char c =? 0)) s).1.

(** White space, a sign and digits; a number that is not an [int] is undefined behaviour. *)
Definition atoi (s : cstring) : outcome Z :=
  let s := (span is_space s).2 in
  let '(neg, s) :=
    match s with
    | c :: s' => if Z_of_char c =? 45 then (true, s') else if Z_of_char c =? 43 then (false, s') else (false, s)
    | [] => (false, [])
    end in
  let n := dec_val 0 (span is_digit s).1 in
  let n := if (neg : bool) then - n else n in
  if (- 2 ^ 31 <=? n) && (n <? 2 ^ 31) then Ret n else Fault Undefined.

Lemma digit_no_sign c : is_digit c = true -> (Z_of_char c =? 45) = false /\ (Z_of_char c =? 43) = false.
Proof. unfold is_digit. rewrite andb_true_iff, !Z.leb_le. lia. Qed.
(** A printed number is read back. *)
Lemma atoi_print n : 0 <= n < 2 ^ 31 -> atoi (print_dec n) = Ret n.
Proof.
  intros Hn. pose proof (print_dec_digits n) as Hd. pose proof (print_dec_val n ltac:(unfold is_u64; lia)) as Hv.
  pose proof (span_all _ _ Hd) as Hs. pose proof (print_dec_nonnil n) as Hne.
  destruct (print_dec n) as [|c s] eqn:E; [done|]. apply Forall_cons in Hd as [Hc _].
  destruct (digit_no_sign c Hc) as [H2 H3]. unfold atoi. cbn [span]. rewrite (digit_not_space c Hc). cbn [snd].
  rewrite H2, H3, Hs. cbn [fst]. rewrite Hv.
  by assert ((- 2 ^ 31 <=? n) && (n <? 2 ^ 31) = true) as -> by lia.
Qed.
Lemma c_string_print n : c_string (print_dec n) = print_dec n.
Proof.
  unfold c_string. rewrite span_all; [done|]. eapply Forall_impl; [apply print_dec_digits|].
  intros c Hc. unfold is_digit in Hc. apply andb_true_iff in Hc as [Hc _]. apply Z.leb_le in Hc. lia.
Qed.
