(* ===== verification/Marshall.v ===== *)
(** Marshalling of rpc/marshall.h and rpc/rpc.cc: the growing output buffer
    [marshall], the input buffer [unmarshall], the insertion and extraction
    operators of the base types, strings and vectors, and the RPC headers.

    [Marshal] is the interface the protocol files and the RPC layer use: what an
    insertion appends, and that the extraction reads it back. *)
From Stdlib Require Import ZArith Lia Ascii String.
From stdpp Require Import base list strings.
From S2P Require Import Prelude.
Local Open Scope Z_scope.

(** The byte [malloc] and [realloc] leave in memory nobody has written. *)
Class Memory := junk : ascii.

(** * Sizes *)

Definition DEFAULT_RPC_SZ : nat := 1024.
(** The larger of the two headers (five and two [int]s) and the [rpc_sz_t] the
    channel fills in; checksumming is compiled out. *)
Definition RPC_HEADER_SZ : nat := Nat.max (5 * 4) (2 * 4) + 4.
Definition sizeof_rpc_sz_t : nat := 4.

Record req_header := ReqHeader {
  rq_xid : Z; rq_proc : Z; rq_clt_nonce : Z; rq_srv_nonce : Z; rq_xid_rep : Z }.
Record reply_header := ReplyHeader { rp_xid : Z; rp_ret : Z }.

(** * Output *)

Record marshall := Marshall { m_buf : list ascii; m_capa : nat; m_ind : nat }.

Section output.
  Context `{Memory}.

(** [realloc] keeps the common prefix. *)
Definition realloc (b : list ascii) (n : nat) : list ascii :=
  take n b ++ replicate (n - length b) junk.

Definition marshall_new : marshall :=
  Marshall (realloc [] DEFAULT_RPC_SZ) DEFAULT_RPC_SZ RPC_HEADER_SZ.

Definition m_rawbyte (m : marshall) (x : Z) : marshall :=
  let m1 := if Nat.leb (m_capa m) (m_ind m)
            then Marshall (realloc (m_buf m) (m_capa m * 2)) (m_capa m * 2) (m_ind m)
            else m in
  Marshall (<[m_ind m1 := char_of_Z x]> (m_buf m1)) (m_capa m1) (S (m_ind m1)).

(** [memcpy(_buf + i, p, n)] *)
Definition blit (b : list ascii) (i : nat) (p : list ascii) : list ascii :=
  take i b ++ p ++ drop (i + length p) b.

Definition m_rawbytes (m : marshall) (p : list ascii) : marshall :=
  let n := length p in
  let m1 := if Nat.ltb (m_capa m) (m_ind m + n)
            then let capa := (if Nat.ltb n (m_capa m) then 2 * m_capa m
                              else m_capa m + n)%nat in
                 Marshall (realloc (m_buf m) capa) capa (m_ind m)
            else m in
  Marshall (blit (m_buf m1) (m_ind m1) p) (m_capa m1) (m_ind m1 + n).

Definition put_bool (m : marshall) (x : bool) : marshall := m_rawbyte m (Z.b2z x).
Definition put_uchar (m : marshall) (x : Z) : marshall := m_rawbyte m x.
Definition put_char (m : marshall) (x : Z) : marshall := put_uchar m (u8 x).
Definition put_ushort (m : marshall) (x : Z) : marshall :=
  let m := m_rawbyte m (Z.land (Z.shiftr x 8) 255) in
  m_rawbyte m (Z.land x 255).
Definition put_short (m : marshall) (x : Z) : marshall := put_ushort m (u16 x).
Definition put_uint (m : marshall) (x : Z) : marshall :=
  let m := m_rawbyte m (Z.land (Z.shiftr x 24) 255) in
  let m := m_rawbyte m (Z.land (Z.shiftr x 16) 255) in
  let m := m_rawbyte m (Z.land (Z.shiftr x 8) 255) in
  m_rawbyte m (Z.land x 255).
Definition put_int (m : marshall) (x : Z) : marshall := put_uint m (u32 x).
Definition put_string (m : marshall) (s : cstring) : marshall :=
  m_rawbytes (put_uint m (u32 (Z.of_nat (length s)))) s.
Definition put_ull (m : marshall) (x : Z) : marshall :=
  put_uint (put_uint m (u32 (Z.shiftr x 32))) (u32 x).
(** [marshall::pack]: the four bytes of a signed [int]. *)
Definition pack (m : marshall) (x : Z) : marshall :=
  let m := m_rawbyte m (Z.land (Z.shiftr x 24) 255) in
  let m := m_rawbyte m (Z.land (Z.shiftr x 16) 255) in
  let m := m_rawbyte m (Z.land (Z.shiftr x 8) 255) in
  m_rawbyte m (Z.land x 255).

Definition m_seek (m : marshall) (i : nat) : marshall := Marshall (m_buf m) (m_capa m) i.

Definition pack_req_header (m : marshall) (h : req_header) : marshall :=
  let saved_sz := m_ind m in
  let m := m_seek m sizeof_rpc_sz_t in
  let m := pack m (rq_xid h) in
  let m := pack m (rq_proc h) in
  let m := pack m (s32 (rq_clt_nonce h)) in
  let m := pack m (s32 (rq_srv_nonce h)) in
  let m := pack m (rq_xid_rep h) in
  m_seek m saved_sz.

Definition pack_reply_header (m : marshall) (h : reply_header) : marshall :=
  let saved_sz := m_ind m in
  let m := m_seek m sizeof_rpc_sz_t in
  let m := pack m (rp_xid h) in
  let m := pack m (rp_ret h) in
  m_seek m saved_sz.

End output.

(** [get_content()] and [str()]: the bytes after the header. *)
Definition get_content (m : marshall) : cstring :=
  drop RPC_HEADER_SZ (take (m_ind m) (m_buf m)).
(** The bytes of the message: [cstr()] and [size()]. *)
Definition m_bytes (m : marshall) : list ascii := take (m_ind m) (m_buf m).

(** * Input *)

Record unmarshall := Unmarshall {
  u_buf : list ascii; u_sz : nat; u_ind : nat; u_ok : bool }.

(** [unmarshall()] and [unmarshall(b, sz)]. *)
Definition unmarshall_empty : unmarshall := Unmarshall [] 0 0 false.
Definition unmarshall_of_buf (b : list ascii) : unmarshall :=
  Unmarshall b (length b) 0 true.

(** [unmarshall(s)], through [take_content]: a blank header and then the string. *)
Definition take_content `{Memory} (s : cstring) : unmarshall :=
  Unmarshall (replicate RPC_HEADER_SZ junk ++ s) (length s + RPC_HEADER_SZ)
    RPC_HEADER_SZ true.

(** [take_in]: the other buffer, positioned after the header. *)
Definition take_in (another : unmarshall) : unmarshall :=
  Unmarshall (u_buf another) (u_sz another) RPC_HEADER_SZ
    (Nat.leb RPC_HEADER_SZ (u_sz another)).

Definition okdone (u : unmarshall) : bool := u_ok u && Nat.eqb (u_ind u) (u_sz u).

(** The byte is a [char]: it is sign-extended to the [unsigned int] result. *)
Definition u_rawbyte (u : unmarshall) : unmarshall * Z :=
  if Nat.leb (u_sz u) (u_ind u)
  then (Unmarshall (u_buf u) (u_sz u) (u_ind u) false, 0)
  else (Unmarshall (u_buf u) (u_sz u) (S (u_ind u)) (u_ok u),
        u32 (s8 (Z_of_char (nth (u_ind u) (u_buf u) zero)))).

Definition get_bool (u : unmarshall) : unmarshall * bool :=
  let '(u, b) := u_rawbyte u in (u, negb (b =? 0)).
Definition get_uchar (u : unmarshall) : unmarshall * Z :=
  let '(u, b) := u_rawbyte u in (u, u8 b).
Definition get_char (u : unmarshall) : unmarshall * Z :=
  let '(u, b) := u_rawbyte u in (u, s8 b).
Definition get_ushort (u : unmarshall) : unmarshall * Z :=
  let '(u, b1) := u_rawbyte u in
  let '(u, b0) := u_rawbyte u in
  (u, Z.lor (Z.shiftl (Z.land b1 255) 8) (Z.land b0 255)).
Definition get_short (u : unmarshall) : unmarshall * Z :=
  let '(u, b1) := u_rawbyte u in
  let '(u, b0) := u_rawbyte u in
  (u, s16 (Z.lor (Z.shiftl (Z.land b1 255) 8) (Z.land b0 255))).
Definition get_uint (u : unmarshall) : unmarshall * Z :=
  let '(u, b3) := u_rawbyte u in
  let '(u, b2) := u_rawbyte u in
  let '(u, b1) := u_rawbyte u in
  let '(u, b0) := u_rawbyte u in
  (u, Z.lor (Z.lor (Z.lor (Z.shiftl (Z.land b3 255) 24) (Z.shiftl (Z.land b2 255) 16))
                   (Z.shiftl (Z.land b1 255) 8)) (Z.land b0 255)).
Definition get_int (u : unmarshall) : unmarshall * Z :=
  let '(u, x) := get_uint u in (u, s32 x).
Definition get_ull (u : unmarshall) : unmarshall * Z :=
  let '(u, h) := get_uint u in
  let '(u, l) := get_uint u in
  (u, Z.lor l (Z.shiftl h 32)).
Definition unpack (u : unmarshall) : unmarshall * Z := get_int u.

(** [rawbytes(ss, n)]: the bound is checked in [unsigned] arithmetic, which wraps;
    past the check, copying beyond the buffer is undefined. *)
Definition u_rawbytes (u : unmarshall) (ss : cstring) (n : Z) : outcome (unmarshall * cstring) :=
  if u32 (Z.of_nat (u_sz u)) <? u32 (Z.of_nat (u_ind u) + n)
  then Ret (Unmarshall (u_buf u) (u_sz u) (u_ind u) false, ss)
  else if Z.of_nat (u_ind u) + n <=? Z.of_nat (length (u_buf u))
       then Ret (Unmarshall (u_buf u) (u_sz u) (u_ind u + Z.to_nat n) (u_ok u),
                 take (Z.to_nat n) (drop (u_ind u) (u_buf u)))
       else Fault Undefined.

Definition get_string (u : unmarshall) (s : cstring) : outcome (unmarshall * cstring) :=
  let '(u, sz) := get_uint u in
  if u_ok u then u_rawbytes u s sz else Ret (u, s).

Definition u_seek (u : unmarshall) (i : nat) : unmarshall :=
  Unmarshall (u_buf u) (u_sz u) i (u_ok u).

Definition unpack_req_header (u : unmarshall) : unmarshall * req_header :=
  let u := u_seek u sizeof_rpc_sz_t in
  let '(u, xid) := unpack u in
  let '(u, proc) := unpack u in
  let '(u, clt_nonce) := unpack u in
  let '(u, srv_nonce) := unpack u in
  let '(u, xid_rep) := unpack u in
  (u_seek u RPC_HEADER_SZ, ReqHeader xid proc (u32 clt_nonce) (u32 srv_nonce) xid_rep).

Definition unpack_reply_header (u : unmarshall) : unmarshall * reply_header :=
  let u := u_seek u sizeof_rpc_sz_t in
  let '(u, xid) := unpack u in
  let '(u, ret) := unpack u in
  (u_seek u RPC_HEADER_SZ, ReplyHeader xid ret).

(** * Well-formed buffers *)

(** The write position stays inside the allocated block, past the header. *)
Definition m_wf (m : marshall) : Prop :=
  length (m_buf m) = m_capa m /\ (RPC_HEADER_SZ <= m_ind m <= m_capa m)%nat.

(** A readable message: all of it is in memory and its size is an [int]. *)
Definition u_wf (u : unmarshall) : Prop :=
  length (u_buf u) = u_sz u /\ (u_ind u <= u_sz u)%nat /\
  Z.of_nat (u_sz u) < 2 ^ 31 /\ u_ok u = true.

Definition u_left (u : unmarshall) : list ascii := drop (u_ind u) (u_buf u).
Definition u_adv (u : unmarshall) (n : nat) : unmarshall :=
  Unmarshall (u_buf u) (u_sz u) (u_ind u + n) (u_ok u).

(** [m'] is [m] with the bytes [bs] appended. *)
Definition appends (m m' : marshall) (bs : list ascii) : Prop :=
  m_wf m' /\ get_content m' = get_content m ++ bs.

Section output_facts.
  Context `{Memory}.

Lemma length_realloc b n : length (realloc b n) = n.
Proof. unfold realloc. rewrite length_app, length_take, length_replicate. lia. Qed.

Lemma marshall_new_wf : m_wf marshall_new /\ get_content marshall_new = [].
Proof.
  split; [|done]. split; [apply length_realloc|].
  unfold marshall_new, RPC_HEADER_SZ, DEFAULT_RPC_SZ; simpl; lia.
Qed.

Lemma take_realloc b n k : (k <= length b)%nat -> (length b <= n)%nat ->
  take k (realloc b n) = take k b.
Proof.
  intros. unfold realloc. rewrite (take_ge b n) by lia. by rewrite take_app_le by lia.
Qed.

Lemma length_blit b i p : (i + length p <= length b)%nat -> length (blit b i p) = length b.
Proof. intros. unfold blit. rewrite !length_app, length_take, length_drop. lia. Qed.

Lemma take_blit b i p : (i + length p <= length b)%nat ->
  take (i + length p) (blit b i p) = take i b ++ p.
Proof.
  intros. unfold blit. rewrite app_assoc.
  rewrite take_app_length'; [done|]. rewrite length_app, length_take. lia.
Qed.

Lemma content_blit b capa i p : (RPC_HEADER_SZ <= i)%nat -> (i + length p <= length b)%nat ->
  get_content (Marshall (blit b i p) capa (i + length p))
  = get_content (Marshall b capa i) ++ p.
Proof.
  intros. unfold get_content; simpl. rewrite take_blit by done.
  rewrite drop_app_le; [done|]. rewrite length_take. lia.
Qed.

(** Both raw writes grow the block first, and then stay inside it. *)
Lemma m_rawbyte_appends m x : m_wf m -> appends m (m_rawbyte m x) [char_of_Z x].
Proof.
  intros [Hl Hi]. unfold m_rawbyte.
  set (m1 := if Nat.leb _ _ then _ else m).
  assert (m_ind m1 = m_ind m /\ length (m_buf m1) = m_capa m1 /\ (m_ind m1 < m_capa m1)%nat
          /\ take (m_ind m) (m_buf m1) = take (m_ind m) (m_buf m)) as (E1 & E2 & E3 & E4).
  { subst m1. destruct (Nat.leb_spec (m_capa m) (m_ind m)); simpl.
    - rewrite length_realloc. repeat split; [unfold RPC_HEADER_SZ in Hi; simpl in Hi; lia|].
      apply take_realloc; lia.
    - repeat split; lia. }
  rewrite insert_take_drop by lia.
  change (take (m_ind m1) (m_buf m1) ++ char_of_Z x :: drop (S (m_ind m1)) (m_buf m1))
    with (take (m_ind m1) (m_buf m1) ++ [char_of_Z x] ++ drop (S (m_ind m1)) (m_buf m1)).
  replace (S (m_ind m1)) with (m_ind m1 + length [char_of_Z x])%nat by (simpl; lia).
  fold (blit (m_buf m1) (m_ind m1) [char_of_Z x]).
  split.
  - split; cbn [m_buf m_ind m_capa]; [rewrite length_blit|]; cbn [length]; lia.
  - rewrite content_blit by (cbn [length]; lia). unfold get_content; simpl. by rewrite E1, E4.
Qed.

Lemma m_rawbytes_appends m p : m_wf m -> appends m (m_rawbytes m p) p.
Proof.
  intros [Hl Hi]. unfold m_rawbytes.
  set (m1 := if Nat.ltb _ _ then _ else m).
  assert (m_ind m1 = m_ind m /\ length (m_buf m1) = m_capa m1
          /\ (m_ind m1 + length p <= m_capa m1)%nat
          /\ take (m_ind m) (m_buf m1) = take (m_ind m) (m_buf m)) as (E1 & E2 & E3 & E4).
  { subst m1. destruct (Nat.ltb_spec (m_capa m) (m_ind m + length p)); simpl; [|repeat split; lia].
    rewrite length_realloc. destruct (Nat.ltb_spec (length p) (m_capa m));
      (repeat split; [lia|apply take_realloc; lia]). }
  split.
  - split; cbn [m_buf m_ind m_capa]; [rewrite length_blit|]; lia.
  - rewrite content_blit by lia. unfold get_content; simpl. by rewrite E1, E4.
Qed.

Lemma appends_trans m1 m2 m3 a b :
  appends m1 m2 a -> appends m2 m3 b -> appends m1 m3 (a ++ b).
Proof. intros [_ E1] [W E2]. split; [done|]. by rewrite E2, E1, app_assoc. Qed.
Lemma appends_refl m : m_wf m -> appends m m [].
Proof. split; [done|]. by rewrite app_nil_r. Qed.
Lemma appends_byte m m1 a x :
  appends m m1 a -> appends m (m_rawbyte m1 x) (a ++ [char_of_Z x]).
Proof. intros A. eapply appends_trans; [exact A|]. apply m_rawbyte_appends, A. Qed.
Lemma appends_bytes m m1 a p : appends m m1 a -> appends m (m_rawbytes m1 p) (a ++ p).
Proof. intros A. eapply appends_trans; [exact A|]. apply m_rawbytes_appends, A. Qed.
End output_facts.

(** * What is written on the wire *)

Definition enc_uint (x : Z) : list ascii :=
  [char_of_Z (Z.land (Z.shiftr x 24) 255); char_of_Z (Z.land (Z.shiftr x 16) 255);
   char_of_Z (Z.land (Z.shiftr x 8) 255); char_of_Z (Z.land x 255)].
Definition enc_ushort (x : Z) : list ascii :=
  [char_of_Z (Z.land (Z.shiftr x 8) 255); char_of_Z (Z.land x 255)].

(** Turn the bit operations of the wire format into arithmetic. *)
Lemma land_255 x : Z.land x 255 = x mod 256.
Proof. change 255 with (Z.ones 8). apply Z.land_ones; lia. Qed.
Lemma land_shiftl_low a b n : 0 <= n -> 0 <= b < 2 ^ n -> Z.land (a * 2 ^ n) b = 0.
Proof.
  intros Hn Hb. destruct (decide (b = 0)) as [->|]; [apply Z.land_0_r|].
  apply Z.bits_inj'. intros k Hk. rewrite Z.land_spec, Z.bits_0.
  destruct (Z.lt_ge_cases k n); [by rewrite Z.mul_pow2_bits_low by lia|].
  rewrite (Z.bits_above_log2 b k), andb_false_r; [done|lia|].
  apply Z.log2_lt_pow2; [lia|]. eapply Z.lt_le_trans; [apply Hb|].
  apply Z.pow_le_mono_r; lia.
Qed.
Lemma lor_shiftl_add a b n : 0 <= n -> 0 <= b < 2 ^ n -> Z.lor (Z.shiftl a n) b = a * 2 ^ n + b.
Proof.
  intros Hn Hb. rewrite Z.shiftl_mul_pow2 by lia.
  rewrite <- Z.lxor_lor, <- Z.add_nocarry_lxor; by auto using land_shiftl_low.
Qed.

Lemma char_land_255 x : Z_of_char (char_of_Z (Z.land x 255)) = x mod 256.
Proof. rewrite Z_of_char_of_Z, land_255. unfold u8. apply Z.mod_mod. lia. Qed.

(** Sign extension and the mask of the source give the byte back. *)
Lemma sign_extend_land c : Z.land (u32 (s8 (Z_of_char c))) 255 = Z_of_char c.
Proof. rewrite land_255. pose proof (Z_of_char_range c). width_lia. Qed.

(** The value of four bytes, most significant first, is the one they encode. *)
Lemma uint_value x :
  is_u32 x ->
  Z.lor (Z.lor (Z.lor (Z.shiftl (Z.shiftr x 24 mod 256) 24)
                      (Z.shiftl (Z.shiftr x 16 mod 256) 16))
               (Z.shiftl (Z.shiftr x 8 mod 256) 8)) (x mod 256) = x.
Proof.
  intros Hx. rewrite !Z.shiftr_div_pow2, <- !Z.lor_assoc by lia.
  assert (forall y, 0 <= y mod 256 < 256) as B by (intros; apply Z.mod_pos_bound; lia).
  pose proof (B (x / 2 ^ 16)). pose proof (B (x / 2 ^ 8)). pose proof (B x).
  rewrite (lor_shiftl_add _ (x mod 256)) by lia.
  rewrite (lor_shiftl_add (x / 2 ^ 16 mod 256)) by lia.
  rewrite lor_shiftl_add by lia. width_lia.
Qed.

Lemma ushort_value x :
  is_u16 x ->
  Z.lor (Z.shiftl (Z.shiftr x 8 mod 256) 8) (x mod 256) = x.
Proof.
  intros Hx. rewrite Z.shiftr_div_pow2 by lia.
  pose proof (Z.mod_pos_bound x 256). rewrite lor_shiftl_add by lia. width_lia.
Qed.

(** * Reading bytes that are there *)

Lemma u_rawbyte_cons u c r :
  u_wf u -> u_left u = c :: r ->
  u_rawbyte u = (u_adv u 1, u32 (s8 (Z_of_char c))) /\ u_wf (u_adv u 1)
  /\ u_left (u_adv u 1) = r.
Proof.
  unfold u_left. intros (Hl & Hi & Hs & Hok) E.
  assert (u_buf u !! u_ind u = Some c) as Hc.
  { rewrite <- (Nat.add_0_r (u_ind u)), <- lookup_drop, E. done. }
  pose proof (lookup_lt_Some _ _ _ Hc) as Hlt.
  unfold u_rawbyte. destruct (Nat.leb_spec (u_sz u) (u_ind u)); [lia|].
  rewrite (nth_lookup_Some _ _ _ _ Hc).
  split; [unfold u_adv; by rewrite Nat.add_1_r|]. split.
  - repeat split; simpl; try done; lia.
  - unfold u_adv; simpl. rewrite <- drop_drop, E. done.
Qed.

Lemma u_adv_adv u a b : u_adv (u_adv u a) b = u_adv u (a + b).
Proof. unfold u_adv; simpl. f_equal. lia. Qed.

(** Read the next byte of the message in the goal. *)
Ltac read_byte :=
  match goal with
  | W : u_wf ?u, L : u_left ?u = _ :: _ |- _ =>
      let E := fresh "E" in let W' := fresh "W" in let L' := fresh "L" in
      destruct (u_rawbyte_cons u _ _ W L) as (E & W' & L');
      rewrite E; clear E W L; rewrite ?u_adv_adv in *
  end.

Lemma get_uint_enc u x r :
  u_wf u -> is_u32 x -> u_left u = enc_uint x ++ r ->
  get_uint u = (u_adv u 4, x) /\ u_wf (u_adv u 4) /\ u_left (u_adv u 4) = r.
Proof.
  intros W Hx L. unfold get_uint. unfold enc_uint in L. simpl in L.
  do 4 read_byte. split; [|by auto].
  rewrite !sign_extend_land, !char_land_255, uint_value by done. done.
Qed.

(** * The marshalling interface

    [put] is [operator<<] and [get] is [operator>>] of a type; [get] also takes
    the old value of the variable it assigns, which some extractions leave
    alone.  [put_appends] and [get_enc] are the laws its users rely on. *)

Class Marshal (A : Type) := {
  put : forall `{Memory}, marshall -> A -> marshall;
  get : unmarshall -> A -> outcome (unmarshall * A);
  enc : A -> list ascii;
  sendable : A -> Prop;
  put_appends : forall `{Memory} m x, m_wf m -> appends m (put m x) (enc x);
  get_enc : forall u x old r,
    u_wf u -> sendable x -> u_left u = enc x ++ r ->
    get u old = Ret (u_adv u (length (enc x)), x)
    /\ u_wf (u_adv u (length (enc x))) /\ u_left (u_adv u (length (enc x))) = r }.

(** Four, two or one raw bytes and raw blocks, one after the other. *)
Lemma appends_uint `{Memory} m m1 a x :
  appends m m1 a -> appends m (put_uint m1 x) (a ++ enc_uint x).
Proof.
  intros A. unfold put_uint, enc_uint. eapply appends_trans; [exact A|].
  destruct A as [W%appends_refl _].
  exact (appends_byte _ _ _ _ (appends_byte _ _ _ _
          (appends_byte _ _ _ _ (appends_byte _ _ _ _ W)))).
Qed.

Lemma appends_ushort `{Memory} m m1 a x :
  appends m m1 a -> appends m (put_ushort m1 x) (a ++ enc_ushort x).
Proof.
  intros A. unfold put_ushort, enc_ushort. eapply appends_trans; [exact A|].
  destruct A as [W%appends_refl _].
  exact (appends_byte _ _ _ _ (appends_byte _ _ _ _ W)).
Qed.

Section base_types.

#[global, program] Instance marshal_bool : Marshal bool := {|
  put _ := put_bool;
  get u _ := Ret (get_bool u);
  enc x := [char_of_Z (Z.b2z x)];
  sendable _ := True |}.
Next Obligation. intros. by apply m_rawbyte_appends. Qed.
Next Obligation.
  intros u x old r W _ L. unfold get_bool. simpl in L. read_byte.
  split; [|by auto]. by destruct x.
Qed.

(** The integer types share [Z], so their instances are named and passed by hand. *)
#[program] Definition marshal_uchar : Marshal Z := {|
  put _ := put_uchar;
  get u _ := Ret (get_uchar u);
  enc x := [char_of_Z x];
  sendable := is_u8 |}.
Next Obligation. intros. by apply m_rawbyte_appends. Qed.
Next Obligation.
  intros u x old r W Hx L. unfold get_uchar. simpl in L. read_byte.
  split; [|by auto]. rewrite Z_of_char_of_Z, (u8_id x) by done. do 2 f_equal. width_lia.
Qed.

#[program] Definition marshal_char : Marshal Z := {|
  put _ := put_char;
  get u _ := Ret (get_char u);
  enc x := [char_of_Z (u8 x)];
  sendable := is_s8 |}.
Next Obligation. intros. by apply m_rawbyte_appends. Qed.
Next Obligation.
  intros u x old r W Hx L. unfold get_char. simpl in L. read_byte.
  split; [|by auto]. rewrite Z_of_char_of_Z. do 2 f_equal. width_lia.
Qed.

#[program] Definition marshal_ushort : Marshal Z := {|
  put _ := put_ushort;
  get u _ := Ret (get_ushort u);
  enc := enc_ushort;
  sendable := is_u16 |}.
Next Obligation. intros. by apply (appends_ushort m m []), appends_refl. Qed.
Next Obligation.
  intros u x old r W Hx L. unfold get_ushort. simpl in L. do 2 read_byte.
  split; [|by auto]. by rewrite !sign_extend_land, !char_land_255, ushort_value.
Qed.

#[program] Definition marshal_short : Marshal Z := {|
  put _ := put_short;
  get u _ := Ret (get_short u);
  enc x := enc_ushort (u16 x);
  sendable := is_s16 |}.
Next Obligation. intros. by apply (appends_ushort m m []), appends_refl. Qed.
Next Obligation.
  intros u x old r W Hx L. unfold get_short. simpl in L. do 2 read_byte.
  split; [|by auto].
  rewrite !sign_extend_land, !char_land_255, ushort_value, s16_u16, s16_id; auto with width.
Qed.

#[program] Definition marshal_uint : Marshal Z := {|
  put _ := put_uint;
  get u _ := Ret (get_uint u);
  enc := enc_uint;
  sendable := is_u32 |}.
Next Obligation. intros. by apply (appends_uint m m []), appends_refl. Qed.
Next Obligation.
  intros u x old r W Hx L. destruct (get_uint_enc u x r W Hx L) as (-> & ? & ?). done.
Qed.

#[program] Definition marshal_int : Marshal Z := {|
  put _ := put_int;
  get u _ := Ret (get_int u);
  enc x := enc_uint (u32 x);
  sendable := is_s32 |}.
Next Obligation. intros. by apply (appends_uint m m []), appends_refl. Qed.
Next Obligation.
  intros u x old r W Hx L. unfold get_int.
  destruct (get_uint_enc u (u32 x) r W (u32_range x) L) as (-> & ? & ?).
  by rewrite s32_u32, s32_id.
Qed.

#[program] Definition marshal_ull : Marshal Z := {|
  put _ := put_ull;
  get u _ := Ret (get_ull u);
  enc x := enc_uint (u32 (Z.shiftr x 32)) ++ enc_uint (u32 x);
  sendable := is_u64 |}.
Next Obligation.
  intros. apply appends_uint. by apply (appends_uint m m []), appends_refl.
Qed.
Next Obligation.
  intros u x old r W Hx L. cbv beta in *. unfold get_ull. rewrite <- app_assoc in L.
  destruct (get_uint_enc _ _ _ W (u32_range _) L) as (-> & W1 & L1).
  destruct (get_uint_enc _ _ _ W1 (u32_range _) L1) as (-> & W2 & L2).
  rewrite u_adv_adv in *. split; [|by auto]. do 2 f_equal.
  rewrite Z.lor_comm, lor_shiftl_add by (lia || apply u32_range).
  rewrite Z.shiftr_div_pow2 by lia. width_lia.
Qed.

Lemma u_rawbytes_enc u s old r :
  u_wf u -> u_left u = s ++ r ->
  u_rawbytes u old (Z.of_nat (length s)) = Ret (u_adv u (length s), s)
  /\ u_wf (u_adv u (length s)) /\ u_left (u_adv u (length s)) = r.
Proof.
  unfold u_left. intros (Hl & Hi & Hs & Hok) L.
  assert (length (u_buf u) = u_ind u + length s + length r)%nat as Hlen.
  { pose proof (f_equal length L) as E. rewrite length_drop, length_app in E. lia. }
  unfold u_rawbytes. rewrite !u32_id by width_lia.
  destruct (Z.ltb_spec (Z.of_nat (u_sz u)) (Z.of_nat (u_ind u) + Z.of_nat (length s)));
    [lia|].
  destruct (Z.leb_spec (Z.of_nat (u_ind u) + Z.of_nat (length s))
              (Z.of_nat (length (u_buf u)))); [|lia].
  rewrite Nat2Z.id, L, take_app_length. split; [done|]. split.
  - repeat split; simpl; try done; lia.
  - simpl. rewrite <- drop_drop, L. apply drop_app_length.
Qed.

#[global, program] Instance marshal_string : Marshal cstring := {|
  put _ := put_string;
  get := get_string;
  enc s := enc_uint (u32 (Z.of_nat (length s))) ++ s;
  sendable _ := True |}.
Next Obligation.
  intros. apply appends_bytes. by apply (appends_uint m m []), appends_refl.
Qed.
Next Obligation.
  intros u s old r W _ L. cbv beta in *. rewrite <- app_assoc in L. unfold get_string.
  assert (is_u32 (Z.of_nat (length s))) as Hs.
  { unfold u_left in L. apply (f_equal length) in L.
    rewrite length_drop, !length_app in L. destruct W as (? & ? & ? & ?). width_lia. }
  rewrite u32_id in L by done.
  destruct (get_uint_enc _ _ _ W Hs L) as (-> & W1 & L1).
  destruct (u_rawbytes_enc _ _ old _ W1 L1) as (E2 & W2 & L2).
  rewrite u_adv_adv in *. destruct W as (_ & _ & _ & Hok).
  unfold u_adv at 1; simpl u_ok. rewrite Hok, E2. split; [|by auto]. done.
Qed.

End base_types.

Lemma appends_put `{Marshal A, Memory} m m1 a (x : A) :
  appends m m1 a -> appends m (put m1 x) (a ++ enc x).
Proof. intros Ha. eapply appends_trans; [exact Ha|]. apply put_appends, Ha. Qed.
Lemma appends_string `{Memory} m m1 a s :
  appends m m1 a -> appends m (put_string m1 s) (a ++ enc s).
Proof. exact (appends_put (A:=cstring) m m1 a s). Qed.
Lemma appends_bool `{Memory} m m1 a b :
  appends m m1 a -> appends m (put_bool m1 b) (a ++ enc b).
Proof. exact (appends_put (A:=bool) m m1 a b). Qed.

(** * Vectors *)

Section vectors.
  Context `{MA : Marshal A}.

Definition put_vector `{Memory} (m : marshall) (v : list A) : marshall :=
  fold_left put v (put_uint m (u32 (Z.of_nat (length v)))).

(** [n] times: extract into a fresh [z] (whatever it starts as) and push it. *)
Fixpoint get_elems (z : A) (n : nat) (u : unmarshall) (v : list A)
  : outcome (unmarshall * list A) :=
  match n with
  | O => Ret (u, v)
  | S n' => '(u, x) ← get u z; get_elems z n' u (v ++ [x])
  end.

Definition get_vector (z : A) (u : unmarshall) (_ : list A) : outcome (unmarshall * list A) :=
  let '(u, n) := get_uint u in get_elems z (Z.to_nat n) u [].

Definition enc_elems (v : list A) : list ascii := concat (map enc v).

Lemma put_elems_appends `{Memory} m m1 a v :
  appends m m1 a -> appends m (fold_left put v m1) (a ++ enc_elems v).
Proof.
  revert m1 a. induction v as [|x v IH]; intros m1 a Ha; simpl.
  - unfold enc_elems; simpl. by rewrite app_nil_r.
  - unfold enc_elems; simpl. rewrite app_assoc. apply IH.
    eapply appends_trans; [exact Ha|]. apply put_appends, Ha.
Qed.

Lemma get_elems_enc z u v acc r :
  u_wf u -> Forall sendable v -> u_left u = enc_elems v ++ r ->
  get_elems z (length v) u acc = Ret (u_adv u (length (enc_elems v)), acc ++ v)
  /\ u_wf (u_adv u (length (enc_elems v))) /\ u_left (u_adv u (length (enc_elems v))) = r.
Proof.
  revert u acc. induction v as [|x v IH]; intros u acc W Hv L; simpl.
  - rewrite app_nil_r. destruct u. unfold u_adv; simpl in *. by rewrite Nat.add_0_r.
  - apply Forall_cons in Hv as [Hx Hv]. unfold enc_elems in *; simpl in *.
    rewrite <- app_assoc in L. destruct (get_enc u x z _ W Hx L) as (-> & W1 & L1). simpl.
    destruct (IH _ (acc ++ [x]) W1 Hv L1) as (-> & W2 & L2).
    rewrite u_adv_adv in *. rewrite length_app, <- app_assoc. done.
Qed.

#[program] Definition marshal_vector (z : A) : Marshal (list A) := {|
  put _ := put_vector;
  get := get_vector z;
  enc v := enc_uint (u32 (Z.of_nat (length v))) ++ enc_elems v;
  sendable v := Forall sendable v /\ is_u32 (Z.of_nat (length v)) |}.
Next Obligation.
  intros. apply put_elems_appends. by apply (appends_uint m m []), appends_refl.
Qed.
Next Obligation.
  intros z u v old r W [Hv Hn] L. cbv beta in *. rewrite <- app_assoc in L. unfold get_vector.
  rewrite u32_id in L by done.
  destruct (get_uint_enc _ _ _ W Hn L) as (-> & W1 & L1).
  rewrite Nat2Z.id. destruct (get_elems_enc z _ v [] _ W1 Hv L1) as (-> & W2 & L2).
  rewrite u_adv_adv in *. done.
Qed.
End vectors.

(** * Headers *)

Definition wf_req_header (h : req_header) : Prop :=
  is_s32 (rq_xid h) /\ is_s32 (rq_proc h) /\ is_u32 (rq_clt_nonce h) /\
  is_u32 (rq_srv_nonce h) /\ is_s32 (rq_xid_rep h).
Definition wf_reply_header (h : reply_header) : Prop :=
  is_s32 (rp_xid h) /\ is_s32 (rp_ret h).

Lemma enc_uint_u32 x : enc_uint (u32 x) = enc_uint x.
Proof.
  unfold enc_uint. rewrite !land_255, !Z.shiftr_div_pow2 by lia.
  assert ((u32 x / 2 ^ 24) mod 256 = (x / 2 ^ 24) mod 256) as -> by width_lia.
  assert ((u32 x / 2 ^ 16) mod 256 = (x / 2 ^ 16) mod 256) as -> by width_lia.
  assert ((u32 x / 2 ^ 8) mod 256 = (x / 2 ^ 8) mod 256) as -> by width_lia.
  assert (u32 x mod 256 = x mod 256) as -> by width_lia. done.
Qed.

Section headers.
  Context `{Memory}.

(** A write inside the block replaces the byte at the write position. *)
Lemma m_rawbyte_at p c q capa x :
  length (p ++ c :: q) = capa ->
  m_rawbyte (Marshall (p ++ c :: q) capa (length p)) x
  = Marshall ((p ++ [char_of_Z x]) ++ q) capa (length (p ++ [char_of_Z x])).
Proof.
  intros <-. unfold m_rawbyte; simpl.
  destruct (Nat.leb_spec (length (p ++ c :: q)) (length p)) as [Hle|_].
  { rewrite length_app in Hle; simpl in Hle; lia. }
  simpl. rewrite insert_app_r_alt, Nat.sub_diag by lia. simpl.
  by rewrite <- app_assoc, (length_app p [_]), Nat.add_1_r.
Qed.

Lemma pack_at p b q capa x :
  length b = 4%nat -> length (p ++ b ++ q) = capa ->
  pack (Marshall (p ++ b ++ q) capa (length p)) x
  = Marshall ((p ++ enc_uint x) ++ q) capa (length (p ++ enc_uint x)).
Proof.
  intros Hb Hl. destruct b as [|b3 [|b2 [|b1 [|b0 [|]]]]]; try done.
  unfold pack. simpl app. rewrite m_rawbyte_at by done.
  do 3 (rewrite m_rawbyte_at by (rewrite <- Hl, !length_app; simpl; lia)).
  by rewrite <- !app_assoc.
Qed.

(** Any block of at least a header splits into the size word, five words and
    what follows. *)
Lemma header_split (b : list ascii) :
  (RPC_HEADER_SZ <= length b)%nat ->
  exists z a1 a2 a3 a4 a5, b = z ++ a1 ++ a2 ++ a3 ++ a4 ++ a5 ++ drop RPC_HEADER_SZ b /\
    length z = 4%nat /\ length a1 = 4%nat /\ length a2 = 4%nat /\ length a3 = 4%nat /\
    length a4 = 4%nat /\ length a5 = 4%nat.
Proof.
  intros Hl. change RPC_HEADER_SZ with (4 + (4 + (4 + (4 + (4 + 4)))))%nat in *.
  exists (take 4 b), (take 4 (drop 4 b)), (take 4 (drop 4 (drop 4 b))),
    (take 4 (drop 4 (drop 4 (drop 4 b)))), (take 4 (drop 4 (drop 4 (drop 4 (drop 4 b))))),
    (take 4 (drop 4 (drop 4 (drop 4 (drop 4 (drop 4 b)))))).
  rewrite <- !drop_drop, !take_drop. split; [done|].
  repeat split; rewrite length_take, ?length_drop; lia.
Qed.

Lemma length_enc_uint x : length (enc_uint x) = 4%nat.
Proof. done. Qed.

(** Packing the request header rewrites the five words after the size word. *)
Lemma pack_req_header_buf m h :
  m_wf m ->
  exists z, length z = 4%nat /\
    m_bytes (pack_req_header m h)
    = z ++ enc_uint (rq_xid h) ++ enc_uint (rq_proc h) ++ enc_uint (rq_clt_nonce h)
        ++ enc_uint (rq_srv_nonce h) ++ enc_uint (rq_xid_rep h) ++ get_content m.
Proof.
  intros [Hl Hi]. assert (RPC_HEADER_SZ = 24)%nat as HH by done.
  destruct (header_split (m_buf m)) as (z & a1 & a2 & a3 & a4 & a5 & E & Hz & L1 & L2 & L3 & L4 & L5);
    [lia|].
  exists z. split; [done|]. unfold pack_req_header, m_seek, sizeof_rpc_sz_t.
  assert (length (z ++ a1 ++ a2 ++ a3 ++ a4 ++ a5 ++ drop RPC_HEADER_SZ (m_buf m)) = m_capa m)
    as Hc by (rewrite <- E; done).
  rewrite !length_app in Hc.
  replace (Marshall (m_buf m) (m_capa m) 4) with
    (Marshall (z ++ a1 ++ a2 ++ a3 ++ a4 ++ a5 ++ drop RPC_HEADER_SZ (m_buf m)) (m_capa m) (length z))
    by (rewrite <- E, Hz; done).
  do 5 (rewrite pack_at; [| done | rewrite !length_app, ?length_enc_uint; lia]).
  rewrite <- (enc_uint_u32 (s32 (rq_clt_nonce h))), <- (enc_uint_u32 (s32 (rq_srv_nonce h))).
  replace (u32 (s32 (rq_clt_nonce h))) with (u32 (rq_clt_nonce h)) by width_lia.
  replace (u32 (s32 (rq_srv_nonce h))) with (u32 (rq_srv_nonce h)) by width_lia.
  rewrite !enc_uint_u32, <- !app_assoc. unfold m_bytes, get_content. cbn [m_ind m_buf].
  rewrite skipn_firstn_comm.
  rewrite take_app_ge by lia. rewrite Hz. f_equal.
  do 5 (rewrite take_app_ge by (rewrite ?length_enc_uint; lia); f_equal).
  f_equal. rewrite !length_enc_uint. lia.
Qed.

Lemma pack_reply_header_buf m h :
  m_wf m ->
  exists z f, length z = 4%nat /\ length f = 12%nat /\
    m_bytes (pack_reply_header m h)
    = z ++ enc_uint (rp_xid h) ++ enc_uint (rp_ret h) ++ f ++ get_content m.
Proof.
  intros [Hl Hi]. assert (RPC_HEADER_SZ = 24)%nat as HH by done.
  destruct (header_split (m_buf m)) as (z & a1 & a2 & a3 & a4 & a5 & E & Hz & L1 & L2 & L3 & L4 & L5);
    [lia|].
  exists z, (a3 ++ a4 ++ a5). split; [done|]. split; [rewrite !length_app; lia|].
  unfold pack_reply_header, m_seek, sizeof_rpc_sz_t.
  assert (length (z ++ a1 ++ a2 ++ a3 ++ a4 ++ a5 ++ drop RPC_HEADER_SZ (m_buf m)) = m_capa m)
    as Hc by (rewrite <- E; done).
  rewrite !length_app in Hc.
  replace (Marshall (m_buf m) (m_capa m) 4) with
    (Marshall (z ++ a1 ++ a2 ++ a3 ++ a4 ++ a5 ++ drop RPC_HEADER_SZ (m_buf m)) (m_capa m) (length z))
    by (rewrite <- E, Hz; done).
  do 2 (rewrite pack_at; [| done | rewrite !length_app, ?length_enc_uint; lia]).
  rewrite <- !app_assoc. unfold m_bytes, get_content. cbn [m_ind m_buf].
  rewrite skipn_firstn_comm.
  rewrite take_app_ge by lia. rewrite Hz. f_equal.
  do 2 (rewrite take_app_ge by (rewrite ?length_enc_uint; lia); f_equal).
  do 3 (rewrite take_app_ge by (rewrite ?length_enc_uint; lia); f_equal).
  f_equal. rewrite !length_enc_uint. lia.
Qed.

End headers.

Lemma unpack_enc u x r :
  u_wf u -> u_left u = enc_uint x ++ r ->
  unpack u = (u_adv u 4, s32 x) /\ u_wf (u_adv u 4) /\ u_left (u_adv u 4) = r.
Proof.
  intros W L. rewrite <- enc_uint_u32 in L.
  destruct (get_uint_enc u (u32 x) r W (u32_range x) L) as (E & W' & L').
  unfold unpack, get_int. by rewrite E, s32_u32.
Qed.

(** A received message, read from after the size word. *)
Lemma seek_wf z r :
  length z = 4%nat -> Z.of_nat (length (z ++ r)) < 2 ^ 31 ->
  u_wf (u_seek (unmarshall_of_buf (z ++ r)) sizeof_rpc_sz_t)
  /\ u_left (u_seek (unmarshall_of_buf (z ++ r)) sizeof_rpc_sz_t) = r.
Proof.
  intros Hz Hl. unfold u_wf, u_left, u_seek, sizeof_rpc_sz_t, unmarshall_of_buf; simpl.
  rewrite <- Hz, drop_app_length. rewrite length_app in *. repeat split; lia.
Qed.

Lemma length_pack_req_header `{Memory} m h :
  m_wf m -> length (m_bytes (pack_req_header m h)) = m_ind m.
Proof.
  intros W. destruct (pack_req_header_buf m h W) as (z & Hz & ->).
  rewrite !length_app, Hz. unfold get_content. rewrite length_drop, length_take.
  destruct W as [Hl Hi]. rewrite !length_enc_uint. assert (RPC_HEADER_SZ = 24)%nat by done. lia.
Qed.

Lemma req_header_roundtrip `{Memory} m h :
  m_wf m -> wf_req_header h -> Z.of_nat (m_ind m) < 2 ^ 31 ->
  exists u, unpack_req_header (unmarshall_of_buf (m_bytes (pack_req_header m h))) = (u, h)
    /\ u_wf u /\ u_left u = get_content m.
Proof.
  intros W (H1 & H2 & H3 & H4 & H5) Hs.
  pose proof (length_pack_req_header m h W) as Hlen.
  destruct (pack_req_header_buf m h W) as (z & Hz & E). rewrite E in Hlen |- *. clear E.
  destruct (seek_wf z _ Hz ltac:(rewrite Hlen; exact Hs)) as [W0 L0].
  unfold unpack_req_header.
  destruct (unpack_enc _ _ _ W0 L0) as (-> & W1 & L1).
  destruct (unpack_enc _ _ _ W1 L1) as (-> & W2 & L2).
  destruct (unpack_enc _ _ _ W2 L2) as (-> & W3 & L3).
  destruct (unpack_enc _ _ _ W3 L3) as (-> & W4 & L4).
  destruct (unpack_enc _ _ _ W4 L4) as (-> & W5 & L5).
  eexists. split; [|split].
  - f_equal. rewrite !(s32_id _ H1), !(s32_id _ H2), !(s32_id _ H5).
    destruct h; simpl in *. f_equal; width_lia.
  - exact W5.
  - exact L5.
Qed.

Lemma reply_header_roundtrip `{Memory} m h :
  m_wf m -> wf_reply_header h -> Z.of_nat (m_ind m) < 2 ^ 31 ->
  exists u, unpack_reply_header (unmarshall_of_buf (m_bytes (pack_reply_header m h))) = (u, h)
    /\ u_wf u /\ u_left u = get_content m.
Proof.
  intros W (H1 & H2) Hs.
  destruct (pack_reply_header_buf m h W) as (z & f & Hz & Hf & E).
  assert (length (m_bytes (pack_reply_header m h)) = m_ind m) as Hlen.
  { rewrite E, !length_app, Hz, Hf. unfold get_content. rewrite length_drop, length_take.
    destruct W as [Hl Hi]. rewrite !length_enc_uint.
    assert (RPC_HEADER_SZ = 24)%nat by done. lia. }
  rewrite E in Hlen |- *. clear E.
  destruct (seek_wf z _ Hz ltac:(rewrite Hlen; exact Hs)) as [W0 L0].
  unfold unpack_reply_header.
  destruct (unpack_enc _ _ _ W0 L0) as (-> & W1 & L1).
  destruct (unpack_enc _ _ _ W1 L1) as (-> & W2 & L2).
  eexists. split; [|split].
  - f_equal. rewrite (s32_id _ H1), (s32_id _ H2). by destruct h.
  - destruct W2 as (Ha & Hb & Hc & Hd). repeat split; try done.
    cbn [u_seek u_ind u_sz u_adv u_buf u_ok unmarshall_of_buf].
    rewrite Hlen. destruct W as [_ Hi]. lia.
  - unfold u_left in *. cbn [u_seek u_ind u_sz u_adv u_buf u_ok unmarshall_of_buf] in *.
    change RPC_HEADER_SZ with (sizeof_rpc_sz_t + 4 + 4 + 12)%nat.
    rewrite <- drop_drop, L2, <- Hf. apply drop_app_length.
Qed.

(** * Extracting a string whose size word lies *)

Section bad_sizes.
  Variables (u : unmarshall) (n : Z) (r old : cstring).
  Hypothesis (W : u_wf u).
  Hypothesis (Hn : is_u32 n).
  Hypothesis (L : u_left u = enc_uint n ++ r).

Lemma bad_size_ind : (u_ind u + 4 + length r = u_sz u)%nat.
Proof.
  destruct W as (Hl & Hi & _ & _). unfold u_left in L.
  pose proof (f_equal length L) as E. rewrite length_drop, length_app, length_enc_uint in E. lia.
Qed.

(** A size word larger than the rest of the message is caught while the sum with
    the read position stays below [2^32] ... *)
Lemma get_string_too_long :
  Z.of_nat (length r) < n -> Z.of_nat (u_ind u) + 4 + n < 2 ^ 32 ->
  exists u', get_string u old = Ret (u', old) /\ u_ok u' = false.
Proof.
  intros Hr Hsum. pose proof bad_size_ind as Hi. unfold get_string.
  destruct (get_uint_enc u n r W Hn L) as (-> & W1 & L1).
  destruct W1 as (Hl & ? & ? & Hok). rewrite Hok. unfold u_rawbytes.
  cbn [u_adv u_sz u_ind u_buf] in *. rewrite !u32_id by width_lia.
  destruct (Z.ltb_spec (Z.of_nat (u_sz u)) (Z.of_nat (u_ind u + 4) + n)); [eauto|lia].
Qed.

(** ... and once the sum wraps it passes the check and the copy runs off the
    buffer. *)
Lemma get_string_wraps :
  2 ^ 32 <= Z.of_nat (u_ind u) + 4 + n ->
  get_string u old = Fault Undefined.
Proof.
  intros Hsum. pose proof bad_size_ind as Hi. unfold get_string.
  destruct (get_uint_enc u n r W Hn L) as (-> & W1 & L1).
  destruct W1 as (Hl & ? & ? & Hok). rewrite Hok. unfold u_rawbytes.
  cbn [u_adv u_sz u_ind u_buf] in *.
  destruct (Z.ltb_spec (u32 (Z.of_nat (u_sz u))) (u32 (Z.of_nat (u_ind u + 4) + n))); [width_lia|].
  destruct (Z.leb_spec (Z.of_nat (u_ind u + 4) + n) (Z.of_nat (length (u_buf u)))); [width_lia|].
  done.
Qed.
End bad_sizes.

(** * Whole messages *)

Section messages.
  Context `{Marshal A, Memory}.

(** The body of a message that carries [x] alone. *)
Lemma put_new (x : A) : m_wf (put marshall_new x) /\ get_content (put marshall_new x) = enc x.
Proof.
  destruct marshall_new_wf as [W E]. destruct (put_appends marshall_new x W) as [W' E'].
  by rewrite E' , E.
Qed.

(** Reading the rest of a message is [okdone]. *)
Lemma get_rest (x old : A) u :
  u_wf u -> sendable x -> u_left u = enc x ->
  exists u', get u old = Ret (u', x) /\ okdone u' = true.
Proof.
  intros W Hs L. rewrite <- (app_nil_r (enc x)) in L.
  destruct (get_enc u x old [] W Hs L) as (E & W' & L'). eexists. split; [exact E|].
  destruct W' as (Hl & Hi & _ & Hok). unfold okdone. rewrite Hok. apply Nat.eqb_eq.
  apply (f_equal length) in L'. unfold u_left in L'. rewrite length_drop in L'. simpl in *. lia.
Qed.

(** Requests on the wire: a request that a client marshals, argument and header,
    is received by the server as the same header and the same argument, with nothing
    left over. *)
Theorem request_roundtrip h (x old : A) :
  sendable x -> wf_req_header h -> Z.of_nat (m_ind (put marshall_new x)) < 2 ^ 31 ->
  exists u u', unpack_req_header (unmarshall_of_buf (m_bytes (pack_req_header (put marshall_new x) h)))
      = (u, h)
    /\ get u old = Ret (u', x) /\ okdone u' = true.
Proof.
  intros Hs Hh Hsz. destruct (put_new x) as [W E].
  destruct (req_header_roundtrip _ h W Hh Hsz) as (u & Eu & Wu & Lu). rewrite E in Lu.
  destruct (get_rest x old u Wu Hs Lu) as (u' & Eg & Hok). by exists u, u'.
Qed.

(** Replies on the wire: likewise for the status and the result of a reply. *)
Theorem reply_roundtrip h (x old : A) :
  sendable x -> wf_reply_header h -> Z.of_nat (m_ind (put marshall_new x)) < 2 ^ 31 ->
  exists u u', unpack_reply_header (unmarshall_of_buf (m_bytes (pack_reply_header (put marshall_new x) h)))
      = (u, h)
    /\ get u old = Ret (u', x) /\ okdone u' = true.
Proof.
  intros Hs Hh Hsz. destruct (put_new x) as [W E].
  destruct (reply_header_roundtrip _ h W Hh Hsz) as (u & Eu & Wu & Lu). rewrite E in Lu.
  destruct (get_rest x old u Wu Hs Lu) as (u' & Eg & Hok). by exists u, u'.
Qed.
End messages.

(** C38 (string sizes): extracting a string whose size word is larger than the rest of
    the message fails cleanly, unless the word is so large that the bounds check wraps
    around modulo [2^32]: then the copy runs off the end of the buffer. *)
Theorem string_size_check u n r old :
  u_wf u -> is_u32 n -> u_left u = enc_uint n ++ r -> Z.of_nat (length r) < n ->
  (Z.of_nat (u_ind u) + 4 + n < 2 ^ 32 ->
     exists u', get_string u old = Ret (u', old) /\ okdone u' = false)
  /\ (2 ^ 32 <= Z.of_nat (u_ind u) + 4 + n -> get_string u old = Fault Undefined).
Proof.
  intros W Hn L Hr. split; intros Hsum.
  - destruct (get_string_too_long u n r old W Hn L Hr Hsum) as (u' & E & Hok).
    exists u'. split; [done|]. unfold okdone. by rewrite Hok.
  - by apply (get_string_wraps u n r old).
Qed.
