(* ===== verification/PollMgr.v ===== *)
(** The poll manager of rpc/pollmgr.cc and rpc/pollmgr.h.

    [SelectAIO] and [EPollAIO] keep the descriptors somebody wants to hear of;
    [AioMgr] is what both promise, and the two are proved to answer alike.  [PollMgr]
    runs the callbacks: its thread and the threads that register and remove
    callbacks are one step relation [pm_step], a step per critical section.

    Of the operating system: a [fd_set] is a set of descriptors below [FD_SETSIZE];
    [select] and [epoll_wait] are given the descriptors that are ready; the interest
    list of an epoll descriptor is a map, and [epoll_ctl] fails as the manual says. *)
From Stdlib Require Import ZArith Lia.
From stdpp Require Import base gmap list sets.
From S2P Require Import Prelude.
Local Open Scope Z_scope.

Definition MAX_POLL_FDS : Z := 128.
Definition FD_SETSIZE : Z := 1024.

Inductive poll_flag := CB_NONE | CB_RDONLY | CB_WRONLY | CB_RDWR | CB_MASK.
#[global] Instance poll_flag_eq_dec : EqDecision poll_flag.
Proof. solve_decision. Defined.

(** The enumerators' values. *)
Definition flag_val (f : poll_flag) : Z :=
  match f with
  | CB_NONE => 0 | CB_RDONLY => 1 | CB_WRONLY => 16 | CB_RDWR => 17
  | CB_MASK => Z.lnot 17
  end.

Definition wants_read (f : poll_flag) : bool :=
  match f with CB_RDONLY | CB_RDWR => true | _ => false end.
Definition wants_write (f : poll_flag) : bool :=
  match f with CB_WRONLY | CB_RDWR => true | _ => false end.

Abbreviation fd_set := (gset Z).

(** The macros index a bit array: a descriptor outside it is undefined behaviour. *)
Definition fd_in_range (fd : Z) : bool := (0 <=? fd) && (fd <? FD_SETSIZE).
Definition FD_SET (fd : Z) (s : fd_set) : outcome fd_set :=
  if fd_in_range fd then Ret ({[fd]} ∪ s) else Fault Undefined.
Definition FD_CLR (fd : Z) (s : fd_set) : outcome fd_set :=
  if fd_in_range fd then Ret (s ∖ {[fd]}) else Fault Undefined.
Definition FD_ISSET (fd : Z) (s : fd_set) : bool := bool_decide (fd ∈ s).

(** * SelectAIO *)

Record select_aio := SelectAIO {
  rfds_ : fd_set;
  wfds_ : fd_set;
  highfds_ : Z;
  pipefd_ : Z;        (* the end that is read *)
  pipe_bytes : nat    (* how many bytes, all of them 1, the pipe holds *)
}.

(** The constructor, given the descriptor [pipe] returned. *)
Definition select_new (p : Z) : outcome select_aio :=
  r ← FD_SET p ∅; Ret (SelectAIO r ∅ p p 0).

Definition select_watch_fd (a : select_aio) (fd : Z) (flag : poll_flag)
    : outcome select_aio :=
  let high := if highfds_ a <=? fd then fd else highfds_ a in
  '(r, w) ← match flag with
            | CB_RDONLY => r ← FD_SET fd (rfds_ a); Ret (r, wfds_ a)
            | CB_WRONLY => w ← FD_SET fd (wfds_ a); Ret (rfds_ a, w)
            | _ => r ← FD_SET fd (rfds_ a); w ← FD_SET fd (wfds_ a); Ret (r, w)
            end;
  Ret (SelectAIO r w high (pipefd_ a) (S (pipe_bytes a))).

Definition select_is_watched (a : select_aio) (fd : Z) (flag : poll_flag) : bool :=
  match flag with
  | CB_RDONLY => FD_ISSET fd (rfds_ a)
  | CB_WRONLY => FD_ISSET fd (wfds_ a)
  | _ => FD_ISSET fd (rfds_ a) && FD_ISSET fd (wfds_ a)
  end.

(** The loop that looks for the new highest descriptor. *)
Definition new_highfds (r w : fd_set) (p high : Z) : Z :=
  foldl (fun newh i => if FD_ISSET i r then i
                       else if FD_ISSET i w then i else newh)
        p (seqZ 0 (high + 1)).

Definition select_unwatch_fd (a : select_aio) (fd : Z) (flag : poll_flag)
    : outcome (select_aio * bool) :=
  '(r, w) ← match flag with
            | CB_RDONLY => r ← FD_CLR fd (rfds_ a); Ret (r, wfds_ a)
            | CB_WRONLY => w ← FD_CLR fd (wfds_ a); Ret (rfds_ a, w)
            | CB_RDWR => w ← FD_CLR fd (wfds_ a); r ← FD_CLR fd (rfds_ a); Ret (r, w)
            | _ => Fault AssertFail
            end;
  let gone := negb (FD_ISSET fd r) && negb (FD_ISSET fd w) in
  let high := if gone && (fd =? highfds_ a)
              then new_highfds r w (pipefd_ a) (highfds_ a) else highfds_ a in
  let bytes := match flag with CB_RDWR => S (pipe_bytes a) | _ => pipe_bytes a end in
  Ret (SelectAIO r w high (pipefd_ a) bytes, gone).

(** What [wait_ready] copies under the lock before it blocks. *)
Record snapshot := Snapshot { trfds : fd_set; twfds : fd_set; high : Z }.
Definition select_snapshot (a : select_aio) : snapshot :=
  Snapshot (rfds_ a) (wfds_ a) (highfds_ a).

(** What [select] returns: an error, or the descriptors below its first argument
    that are in the sets and ready, [kr] for reading and [kw] for writing. *)
Inductive select_result := SelErr (eintr : bool) | SelReady (kr kw : fd_set).

Definition select_fds (n : Z) (s ready : fd_set) : fd_set :=
  filter (fun fd => 0 <= fd < n /\ fd ∈ ready) s.

(** The loop over [0..high] that fills the two vectors; it takes one byte off the pipe. *)
Definition collect_fd (p : Z) (r w : fd_set) (acc : list Z * list Z * bool) (fd : Z)
    : list Z * list Z * bool :=
  let '(readable, writable, woken) := acc in
  if (fd =? p) && FD_ISSET fd r then (readable, writable, true)
  else (if FD_ISSET fd r then readable ++ [fd] else readable,
        if FD_ISSET fd w then writable ++ [fd] else writable, woken).

Definition select_wait_ready (a : select_aio) (t : snapshot) (res : select_result)
    : outcome (select_aio * list Z * list Z) :=
  match res with
  | SelErr true => Ret (a, [], [])
  | SelErr false => Fault AssertFail
  | SelReady kr kw =>
      let r := select_fds (high t + 1) (trfds t) kr in
      let w := select_fds (high t + 1) (twfds t) kw in
      let '(readable, writable, woken) :=
        foldl (collect_fd (pipefd_ a) r w) ([], [], false) (seqZ 0 (high t + 1)) in
      if woken then
        _ ← verify (Nat.ltb 0 (pipe_bytes a));
        Ret (SelectAIO (rfds_ a) (wfds_ a) (highfds_ a) (pipefd_ a) (pred (pipe_bytes a)),
             readable, writable)
      else Ret (a, readable, writable)
  end.

(** * EPollAIO *)

Definition EPOLLIN : Z := 1.
Definition EPOLLOUT : Z := 4.
Definition EPOLLET : Z := 2 ^ 31.

Record epoll_aio := EPollAIO {
  fdstatus_ : list Z;       (* [int fdstatus_[MAX_POLL_FDS]] *)
  interest : gmap Z Z       (* the kernel's list for [pollfd_]: fd to events *)
}.

Definition epoll_new : epoll_aio :=
  EPollAIO (replicate (Z.to_nat MAX_POLL_FDS) 0) ∅.

Inductive epoll_op := EPOLL_CTL_ADD | EPOLL_CTL_MOD | EPOLL_CTL_DEL.
#[global] Instance epoll_op_eq_dec : EqDecision epoll_op.
Proof. solve_decision. Defined.

(** [epoll_ctl]: [None] is -1 (EEXIST, ENOENT). *)
Definition epoll_ctl (k : gmap Z Z) (op : epoll_op) (fd ev : Z) : option (gmap Z Z) :=
  match op, k !! fd with
  | EPOLL_CTL_ADD, None => Some (<[fd := ev]> k)
  | EPOLL_CTL_MOD, Some _ => Some (<[fd := ev]> k)
  | EPOLL_CTL_DEL, Some _ => Some (delete fd k)
  | _, _ => None
  end.

Definition poll_flag_to_event (flag : poll_flag) : Z :=
  match flag with
  | CB_RDONLY => EPOLLIN
  | CB_WRONLY => EPOLLOUT
  | _ => Z.lor EPOLLIN EPOLLOUT
  end.

(** The events word both operations build from a descriptor's status. *)
Definition status_events (st : Z) : Z :=
  let ev := EPOLLET in
  let ev := if negb (Z.land st (flag_val CB_RDONLY) =? 0) then Z.lor ev EPOLLIN else ev in
  if negb (Z.land st (flag_val CB_WRONLY) =? 0) then Z.lor ev EPOLLOUT else ev.

(** An index outside the array is undefined; the code checks the upper bound only. *)
Definition get_fdstatus (a : epoll_aio) (fd : Z) : outcome Z :=
  _ ← verify (fd <? MAX_POLL_FDS);
  if fd <? 0 then Fault Undefined
  else match fdstatus_ a !! Z.to_nat fd with Some st => Ret st | None => Fault Undefined end.

Definition epoll_watch_fd (a : epoll_aio) (fd : Z) (flag : poll_flag)
    : outcome epoll_aio :=
  st ← get_fdstatus a fd;
  let op := if st =? 0 then EPOLL_CTL_ADD else EPOLL_CTL_MOD in
  let st := Z.lor st (flag_val flag) in
  let ev := status_events st in
  _ ← verify (match flag with
              | CB_RDWR => ev =? Z.lor (Z.lor EPOLLET EPOLLIN) EPOLLOUT
              | _ => true end);
  match epoll_ctl (interest a) op fd ev with
  | Some k => Ret (EPollAIO (<[Z.to_nat fd := st]> (fdstatus_ a)) k)
  | None => Fault AssertFail
  end.

Definition epoll_unwatch_fd (a : epoll_aio) (fd : Z) (flag : poll_flag)
    : outcome (epoll_aio * bool) :=
  st ← get_fdstatus a fd;
  let st := Z.land st (Z.lnot (flag_val flag)) in
  let op := if st =? 0 then EPOLL_CTL_DEL else EPOLL_CTL_MOD in
  let ev := status_events st in
  _ ← verify (match flag with CB_RDWR => bool_decide (op = EPOLL_CTL_DEL) | _ => true end);
  match epoll_ctl (interest a) op fd ev with
  | Some k => Ret (EPollAIO (<[Z.to_nat fd := st]> (fdstatus_ a)) k,
                   bool_decide (op = EPOLL_CTL_DEL))
  | None => Fault AssertFail
  end.

Definition epoll_is_watched (a : epoll_aio) (fd : Z) (flag : poll_flag) : outcome bool :=
  st ← get_fdstatus a fd; Ret (Z.land st (flag_val CB_MASK) =? flag_val flag).

(** The vectors filled from the events [epoll_wait] reports. *)
Definition epoll_wait_ready (ready : list (Z * Z)) : list Z * list Z :=
  foldl (fun '(readable, writable) '(fd, events) =>
           (if negb (Z.land events EPOLLIN =? 0) then readable ++ [fd] else readable,
            if negb (Z.land events EPOLLOUT =? 0) then writable ++ [fd] else writable))
        ([], []) ready.

(** * The interface of the two

    A descriptor's registration is the pair of what it is watched for. *)

Definition registration : Type := bool * bool.
Definition spec_watch (f : poll_flag) (s : registration) : registration :=
  (s.1 || wants_read f, s.2 || wants_write f).
Definition spec_unwatch (f : poll_flag) (s : registration) : registration :=
  (s.1 && negb (wants_read f), s.2 && negb (wants_write f)).
Definition unregistered (s : registration) : bool := negb s.1 && negb s.2.

(** The flags clients pass. *)
Definition client_flag (f : poll_flag) : Prop :=
  match f with CB_RDONLY | CB_WRONLY | CB_RDWR => True | _ => False end.
#[global] Instance client_flag_dec f : Decision (client_flag f).
Proof. destruct f; simpl; apply _. Defined.

(** A state [a'] that differs from [a] in the registration of [fd] only. *)
Class AioMgr (A : Type) := {
  aio_watch_fd : A -> Z -> poll_flag -> outcome A;
  aio_unwatch_fd : A -> Z -> poll_flag -> outcome (A * bool);
  aio_status : A -> Z -> registration;
  aio_fd : A -> Z -> Prop;
  aio_ok : A -> Prop;
  aio_watch_law a fd f :
    aio_ok a -> aio_fd a fd -> client_flag f ->
    exists a', aio_watch_fd a fd f = Ret a' /\ aio_ok a' /\
      (forall x, aio_fd a x -> aio_fd a' x) /\
      (forall x, aio_status a' x =
        if decide (x = fd) then spec_watch f (aio_status a fd) else aio_status a x);
  aio_unwatch_law a fd f :
    aio_ok a -> aio_fd a fd -> client_flag f -> unregistered (aio_status a fd) = false ->
    exists a', aio_unwatch_fd a fd f =
        Ret (a', unregistered (spec_unwatch f (aio_status a fd))) /\ aio_ok a' /\
      (forall x, aio_fd a x -> aio_fd a' x) /\
      (forall x, aio_status a' x =
        if decide (x = fd) then spec_unwatch f (aio_status a fd) else aio_status a x)
}.

(** Sequences of requests, against any implementation and against the specification. *)
Inductive aio_req := WatchFd (fd : Z) (f : poll_flag) | UnwatchFd (fd : Z) (f : poll_flag).

Fixpoint aio_run `{AioMgr A} (a : A) (rs : list aio_req) : outcome (A * list bool) :=
  match rs with
  | [] => Ret (a, [])
  | WatchFd fd f :: rs' =>
      a' ← aio_watch_fd a fd f; aio_run a' rs'
  | UnwatchFd fd f :: rs' =>
      '(a', b) ← aio_unwatch_fd a fd f;
      '(a'', bs) ← aio_run a' rs';
      Ret (a'', b :: bs)
  end.

(** The specification remembers a registration per descriptor and is stuck on a request
    to forget a descriptor nobody watches, or on a flag no client passes. *)
Definition req_fd (r : aio_req) : Z := match r with WatchFd fd _ | UnwatchFd fd _ => fd end.

Definition reg_of (s : gmap Z registration) (fd : Z) : registration :=
  default (false, false) (s !! fd).

Lemma reg_of_insert s fd n x :
  reg_of (<[fd := n]> s) x = if decide (x = fd) then n else reg_of s x.
Proof.
  unfold reg_of. case_decide as E; [subst; by rewrite lookup_insert_eq|].
  by rewrite lookup_insert_ne by done.
Qed.

Fixpoint spec_run (s : gmap Z registration) (rs : list aio_req)
    : option (gmap Z registration * list bool) :=
  match rs with
  | [] => Some (s, [])
  | WatchFd fd f :: rs' =>
      guard (client_flag f);;
      spec_run (<[fd := spec_watch f (reg_of s fd)]> s) rs'
  | UnwatchFd fd f :: rs' =>
      guard (client_flag f);;
      guard (unregistered (reg_of s fd) = false);;
      let n := spec_unwatch f (reg_of s fd) in
      '(s', bs) ← spec_run (<[fd := n]> s) rs';
      Some (s', unregistered n :: bs)
  end.

Section refinement.
  Context `{AioMgr A}.

Lemma aio_refines rs : forall (a : A) s s' bs,
    aio_ok a -> (forall x, aio_status a x = reg_of s x) ->
    Forall (fun r => aio_fd a (req_fd r)) rs ->
    spec_run s rs = Some (s', bs) ->
    exists a', aio_run a rs = Ret (a', bs) /\ aio_ok a' /\
      (forall x, aio_status a' x = reg_of s' x).
  Proof.
    assert (Hfds : forall (a a' : A) rs',
      (forall x, aio_fd a x -> aio_fd a' x) ->
      Forall (fun r => aio_fd a (req_fd r)) rs' -> Forall (fun r => aio_fd a' (req_fd r)) rs').
    { intros a a' rs' Hsub Hall. eapply Forall_impl; [exact Hall|]. simpl. eauto. }
    assert (Hins : forall (a a' : A) (s : gmap Z registration) fd n,
      (forall x, aio_status a x = reg_of s x) ->
      (forall x, aio_status a' x = if decide (x = fd) then n else aio_status a x) ->
      forall x, aio_status a' x = reg_of (<[fd := n]> s) x).
    { intros a a' s fd n Hs Ha x. rewrite Ha. case_decide as E.
      - subst. by rewrite reg_of_insert, decide_True.
      - by rewrite reg_of_insert, decide_False, Hs. }
    induction rs as [|[fd f|fd f] rs IH]; simpl; intros a s s' bs Hok Hst Hfd Hrun.
    - injection Hrun as <- <-. eauto.
    - case_guard as Hf; simplify_option_eq.
      apply Forall_cons in Hfd as [Hfd Hrest]; simpl in Hfd.
      destruct (aio_watch_law a fd f Hok Hfd Hf) as (a' & -> & Hok' & Hsub & Ha'); simpl.
      eapply IH; [exact Hok'| |by eapply Hfds|exact Hrun].
      rewrite Hst in Ha'. by eapply Hins.
    - simplify_option_eq.
      match goal with Hr : spec_run _ _ = Some ?p, Hc : client_flag f,
                      Hu : unregistered _ = false |- _ =>
        rename Hr into Hrest_run, Hc into Hf, Hu into Hreg; destruct p as [s2 bs2] end.
      apply Forall_cons in Hfd as [Hfd Hrest]; simpl in Hfd.
      rewrite <- Hst in Hreg, Hrest_run.
      destruct (aio_unwatch_law a fd f Hok Hfd Hf Hreg) as (a' & -> & Hok' & Hsub & Ha').
      simpl.
      destruct (IH a' _ _ _ Hok' (Hins a a' s fd _ Hst Ha') (Hfds a a' rs Hsub Hrest)
        Hrest_run) as (a2 & -> & Hok2 & Hs2).
      simplify_eq/=. rewrite Hst. eauto.
  Qed.
End refinement.

(** * SelectAIO implements the interface *)

Record select_ok (a : select_aio) : Prop := {
  so_pipe_fd : 0 <= pipefd_ a <= highfds_ a;
  so_pipe : pipefd_ a ∈ rfds_ a;
  so_pipe_w : pipefd_ a ∉ wfds_ a;
  so_high : highfds_ a < FD_SETSIZE;
  so_fds fd : fd ∈ rfds_ a ∪ wfds_ a -> 0 <= fd <= highfds_ a
}.

(** The pipe is the manager's own. *)
Definition select_fd (a : select_aio) (fd : Z) : Prop :=
  0 <= fd < FD_SETSIZE /\ fd <> pipefd_ a.
Definition select_status (a : select_aio) (fd : Z) : registration :=
  if fd =? pipefd_ a then (false, false) else (FD_ISSET fd (rfds_ a), FD_ISSET fd (wfds_ a)).

Lemma FD_SET_ret fd s : 0 <= fd < FD_SETSIZE -> FD_SET fd s = Ret ({[fd]} ∪ s).
Proof. unfold FD_SET, fd_in_range. intros. destruct (_ && _) eqn:E; [done|lia]. Qed.
Lemma FD_CLR_ret fd s : 0 <= fd < FD_SETSIZE -> FD_CLR fd s = Ret (s ∖ {[fd]}).
Proof. unfold FD_CLR, fd_in_range. intros. destruct (_ && _) eqn:E; [done|lia]. Qed.

Lemma FD_ISSET_union fd x s :
  FD_ISSET x ({[fd]} ∪ s) = (if decide (x = fd) then true else FD_ISSET x s).
Proof.
  unfold FD_ISSET.
  case_decide; [apply bool_decide_eq_true|apply bool_decide_ext]; set_solver.
Qed.
Lemma FD_ISSET_difference fd x s :
  FD_ISSET x (s ∖ {[fd]}) = (if decide (x = fd) then false else FD_ISSET x s).
Proof.
  unfold FD_ISSET.
  case_decide; [apply bool_decide_eq_false|apply bool_decide_ext]; set_solver.
Qed.

(** The loop finds the largest member, and the pipe if there is none. *)
Lemma new_highfds_loop r w p (k : nat) :
  let n := new_highfds r w p (Z.of_nat k - 1) in
  (n = p /\ forall i, 0 <= i < Z.of_nat k -> i ∉ r ∪ w) \/
  (0 <= n < Z.of_nat k /\ n ∈ r ∪ w /\ forall i, 0 <= i < Z.of_nat k -> i ∈ r ∪ w -> i <= n).
Proof.
  simpl. unfold new_highfds. rewrite Z.sub_add. induction k as [|k IH].
  - left. split; [done|]. lia.
  - rewrite seqZ_S, foldl_app. simpl.
    match goal with |- context [foldl ?f p (seqZ 0 (Z.of_nat k))] =>
      set (n := foldl f p (seqZ 0 (Z.of_nat k))) in * end.
    destruct (decide (Z.of_nat k ∈ r ∪ w)) as [Hin|Hout].
    + right. replace (if FD_ISSET _ r then _ else _) with (Z.of_nat k);
        [split; [lia|split; [done|lia]]|].
      unfold FD_ISSET. repeat case_bool_decide; [done..|set_solver].
    + replace (if FD_ISSET _ r then _ else _) with n.
      * assert (Hlt : forall i, 0 <= i < Z.of_nat (S k) -> i ∈ r ∪ w -> 0 <= i < Z.of_nat k).
        { intros i Hi Hm. assert (i <> Z.of_nat k) by (intros ->; done). lia. }
        destruct IH as [[-> IH]|(? & ? & IH)]; [left|right]; repeat split; try done; try lia.
        -- intros i Hi Hm. by eapply IH; eauto.
        -- intros i Hi Hm. eapply IH; eauto.
      * unfold FD_ISSET. repeat case_bool_decide; set_solver.
Qed.

Lemma new_highfds_max r w p h :
  0 <= p <= h -> p ∈ r ->
  let n := new_highfds r w p h in
  (p <= n <= h) /\ (forall i, 0 <= i <= h -> i ∈ r ∪ w -> i <= n).
Proof.
  intros Hp Hin n. pose proof (new_highfds_loop r w p (Z.to_nat (h + 1))) as Hl.
  simpl in Hl. rewrite Z2Nat.id, Z.add_simpl_r in Hl by lia. fold n in Hl.
  destruct Hl as [[_ Hno]|(Hn & _ & Hmax)].
  - destruct (Hno p); [lia|set_solver].
  - split; [split; [apply Hmax; [lia|set_solver]|lia]|]. intros. apply Hmax; [lia|done].
Qed.

Lemma select_new_ok p a :
  select_new p = Ret a ->
  select_ok a /\ (forall x, select_status a x = reg_of ∅ x) /\
  pipefd_ a = p.
Proof.
  unfold select_new, FD_SET, fd_in_range. destruct (_ && _) eqn:E; [|done].
  simpl. intros [= <-]. split; [|split; [|done]].
  - constructor; simpl; [lia|set_solver|set_solver|lia|].
    intros fd Hfd. assert (fd = p) by set_solver. lia.
  - intros x. unfold select_status, FD_ISSET; simpl.     destruct (Z.eqb_spec x p); [done|].
    by rewrite !bool_decide_eq_false_2 by set_solver.
Qed.

Lemma select_watch_spec a fd f :
  select_ok a -> select_fd a fd -> client_flag f ->
  exists a', select_watch_fd a fd f = Ret a' /\ select_ok a' /\
    pipefd_ a' = pipefd_ a /\ pipe_bytes a' = S (pipe_bytes a) /\
    (forall x, select_status a' x =
       if decide (x = fd) then spec_watch f (select_status a fd) else select_status a x).
Proof.
  intros [Hp1 Hp2 Hp3 Hh Hf] [Hfd Hne] Hcf.
  unfold select_watch_fd.
  destruct f; try done; rewrite !FD_SET_ret by done; simpl;
    eexists; (split; [reflexivity|]); (split; [|split; [done|split; [done|]]]);
    try (constructor; simpl; [destruct (Z.leb_spec (highfds_ a) fd); lia|set_solver|set_solver
      |destruct (Z.leb_spec (highfds_ a) fd); lia|];
      intros x Hx; assert (x = fd \/ x ∈ rfds_ a ∪ wfds_ a) as [->|Hx'] by set_solver;
      [|apply Hf in Hx']; destruct (Z.leb_spec (highfds_ a) fd); lia);
    intros x; unfold select_status, spec_watch; simpl;
    rewrite ?FD_ISSET_union; destruct (decide (x = fd)) as [->|];
    rewrite ?(proj2 (Z.eqb_neq fd _) Hne); simpl; rewrite ?orb_true_r, ?orb_false_r; done.
Qed.

Lemma select_unwatch_spec a fd f :
  select_ok a -> select_fd a fd -> client_flag f ->
  exists a', select_unwatch_fd a fd f =
      Ret (a', unregistered (spec_unwatch f (select_status a fd))) /\ select_ok a' /\
    pipefd_ a' = pipefd_ a /\
    pipe_bytes a' = (match f with CB_RDWR => 1 | _ => 0 end + pipe_bytes a)%nat /\
    (forall x, select_status a' x =
       if decide (x = fd) then spec_unwatch f (select_status a fd) else select_status a x).
Proof.
  intros [Hp1 Hp2 Hp3 Hh Hf] [Hfd Hne] Hcf.
  assert (Hok : forall r w b, pipefd_ a ∈ r -> pipefd_ a ∉ w -> r ∪ w ⊆ rfds_ a ∪ wfds_ a ->
    select_ok (SelectAIO r w
      (if negb (FD_ISSET fd r) && negb (FD_ISSET fd w) && (fd =? highfds_ a)
       then new_highfds r w (pipefd_ a) (highfds_ a) else highfds_ a) (pipefd_ a) b)).
  { intros r w b Hr Hw Hsub. destruct (new_highfds_max r w (pipefd_ a) (highfds_ a) Hp1 Hr)
      as [Hn Hmax].
    destruct (_ && _); constructor; simpl; try lia; try done.
    - intros x Hx. assert (0 <= x <= highfds_ a) by (apply Hf, Hsub, Hx).
      split; [lia|]. by apply Hmax.
    - intros x Hx. by apply Hf, Hsub. }
  unfold select_unwatch_fd.
  destruct f; try done; rewrite !FD_CLR_ret by done; simpl; eexists;
    (split; [f_equal; f_equal; rewrite ?FD_ISSET_difference; unfold unregistered, spec_unwatch,
       select_status; rewrite ?(proj2 (Z.eqb_neq fd _) Hne), ?decide_True by done; simpl;
       by rewrite ?andb_false_r, ?andb_true_r|]);
    (split; [apply Hok; set_solver|split; [done|split; [done|]]]);
    intros x; unfold select_status, spec_unwatch; simpl;
    rewrite ?FD_ISSET_difference; destruct (decide (x = fd)) as [->|];
    rewrite ?(proj2 (Z.eqb_neq fd _) Hne); simpl; rewrite ?andb_true_r, ?andb_false_r; done.
Qed.

#[global, refine] Instance select_aio_mgr : AioMgr select_aio := {
  aio_watch_fd := select_watch_fd;
  aio_unwatch_fd := select_unwatch_fd;
  aio_status := select_status;
  aio_fd := select_fd;
  aio_ok := select_ok
}.
Proof.
  - intros a fd f Hok Hfd Hf.
    destruct (select_watch_spec a fd f Hok Hfd Hf) as (a' & E & Hok' & Hp & _ & Hs).
    exists a'. split; [done|split; [done|split; [|done]]]. unfold select_fd. by rewrite Hp.
  - intros a fd f Hok Hfd Hf _.
    destruct (select_unwatch_spec a fd f Hok Hfd Hf) as (a' & E & Hok' & Hp & _ & Hs).
    exists a'. split; [done|split; [done|split; [|done]]]. unfold select_fd. by rewrite Hp.
Defined.

Lemma select_run_pipe rs : forall a a' bs,
  aio_run a rs = Ret (a', bs) -> pipefd_ a' = pipefd_ a.
Proof.
  induction rs as [|[fd f|fd f] rs IH]; simpl; intros a a' bs E.
  - by injection E as <- _.
  - apply bind_ret_inv in E as (a1 & E1 & E). rewrite (IH _ _ _ E).
    unfold select_watch_fd in E1. apply bind_ret_inv in E1 as ([] & _ & E1).
    by injection E1 as <-.
  - apply bind_ret_inv in E as ([a1 b] & E1 & E).
    apply bind_ret_inv in E as ([a2 bs2] & E & E2). injection E2 as <- _.
    rewrite (IH _ _ _ E). unfold select_unwatch_fd in E1.
    apply bind_ret_inv in E1 as ([] & _ & E1). by injection E1 as <- _.
Qed.

(** * EPollAIO implements the interface *)

(** The status word of a registration, and back. *)
Definition reg_val (s : registration) : Z :=
  (if s.1 then flag_val CB_RDONLY else 0) + (if s.2 then flag_val CB_WRONLY else 0).
Definition reg_of_val (st : Z) : registration :=
  (negb (Z.land st (flag_val CB_RDONLY) =? 0), negb (Z.land st (flag_val CB_WRONLY) =? 0)).

Definition epoll_fd (a : epoll_aio) (fd : Z) : Prop := 0 <= fd < MAX_POLL_FDS.
Definition epoll_status (a : epoll_aio) (fd : Z) : registration :=
  if 0 <=? fd then reg_of_val (default 0 (fdstatus_ a !! Z.to_nat fd)) else (false, false).

(** The kernel's list agrees with the array. *)
Record epoll_ok (a : epoll_aio) : Prop := {
  eo_len : length (fdstatus_ a) = Z.to_nat MAX_POLL_FDS;
  eo_val i st : fdstatus_ a !! i = Some st -> st = reg_val (reg_of_val st);
  eo_interest fd : 0 <= fd ->
    interest a !! fd =
      let s := epoll_status a fd in
      if unregistered s then None else Some (status_events (reg_val s))
}.

Lemma reg_of_reg_val s : reg_of_val (reg_val s) = s.
Proof. by destruct s as [[] []]. Qed.
Lemma reg_val_watch f s :
  client_flag f -> Z.lor (reg_val s) (flag_val f) = reg_val (spec_watch f s).
Proof. by destruct s as [[] []], f. Qed.
Lemma reg_val_unwatch f s :
  client_flag f -> Z.land (reg_val s) (Z.lnot (flag_val f)) = reg_val (spec_unwatch f s).
Proof. by destruct s as [[] []], f. Qed.
Lemma reg_val_zero s : (reg_val s =? 0) = unregistered s.
Proof. by destruct s as [[] []]. Qed.

Lemma epoll_new_ok :
  epoll_ok epoll_new /\ forall x, epoll_status epoll_new x = reg_of ∅ x.
Proof.
  assert (Hs : forall x, epoll_status epoll_new x = reg_of ∅ x).
  { intros x. unfold epoll_status, epoll_new; cbn [fdstatus_]. destruct (0 <=? x); [|done].
    destruct (replicate _ 0 !! _) as [st|] eqn:E; [|done].
    apply lookup_replicate in E as [-> _]. done. }
  split; [|done]. constructor.
  - apply length_replicate.
  - intros i st E. apply lookup_replicate in E as [-> _]. done.
  - intros fd _. by rewrite Hs.
Qed.

(** The status of a descriptor a client may use. *)
Lemma get_fdstatus_ret a fd :
  epoll_ok a -> epoll_fd a fd -> get_fdstatus a fd = Ret (reg_val (epoll_status a fd)).
Proof.
  intros [Hl Hv _] Hfd. unfold epoll_fd, get_fdstatus, epoll_status in *.
  rewrite (proj2 (Z.ltb_lt fd MAX_POLL_FDS)) by lia. simpl.
  rewrite (proj2 (Z.ltb_ge fd 0)), (proj2 (Z.leb_le 0 fd)) by lia.
  destruct (lookup_lt_is_Some_2 (fdstatus_ a) (Z.to_nat fd)) as [st E]; [lia|].
  rewrite E. simpl. by rewrite <- (Hv _ _ E).
Qed.

Lemma epoll_update a fd s k :
  epoll_ok a -> epoll_fd a fd ->
  (forall x, k !! x = if decide (x = fd) then
     (if unregistered s then None else Some (status_events (reg_val s))) else interest a !! x) ->
  let a' := EPollAIO (<[Z.to_nat fd := reg_val s]> (fdstatus_ a)) k in
  epoll_ok a' /\ forall x, epoll_status a' x = if decide (x = fd) then s else epoll_status a x.
Proof.
  intros [Hl Hv Hi] Hfd Hk a'. unfold epoll_fd in Hfd.
  assert (Hs : forall x, epoll_status a' x = if decide (x = fd) then s else epoll_status a x).
  { intros x. unfold epoll_status; simpl. destruct (Z.leb_spec 0 x).
    - case_decide as E; [subst; rewrite list_lookup_insert_eq by lia; apply reg_of_reg_val|].
      rewrite list_lookup_insert_ne by lia. done.
    - rewrite decide_False by lia. done. }
  split; [|done]. constructor; simpl.
  - by rewrite length_insert.
  - intros i st. rewrite list_lookup_insert_Some.
    intros [(_ & <- & _)|[_ E]]; [by rewrite reg_of_reg_val|by eapply Hv].
  - intros x Hx. rewrite Hk, Hs. case_decide; [done|]. by apply Hi.
Qed.

Lemma epoll_watch_spec a fd f :
  epoll_ok a -> epoll_fd a fd -> client_flag f ->
  exists a', epoll_watch_fd a fd f = Ret a' /\ epoll_ok a' /\
    (forall x, epoll_status a' x =
       if decide (x = fd) then spec_watch f (epoll_status a fd) else epoll_status a x).
Proof.
  intros Hok Hfd Hf. unfold epoll_watch_fd.
  rewrite (get_fdstatus_ret a fd Hok Hfd). simpl. rewrite reg_val_watch by done.
  set (s := spec_watch f (epoll_status a fd)).
  assert (Hu : unregistered s = false) by (subst s; by destruct (epoll_status a fd) as [[] []], f).
  replace (verify _) with (Ret tt) by (subst s; by destruct (epoll_status a fd) as [[] []], f).
  simpl.
  assert (Hctl : epoll_ctl (interest a)
    (if reg_val (epoll_status a fd) =? 0 then EPOLL_CTL_ADD else EPOLL_CTL_MOD) fd
    (status_events (reg_val s)) = Some (<[fd := status_events (reg_val s)]> (interest a))).
  { unfold epoll_ctl. rewrite (eo_interest a Hok) by (unfold epoll_fd in Hfd; lia).
    simpl. rewrite reg_val_zero. by destruct (unregistered (epoll_status a fd)). }
  rewrite Hctl. eexists. split; [reflexivity|]. apply epoll_update; [done..|].
  intros x. rewrite Hu. case_decide; [subst; apply lookup_insert_eq|by apply lookup_insert_ne].
Qed.

Lemma epoll_unwatch_spec a fd f :
  epoll_ok a -> epoll_fd a fd -> client_flag f -> unregistered (epoll_status a fd) = false ->
  exists a', epoll_unwatch_fd a fd f =
      Ret (a', unregistered (spec_unwatch f (epoll_status a fd))) /\ epoll_ok a' /\
    (forall x, epoll_status a' x =
       if decide (x = fd) then spec_unwatch f (epoll_status a fd) else epoll_status a x).
Proof.
  intros Hok Hfd Hf Hreg. unfold epoll_unwatch_fd.
  rewrite (get_fdstatus_ret a fd Hok Hfd). simpl. rewrite reg_val_unwatch by done.
  assert (Hall : f = CB_RDWR -> unregistered (spec_unwatch f (epoll_status a fd)) = true)
    by (intros ->; by destruct (epoll_status a fd) as [[] []]).
  revert Hall. set (s := spec_unwatch f (epoll_status a fd)). intros Hall.
  rewrite reg_val_zero.
  replace (verify _) with (Ret tt) by (destruct f; try done; by rewrite (Hall eq_refl)).
  simpl. unfold epoll_ctl.
  rewrite (eo_interest a Hok) by (unfold epoll_fd in Hfd; lia). simpl. rewrite Hreg.
  destruct (unregistered s) eqn:Hu; eexists; (split; [reflexivity|]);
    (apply epoll_update; [done..|]); intros x; rewrite Hu.
  - case_decide; [subst; apply lookup_delete_eq|by apply lookup_delete_ne].
  - case_decide; [subst; apply lookup_insert_eq|by apply lookup_insert_ne].
Qed.

#[global, refine] Instance epoll_aio_mgr : AioMgr epoll_aio := {
  aio_watch_fd := epoll_watch_fd;
  aio_unwatch_fd := epoll_unwatch_fd;
  aio_status := epoll_status;
  aio_fd := epoll_fd;
  aio_ok := epoll_ok
}.
Proof.
  - intros a fd f Hok Hfd Hf.
    destruct (epoll_watch_spec a fd f Hok Hfd Hf) as (a' & E & Hok' & Hs). eauto.
  - intros a fd f Hok Hfd Hf Hreg.
    destruct (epoll_unwatch_spec a fd f Hok Hfd Hf Hreg) as (a' & E & Hok' & Hs). eauto.
Defined.

(** * What the two report *)

Lemma foldl_collect p r w l : forall readable writable woken,
  foldl (collect_fd p r w) (readable, writable, woken) l =
  (readable ++ filter (fun fd => fd ∈ r /\ fd <> p) l,
   writable ++ filter (fun fd => fd ∈ w /\ ~ (fd = p /\ fd ∈ r)) l,
   woken || bool_decide (p ∈ l /\ p ∈ r)).
Proof.
  induction l as [|fd l IH]; intros readable writable woken; cbn [foldl].
  - rewrite !filter_nil, !app_nil_r, bool_decide_eq_false_2, orb_false_r by set_solver. done.
  - destruct (collect_fd p r w (readable, writable, woken) fd) as [[rd wr] wk] eqn:E.
    rewrite IH. clear IH. unfold collect_fd, FD_ISSET in E.
    destruct (Z.eqb_spec fd p) as [->|Hne]; simpl in E.
    + case_bool_decide as Hr; simpl in E; injection E as <- <- <-.
      * rewrite !filter_cons_False by tauto.
        rewrite (bool_decide_eq_true_2 (p ∈ p :: l /\ _)) by set_solver.
        by rewrite orb_true_r.
      * rewrite (filter_cons_False _ p l) by tauto.
        rewrite !(bool_decide_eq_false_2 (_ /\ p ∈ r)) by tauto. f_equal. f_equal.
        case_bool_decide; [by rewrite filter_cons_True, <- app_assoc by tauto|].
        by rewrite filter_cons_False by tauto.
    + injection E as <- <- <-. f_equal; [f_equal|].
      * case_bool_decide; [by rewrite filter_cons_True, <- app_assoc by tauto|].
        by rewrite filter_cons_False by tauto.
      * case_bool_decide; [by rewrite filter_cons_True, <- app_assoc by tauto|].
        by rewrite filter_cons_False by tauto.
      * f_equal. apply bool_decide_ext. set_solver.
Qed.

(** [wait_ready] in terms of what the snapshot and the kernel say. *)
Lemma select_wait_ready_ret a t kr kw :
  pipefd_ a ∈ trfds t -> pipefd_ a ∉ twfds t ->
  (forall fd, fd ∈ trfds t ∪ twfds t -> 0 <= fd <= high t) ->
  (pipefd_ a ∈ kr -> (0 < pipe_bytes a)%nat) ->
  exists a' readable writable,
    select_wait_ready a t (SelReady kr kw) = Ret (a', readable, writable) /\
    a' = SelectAIO (rfds_ a) (wfds_ a) (highfds_ a) (pipefd_ a)
           (if decide (pipefd_ a ∈ kr) then pred (pipe_bytes a) else pipe_bytes a) /\
    NoDup readable /\ NoDup writable /\
    (forall fd, fd ∈ readable <-> fd ∈ trfds t /\ fd ∈ kr /\ fd <> pipefd_ a) /\
    (forall fd, fd ∈ writable <-> fd ∈ twfds t /\ fd ∈ kw).
Proof.
  intros Hp Hpw Hh Hk. unfold select_wait_ready. rewrite foldl_collect. simpl.
  assert (Hsel : forall fd s k, s ⊆ trfds t ∪ twfds t ->
    fd ∈ select_fds (high t + 1) s k <-> fd ∈ s /\ fd ∈ k).
  { intros fd s k Hs. unfold select_fds. rewrite elem_of_filter. split; [tauto|].
    intros [H1 H2]. split; [split; [|done]|done]. apply Hs, Hh in H1. lia. }
  assert (Hin : forall fd, fd ∈ trfds t ∪ twfds t -> fd ∈ seqZ 0 (high t + 1)).
  { intros fd Hfd. apply elem_of_seqZ. apply Hh in Hfd. lia. }
  assert (Hw : bool_decide (pipefd_ a ∈ seqZ 0 (high t + 1) /\
                 pipefd_ a ∈ select_fds (high t + 1) (trfds t) kr) =
               bool_decide (pipefd_ a ∈ kr)).
  { apply bool_decide_ext. rewrite Hsel by set_solver.
    split; [tauto|]. intros. split; [apply Hin; set_solver|done]. }
  rewrite Hw. clear Hw. eexists _, _, _. split; [|split; [reflexivity|]].
  { case_bool_decide; [|rewrite decide_False by done; by destruct a].
    rewrite decide_True by done. rewrite (proj2 (Nat.ltb_lt _ _)) by auto. done. }
  split; [apply NoDup_filter, NoDup_seqZ|]. split; [apply NoDup_filter, NoDup_seqZ|].
  split; intros fd; rewrite list_elem_of_filter, !Hsel by set_solver.
  - split; [tauto|]. intros (? & ? & ?). split; [done|]. apply Hin. set_solver.
  - split; [tauto|]. intros [? ?]. split; [|apply Hin; set_solver].
    split; [done|]. intros [-> _]. done.
Qed.

(** * PollMgr

    [callbacks_] holds who registered for a descriptor, an [aio_callback] being known by a
    number. *)

Record pollmgr := PollMgr {
  callbacks_ : gmap Z nat;
  aio_ : select_aio;
  pending_change_ : bool
}.

(** Every client method takes [m_] for its whole body, save the wait in
    [block_remove_fd], which splits it in two. *)

Definition in_callbacks (fd : Z) : bool := (0 <=? fd) && (fd <? MAX_POLL_FDS).

Definition pm_add_callback (m : pollmgr) (fd : Z) (flag : poll_flag) (ch : nat)
    : outcome pollmgr :=
  _ ← verify (fd <? MAX_POLL_FDS);
  a ← select_watch_fd (aio_ m) fd flag;
  _ ← verify (match callbacks_ m !! fd with None => true | Some c => Nat.eqb c ch end);
  Ret (PollMgr (<[fd := ch]> (callbacks_ m)) a (pending_change_ m)).

Definition pm_remove_begin (m : pollmgr) (fd : Z) : outcome pollmgr :=
  '(a, _) ← select_unwatch_fd (aio_ m) fd CB_RDWR;
  Ret (PollMgr (callbacks_ m) a true).

Definition pm_remove_end (m : pollmgr) (fd : Z) : outcome pollmgr :=
  if in_callbacks fd
  then Ret (PollMgr (delete fd (callbacks_ m)) (aio_ m) (pending_change_ m))
  else Fault Undefined.

Definition pm_del_callback (m : pollmgr) (fd : Z) (flag : poll_flag) : outcome pollmgr :=
  '(a, gone) ← select_unwatch_fd (aio_ m) fd flag;
  if (gone : bool) then
    if in_callbacks fd
    then Ret (PollMgr (delete fd (callbacks_ m)) a (pending_change_ m))
    else Fault Undefined
  else Ret (PollMgr (callbacks_ m) a (pending_change_ m)).

Definition pm_has_callback (m : pollmgr) (fd : Z) (flag : poll_flag) (c : nat) : outcome bool :=
  if in_callbacks fd then
    match callbacks_ m !! fd with
    | None => Ret false
    | Some c' => if negb (Nat.eqb c' c) then Ret false
                 else Ret (select_is_watched (aio_ m) fd flag)
    end
  else Fault Undefined.

(** Where the poll thread is in [wait_loop]: before the check of [pending_change_],
    past it, inside [select], walking the two vectors, or inside a callback for [fd] with
    the rest of the vectors to walk. *)
Inductive poll_pc :=
| AtTop
| Checked
| Selecting (t : snapshot)
| Dispatching (readable writable : list Z)
| InCallback (fd : Z) (readable writable : list Z).

Definition running (c : poll_pc) : option Z :=
  match c with InCallback fd _ _ => Some fd | _ => None end.

(** The threads inside [block_remove_fd] with the descriptor, and whether the wait on
    [changedone_c_] is over. *)
Record pm_sys := PmSys {
  pm : pollmgr;
  pc : poll_pc;
  removers : gmap nat (Z * bool)
}.

Definition wake_all (r : gmap nat (Z * bool)) : gmap nat (Z * bool) :=
  (fun e => (e.1, true)) <$> r.

Inductive pm_event :=
| EvAdd (fd : Z) (flag : poll_flag) (ch : nat)
| EvDel (fd : Z) (flag : poll_flag)
| EvRemove (t : nat) (fd : Z)
| EvRemoved (t : nat) (fd : Z)
| EvRead (fd : Z) (ch : nat)
| EvWrite (fd : Z) (ch : nat)
| EvSpurious (t : nat)
| EvTau.

(** [select] returns when a signal came or some descriptor it was given is ready. *)
Definition select_returns (t : snapshot) (res : select_result) : bool :=
  match res with
  | SelErr _ => true
  | SelReady kr kw =>
      negb (bool_decide (select_fds (high t + 1) (trfds t) kr = ∅)) ||
      negb (bool_decide (select_fds (high t + 1) (twfds t) kw = ∅))
  end.

(** One step of the poll thread, [res] being what the kernel would answer now. *)
Definition poll_step (res : select_result) (s : pm_sys) : outcome (pm_event * pm_sys) :=
  let m := pm s in
  match pc s with
  | AtTop =>
      if pending_change_ m
      then Ret (EvTau, PmSys (PollMgr (callbacks_ m) (aio_ m) false) Checked
                             (wake_all (removers s)))
      else Ret (EvTau, PmSys m Checked (removers s))
  | Checked => Ret (EvTau, PmSys m (Selecting (select_snapshot (aio_ m))) (removers s))
  | Selecting t =>
      if select_returns t res then
        '(a, readable, writable) ← select_wait_ready (aio_ m) t res;
        let m' := PollMgr (callbacks_ m) a (pending_change_ m) in
        match readable, writable with
        | [], [] => Ret (EvTau, PmSys m' AtTop (removers s))
        | _, _ => Ret (EvTau, PmSys m' (Dispatching readable writable) (removers s))
        end
      else Ret (EvTau, s)
  | Dispatching (fd :: readable) writable =>
      match callbacks_ m !! fd with
      | Some ch => Ret (EvRead fd ch, PmSys m (InCallback fd readable writable) (removers s))
      | None => Ret (EvTau, PmSys m (Dispatching readable writable) (removers s))
      end
  | Dispatching [] (fd :: writable) =>
      match callbacks_ m !! fd with
      | Some ch => Ret (EvWrite fd ch, PmSys m (InCallback fd [] writable) (removers s))
      | None => Ret (EvTau, PmSys m (Dispatching [] writable) (removers s))
      end
  | Dispatching [] [] => Ret (EvTau, PmSys m AtTop (removers s))
  | InCallback fd readable writable =>
      Ret (EvTau, PmSys m (Dispatching readable writable) (removers s))
  end.

(** The kernel reports the pipe exactly when it holds a byte, and [select] does not fail
    but for a signal. *)
Definition kernel_ok (a : select_aio) (res : select_result) : Prop :=
  match res with
  | SelErr eintr => eintr = true
  | SelReady kr _ => pipefd_ a ∈ kr <-> (0 < pipe_bytes a)%nat
  end.

(** A wait on a condition variable may end with no signal ([EvSpurious]). *)
Inductive pm_step : pm_sys -> pm_event -> pm_sys -> Prop :=
| step_add s fd flag ch m' :
    client_flag flag -> fd <> pipefd_ (aio_ (pm s)) ->
    pm_add_callback (pm s) fd flag ch = Ret m' ->
    pm_step s (EvAdd fd flag ch) (PmSys m' (pc s) (removers s))
| step_del s fd flag m' :
    client_flag flag -> fd <> pipefd_ (aio_ (pm s)) ->
    pm_del_callback (pm s) fd flag = Ret m' ->
    pm_step s (EvDel fd flag) (PmSys m' (pc s) (removers s))
| step_remove s t fd m' :
    removers s !! t = None -> in_callbacks fd = true -> fd <> pipefd_ (aio_ (pm s)) ->
    pm_remove_begin (pm s) fd = Ret m' ->
    pm_step s (EvRemove t fd) (PmSys m' (pc s) (<[t := (fd, false)]> (removers s)))
| step_spurious s t fd :
    removers s !! t = Some (fd, false) ->
    pm_step s (EvSpurious t) (PmSys (pm s) (pc s) (<[t := (fd, true)]> (removers s)))
| step_removed s t fd m' :
    removers s !! t = Some (fd, true) ->
    pm_remove_end (pm s) fd = Ret m' ->
    pm_step s (EvRemoved t fd) (PmSys m' (pc s) (delete t (removers s)))
| step_poll s res ev s' :
    kernel_ok (aio_ (pm s)) res ->
    poll_step res s = Ret (ev, s') ->
    pm_step s ev s'.

Inductive pm_run : pm_sys -> list pm_event -> pm_sys -> Prop :=
| run_nil s : pm_run s [] s
| run_cons s ev s1 tr s2 :
    pm_step s ev s1 -> pm_run s1 tr s2 -> pm_run s (ev :: tr) s2.

(** The constructor, and the states of a process that uses it. *)
Definition pm_new (p : Z) : outcome pm_sys :=
  a ← select_new p; Ret (PmSys (PollMgr ∅ a false) AtTop ∅).

(** Iterated poll steps, with what the kernel answers at each: any function of the step
    and the state. *)
Abbreviation kernel := (nat -> pm_sys -> select_result).
Fixpoint poll_iter (k : kernel) (n : nat) (s : pm_sys) : outcome pm_sys :=
  match n with
  | O => Ret s
  | S n' => '(ev, s') ← poll_step (k 0%nat s) s; poll_iter (fun i => k (S i)) n' s'
  end.

(** * The manager's invariant *)

Lemma watch_range a fd f a' :
  client_flag f -> select_watch_fd a fd f = Ret a' -> 0 <= fd < FD_SETSIZE.
Proof.
  unfold select_watch_fd, FD_SET, fd_in_range. intros Hf.
  destruct (_ && _) eqn:E; [lia|]. by destruct f.
Qed.
Lemma unwatch_range a fd f x :
  client_flag f -> select_unwatch_fd a fd f = Ret x -> 0 <= fd < FD_SETSIZE.
Proof.
  unfold select_unwatch_fd, FD_CLR, fd_in_range. intros Hf.
  destruct (_ && _) eqn:E; [lia|]. by destruct f.
Qed.

(** What [select] was given still has the pipe and lies below its bound. *)
Definition snapshot_ok (p : Z) (t : snapshot) : Prop :=
  p ∈ trfds t /\ (p ∉ twfds t) /\ (forall fd, fd ∈ trfds t ∪ twfds t -> 0 <= fd <= high t).

Record pm_inv (s : pm_sys) : Prop := {
  pi_aio : select_ok (aio_ (pm s));
  pi_snap t : pc s = Selecting t -> snapshot_ok (pipefd_ (aio_ (pm s))) t;
  pi_wait t fd : removers s !! t = Some (fd, false) -> pending_change_ (pm s) = true;
  (* the poll thread will not sleep through a change *)
  pi_wake : pending_change_ (pm s) = true ->
    match pc s with
    | Checked | Selecting _ => (0 < pipe_bytes (aio_ (pm s)))%nat
    | _ => True
    end
}.

Lemma pm_new_inv p s : pm_new p = Ret s -> pm_inv s.
Proof.
  unfold pm_new. intros E. inv_ret.
  match goal with Hn : select_new p = Ret _ |- _ => destruct (select_new_ok _ _ Hn) as (? & _) end.
  constructor; simpl; done.
Qed.

(** A step that changes the manager alone keeps the invariant if it keeps the pipe
    and takes nothing out of it. *)
Lemma pm_inv_mgr s m' r' :
  pm_inv s -> select_ok (aio_ m') ->
  pipefd_ (aio_ m') = pipefd_ (aio_ (pm s)) ->
  (pipe_bytes (aio_ (pm s)) <= pipe_bytes (aio_ m'))%nat ->
  (pending_change_ m' = true -> pending_change_ (pm s) = true \/
     (pipe_bytes (aio_ (pm s)) < pipe_bytes (aio_ m'))%nat) ->
  (forall t fd, r' !! t = Some (fd, false) -> pending_change_ m' = true) ->
  pm_inv (PmSys m' (pc s) r').
Proof.
  intros [Hok Hsn Hw Hwk] Hok' Hp Hb Hpd Hr. constructor; simpl; [done| |done|].
  - intros t E. rewrite Hp. eauto.
  - intros E. destruct (Hpd E) as [E'|Hlt]; [specialize (Hwk E')|]; destruct (pc s); try done; lia.
Qed.

(** The two operations of the manager a client step comes down to. *)
Lemma pm_watch_ok m fd f a' :
  select_ok (aio_ m) -> client_flag f -> fd <> pipefd_ (aio_ m) ->
  select_watch_fd (aio_ m) fd f = Ret a' ->
  select_ok a' /\ pipefd_ a' = pipefd_ (aio_ m) /\
  pipe_bytes a' = S (pipe_bytes (aio_ m)).
Proof.
  intros Hok Hf Hne E. pose proof (watch_range _ _ _ _ Hf E) as Hr.
  destruct (select_watch_spec _ _ _ Hok (conj Hr Hne) Hf) as (a & Ea & ? & ? & ? & _).
  rewrite E in Ea. by injection Ea as ->.
Qed.
Lemma pm_unwatch_ok m fd f a' gone :
  select_ok (aio_ m) -> client_flag f -> fd <> pipefd_ (aio_ m) ->
  select_unwatch_fd (aio_ m) fd f = Ret (a', gone) ->
  select_ok a' /\ pipefd_ a' = pipefd_ (aio_ m) /\
  pipe_bytes a' = (match f with CB_RDWR => 1 | _ => 0 end + pipe_bytes (aio_ m))%nat.
Proof.
  intros Hok Hf Hne E. pose proof (unwatch_range _ _ _ _ Hf E) as Hr.
  destruct (select_unwatch_spec _ _ _ Hok (conj Hr Hne) Hf) as (a & Ea & ? & ? & ? & _).
  rewrite E in Ea. by injection Ea as -> _.
Qed.

(** [wait_ready] on a good snapshot returns and leaves the sets alone. *)
Lemma wait_ready_total a t res :
  select_ok a -> snapshot_ok (pipefd_ a) t -> kernel_ok a res ->
  exists a' rd wr, select_wait_ready a t res = Ret (a', rd, wr) /\ select_ok a' /\ (forall fd, fd ∈ rd \/ fd ∈ wr -> fd ∈ trfds t ∪ twfds t).
Proof.
  intros Hok (Hs1 & Hs2 & Hs3) Hk. destruct res as [eintr|kr kw]; simpl in Hk.
  - subst. eexists _, _, _. split; [reflexivity|]. split; [done|]. set_solver.
  - destruct (select_wait_ready_ret a t kr kw Hs1 Hs2 Hs3 (proj1 Hk))
      as (a' & rd & wr & Ea & -> & _ & _ & Hrd & Hwr).
    eexists _, _, _. split; [exact Ea|]. split; [by destruct Hok; constructor|].
    intros fd. rewrite Hrd, Hwr. set_solver.
Qed.

Lemma poll_step_inv s res ev s' :
  pm_inv s -> kernel_ok (aio_ (pm s)) res -> poll_step res s = Ret (ev, s') -> pm_inv s'.
Proof.
  intros [Hok Hsn Hw Hwk] Hk E. unfold poll_step in E. destruct s as [m c r]; simpl in *.
  destruct c as [| |t|[|fd rd] wr|x rd wr]; simpl in E.
  - destruct (pending_change_ m) eqn:Ep; injection E as <- <-; constructor; simpl; try done.
    + intros t fd. unfold wake_all. rewrite lookup_fmap_Some. by intros ([] & [= ] & _).
    + rewrite Ep. exact Hw.
    + by rewrite Ep.
  - injection E as <- <-. constructor; simpl; try done. intros t [= <-].
    destruct Hok. split; [done|split; [done|]]. simpl. auto.
  - destruct (select_returns t res); [|injection E as <- <-; by constructor].
    destruct (wait_ready_total (aio_ m) t res Hok (Hsn t eq_refl) Hk)
      as (a & rd & wr & Ea & Hoka & _). rewrite Ea in E. simpl in E.
    destruct rd, wr; injection E as <- <-; by constructor.
  - destruct wr as [|fd wr]; [|destruct (callbacks_ m !! fd)]; injection E as <- <-;
      by constructor.
  - destruct (callbacks_ m !! fd); injection E as <- <-; by constructor.
  - injection E as <- <-. by constructor.
Qed.

Lemma pm_step_inv s ev s' : pm_inv s -> pm_step s ev s' -> pm_inv s'.
Proof.
  intros Hinv Hst. pose proof (pi_aio s Hinv) as Hok.
  destruct Hst as [s fd flag ch m' Hf Hne E|s fd flag m' Hf Hne E|s t fd m' Hr Hin Hne E
    |s t fd Hr|s t fd m' Hr E|s res ev s' Hk E]; [| | | | |by eapply poll_step_inv].
  - unfold pm_add_callback in E. inv_ret.
    match goal with Hw : select_watch_fd _ _ _ = Ret _ |- _ =>
      destruct (pm_watch_ok _ _ _ _ Hok Hf Hne Hw) as (? & ? & ?) end.
    apply pm_inv_mgr; simpl; try done; [lia|by left|apply (pi_wait s Hinv)].
  - unfold pm_del_callback in E. apply bind_ret_inv in E as ([a gone] & Hw & E).
    destruct (pm_unwatch_ok _ _ _ _ _ Hok Hf Hne Hw) as (? & ? & ?).
    destruct gone; [destruct (in_callbacks fd); [|done]|]; injection E as <-;
      (apply pm_inv_mgr; simpl; [done..|lia|by left|apply (pi_wait s Hinv)]).
  - unfold pm_remove_begin in E. apply bind_ret_inv in E as ([a gone] & Hw & E).
    destruct (pm_unwatch_ok _ _ CB_RDWR _ _ Hok I Hne Hw) as (? & ? & ?).
    injection E as <-. apply pm_inv_mgr; simpl; [done..|lia|right; lia|done].
  - apply pm_inv_mgr; simpl; [done..|by left|]. intros t' fd'.
    rewrite lookup_insert_Some. intros [[_ [=]]|[_ ?]]. by eapply (pi_wait s Hinv).
  - unfold pm_remove_end in E. destruct (in_callbacks fd); [|done]. injection E as <-.
    apply pm_inv_mgr; simpl; [done..|by left|]. intros t' fd'.
    rewrite lookup_delete_Some. intros [_ ?]. by eapply (pi_wait s Hinv).
Qed.

Lemma pm_run_inv s tr s' : pm_inv s -> pm_run s tr s' -> pm_inv s'.
Proof. intros Hi Hr. induction Hr; eauto using pm_step_inv. Qed.

(** * After [block_remove_fd] *)

(** Nobody asks for [fd], and the poll thread holds no report of it. *)
Definition unwatched (fd : Z) (a : select_aio) : Prop := fd ∉ rfds_ a ∪ wfds_ a.
Definition unreported (fd : Z) (c : poll_pc) : Prop :=
  match c with
  | Selecting t => fd ∉ trfds t ∪ twfds t
  | Dispatching readable writable => (fd ∉ readable) /\ (fd ∉ writable)
  | InCallback x readable writable => x <> fd /\ (fd ∉ readable) /\ (fd ∉ writable)
  | _ => True
  end.
Definition quiet (fd : Z) (s : pm_sys) : Prop :=
  unwatched fd (aio_ (pm s)) /\ unreported fd (pc s).
(** Between the two: a thread waits for the poll thread to come round. *)
Definition awaited (t : nat) (fd : Z) (s : pm_sys) : Prop :=
  unwatched fd (aio_ (pm s)) /\ removers s !! t = Some (fd, false).

Definition not_added (fd : Z) (ev : pm_event) : Prop :=
  match ev with EvAdd x _ _ => x <> fd | _ => True end.
Definition not_called (fd : Z) (ev : pm_event) : Prop :=
  match ev with EvRead x _ | EvWrite x _ => x <> fd | _ => True end.

Lemma watch_unwatched a x f a' fd :
  select_watch_fd a x f = Ret a' -> x <> fd -> unwatched fd a -> unwatched fd a'.
Proof.
  unfold select_watch_fd, FD_SET, unwatched. intros E Hne Hu.
  destruct f, (fd_in_range x); simpl in E; try done; injection E as <-; simpl; set_solver.
Qed.
Lemma unwatch_unwatched a x f a' b fd :
  select_unwatch_fd a x f = Ret (a', b) -> unwatched fd a \/ x = fd /\ f = CB_RDWR ->
  unwatched fd a'.
Proof.
  unfold select_unwatch_fd, FD_CLR, unwatched. intros E Hu.
  destruct f, (fd_in_range x); simpl in E; try done; injection E as <- _; simpl;
    destruct Hu as [Hu|[-> Hf]]; try done; set_solver.
Qed.
Lemma wait_ready_reports a t res a' rd wr :
  select_wait_ready a t res = Ret (a', rd, wr) ->
  rfds_ a' = rfds_ a /\ wfds_ a' = wfds_ a /\
  (forall fd, fd ∈ rd \/ fd ∈ wr -> fd ∈ trfds t ∪ twfds t).
Proof.
  unfold select_wait_ready. destruct res as [[]|kr kw]; [|done|].
  - intros [= <- <- <-]. set_solver.
  - rewrite foldl_collect. simpl. intros E.
    assert (Hrep : rfds_ a' = rfds_ a /\ wfds_ a' = wfds_ a /\
      rd = filter (fun fd => fd ∈ select_fds (high t + 1) (trfds t) kr /\ fd <> pipefd_ a)
             (seqZ 0 (high t + 1)) /\
      wr = filter (fun fd => fd ∈ select_fds (high t + 1) (twfds t) kw /\
               ~ (fd = pipefd_ a /\ fd ∈ select_fds (high t + 1) (trfds t) kr))
             (seqZ 0 (high t + 1))).
    { destruct (bool_decide _); [apply bind_ret_inv in E as ([] & _ & E)|];
        by injection E as <- <- <-. }
    destruct Hrep as (-> & -> & -> & ->). do 2 (split; [done|]). intros fd.
    rewrite !list_elem_of_filter. unfold select_fds. rewrite !elem_of_filter. set_solver.
Qed.

(** A step with no registration of [fd] leaves it unwatched. *)
Lemma step_unwatched s ev s' fd :
  pm_step s ev s' -> not_added fd ev ->
  unwatched fd (aio_ (pm s)) -> unwatched fd (aio_ (pm s')).
Proof.
  intros Hst Hna Hu.
  destruct Hst as [s x flag ch m' Hf Hne E|s x flag m' Hf Hne E|s t x m' Hr Hin Hne E
    |s t x Hr|s t x m' Hr E|s res ev s' Hk E]; simpl in *; [| | |done| |].
  - unfold pm_add_callback in E. inv_ret. simpl. by eapply watch_unwatched.
  - unfold pm_del_callback in E. apply bind_ret_inv in E as ([a gone] & Hw & E).
    destruct gone; [destruct (in_callbacks x); [|done]|]; injection E as <-; simpl;
      eapply unwatch_unwatched; eauto.
  - unfold pm_remove_begin in E. apply bind_ret_inv in E as ([a gone] & Hw & E).
    injection E as <-; simpl. eapply unwatch_unwatched; eauto.
  - unfold pm_remove_end in E. destruct (in_callbacks x); [|done]. by injection E as <-.
  - unfold poll_step in E. destruct s as [m c r]; simpl in *.
    destruct c as [| |t|[|x rd] wr|x rd wr].
    + destruct (pending_change_ m); by injection E as <- <-.
    + by injection E as <- <-.
    + destruct (select_returns t res); [|by injection E as <- <-].
      apply bind_ret_inv in E as ([[a rd] wr] & Hw & E).
      apply wait_ready_reports in Hw as (Hr & Hw & _).
      destruct rd, wr; injection E as <- <-; simpl; unfold unwatched; by rewrite Hr, Hw.
    + destruct wr as [|x wr]; [|destruct (callbacks_ m !! x)]; by injection E as <- <-.
    + destruct (callbacks_ m !! x); by injection E as <- <-.
    + by injection E as <- <-.
Qed.

Lemma step_quiet s ev s' fd :
  pm_step s ev s' -> not_added fd ev -> quiet fd s -> quiet fd s' /\ not_called fd ev.
Proof.
  intros Hst Hna [Hu Hq]. pose proof (step_unwatched _ _ _ _ Hst Hna Hu) as Hu'.
  cut (unreported fd (pc s') /\ not_called fd ev); [intros []; by split|].
  destruct Hst as [| | | | |s res ev s' Hk E]; [done..|].
  unfold poll_step in E. destruct s as [m c r]; simpl in *.
  destruct c as [| |t|[|x rd] wr|x rd wr]; simpl in Hq.
  - destruct (pending_change_ m); by injection E as <- <-.
  - injection E as <- <-. by split.
  - destruct (select_returns t res); [|by injection E as <- <-].
    apply bind_ret_inv in E as ([[a rd] wr] & Hw & E).
    apply wait_ready_reports in Hw as (_ & _ & Hin). specialize (Hin fd).
    destruct rd, wr; injection E as <- <-; simpl; (split; [|done]); try done;
      split; intros ?; apply Hq, Hin; auto.
  - destruct wr as [|x wr]; [|destruct (callbacks_ m !! x)]; injection E as <- <-; simpl;
      set_solver.
  - destruct (callbacks_ m !! x); injection E as <- <-; simpl; set_solver.
  - injection E as <- <-. simpl. tauto.
Qed.

(** The waiting thread is woken only once the poll thread's reports are used up. *)
Lemma step_awaited s ev s' t fd :
  pm_step s ev s' -> not_added fd ev -> ev <> EvSpurious t -> awaited t fd s ->
  (awaited t fd s' \/ quiet fd s') /\ ev <> EvRemoved t fd.
Proof.
  intros Hst Hna Hns [Hu Hr]. pose proof (step_unwatched _ _ _ _ Hst Hna Hu) as Hu'.
  unfold awaited, quiet.
  destruct Hst as [s x flag ch m' Hf Hne E|s x flag m' Hf Hne E|s t' x m' Hr' Hin Hne E
    |s t' x Hr'|s t' x m' Hr' E|s res ev s' Hk E]; simpl in *; [by auto..| | | |].
  - split; [|done]. left. split; [done|]. rewrite lookup_insert_ne; congruence.
  - split; [|done]. left. split; [done|]. rewrite lookup_insert_ne; congruence.
  - split; [|congruence]. left. split; [done|]. rewrite lookup_delete_ne; congruence.
  - unfold poll_step in E. destruct s as [m c r]; simpl in *.
    destruct c as [| |u|[|x rd] wr|x rd wr].
    + destruct (pending_change_ m); injection E as <- <-; simpl; auto.
    + injection E as <- <-; simpl; auto.
    + destruct (select_returns u res); [|injection E as <- <-; simpl; auto].
      apply bind_ret_inv in E as ([[a rd] wr] & Hw & E).
      destruct rd, wr; injection E as <- <-; simpl; auto.
    + destruct wr as [|x wr]; [|destruct (callbacks_ m !! x)]; injection E as <- <-; simpl; auto.
    + destruct (callbacks_ m !! x); injection E as <- <-; simpl; auto.
    + injection E as <- <-; simpl; auto.
Qed.

Lemma poll_step_event res s ev s' :
  poll_step res s = Ret (ev, s') ->
  match ev with EvRead _ _ | EvWrite _ _ | EvTau => True | _ => False end.
Proof.
  unfold poll_step. destruct s as [m [| |u|[|x rd] [|y wr]|x rd wr] r]; simpl; intros E.
  3: { destruct (select_returns u res); [|by injection E as <- _].
       apply bind_ret_inv in E as ([[a rd] wr] & _ & E).
       destruct rd, wr; by injection E as <- _. }
  all: try destruct (pending_change_ m); try destruct (callbacks_ m !! _);
    by injection E as <- _.
Qed.

Lemma quiet_not_running fd s : quiet fd s -> running (pc s) <> Some fd.
Proof. intros [_ Hq]. destruct (pc s); simpl in *; naive_solver. Qed.

Lemma run_quiet s tr s' fd :
  pm_run s tr s' -> Forall (not_added fd) tr -> quiet fd s ->
  Forall (not_called fd) tr /\ running (pc s') <> Some fd.
Proof.
  induction 1 as [s|s ev s1 tr s2 Hst _ IH]; intros Hna Hq.
  - split; [done|by apply quiet_not_running].
  - apply Forall_cons in Hna as [Hn Hna].
    destruct (step_quiet _ _ _ _ Hst Hn Hq) as [Hq' Hc].
    destruct (IH Hna Hq') as [? ?]. auto.
Qed.

Lemma run_awaited s tr1 ev tr2 s' t fd :
  pm_run s (tr1 ++ ev :: tr2) s' -> Forall (not_added fd) (tr1 ++ ev :: tr2) ->
  EvSpurious t ∉ tr1 -> ev = EvRemoved t fd -> awaited t fd s \/ quiet fd s ->
  Forall (not_called fd) tr2 /\ running (pc s') <> Some fd.
Proof.
  revert s. induction tr1 as [|e tr1 IH]; simpl; intros s Hrun Hna Hns He Hs;
    inversion Hrun as [|? ? s1 ? ? Hst Hrun']; subst; apply Forall_cons in Hna as [Hn Hna].
  - destruct Hs as [Ha|Hq].
    + by destruct (step_awaited _ _ _ _ _ Hst Hn ltac:(done) Ha) as [_ []].
    + destruct (step_quiet _ _ _ _ Hst Hn Hq) as [Hq' _]. by eapply run_quiet.
  - eapply (IH s1); [done|done|set_solver|done|].
    destruct Hs as [Ha|Hq].
    + assert (e <> EvSpurious t) as He by (intros ->; apply Hns; by left).
      by destruct (step_awaited _ _ _ _ _ Hst Hn He Ha).
    + right. by destruct (step_quiet _ _ _ _ Hst Hn Hq).
Qed.

(** C13 (no callback after block_remove_fd): as pollmgr.cc:57-59 promises, once
    [block_remove_fd(fd)] has returned to the thread that called it, no callback for [fd] is
    running and the poll thread calls neither [read_cb] nor [write_cb] for [fd] again,
    whatever the other threads and the kernel do, as long as nobody registers [fd] anew and
    the wait of this very call did not end spuriously, with no broadcast: POSIX allows that
    and pollmgr.cc:66 waits without a loop, so that [spurious_wakeup_running] happens then.
    The waits of other threads may end spuriously. *)
Theorem removed_fd_silent s t fd tr1 tr2 s' :
  pm_run s (EvRemove t fd :: tr1 ++ EvRemoved t fd :: tr2) s' ->
  Forall (not_added fd) (tr1 ++ tr2) -> EvSpurious t ∉ tr1 ->
  Forall (not_called fd) tr2 /\ running (pc s') <> Some fd.
Proof.
  intros Hrun Hna Hns. inversion Hrun as [|? ? s1 ? ? Hst Hrun']; subst.
  eapply run_awaited; [exact Hrun'| |exact Hns|reflexivity|].
  - apply Forall_app in Hna as [? ?]. apply Forall_app. split; [done|]. by constructor.
  - left. inversion Hst as [| |? ? ? m' Hr Hin Hne E| | |? res ? ? Hk E]; subst.
    + unfold pm_remove_begin in E. apply bind_ret_inv in E as ([a gone] & Hw & E).
      injection E as <-. split; simpl; [eapply unwatch_unwatched; eauto|].
      apply lookup_insert_eq.
    + by apply poll_step_event in E.
Qed.

(** ** The poll thread comes round *)

(** The kernel answers truthfully. *)
Definition honest (k : kernel) : Prop := forall i s, kernel_ok (aio_ (pm s)) (k i s).
Definition wakes (t : nat) (fd : Z) (k : kernel) (s : pm_sys) : Prop :=
  exists n s', poll_iter k n s = Ret s' /\ removers s' !! t = Some (fd, true).

Lemma wakes_step t fd k s ev s1 :
  poll_step (k 0%nat s) s = Ret (ev, s1) -> wakes t fd (fun i => k (S i)) s1 ->
  wakes t fd k s.
Proof.
  intros E (n & s' & En & Ha). exists (S n), s'. split; [|done]. simpl. by rewrite E.
Qed.

Lemma wakes_at_top t fd m r k :
  pending_change_ m = true -> r !! t = Some (fd, false) -> wakes t fd k (PmSys m AtTop r).
Proof.
  intros Hp Hr. eexists 1%nat, _. split; [simpl; unfold poll_step; simpl; by rewrite Hp|].
  simpl. unfold wake_all. by rewrite lookup_fmap, Hr.
Qed.

Lemma wakes_dispatching t fd m r rd wr : forall k,
  pending_change_ m = true -> r !! t = Some (fd, false) ->
  wakes t fd k (PmSys m (Dispatching rd wr) r).
Proof.
  induction rd as [|x rd IH]; [induction wr as [|x wr IH]|]; intros k Hp Hr.
  - eapply wakes_step; [reflexivity|]. by eapply wakes_at_top.
  - destruct (callbacks_ m !! x) as [ch|] eqn:Ex;
      (eapply wakes_step; [unfold poll_step; simpl; rewrite Ex; reflexivity|]);
      [eapply wakes_step; [reflexivity|]|]; auto.
  - destruct (callbacks_ m !! x) as [ch|] eqn:Ex;
      (eapply wakes_step; [unfold poll_step; simpl; rewrite Ex; reflexivity|]);
      [eapply wakes_step; [reflexivity|]|]; auto.
Qed.

(** The byte the removal left in the pipe gets the thread out of [select]. *)
Lemma pipe_ends_select a t res :
  snapshot_ok (pipefd_ a) t -> kernel_ok a res -> (0 < pipe_bytes a)%nat ->
  select_returns t res = true.
Proof.
  intros (Hp & _ & Hh) Hk Hb. destruct res as [|kr kw]; [done|]. simpl in *.
  rewrite (bool_decide_eq_false_2 (select_fds _ (trfds t) kr = ∅)); [done|].
  apply Hk in Hb. assert (0 <= pipefd_ a <= high t) by (apply Hh; set_solver).
  assert (pipefd_ a ∈ select_fds (high t + 1) (trfds t) kr); [|set_solver].
  unfold select_fds. rewrite elem_of_filter. split; [split; [lia|done]|done].
Qed.

Lemma wakes_selecting t fd m u r k :
  pm_inv (PmSys m (Selecting u) r) -> honest k ->
  r !! t = Some (fd, false) -> wakes t fd k (PmSys m (Selecting u) r).
Proof.
  intros [Hok Hsn Hw Hwk] Hk Hr. simpl in *.
  pose proof (Hw t fd Hr) as Hp. specialize (Hsn u eq_refl).
  pose proof (Hk 0%nat (PmSys m (Selecting u) r)) as Hk0; simpl in Hk0.
  destruct (wait_ready_total _ u _ Hok Hsn Hk0) as (a & rd & wr & Ea & _).
  pose proof (pipe_ends_select _ u _ Hsn Hk0 (Hwk Hp)) as Hret.
  set (m' := PollMgr (callbacks_ m) a (pending_change_ m)).
  assert (E : exists c, poll_step (k 0%nat (PmSys m (Selecting u) r)) (PmSys m (Selecting u) r) =
      Ret (EvTau, PmSys m' c r) /\ (c = AtTop \/ c = Dispatching rd wr)).
  { unfold poll_step; simpl. rewrite Hret, Ea. simpl. destruct rd, wr; eauto. }
  destruct E as (c & E & Hc). eapply wakes_step; [exact E|].
  destruct Hc as [->| ->]; [by eapply wakes_at_top|by eapply wakes_dispatching].
Qed.

(** C20 (block_remove_fd comes to an end): whenever a thread waits inside [block_remove_fd],
    finitely many steps of the poll thread wake it, whatever descriptors the kernel reports
    ready: the byte its request wrote to the pipe gets the thread out of [select], so that
    it does not wait for unrelated traffic. *)
Theorem removal_is_noticed p s0 tr s t fd k :
  pm_new p = Ret s0 -> pm_run s0 tr s ->
  removers s !! t = Some (fd, false) -> honest k ->
  exists n s', poll_iter k n s = Ret s' /\ removers s' !! t = Some (fd, true).
Proof.
  intros Hnew Hrun Hr Hk. change (wakes t fd k s).
  assert (Hinv : pm_inv s) by (eapply pm_run_inv; [by eapply pm_new_inv|exact Hrun]).
  assert (Hk' : honest (fun i => k (S i))) by (intros i; apply Hk).
  pose proof (pi_wait _ Hinv t fd Hr) as Hp.
  destruct s as [m [| |u|rd wr|x rd wr] r]; simpl in Hr, Hp.
  - by eapply wakes_at_top.
  - eapply wakes_step; [reflexivity|]. eapply wakes_selecting; [|done..].
    by eapply (poll_step_inv _ (k 0%nat _)); [exact Hinv|apply Hk|].
  - by eapply wakes_selecting.
  - by eapply wakes_dispatching.
  - eapply wakes_step; [reflexivity|]. by eapply wakes_dispatching.
Qed.

(** * The two managers answer alike *)

(** Select and epoll agree: after the same registrations and removals (a removal only
    of something registered, as the connections do), [SelectAIO] and [EPollAIO] have both
    returned, have given the same answers, watch exactly the same descriptors for the same
    events, and these are the ones a map from descriptors to registrations prescribes. *)
Theorem select_epoll_agree p a rs s bs :
  select_new p = Ret a ->
  Forall (fun r => 0 <= req_fd r < MAX_POLL_FDS /\ req_fd r <> p) rs ->
  spec_run ∅ rs = Some (s, bs) ->
  exists a' e', aio_run a rs = Ret (a', bs) /\ aio_run epoll_new rs = Ret (e', bs) /\
    (forall fd, aio_status a' fd = reg_of s fd /\ aio_status e' fd = reg_of s fd).
Proof.
  intros Hnew Hfds Hrun. destruct (select_new_ok p a Hnew) as (Hok & Hst & <-).
  destruct epoll_new_ok as [Heok Hest].
  destruct (aio_refines (H := select_aio_mgr) rs a ∅ s bs Hok Hst) as (a' & Ea & _ & Ha); [|done|].
  { eapply Forall_impl; [exact Hfds|]. intros r [? ?]. split; [|done].
    unfold FD_SETSIZE, MAX_POLL_FDS in *. lia. }
  destruct (aio_refines (H := epoll_aio_mgr) rs epoll_new ∅ s bs Heok Hest) as (e' & Ee & _ & He); [|done|].
  { eapply Forall_impl; [exact Hfds|]. by intros r [? ?]. }
  exists a', e'. auto.
Qed.

(** Wait_ready reports what is ready: after any registrations and removals, [wait_ready]
    of the [select] manager returns, and its vectors hold, once each, exactly the descriptors
    that are registered for the event and ready; [highfds_] never falls below a watched
    descriptor. *)
Theorem wait_ready_exact p a rs s bs a' kr kw :
  select_new p = Ret a ->
  Forall (fun r => 0 <= req_fd r < FD_SETSIZE /\ req_fd r <> p) rs ->
  spec_run ∅ rs = Some (s, bs) -> aio_run a rs = Ret (a', bs) ->
  kernel_ok a' (SelReady kr kw) ->
  exists a'' readable writable,
    select_wait_ready a' (select_snapshot a') (SelReady kr kw) = Ret (a'', readable, writable) /\
    NoDup readable /\ NoDup writable /\
    (forall fd, fd <> p -> fd ∈ readable <-> (reg_of s fd).1 = true /\ fd ∈ kr) /\
    (forall fd, fd <> p -> fd ∈ writable <-> (reg_of s fd).2 = true /\ fd ∈ kw).
Proof.
  intros Hnew Hfds Hrun Ha Hk. destruct (select_new_ok p a Hnew) as (Hok & Hst & Hp).
  destruct (aio_refines (H := select_aio_mgr) rs a ∅ s bs Hok Hst) as (a1 & Ea & Hok' & Hst'); [|done|].
  { eapply Forall_impl; [exact Hfds|]. intros r [? ?]. by rewrite <- Hp in *. }
  rewrite Ha in Ea. injection Ea as <-.
  assert (Hp' : pipefd_ a' = p).
  { rewrite <- Hp. eapply select_run_pipe. exact Ha. }
  destruct Hok' as [? ? ? ? Hf].
  destruct (select_wait_ready_ret a' (select_snapshot a') kr kw)
    as (a'' & rd & wr & Ew & _ & Hn1 & Hn2 & Hr & Hw); [done..|apply Hk|].
  exists a'', rd, wr. split; [done|]. split; [done|]. split; [done|].
  split; intros fd Hne; rewrite Hr || rewrite Hw; rewrite <- Hst'; simpl; unfold select_status;
    rewrite Hp', (proj2 (Z.eqb_neq fd p)) by done; simpl; unfold FD_ISSET;
    rewrite bool_decide_eq_true; tauto.
Qed.

(** [EPollAIO::is_watched] masks with [CB_MASK], the complement of both flags: it denies
    every registration a client can have made. *)
Lemma epoll_is_watched_never a fd f :
  epoll_ok a -> epoll_fd a fd -> client_flag f -> epoll_is_watched a fd f = Ret false.
Proof.
  intros Hok Hfd Hf. unfold epoll_is_watched. rewrite get_fdstatus_ret by done. simpl.
  by destruct (epoll_status a fd) as [[] []], f.
Qed.

(** * Running the system on concrete schedules *)

Inductive pm_act :=
| DoAdd (fd : Z) (flag : poll_flag) (ch : nat)
| DoRemove (t : nat) (fd : Z)
| DoSpurious (t : nat)
| DoRemoved (t : nat)
| DoPoll (kr kw : list Z).

#[global] Instance kernel_ok_dec a res : Decision (kernel_ok a res).
Proof. destruct res; simpl; apply _. Defined.

Definition pm_do (act : pm_act) (s : pm_sys) : option (pm_event * pm_sys) :=
  match act with
  | DoAdd fd flag ch =>
      guard (client_flag flag);; guard (fd <> pipefd_ (aio_ (pm s)));;
      match pm_add_callback (pm s) fd flag ch with
      | Ret m' => Some (EvAdd fd flag ch, PmSys m' (pc s) (removers s))
      | Fault _ => None end
  | DoRemove t fd =>
      guard (removers s !! t = None);; guard (in_callbacks fd = true);;
      guard (fd <> pipefd_ (aio_ (pm s)));;
      match pm_remove_begin (pm s) fd with
      | Ret m' => Some (EvRemove t fd, PmSys m' (pc s) (<[t := (fd, false)]> (removers s)))
      | Fault _ => None end
  | DoSpurious t =>
      match removers s !! t with
      | Some (fd, false) =>
          Some (EvSpurious t, PmSys (pm s) (pc s) (<[t := (fd, true)]> (removers s)))
      | _ => None end
  | DoRemoved t =>
      match removers s !! t with
      | Some (fd, true) =>
          match pm_remove_end (pm s) fd with
          | Ret m' => Some (EvRemoved t fd, PmSys m' (pc s) (delete t (removers s)))
          | Fault _ => None end
      | _ => None end
  | DoPoll kr kw =>
      let res := SelReady (list_to_set kr) (list_to_set kw) in
      guard (kernel_ok (aio_ (pm s)) res);;
      match poll_step res s with Ret x => Some x | Fault _ => None end
  end.

Fixpoint pm_exec (acts : list pm_act) (s : pm_sys) : option (list pm_event * pm_sys) :=
  match acts with
  | [] => Some ([], s)
  | act :: acts' =>
      '(ev, s1) ← pm_do act s;
      '(tr, s2) ← pm_exec acts' s1;
      Some (ev :: tr, s2)
  end.

Lemma pm_do_sound act s ev s' : pm_do act s = Some (ev, s') -> pm_step s ev s'.
Proof.
  destruct act as [fd flag ch|t fd|t|t|kr kw]; simpl; intros E.
  - simplify_option_eq. destruct (pm_add_callback _ _ _ _) eqn:?; [|done].
    injection E as <- <-. by constructor.
  - simplify_option_eq. destruct (pm_remove_begin _ _) eqn:?; [|done].
    injection E as <- <-. by constructor.
  - destruct (removers s !! t) as [[fd []]|] eqn:?; try done.
    injection E as <- <-. by apply step_spurious.
  - destruct (removers s !! t) as [[fd []]|] eqn:?; try done.
    destruct (pm_remove_end _ _) eqn:?; [|done]. injection E as <- <-. by apply step_removed.
  - case_guard as Hk; [|done]. simpl in E.
    destruct (poll_step _ _) as [[ev1 s1]|] eqn:Ep; [|done].
    injection E as <- <-. eapply step_poll; [|exact Ep]. exact Hk.
Qed.

Lemma pm_exec_sound acts : forall s tr s',
  pm_exec acts s = Some (tr, s') -> pm_run s tr s'.
Proof.
  induction acts as [|act acts IH]; simpl; intros s tr s' E.
  - injection E as <- <-. constructor.
  - destruct (pm_do act s) as [[ev s1]|] eqn:E1; [|done]. simpl in E.
    destruct (pm_exec acts s1) as [[tr1 s2]|] eqn:E2; [|done]. simpl in E.
    injection E as <- <-. econstructor; [by apply pm_do_sound in E1|by apply IH].
Qed.

(** A pipe at 3 and one connection at 5, in its callback's dispatch list when another
    thread removes it. *)
Definition sys5 (acts : list pm_act) : option (list pm_event * pm_sys) :=
  match pm_new 3 with
  | Ret s => pm_exec ([DoAdd 5 CB_RDONLY 1; DoPoll [3] []; DoPoll [3] [];
                         DoPoll [3; 5] []] ++ acts) s
  | Fault _ => None
  end.
Definition events (r : option (list pm_event * pm_sys)) : list pm_event :=
  match r with Some (tr, _) => tr | None => [] end.

(** The state of [sys5] in which the poll thread is about to call back. *)
Definition busy5 : pm_sys :=
  match sys5 [] with
  | Some (_, s) => s
  | None => PmSys (PollMgr ∅ (SelectAIO ∅ ∅ 0 0 0) false) AtTop ∅
  end.

Definition removing5 : list pm_act :=
  [DoRemove 7 5; DoPoll [3; 5] []; DoPoll [3; 5] []; DoPoll [3; 5] []; DoPoll [3; 5] [];
   DoRemoved 7; DoPoll [3; 5] []; DoPoll [3; 5] []; DoPoll [5] []].

Lemma removed_fd_silent_witness :
  events (pm_exec removing5 busy5) =
    EvRemove 7 5 :: [EvRead 5 1; EvTau; EvTau; EvTau] ++ EvRemoved 7 5 :: [EvTau; EvTau; EvTau] /\
  Forall (not_called 5) [EvTau; EvTau; EvTau].
Proof.
  destruct (pm_exec removing5 busy5) as [[tr s']|] eqn:E; [|by vm_compute in E].
  assert (Htr : tr = events (pm_exec removing5 busy5)) by (by rewrite E).
  vm_compute in Htr. split; [exact Htr|].
  apply pm_exec_sound in E. rewrite Htr in E.
  eapply (removed_fd_silent busy5 7 5 [EvRead 5 1; EvTau; EvTau; EvTau]); [exact E| |].
  - repeat constructor.
  - set_solver.
Defined.

(** If the wait ends with no broadcast, [block_remove_fd] returns while the callback runs. *)
Example spurious_wakeup_running :
  match sys5 [DoPoll [5] []; DoRemove 7 5; DoSpurious 7; DoRemoved 7] with
  | Some (_, s) => removers s !! 7%nat = None /\ running (pc s) = Some 5
  | None => False
  end.
Proof. by vm_compute. Qed.

Definition truthful : kernel := fun _ s =>
  SelReady (if Nat.ltb 0 (pipe_bytes (aio_ (pm s))) then {[pipefd_ (aio_ (pm s)); 5]}
            else {[pipefd_ (aio_ (pm s)) + 1]}) ∅.

Lemma truthful_honest : honest truthful.
Proof.
  intros i s. unfold truthful, kernel_ok. destruct (Nat.ltb_spec 0 (pipe_bytes (aio_ (pm s)))).
  - set_solver by lia.
  - rewrite elem_of_singleton. lia.
Qed.

Lemma removal_is_noticed_witness :
  exists s n s', sys5 [DoRemove 7 5] = Some (events (sys5 [DoRemove 7 5]), s) /\
    poll_iter truthful n s = Ret s' /\ removers s' !! 7%nat = Some (5, true).
Proof.
  destruct (sys5 [DoRemove 7 5]) as [[tr s]|] eqn:E; [|by vm_compute in E].
  pose proof E as E'. unfold sys5 in E'. destruct (pm_new 3) as [s0|] eqn:E0; [|done].
  apply pm_exec_sound in E'.
  assert (Hr : removers s !! 7%nat = Some (5, false)) by (vm_compute in E; by injection E as <- <-).
  destruct (removal_is_noticed 3 s0 _ s 7 5 truthful E0 E' Hr truthful_honest)
    as (n & s' & En & Hr').
  exists s, n, s'. simpl. split; [reflexivity|]. split; [exact En|exact Hr'].
Defined.

Definition reqs59 : list aio_req :=
  [WatchFd 9 CB_RDONLY; WatchFd 5 CB_RDONLY; WatchFd 5 CB_WRONLY; UnwatchFd 5 CB_WRONLY;
   UnwatchFd 9 CB_RDWR].

Lemma select_epoll_agree_witness :
  exists a', aio_run (SelectAIO {[3]} ∅ 3 3 0) reqs59 = Ret (a', [false; true]) /\
    aio_status a' 5 = (true, false) /\ highfds_ a' = 5.
Proof.
  destruct (select_new 3) as [a|] eqn:Ea; [|by vm_compute in Ea].
  destruct (spec_run ∅ reqs59) as [[s bs]|] eqn:Es; [|by vm_compute in Es].
  destruct (select_epoll_agree 3 a reqs59 s bs Ea) as (a' & e' & H1 & _ & H2).
  - repeat constructor; simpl; unfold MAX_POLL_FDS; lia.
  - exact Es.
  - destruct (H2 5) as [H5 _].
    vm_compute in Ea. injection Ea as <-.
    exists a'. vm_compute in Es. injection Es as <- <-.
    split; [exact H1|]. split; [exact H5|]. vm_compute in H1. injection H1 as <-. reflexivity.
Defined.

Lemma wait_ready_exact_witness :
  exists a' a'' readable writable,
    aio_run (SelectAIO {[3]} ∅ 3 3 0) reqs59 = Ret (a', [false; true]) /\
    select_wait_ready a' (select_snapshot a') (SelReady {[3; 5; 9]} {[5]}) =
      Ret (a'', readable, writable) /\ 5 ∈ readable /\ ~ 9 ∈ readable /\ ~ 5 ∈ writable.
Proof.
  destruct (select_new 3) as [a|] eqn:Ea; [|by vm_compute in Ea].
  destruct (spec_run ∅ reqs59) as [[s bs]|] eqn:Es; [|by vm_compute in Es].
  destruct (aio_run a reqs59) as [[a' bs']|] eqn:Er;
    [|vm_compute in Ea; injection Ea as <-; by vm_compute in Er].
  assert (Hbs : bs' = bs).
  { vm_compute in Ea, Es. injection Ea as <-. injection Es as _ <-.
    vm_compute in Er. by injection Er. }
  subst bs'.
  destruct (wait_ready_exact 3 a reqs59 s bs a' {[3; 5; 9]} {[5]} Ea)
    as (a'' & rd & wr & Ew & _ & _ & Hr & Hw); [|exact Es|exact Er| |].
  - repeat constructor; simpl; unfold FD_SETSIZE; lia.
  - vm_compute in Ea. injection Ea as <-. vm_compute in Er. injection Er as <- _.
    simpl. split; [lia|]. intros _. by_computing.
  - assert (H5 : reg_of s 5 = (true, false)) by (vm_compute in Es; by injection Es as <- _).
    assert (H9 : reg_of s 9 = (false, false)) by (vm_compute in Es; by injection Es as <- _).
    assert (Hb : bs = [false; true]) by (vm_compute in Es; by injection Es).
    vm_compute in Ea. injection Ea as <-.
    exists a', a'', rd, wr. rewrite <- Hb. split; [exact Er|]. split; [exact Ew|].
    rewrite !Hr, Hw, H5, H9 by lia. split; [split; [reflexivity|]; by_computing|].
    split; intros [[=] _].
Defined.
