(* ===== verification/Transport.v ===== *)
(** The message channel of rpc/connection.cc and rpc/connection.h: a [connection] frames
    buffers (PDUs) on a TCP byte stream and takes them apart again, counts its references,
    and is thrown away by the accepting side once it is dead.

    Each critical section of [connection] is one function; what it asks of the poll manager
    is in its result.  [link] puts a sending and a receiving connection at the two ends of a
    byte stream that splits and delays as it likes, and [link_step] is everything that can
    happen to them.

    Of the operating system: a socket holds the bytes that have arrived; [read] takes at
    least one and at most the number asked for, [write] takes some of those offered. *)
From Stdlib Require Import ZArith Lia Ascii String.
From stdpp Require Import base gmap list strings.
From S2P Require Import Prelude Marshall PollMgr.
Local Open Scope Z_scope.

Definition MAX_PDU : Z := Z.shiftl 10 20.

(** [charbuf]: [solong] is the amount of bytes written or read so far. *)
Record charbuf := Charbuf { buf : option (list ascii); sz : Z; solong : Z }.
Definition charbuf_new : charbuf := Charbuf None 0 0.

Record connection := Connection {
  fd_ : Z;
  dead_ : bool;
  wpdu_ : charbuf;
  rpdu_ : charbuf;
  waiters_ : Z;
  refno_ : Z
}.

Definition set_wpdu (c : connection) (w : charbuf) : connection :=
  Connection (fd_ c) (dead_ c) w (rpdu_ c) (waiters_ c) (refno_ c).
Definition set_rpdu (c : connection) (r : charbuf) : connection :=
  Connection (fd_ c) (dead_ c) (wpdu_ c) r (waiters_ c) (refno_ c).
Definition set_dead (c : connection) : connection :=
  Connection (fd_ c) true (wpdu_ c) (rpdu_ c) (waiters_ c) (refno_ c).
Definition set_waiters (c : connection) (n : Z) : connection :=
  Connection (fd_ c) (dead_ c) (wpdu_ c) (rpdu_ c) n (refno_ c).
Definition set_refno (c : connection) (n : Z) : connection :=
  Connection (fd_ c) (dead_ c) (wpdu_ c) (rpdu_ c) (waiters_ c) n.

(** What a method asks of the poll manager and of the socket. *)
Inductive chan_req :=
| AddCallback (f : poll_flag)
| DelCallback (f : poll_flag)
| BlockRemoveFd
| Shutdown.

(** The constructor. *)
Definition connection_new (fd : Z) : connection * list chan_req :=
  (Connection fd false charbuf_new charbuf_new 0 1, [AddCallback CB_RDONLY]).

(** * References *)

Definition incref (c : connection) : connection := set_refno c (refno_ c + 1).
Definition isdead (c : connection) : bool := dead_ c.
Definition ref (c : connection) : Z := refno_ c.

Definition closeconn (c : connection) : connection * list chan_req :=
  if dead_ c then (c, []) else (set_dead c, [Shutdown; BlockRemoveFd]).

(** The destructor's assertions. *)
Definition connection_delete (c : connection) : outcome unit :=
  _ ← verify (dead_ c);
  verify (match buf (wpdu_ c) with None => true | Some _ => false end).

(** [None]: the object was deleted. *)
Definition decref (c : connection) : outcome (option connection) :=
  let c := set_refno c (refno_ c - 1) in
  _ ← verify (0 <=? refno_ c);
  if (refno_ c =? 0) && dead_ c
  then (_ ← connection_delete c; Ret None)
  else Ret (Some c).

(** * Sending *)

(** What [write] returns. *)
Inductive write_result := WroteBytes (n : nat) | WriteErr (eagain : bool).

(** The bytes of [htonl(sz)] in memory. *)
Definition size_word (n : Z) : list ascii := enc_uint (u32 n).

(** [writepdu]: the connection, the bytes the kernel took, and the result.  A buffer shorter
    than it is said to be would be read past its end. *)
Definition writepdu (c : connection) (r : write_result)
    : outcome (connection * list ascii * bool) :=
  let w := wpdu_ c in
  _ ← verify (0 <=? solong w);
  if solong w =? sz w then Ret (c, [], true)
  else
    match buf w with
    | None => Fault Undefined
    | Some b =>
        if (sz w <? solong w) || (Z.of_nat (length b) <? sz w)
           || ((solong w =? 0) && (Z.of_nat (length b) <? 4))
        then Fault Undefined
        else
          let b := if solong w =? 0 then blit b 0 (size_word (sz w)) else b in
          match r with
          | WriteErr true => Ret (set_wpdu c (Charbuf (Some b) (sz w) (solong w)), [], true)
          | WriteErr false => Ret (set_wpdu c (Charbuf (Some b) 0 (-1)), [], false)
          | WroteBytes k =>
              let n := Z.min (Z.of_nat k) (sz w - solong w) in
              Ret (set_wpdu c (Charbuf (Some b) (sz w) (solong w + n)),
                   take (Z.to_nat n) (drop (Z.to_nat (solong w)) b), true)
          end
    end.

(** [send] up to its first wait, and the condition of that wait. *)
Definition send_enter (c : connection) : connection := set_waiters c (waiters_ c + 1).
Definition send_blocked (c : connection) : bool :=
  negb (dead_ c) && match buf (wpdu_ c) with Some _ => true | None => false end.

(** The end of [send]; the broadcast on [send_wait_] has the blocked senders look again. *)
Definition send_finish (c : connection) : connection * bool :=
  let ret := negb (dead_ c) && (solong (wpdu_ c) =? sz (wpdu_ c)) in
  (set_wpdu c (Charbuf None 0 0), ret).

(** Where [send] is after the first wait: returned, outside the lock in [block_remove_fd]
    after a failed write, or waiting on [send_complete_]. *)
Inductive send_state := SendReturned (ret : bool) | SendFailed | SendWaiting.

(** [send] from the end of the first wait; with the lossy test the socket may be shut down
    before the write, which then fails. *)
Definition send_start (c : connection) (b : list ascii) (n : Z) (r : write_result)
    : outcome (connection * list ascii * list chan_req * send_state) :=
  let c := set_waiters c (waiters_ c - 1) in
  if dead_ c then Ret (c, [], [], SendReturned false)
  else
    let c := set_wpdu c (Charbuf (Some b) n 0) in
    '(c, out, ok) ← writepdu c r;
    if negb ok then Ret (set_dead c, out, [BlockRemoveFd], SendFailed)
    else if solong (wpdu_ c) =? sz (wpdu_ c) then
      let '(c, ret) := send_finish c in Ret (c, out, [], SendReturned ret)
    else Ret (c, out, [AddCallback CB_WRONLY], SendWaiting).

(** The condition of the wait on [send_complete_]. *)
Definition send_incomplete (c : connection) : bool :=
  negb (dead_ c) && (0 <=? solong (wpdu_ c)) && (solong (wpdu_ c) <? sz (wpdu_ c)).

(** [write_cb]; the last component says whether [send_complete_] is signalled. *)
Definition write_cb (c : connection) (r : write_result)
    : outcome (connection * list ascii * list chan_req * bool) :=
  _ ← verify (negb (dead_ c));
  if sz (wpdu_ c) =? 0 then Ret (c, [], [DelCallback CB_WRONLY], false)
  else
    '(c, out, ok) ← writepdu c r;
    if negb ok then Ret (set_dead c, out, [DelCallback CB_RDWR], true)
    else
      _ ← verify (0 <=? solong (wpdu_ c));
      if solong (wpdu_ c) <? sz (wpdu_ c) then Ret (c, out, [], false)
      else Ret (c, out, [], true).

(** * Receiving *)

(** A socket's receive side: the bytes that have arrived, and whether the other side closed
    or the connection broke. *)
Record sock := Sock { avail : list ascii; eof : bool; broken : bool }.

(** What [read] returns: an empty list is 0. *)
Inductive read_result := ReadBytes (l : list ascii) | ReadErr (eagain : bool).

(** [read(fd, p, count)], where the kernel chooses to return [k] bytes if it may; [count]
    is converted to an unsigned 64-bit [size_t].  A count above [SSIZE_MAX], for which POSIX
    leaves the result to the implementation, is refused with [EINVAL], as Linux does. *)
Definition SSIZE_MAX : Z := 2 ^ 63 - 1.
Definition sys_read (k : nat) (count : Z) (s : sock) : read_result * sock :=
  if SSIZE_MAX <? u64 count then (ReadErr false, s)
  else if u64 count =? 0 then (ReadBytes [], s)
  else
    match avail s with
    | [] => if broken s then (ReadErr false, s)
            else if eof s then (ReadBytes [], s) else (ReadErr true, s)
    | _ :: _ =>
        let n := Nat.max 1 (Nat.min k (Z.to_nat (Z.min (u64 count)
                                                    (Z.of_nat (length (avail s)))))) in
        (ReadBytes (take n (avail s)), Sock (drop n (avail s)) (eof s) (broken s))
    end.

(** [ntohl] of four bytes in memory, as an [int]. *)
Definition word_value (l : list ascii) : Z :=
  match map Z_of_char l with
  | [b3; b2; b1; b0] =>
      s32 (Z.lor (Z.lor (Z.lor (Z.shiftl b3 24) (Z.shiftl b2 16)) (Z.shiftl b1 8)) b0)
  | _ => 0
  end.

Section receiving.
  Context `{Memory}.

(** The size word.  [None] is the return of [false]; a negative size makes [malloc] fail
    (the size is converted to [size_t]) or return a block too small for the word. *)
Definition read_size (c : connection) (k : nat) (s : sock)
    : outcome (option connection * sock) :=
  let '(r, s1) := sys_read k 4 s in
  match r with
  | ReadErr eagain => _ ← verify (negb eagain); Ret (None, s1)
  | ReadBytes l =>
      if negb (Nat.eqb (length l) 4) then Ret (None, s1)
      else
        let n := word_value l in
        if MAX_PDU <? n then Ret (None, s1)
        else
          _ ← verify (match buf (rpdu_ c) with None => true | Some _ => false end);
          _ ← verify (0 <=? n + 4);
          if n + 4 <? 4 then Fault Undefined
          else Ret (Some (set_rpdu c (Charbuf (Some (blit (realloc [] (Z.to_nat (n + 4))) 0 l))
                                              n 4)), s1)
  end.

(** The body.  [stale]: [errno] was [EAGAIN] before the call, which a [read] that returns 0
    does not change. *)
Definition read_body (c : connection) (k : nat) (stale : bool) (s : sock)
    : outcome (connection * sock * bool) :=
  let w := rpdu_ c in
  let '(r, s1) := sys_read k (sz w - solong w) s in
  let give_back (again : bool) :=
    if again then Ret (c, s1, true) else Ret (set_rpdu c (Charbuf None 0 0), s1, false) in
  match r with
  | ReadErr eagain => give_back eagain
  | ReadBytes [] => give_back stale
  | ReadBytes l =>
      match buf w with
      | None => Fault Undefined
      | Some b =>
          if Z.of_nat (length b) <? solong w + Z.of_nat (length l) then Fault Undefined
          else Ret (set_rpdu c (Charbuf (Some (blit b (Z.to_nat (solong w)) l)) (sz w)
                                        (solong w + Z.of_nat (length l))), s1, true)
      end
  end.

Definition readpdu (c : connection) (k1 k2 : nat) (stale : bool) (s : sock)
    : outcome (connection * sock * bool) :=
  if sz (rpdu_ c) =? 0 then
    '(oc, s1) ← read_size c k1 s;
    match oc with
    | None => Ret (c, s1, false)
    | Some c1 => read_body c1 k2 stale s1
    end
  else read_body c k2 stale s.

(** A complete PDU, as [got_pdu] is given it. *)
Definition complete_pdu (c : connection) : option (list ascii) :=
  match buf (rpdu_ c) with
  | Some b => if sz (rpdu_ c) =? solong (rpdu_ c)
              then Some (take (Z.to_nat (sz (rpdu_ c))) b) else None
  | None => None
  end.

(** The end of [read_cb]: a complete PDU goes to [got_pdu], which answers [accept].  The
    result has the PDU if it was accepted. *)
Definition hand_over (c : connection) (accept : bool) : connection * option (list ascii) :=
  match complete_pdu c with
  | Some p => if accept then (set_rpdu c (Charbuf None 0 0), Some p) else (c, None)
  | None => (c, None)
  end.

Definition read_cb (c : connection) (k1 k2 : nat) (stale accept : bool) (s : sock)
    : outcome (connection * sock * list chan_req * option (list ascii)) :=
  if dead_ c then Ret (c, s, [], None)
  else
    '(c, s, succ) ←
      (if match buf (rpdu_ c) with None => true | Some _ => solong (rpdu_ c) <? sz (rpdu_ c) end
       then readpdu c k1 k2 stale s else Ret (c, s, true));
    let '(c, reqs) := if (succ : bool) then (c, []) else (set_dead c, [DelCallback CB_RDWR]) in
    let '(c, op) := hand_over c accept in
    Ret (c, s, reqs, op).

End receiving.

(** * The accepting side *)

(** [tcpsconn::process_accept]: dead connections nobody else holds are dropped, then the new
    one is added.  [decref] of such a connection deletes it. *)
Fixpoint collect_dead (l : list (Z * connection)) (m : gmap Z connection)
    : outcome (gmap Z connection) :=
  match l with
  | [] => Ret m
  | (fd, c) :: l' =>
      if isdead c && (ref c =? 1) then _ ← decref c; collect_dead l' (delete fd m)
      else collect_dead l' m
  end.

(** [s1] is the descriptor [accept] returned; on an error the thread ends ([None]). *)
Definition process_accept (conns : gmap Z connection) (s1 : Z)
    : outcome (option (gmap Z connection)) :=
  if s1 <? 0 then Ret None
  else
    let '(ch, reqs) := connection_new s1 in
    conns ← collect_dead (map_to_list conns) conns;
    Ret (Some (<[s1 := ch]> conns)).

(** [tcpsconn::~tcpsconn], after the accepting thread ended. *)
Fixpoint close_all (l : list (Z * connection)) : outcome (list (option connection)) :=
  match l with
  | [] => Ret []
  | (fd, c) :: l' =>
      let '(c, reqs) := closeconn c in
      oc ← decref c;
      rest ← close_all l';
      Ret (oc :: rest)
  end.

(** * Two connections and the stream between them *)

(** The buffer as it goes out: its first four bytes are the size. *)
Definition frame (b : list ascii) : list ascii :=
  blit b 0 (size_word (Z.of_nat (length b))).

(** What [rpcc] and [rpcs] pass to [send]: a message of a size the other side takes. *)
Definition sendable (b : list ascii) : Prop :=
  4 < Z.of_nat (length b) <= MAX_PDU.
#[global] Instance sendable_dec b : Decision (sendable b).
Proof. unfold sendable. apply _. Defined.

Record link := Link {
  snd_ : connection;
  rcv_ : connection;
  wire : list ascii;             (* written and not yet arrived *)
  rsock : sock;
  sent : list (list ascii);      (* the buffers [send] began to write *)
  got : list (list ascii)        (* the PDUs [got_pdu] accepted *)
}.

Definition link_new : link :=
  Link (connection_new 4).1 (connection_new 5).1 [] (Sock [] false false) [] [].

(** The poll manager reports the receiving socket. *)
Definition readable (s : sock) : bool :=
  match avail s with [] => eof s || broken s | _ => true end.

Inductive link_step `{Memory} : link -> link -> Prop :=
(* the sender's threads and its poll thread *)
| link_enter s r w k st g :
    link_step (Link s r w k st g) (Link (send_enter s) r w k st g)
| link_start s r w k st g b res s' out reqs o :
    sendable b -> send_blocked s = false ->
    send_start s b (Z.of_nat (length b)) res = Ret (s', out, reqs, o) ->
    link_step (Link s r w k st g)
      (Link s' r (w ++ out) k (if dead_ s then st else st ++ [b]) g)
| link_write s r w k st g res s' out reqs sig :
    write_cb s res = Ret (s', out, reqs, sig) ->
    link_step (Link s r w k st g) (Link s' r (w ++ out) k st g)
| link_finish s r w k st g :
    send_incomplete s = false ->
    link_step (Link s r w k st g) (Link (send_finish s).1 r w k st g)
| link_close_snd s r w k st g :
    link_step (Link s r w k st g) (Link (closeconn s).1 r w k st g)
(* the network *)
| link_arrive s r w1 w2 a e st g :
    link_step (Link s r (w1 ++ w2) (Sock a e false) st g)
              (Link s r w2 (Sock (a ++ w1) e false) st g)
| link_eof s r a b st g :
    link_step (Link s r [] (Sock a false b) st g) (Link s r [] (Sock a true b) st g)
| link_break s r w a e b st g :
    link_step (Link s r w (Sock a e b) st g) (Link s r w (Sock [] e true) st g)
(* the receiver *)
| link_read s r w k st g k1 k2 stale acc r' k' reqs op :
    readable k = true ->
    read_cb r k1 k2 stale acc k = Ret (r', k', reqs, op) ->
    link_step (Link s r w k st g) (Link s r' w k' st (g ++ from_option (fun p => [p]) [] op))
| link_close_rcv s r w k st g :
    link_step (Link s r w k st g) (Link s (closeconn r).1 w k st g).

Inductive link_reachable `{Memory} : link -> Prop :=
| link_init : link_reachable link_new
| link_next l l' : link_reachable l -> link_step l l' -> link_reachable l'.

(** ** Frames *)

Section frames.
Lemma length_size_word n : length (size_word n) = 4%nat.
Proof. done. Qed.
Lemma length_frame b : sendable b -> length (frame b) = length b.
Proof. intros Hb. apply length_blit. rewrite length_size_word. unfold sendable in Hb. lia. Qed.
Lemma take_frame b : take 4 (frame b) = size_word (Z.of_nat (length b)).
Proof. unfold frame, blit. by rewrite take_0. Qed.
Lemma blit_frame b : sendable b -> blit (frame b) 0 (size_word (Z.of_nat (length b))) = frame b.
Proof.
  intros Hb. unfold frame, blit. rewrite !take_0. simpl. rewrite drop_0. done.
Qed.

Lemma word_value_size n : is_s32 n -> word_value (size_word n) = n.
Proof.
  intros Hn. unfold word_value, size_word, enc_uint. cbn [map]. rewrite !char_land_255.
  rewrite uint_value by apply u32_range. by rewrite s32_u32, s32_id.
Qed.
End frames.

#[local] Arguments frame : simpl never.
#[local] Arguments size_word : simpl never.

(** ** The sender's side *)

(** What is left to write of the PDU in [wpdu_]. *)
Definition to_write (c : connection) : list ascii :=
  match buf (wpdu_ c) with
  | Some b => drop (Z.to_nat (solong (wpdu_ c))) b
  | None => []
  end.

Definition snd_ok (c : connection) : Prop :=
  match buf (wpdu_ c) with
  | None => sz (wpdu_ c) = 0 /\ solong (wpdu_ c) = 0
  | Some b => exists b0, sendable b0 /\ b = frame b0 /\ sz (wpdu_ c) = Z.of_nat (length b0) /\
      0 <= solong (wpdu_ c) <= sz (wpdu_ c)
  end.

(** [writepdu] on a PDU just begun or under way takes the next bytes off what is left. *)
Lemma writepdu_ok c b0 b n res :
  wpdu_ c = Charbuf (Some b) (Z.of_nat (length b0)) n -> sendable b0 ->
  0 <= n <= Z.of_nat (length b0) -> b = frame b0 \/ b = b0 /\ n = 0 ->
  exists c' out ok, writepdu c res = Ret (c', out, ok) /\
    dead_ c' = dead_ c /\ rpdu_ c' = rpdu_ c /\
    (ok = true -> snd_ok c' /\ drop (Z.to_nat n) (frame b0) = out ++ to_write c') /\
    (ok = false -> out = []).
Proof.
  intros Hw Hs Hn Hb. pose proof (length_frame b0 Hs) as Hlf.
  assert (Hlb : length b = length b0) by (destruct Hb as [->|[-> _]]; auto).
  unfold writepdu. rewrite Hw; simpl. rewrite (proj2 (Z.leb_le 0 n)) by lia. simpl.
  destruct (Z.eqb_spec n (Z.of_nat (length b0))) as [->|Hne].
  { unfold sendable in Hs.
    exists c, [], true. do 3 (split; [done|]). split; [|done]. intros _.
    destruct Hb as [->|[_ ?]]; [|lia]. unfold snd_ok, to_write. rewrite Hw. simpl.
    split; [exists b0; split; [done|]; split; [done|]; lia|done]. }
  replace (_ || _ || _) with false by (unfold sendable in Hs; rewrite Hlb; lia).
  set (b1 := if n =? 0 then _ else b).
  assert (Hb1 : b1 = frame b0).
  { subst b1. destruct (Z.eqb_spec n 0) as [->|]; [|destruct Hb as [->|[_ ?]]; [done|lia]].
    destruct Hb as [->|[-> _]]; [by apply blit_frame|done]. }
  rewrite Hb1. clear b1 Hb1 Hb Hlb Hw.
  destruct res as [k|[]].
  - set (m := Z.min (Z.of_nat k) (Z.of_nat (length b0) - n)).
    eexists _, _, true. split; [reflexivity|]. do 2 (split; [done|]). split; [|done].
    intros _. split.
    + unfold snd_ok; simpl. exists b0. split; [done|]. split; [done|]. lia.
    + unfold to_write; simpl. replace (Z.to_nat (n + m)) with (Z.to_nat n + Z.to_nat m)%nat by lia.
      by rewrite <- drop_drop, take_drop.
  - eexists _, _, true. split; [reflexivity|]. do 2 (split; [done|]). split; [|done].
    intros _. split; [|done]. unfold snd_ok; simpl. exists b0. split; [done|]. split; [done|]. lia.
  - eexists _, _, false. by split.
Qed.

(** A new PDU, on a connection with nothing to write. *)
Lemma send_start_ok c b res :
  dead_ c = false -> sendable b ->
  exists c' out reqs o, send_start c b (Z.of_nat (length b)) res = Ret (c', out, reqs, o) /\
    rpdu_ c' = rpdu_ c /\ exists left, frame b = out ++ left /\
    (dead_ c' = false -> snd_ok c' /\ left = to_write c').
Proof.
  intros Hd Hs. unfold send_start. simpl. rewrite Hd.
  destruct (writepdu_ok (set_wpdu (set_waiters c (waiters_ c - 1))
      (Charbuf (Some b) (Z.of_nat (length b)) 0)) b b 0 res)
    as (c' & out & ok & E & Hd' & Hr & Hok & Hno); [done|done|lia|by right|].
  rewrite E. change (drop (Z.to_nat 0) (frame b)) with (frame b) in Hok.
  cbn [mbind outcome_bind] in *. simpl in Hd', Hr. destruct ok; simpl.
  - destruct (Hok eq_refl) as [Hsn Hdr].
    destruct (Z.eqb_spec (solong (wpdu_ c')) (sz (wpdu_ c'))) as [Heq|].
    + eexists _, _, _, _. split; [reflexivity|]. split; [done|]. exists [].
      assert (Htw : to_write c' = []).
      { unfold snd_ok, to_write in *. destruct (buf (wpdu_ c')); [|done].
        destruct Hsn as (b1 & Hs1 & -> & Hsz & _). apply drop_ge. rewrite length_frame by done. lia. }
      rewrite Hdr, Htw. done.
    + eexists _, _, _, _. split; [reflexivity|]. eauto.
  - rewrite (Hno eq_refl). eexists _, _, _, _. split; [reflexivity|]. split; [done|].
    exists (frame b). by split.
Qed.

Lemma write_cb_ok c res :
  dead_ c = false -> snd_ok c ->
  exists c' out reqs sig, write_cb c res = Ret (c', out, reqs, sig) /\
    rpdu_ c' = rpdu_ c /\ exists left, to_write c = out ++ left /\
    (dead_ c' = false -> snd_ok c' /\ left = to_write c').
Proof.
  intros Hd Hsn. unfold write_cb. rewrite Hd; simpl.
  destruct (Z.eqb_spec (sz (wpdu_ c)) 0) as [E0|].
  { eexists _, _, _, _. split; [reflexivity|]. split; [done|]. by exists (to_write c). }
  unfold snd_ok in Hsn. destruct (wpdu_ c) as [[b|] nn m] eqn:Ew; simpl in *; [|lia].
  destruct Hsn as (b0 & Hs & -> & -> & Hm).
  destruct (writepdu_ok c b0 (frame b0) m res) as (c' & out & ok & E & Hd' & Hr & Hok & Hno);
    [done|done|done|by left|].
  rewrite E; simpl. unfold to_write at 1. rewrite Ew; simpl. destruct ok; simpl.
  - destruct (Hok eq_refl) as [Hsn Hdr].
    assert (H0 : (0 <=? solong (wpdu_ c')) = true).
    { unfold snd_ok in Hsn. destruct (buf (wpdu_ c')); [destruct Hsn as (? & _ & _ & _ & ?)|]; lia. }
    rewrite H0; simpl.
    destruct (_ <? _); eexists _, _, _, _; (split; [reflexivity|]); eauto.
  - rewrite (Hno eq_refl). eexists _, _, _, _. split; [reflexivity|]. split; [done|].
    eexists. by split.
Qed.

(** ** The receiver's side *)

(** [p] is being read, [m] bytes of it are in the buffer. *)
Definition reading (c : connection) (p : list ascii) (m : nat) : Prop :=
  exists b, rpdu_ c = Charbuf (Some b) (Z.of_nat (length p)) (Z.of_nat m) /\
    (4 <= m <= length p)%nat /\ length b = (length p + 4)%nat /\ take m b = take m p.

(** What the receiver has of [more], the PDUs still to be handed over. *)
Definition rcv_ok (c : connection) (more : list (list ascii)) (part : list ascii) : Prop :=
  (rpdu_ c = Charbuf None 0 0 /\ part = []) \/
  (exists p more' m, more = p :: more' /\ reading c p m /\ part = take m p).

Definition is_frame (p : list ascii) : Prop := exists b, sendable b /\ p = frame b.

Lemma is_frame_bounds p : is_frame p -> 4 < Z.of_nat (length p) <= MAX_PDU.
Proof. intros (b & Hb & ->). by rewrite length_frame. Qed.

Lemma sys_read_cases k count s :
  0 < count < 2 ^ 63 ->
  (avail s = [] /\ (sys_read k count s = (ReadBytes [], s) \/
     exists e, sys_read k count s = (ReadErr e, s) /\ (e = true -> readable s = false))) \/
  (exists l rest, l <> [] /\ avail s = l ++ rest /\ Z.of_nat (length l) <= count /\
     sys_read k count s = (ReadBytes l, Sock rest (eof s) (broken s))).
Proof.
  intros Hc. unfold sys_read, readable. rewrite u64_id by (unfold is_u64; lia).
  rewrite (proj2 (Z.ltb_ge _ count)), (proj2 (Z.eqb_neq count 0)) by (unfold SSIZE_MAX; lia).
  destruct (avail s) as [|x a] eqn:Ea.
  - left. split; [done|]. destruct (broken s); [right; exists false; by split|].
    destruct (eof s); [by left|right; exists true; by split].
  - right. eexists _, _. split; [|split; [symmetry; apply take_drop|split; [|reflexivity]]].
    + destruct (Nat.max 1 _) eqn:E; [lia|done].
    + rewrite length_take. simpl length. lia.
Qed.

(** The head of what is still to come. *)
Lemma app_take_inv {A} (p q l r : list A) m :
  p ++ q = take m p ++ l ++ r -> (m + length l <= length p)%nat ->
  take (m + length l) p = take m p ++ l /\ p ++ q = take (m + length l) p ++ r.
Proof.
  intros E Hl. assert (Ht : take (m + length l) p = take m p ++ l).
  { rewrite <- (take_app_le p q) by lia. rewrite E, app_assoc.
    apply take_app_length'. rewrite length_app, length_take. lia. }
  split; [done|]. by rewrite Ht, <- app_assoc.
Qed.

Lemma read_body_ok c p m more k stale s future :
  reading c p m -> (m < length p)%nat -> Z.of_nat (length p) <= MAX_PDU ->
  p ++ concat more = take m p ++ avail s ++ future ->
  exists c' s' ok, read_body c k stale s = Ret (c', s', ok) /\
    dead_ c' = dead_ c /\ wpdu_ c' = wpdu_ c /\ eof s' = eof s /\ broken s' = broken s /\
    (if ok then exists m', (m <= m')%nat /\ reading c' p m' /\
        p ++ concat more = take m' p ++ avail s' ++ future
     else rpdu_ c' = Charbuf None 0 0) /\
    (avail s <> [] -> ok = true /\ (length (avail s') < length (avail s))%nat).
Proof.
  intros (b & Hr & Hm & Hb & Ht) Hlt Hmax E. unfold MAX_PDU in Hmax.
  change (Z.shiftl 10 20) with 10485760 in Hmax.
  assert (Hgive : forall again : bool, avail s = [] -> exists c' s' ok,
    (if again then Ret (c, s, true) else Ret (set_rpdu c (Charbuf None 0 0), s, false))
      = Ret (c', s', ok) /\
    dead_ c' = dead_ c /\ wpdu_ c' = wpdu_ c /\ eof s' = eof s /\ broken s' = broken s /\
    (if ok then exists m', (m <= m')%nat /\ reading c' p m' /\
        p ++ concat more = take m' p ++ avail s' ++ future
     else rpdu_ c' = Charbuf None 0 0) /\
    (avail s <> [] -> ok = true /\ (length (avail s') < length (avail s))%nat)).
  { intros [] ?; eexists _, _, _; (split; [reflexivity|]); do 4 (split; [done|]); [|by split].
    split; [|done]. exists m. split; [done|]. split; [by exists b|done]. }
  unfold read_body. rewrite Hr; simpl.
  destruct (sys_read_cases k (Z.of_nat (length p) - Z.of_nat m) s) as
    [[Hnil [->|(e & -> & _)]]|(l & rest & Hl & Ha & Hlen & ->)];
    [lia|by apply Hgive|by apply Hgive|].
  rewrite Ha, <- app_assoc in E.
  destruct (app_take_inv p (concat more) l (rest ++ future) m E) as [Htl E']; [lia|].
  destruct l as [|x l]; [done|]. rewrite (proj2 (Z.ltb_ge _ _)) by lia.
  eexists _, _, _. split; [reflexivity|]. do 4 (split; [done|]).
  split; [|intros _; split; [done|]; rewrite Ha; simpl; rewrite length_app; lia].
  exists (m + length (x :: l))%nat. split; [lia|]. split; [|exact E'].
  eexists. split; [simpl; rewrite Nat2Z.id, Nat2Z.inj_add; reflexivity|].
  split; [lia|]. rewrite length_blit by lia. split; [done|].
  rewrite take_blit by lia. by rewrite Htl, Ht.
Qed.

Section receiver.
  Context `{Memory}.

(** A socket with enough bytes gives the size word whole. *)
Lemma sys_read_word s :
  (4 <= length (avail s))%nat ->
  sys_read 4 4 s = (ReadBytes (take 4 (avail s)), Sock (drop 4 (avail s)) (eof s) (broken s)).
Proof.
  intros Hl. unfold sys_read. rewrite u64_id by (unfold is_u64; lia). simpl Z.eqb.
  destruct (avail s) as [|x a]; [simpl in Hl; lia|].
  replace (Nat.max 1 _) with 4%nat by lia. done.
Qed.

Lemma read_size_ok c p more k s future :
  rpdu_ c = Charbuf None 0 0 -> is_frame p -> readable s = true ->
  p ++ concat more = avail s ++ future ->
  exists oc s', read_size c k s = Ret (oc, s') /\ eof s' = eof s /\ broken s' = broken s /\
    (forall c', oc = Some c' -> dead_ c' = dead_ c /\ wpdu_ c' = wpdu_ c /\ reading c' p 4 /\
       p ++ concat more = take 4 p ++ avail s' ++ future) /\
    (k = 4%nat -> (4 < length (avail s))%nat ->
       oc <> None /\ length (avail s) = (4 + length (avail s'))%nat).
Proof.
  intros Hr Hf Hrd E. pose proof (is_frame_bounds p Hf) as Hbd. unfold read_size.
  destruct (sys_read_cases k 4 s) as
    [[Hnil [->|(e & -> & He)]]|(l & rest & Hl & Ha & Hlen & Er)]; [lia| | |].
  - eexists _, _. split; [reflexivity|]. do 3 (split; [done|]). rewrite Hnil; simpl; lia.
  - destruct e; [specialize (He eq_refl); congruence|].
    eexists _, _. split; [reflexivity|]. do 3 (split; [done|]). rewrite Hnil; simpl; lia.
  - rewrite Er. destruct (Nat.eqb_spec (length l) 4) as [H4|H4].
    2:{ eexists _, _. split; [reflexivity|]. do 3 (split; [done|]). intros -> Hlt.
        rewrite sys_read_word in Er by lia. injection Er as El _.
        destruct H4. rewrite <- El, length_take. lia. }
    destruct Hf as (b & Hs & ->). pose proof (length_frame b Hs) as Hlf.
    rewrite Ha, <- app_assoc in E.
    destruct (app_take_inv (frame b) (concat more) l (rest ++ future) 0) as [Htl E'];
      [by rewrite take_0|lia|].
    rewrite H4 in Htl, E'. rewrite take_0 in Htl. simpl app in Htl. simpl Nat.add in Htl, E'.
    assert (Hv : word_value l = Z.of_nat (length b)).
    { rewrite <- Htl, take_frame. apply word_value_size. unfold is_s32, MAX_PDU, sendable in *.
      change (Z.shiftl 10 20) with 10485760 in *. lia. }
    rewrite Hv, Hr. simpl. rewrite (proj2 (Z.ltb_ge MAX_PDU _)) by (rewrite <- Hlf; lia).
    rewrite (proj2 (Z.leb_le 0 _)), (proj2 (Z.ltb_ge _ 4)) by lia.
    eexists _, _. split; [reflexivity|]. do 2 (split; [done|]).
    split; [|intros _ _; split; [done|]; rewrite Ha, length_app, H4; done]. intros c' [= <-].
    do 2 (split; [done|]). split; [|exact E'].
    assert (Hlr : length (realloc [] (Z.to_nat (Z.of_nat (length b) + 4))) = (length b + 4)%nat)
      by (rewrite length_realloc; lia).
    unfold reading. rewrite Hlf. eexists. split; [reflexivity|]. split; [lia|]. rewrite length_blit by lia.
    split; [done|]. rewrite Htl. rewrite <- H4 at 1. apply (take_blit _ 0 l). lia.
Qed.
Lemma read_size_none c k s :
  avail s = [] -> readable s = true -> read_size c k s = Ret (None, s).
Proof.
  intros Ha Hrd. unfold read_size, sys_read. unfold readable in Hrd. rewrite Ha in *. simpl.
  destruct (broken s); [done|]. by destruct (eof s).
Qed.

(** The state a callback leaves, as [link_inv] below sees it. *)
Definition cb_post (c : connection) (s : sock) (more : list (list ascii)) (future : list ascii)
    (c' : connection) (s' : sock) (op : option (list ascii)) : Prop :=
  wpdu_ c' = wpdu_ c /\ eof s' = eof s /\ broken s' = broken s /\
  exists more1, more = option_list op ++ more1 /\
    (dead_ c' = false -> exists part1, rcv_ok c' more1 part1 /\
       concat more1 = part1 ++ avail s' ++ future).

Lemma hand_over_reading c p m more s future acc :
  reading c p m -> p ++ concat more = take m p ++ avail s ++ future ->
  exists c' op, hand_over c acc = (c', op) /\ dead_ c' = dead_ c /\
    cb_post c s (p :: more) future c' s op.
Proof.
  intros (b & Hr & Hm & Hb & Ht) E.
  assert (Hkeep : cb_post c s (p :: more) future c s None).
  { do 3 (split; [done|]). exists (p :: more). split; [done|]. intros _.
    exists (take m p). split; [|exact E]. right. exists p, more, m. split; [done|].
    split; [by exists b|done]. }
  unfold hand_over, complete_pdu. rewrite Hr; simpl.
  destruct (Z.eqb_spec (Z.of_nat (length p)) (Z.of_nat m)) as [Heq|]; [|eauto].
  assert (m = length p) as -> by lia. rewrite Nat2Z.id, Ht, firstn_all.
  destruct acc; [|eauto]. eexists _, _. split; [reflexivity|]. split; [done|].
  do 3 (split; [done|]). exists more. split; [done|]. intros _. exists [].
  split; [by left|]. rewrite firstn_all in E. by apply app_inv_head in E.
Qed.

Lemma hand_over_none c acc : buf (rpdu_ c) = None -> hand_over c acc = (c, None).
Proof. intros E. unfold hand_over, complete_pdu. by rewrite E. Qed.

(** A body being read ends in [cb_post] whether the read succeeds or not. *)
Lemma read_body_cb c p m more k stale s future acc :
  reading c p m -> (m < length p)%nat -> Z.of_nat (length p) <= MAX_PDU ->
  p ++ concat more = take m p ++ avail s ++ future ->
  exists c1 s' ok c2 op, read_body c k stale s = Ret (c1, s', ok) /\
    hand_over (if ok then c1 else set_dead c1) acc = (c2, op) /\
    cb_post c s (p :: more) future c2 s' op /\
    (avail s <> [] -> dead_ c2 = dead_ c /\ (length (avail s') < length (avail s))%nat).
Proof.
  intros Hrd Hlt Hmax E.
  destruct (read_body_ok c p m more k stale s future Hrd Hlt Hmax E)
    as (c1 & s' & ok & Eb & Hd & Hw & He & Hbr & Hok & Hpr).
  exists c1, s', ok. destruct ok.
  - destruct Hok as (m' & _ & Hrd' & E').
    destruct (hand_over_reading c1 p m' more s' future acc Hrd' E')
      as (c2 & op & Eh & Hd2 & Hw2 & _ & _ & Hm).
    exists c2, op. split; [done|]. split; [done|].
    split; [split; [congruence|]; by repeat split|].
    intros Ha. split; [congruence|by apply Hpr].
  - exists (set_dead c1), None. split; [done|]. split; [apply hand_over_none; simpl; by rewrite Hok|].
    split; [|by intros Ha; destruct (Hpr Ha)].
    split; [done|]. split; [done|]. split; [done|]. exists (p :: more). by split.
Qed.
Lemma read_cb_ok c k1 k2 stale acc s more part future :
  dead_ c = false -> rcv_ok c more part -> Forall is_frame more -> readable s = true ->
  concat more = part ++ avail s ++ future ->
  exists c' s' reqs op, read_cb c k1 k2 stale acc s = Ret (c', s', reqs, op) /\
    cb_post c s more future c' s' op /\
    (k1 = 4%nat -> avail s <> [] -> complete_pdu c = None ->
     (buf (rpdu_ c) = None -> (4 < length (avail s))%nat) ->
     dead_ c' = false /\ (length (avail s') < length (avail s))%nat).
Proof.
  intros Hd Hrc Hf Hrd E.
  assert (Hfail : forall s', eof s' = eof s -> broken s' = broken s ->
    cb_post c s more future (set_dead c) s' None).
  { intros s' He Hb. do 3 (split; [done|]). exists more. by split. }
  unfold read_cb. rewrite Hd.
  destruct Hrc as [[Hr ->]|(p & more' & m & -> & Hrg & ->)].
  - rewrite Hr; simpl. unfold readpdu. rewrite Hr; simpl.
    destruct more as [|p more].
    + simpl in E. symmetry in E. apply app_nil in E as [Ha _].
      rewrite read_size_none by done. simpl. rewrite hand_over_none by (simpl; by rewrite Hr).
      eexists _, _, _, _. split; [reflexivity|]. by split; [auto|].
    + apply Forall_cons in Hf as [Hp _].
      destruct (read_size_ok c p more k1 s future Hr Hp Hrd E)
        as (oc & s1 & -> & He & Hb & Hoc & Hpr).
      simpl. destruct oc as [c1|]; simpl.
      * destruct (Hoc c1 eq_refl) as (Hd1 & Hw1 & Hrg1 & E1).
        pose proof (is_frame_bounds p Hp).
        destruct (read_body_cb c1 p 4 more k2 stale s1 future acc Hrg1)
          as (c2 & s' & ok & c3 & op & -> & Hh & (Hw & He' & Hb' & Hm) & Hpr'); [lia|lia|done|].
        simpl.
        exists c3, s', (if ok then [] else [DelCallback CB_RDWR]), op.
        split; [destruct ok; simpl; by rewrite Hh|]. split.
        { unfold cb_post. rewrite Hw, He', Hb', Hw1, He, Hb. eauto. }
        intros Hk Ha _ Hl. destruct (Hpr Hk (Hl eq_refl)) as [_ Hlen].
        specialize (Hl eq_refl). rewrite Hlen in Hl.
        destruct Hpr' as [Hd3 Hlt]; [destruct (avail s1); [simpl in Hl; lia|done]|].
        split; [congruence|lia].
      * rewrite hand_over_none by (simpl; by rewrite Hr). eexists _, _, _, _.
        split; [reflexivity|]. split; [auto|]. intros Hk _ _ Hl.
        by destruct (Hpr Hk (Hl eq_refl)).
  - apply Forall_cons in Hf as [Hp _]. pose proof (is_frame_bounds p Hp) as Hbd. simpl in E.
    pose proof Hrg as (b & Hr & Hm & _). unfold complete_pdu. rewrite Hr; simpl.
    destruct (Z.ltb_spec (Z.of_nat m) (Z.of_nat (length p))).
    + unfold readpdu. rewrite Hr; simpl. rewrite (proj2 (Z.eqb_neq _ 0)) by lia.
      destruct (read_body_cb c p m more' k2 stale s future acc Hrg)
        as (c2 & s' & ok & c3 & op & -> & Hh & Hpost & Hpr); [lia|lia|done|].
      rewrite Hd in Hpr.
      simpl. destruct ok; simpl; rewrite Hh; eauto 12.
    + destruct (hand_over_reading c p m more' s future acc Hrg E) as (c2 & op & Hh & _ & Hpost).
      simpl. rewrite Hh. eexists _, _, _, _. split; [reflexivity|]. split; [done|].
      rewrite (proj2 (Z.eqb_eq _ _)) by lia. done.
Qed.
End receiver.

(** ** The stream *)

(** What the receiver has still to hand over is, byte by byte, in its buffer, in its socket,
    on the wire and with the sender. *)
Record link_inv (l : link) : Prop := {
  li_sent : Forall sendable (sent l);
  li_snd : dead_ (snd_ l) = false -> snd_ok (snd_ l);
  li_got : got l `prefix_of` (frame <$> sent l);
  li_rcv : dead_ (rcv_ l) = false -> exists more part future,
    frame <$> sent l = got l ++ more /\ rcv_ok (rcv_ l) more part /\
    concat more = part ++ avail (rsock l) ++ future /\
    (broken (rsock l) = false -> exists left, future = wire l ++ left /\
       (dead_ (snd_ l) = false -> left = to_write (snd_ l)))
}.

Lemma frames_is_frame l g more :
  Forall sendable l -> frame <$> l = g ++ more -> Forall is_frame more.
Proof.
  intros Hl E. assert (Hf : Forall is_frame (g ++ more)).
  { rewrite <- E. apply Forall_fmap. eapply Forall_impl; [exact Hl|]. intros b. by exists b. }
  by apply Forall_app in Hf as [_ ?].
Qed.

Lemma link_new_inv : link_inv link_new.
Proof.
  constructor; simpl; try done. intros _. exists [], [], []. split; [done|]. split; [by left|].
  split; [done|]. intros _. by exists [].
Qed.

(** A step of the sender that hands [out] to the kernel, [left] staying behind. *)
Lemma link_inv_write s s' r w k st g out :
  link_inv (Link s r w k st g) ->
  (dead_ s = true -> out = [] /\ dead_ s' = true) ->
  (dead_ s = false -> exists left, to_write s = out ++ left /\
     (dead_ s' = false -> snd_ok s' /\ left = to_write s')) ->
  link_inv (Link s' r (w ++ out) k st g).
Proof.
  intros [Hst Hsn Hg Hr] Hdead Hlive. constructor; simpl in *; [done| |done|].
  - intros Hd'. destruct (dead_ s) eqn:Hd; [destruct (Hdead eq_refl); congruence|].
    destruct (Hlive eq_refl) as (left & _ & Hl). by apply Hl.
  - intros Hrd. destruct (Hr Hrd) as (more & part & fut & H1 & H2 & H3 & H4).
    exists more, part, fut. do 3 (split; [done|]). intros Hb.
    destruct (H4 Hb) as (left & -> & Hl).
    destruct (dead_ s) eqn:Hd.
    + destruct (Hdead eq_refl) as [-> ->]. exists left. by rewrite app_nil_r.
    + destruct (Hlive eq_refl) as (left' & Htw & Hl'). exists left'.
      rewrite (Hl eq_refl), Htw, app_assoc. split; [done|]. intros Hd'. by apply Hl'.
Qed.

Lemma link_inv_start s s' r w k st g b out left :
  link_inv (Link s r w k st g) -> dead_ s = false -> to_write s = [] -> sendable b ->
  frame b = out ++ left -> (dead_ s' = false -> snd_ok s' /\ left = to_write s') ->
  link_inv (Link s' r (w ++ out) k (st ++ [b]) g).
Proof.
  intros [Hst Hsn Hg Hr] Hd Htw Hb Hf Hl. constructor; simpl in *.
  - apply Forall_app. auto.
  - intros Hd'. by apply Hl.
  - rewrite fmap_app. by apply prefix_app_r.
  - intros Hrd. destruct (Hr Hrd) as (more & part & fut & H1 & H2 & H3 & H4).
    exists (more ++ [frame b]), part, (fut ++ frame b).
    split; [by rewrite fmap_app, H1, <- app_assoc|]. split.
    { destruct H2 as [?|(p & more' & m & -> & ? & ?)]; [by left|right].
      exists p, (more' ++ [frame b]), m. by split. }
    split; [rewrite concat_app, H3; simpl; by rewrite app_nil_r, <- !app_assoc|].
    intros Hbr. destruct (H4 Hbr) as (left0 & -> & Hl0). rewrite (Hl0 Hd), Htw, app_nil_r.
    exists left. split; [rewrite Hf; by rewrite app_assoc|]. intros Hd'. by apply Hl.
Qed.

Lemma not_blocked_nothing s : dead_ s = false -> send_blocked s = false -> to_write s = [].
Proof.
  unfold send_blocked, to_write. intros -> Hb. by destruct (buf (wpdu_ s)).
Qed.
Lemma complete_nothing s :
  dead_ s = false -> snd_ok s -> send_incomplete s = false -> to_write s = [].
Proof.
  unfold send_incomplete, to_write, snd_ok. intros -> Hs Hi. destruct (buf (wpdu_ s)); [|done].
  destruct Hs as (b & Hb & -> & Hsz & Hn). apply drop_ge. rewrite length_frame by done. simpl in Hi. lia.
Qed.

Section link_facts.
  Context `{Memory}.

Lemma link_step_inv l l' : link_inv l -> link_step l l' -> link_inv l'.
Proof.
  intros Hinv Hst.
  destruct Hst as [s r w k st g|s r w k st g b res s' out reqs o Hb Hnb E
    |s r w k st g res s' out reqs sig E|s r w k st g Hi|s r w k st g|s r w1 w2 a e st g
    |s r a b st g|s r w a e b st g|s r w k st g k1 k2 stale acc r' k' reqs op Hrd E
    |s r w k st g].
  - rewrite <- (app_nil_r w). eapply link_inv_write; [exact Hinv|by auto|]. intros Hd.
    exists (to_write s). split; [done|]. intros _. split; [by apply Hinv|done].
  - destruct (dead_ s) eqn:Hd.
    + unfold send_start in E. simpl in E. rewrite Hd in E. injection E as <- <- _ _.
      eapply link_inv_write; [exact Hinv|by auto|congruence].
    + destruct (send_start_ok s b res Hd Hb) as (c' & out' & reqs' & o' & E' & _ & left & Hf & Hl).
      rewrite E in E'. injection E' as <- <- <- <-.
      eapply link_inv_start; eauto using not_blocked_nothing.
  - destruct (dead_ s) eqn:Hd; [unfold write_cb in E; by rewrite Hd in E|].
    destruct (write_cb_ok s res Hd (li_snd _ Hinv Hd)) as (c' & out' & reqs' & sg & E' & _ & Hl).
    rewrite E in E'. injection E' as <- <- <- <-.
    eapply link_inv_write; [exact Hinv|congruence|]. by intros _.
  - rewrite <- (app_nil_r w). eapply link_inv_write; [exact Hinv|by auto|]. intros Hd.
    exists []. split; [|done]. by apply complete_nothing; [|apply (li_snd _ Hinv)|].
  - rewrite <- (app_nil_r w). eapply link_inv_write; [exact Hinv| |]; intros Hd.
    + unfold closeconn. by rewrite Hd.
    + exists (to_write s). split; [done|]. unfold closeconn. by rewrite Hd.
  - destruct Hinv as [Hst Hsn Hg Hr]. constructor; simpl in *; try done. intros Hd.
    destruct (Hr Hd) as (more & part & fut & H1 & H2 & H3 & H4).
    destruct (H4 eq_refl) as (left & -> & Hl).
    exists more, part, (w2 ++ left). do 2 (split; [done|]).
    split; [by rewrite H3, <- !app_assoc|]. intros _. by exists left.
  - destruct Hinv as [Hst Hsn Hg Hr]. constructor; simpl in *; done.
  - destruct Hinv as [Hst Hsn Hg Hr]. constructor; simpl in *; try done. intros Hd.
    destruct (Hr Hd) as (more & part & fut & H1 & H2 & H3 & _).
    exists more, part, (a ++ fut). by do 3 (split; [done|]).
  - destruct Hinv as [Hst Hsn Hg Hr]. simpl in *. destruct (dead_ r) eqn:Hd.
    { unfold read_cb in E. rewrite Hd in E. injection E as <- <- _ <-.
      constructor; simpl; rewrite ?app_nil_r; try done. congruence. }
    destruct (Hr eq_refl) as (more & part & fut & H1 & H2 & H3 & H4).
    pose proof (frames_is_frame _ _ _ Hst H1) as Hfr.
    destruct (read_cb_ok r k1 k2 stale acc k more part fut Hd H2 Hfr Hrd H3)
      as (c' & s' & rq & op' & E' & (Hw & He & Hbr & more1 & -> & Hm) & _).
    rewrite E in E'. injection E' as <- <- _ <-.
    constructor; simpl; [done..| |].
    + exists more1. rewrite H1, app_assoc. by destruct op.
    + intros Hd'. destruct (Hm Hd') as (part1 & Hrc & Hc).
      exists more1, part1, fut. rewrite H1, app_assoc. split; [by destruct op|].
      do 2 (split; [done|]). by rewrite Hbr.
  - destruct Hinv as [Hst Hsn Hg Hr]. unfold closeconn. constructor; simpl in *; try done.
    destruct (dead_ r) eqn:Hd; simpl; [congruence|done].
Qed.

Lemma link_reachable_inv l : link_reachable l -> link_inv l.
Proof. induction 1; eauto using link_new_inv, link_step_inv. Qed.
End link_facts.

(** C12 (PDUs arrive whole and in order): however the stream splits and delays the bytes,
    whatever the kernel's partial reads and writes, the refusals of [got_pdu], the closing of
    either end and the breaking of the stream, the PDUs the receiver hands over are the first
    ones the sender began to write, in order, each whole and headed by its size; and neither
    callback fails an assertion or touches memory out of bounds on a live connection. *)
Theorem pdus_in_order `{Memory} l :
  link_reachable l ->
  got l `prefix_of` (frame <$> sent l) /\
  (readable (rsock l) = true -> forall k1 k2 stale acc,
     is_ret (read_cb (rcv_ l) k1 k2 stale acc (rsock l))) /\
  (dead_ (snd_ l) = false -> forall res, is_ret (write_cb (snd_ l) res)).
Proof.
  intros Hl. apply link_reachable_inv in Hl as [Hst Hsn Hg Hr]. split; [done|]. split.
  - intros Hrd k1 k2 stale acc. destruct (dead_ (rcv_ l)) eqn:Hd.
    { unfold read_cb. rewrite Hd. by eexists. }
    destruct (Hr eq_refl) as (more & part & fut & H1 & H2 & H3 & _).
    pose proof (frames_is_frame _ _ _ Hst H1) as Hfr.
    destruct (read_cb_ok (rcv_ l) k1 k2 stale acc _ more part fut Hd H2 Hfr Hrd H3)
      as (c' & s' & rq & op' & E' & _). rewrite E'. by eexists.
  - intros Hd res. destruct (write_cb_ok _ res Hd (Hsn Hd)) as (? & ? & ? & ? & E & _).
    rewrite E. by eexists.
Qed.

(** ** Everything arrives *)

(** The callbacks of a receiver whose manager accepts every PDU, while the socket has bytes;
    the size word is read whole, a body is split as [ks] says. *)
Fixpoint drain `{Memory} (n : nat) (ks : nat -> nat) (c : connection) (s : sock)
    : outcome (list (list ascii) * connection * sock) :=
  match n, avail s with
  | S n', _ :: _ =>
      '(c1, s1, reqs, op) ← read_cb c 4 (ks 0%nat) false true s;
      '(ps, c2, s2) ← drain n' (fun i => ks (S i)) c1 s1;
      Ret (option_list op ++ ps, c2, s2)
  | _, _ => Ret ([], c, s)
  end.

Section liveness.
  Context `{Memory}.

Lemma hand_over_complete c c' op : hand_over c true = (c', op) -> complete_pdu c' = None.
Proof.
  unfold hand_over. destruct (complete_pdu c) eqn:E; intros [= <- _]; [done|exact E].
Qed.
Lemma read_cb_complete c k1 k2 stale s c' s' reqs op :
  read_cb c k1 k2 stale true s = Ret (c', s', reqs, op) -> dead_ c = false ->
  complete_pdu c' = None.
Proof.
  unfold read_cb. intros E Hd. rewrite Hd in E.
  apply bind_ret_inv in E as ([[c1 s1] ok] & _ & E).
  destruct ok; [|]; destruct (hand_over _ true) as [c2 op2] eqn:Eh;
    injection E as <- _ _ _; by eapply hand_over_complete.
Qed.

(** With nothing in the socket and no complete PDU, nothing is left. *)
Lemma nothing_left c more part :
  rcv_ok c more part -> Forall is_frame more -> concat more = part ->
  complete_pdu c = None -> more = [].
Proof.
  intros [[_ ->]|(p & more' & m & -> & (b & Hr & Hm & _) & ->)] Hf E Hc.
  - destruct more as [|p more]; [done|]. apply Forall_cons in Hf as [Hp _].
    apply is_frame_bounds in Hp. simpl in E. apply app_nil in E as [-> _]. simpl in Hp. lia.
  - unfold complete_pdu in Hc. rewrite Hr in Hc. simpl in *.
    assert (length p = m); [|subst; by rewrite Z.eqb_refl in Hc].
    apply (f_equal length) in E. rewrite length_app, length_take in E. lia.
Qed.

Lemma drain_ok n : forall ks c s more part,
  (length (avail s) <= n)%nat -> dead_ c = false -> rcv_ok c more part ->
  Forall is_frame more -> concat more = part ++ avail s -> complete_pdu c = None ->
  exists c' s', drain n ks c s = Ret (more, c', s') /\ dead_ c' = false.
Proof.
  induction n as [|n IH]; intros ks c s more part Hn Hd Hrc Hf E Hc;
    (destruct (avail s) as [|x a] eqn:Ha;
     [rewrite app_nil_r in E; rewrite (nothing_left _ _ _ Hrc Hf E Hc);
      simpl; rewrite ?Ha; by eauto|simpl in Hn]); [lia|].
  simpl. rewrite Ha.
  destruct (read_cb_ok c 4 (ks 0%nat) false true s more part []) as
    (c1 & s1 & reqs & op & Er & (_ & _ & _ & more1 & Hmore & Hm) & Hpr);
    [done|done|done|unfold readable; by rewrite Ha|by rewrite app_nil_r, Ha|].
  destruct Hpr as [Hd1 Hlt]; [done|by rewrite Ha|done| |].
  { intros Hbuf. destruct Hrc as [[_ ->]|(p & more' & m & _ & (b & Hr & _) & _)].
    - destruct more as [|p more]; [done|]. apply Forall_cons in Hf as [Hp _].
      apply is_frame_bounds in Hp. rewrite Ha. apply (f_equal length) in E. simpl in *.
      rewrite length_app in E. lia.
    - by rewrite Hr in Hbuf. }
  pose proof (read_cb_complete _ _ _ _ _ _ _ _ _ Er Hd) as Hc1.
  destruct (Hm Hd1) as (part1 & Hrc1 & E1). rewrite app_nil_r in E1.
  rewrite Er; simpl. rewrite Hmore in Hf. apply Forall_app in Hf as [_ Hf1].
  rewrite Ha in Hlt. simpl in Hlt.
  destruct (IH (fun i => ks (S i)) c1 s1 more1 part1) as (c2 & s2 & -> & Hd2);
    [lia|done|done|done|done|done|].
  simpl. rewrite <- Hmore. eauto.
Qed.
End liveness.

(** C19 (everything sent is delivered): once the sender has written all of what it sent and the
    bytes have arrived, as many callbacks as there are bytes in the socket, fewer if the
    kernel returns more than one at a time, hand over every PDU not handed over yet, as long
    as the channel manager refuses none, and the connection stays alive. *)
Theorem all_pdus_delivered `{Memory} l ks :
  link_reachable l ->
  dead_ (snd_ l) = false -> to_write (snd_ l) = [] -> wire l = [] ->
  broken (rsock l) = false -> dead_ (rcv_ l) = false -> complete_pdu (rcv_ l) = None ->
  exists ps c' s',
    drain (length (avail (rsock l))) ks (rcv_ l) (rsock l) = Ret (ps, c', s') /\
    got l ++ ps = frame <$> sent l /\ dead_ c' = false.
Proof.
  intros Hl Hds Htw Hw Hb Hdr Hc. apply link_reachable_inv in Hl as [Hst Hsn Hg Hr].
  destruct (Hr Hdr) as (more & part & fut & H1 & H2 & H3 & H4).
  destruct (H4 Hb) as (left & -> & Hleft). rewrite (Hleft Hds), Htw, Hw, !app_nil_r in H3.
  pose proof (frames_is_frame _ _ _ Hst H1) as Hfr.
  destruct (drain_ok _ ks _ _ _ _ (le_n _) Hdr H2 Hfr H3 Hc) as (c' & s' & E & Hd').
  exists more, c', s'. auto.
Qed.

(** * Sizes [readpdu] does not check *)

(** C39 (the size word is trusted): [readpdu] refuses sizes above [MAX_PDU] only.  A stream
    that begins with a size below -4 aborts the process, since [malloc] is asked for nearly
    2^64 bytes; one from -4 to -1 makes it copy the size word into a block of fewer than four
    bytes ([malloc(0)] returns a block, as it does with the C library of Linux); and one from 0 to
    3 passes a negative count to the second [read], which Linux refuses with [EINVAL], so that the
    connection is closed and its buffer given back. *)
Theorem small_size_word `{Memory} c n rest k stale acc e br :
  dead_ c = false -> rpdu_ c = Charbuf None 0 0 -> is_s32 n -> n < 4 ->
  read_cb c 4 k stale acc (Sock (size_word n ++ rest) e br) =
  if n <? -4 then Fault AssertFail
  else if n <? 0 then Fault Undefined
  else Ret (set_dead c, Sock rest e br, [DelCallback CB_RDWR], None).
Proof.
  intros Hd Hr Hs Hn. unfold read_cb, readpdu. rewrite Hd, Hr; simpl Z.eqb.
  cbn [buf rpdu_ sz]. unfold read_size.
  rewrite sys_read_word by (cbn [avail]; rewrite length_app, length_size_word; lia).
  cbn [avail eof broken]. rewrite take_app_length', drop_app_length' by done.
  rewrite length_size_word, word_value_size, Hr by done. simpl Nat.eqb.
  rewrite (proj2 (Z.ltb_ge MAX_PDU n)) by (unfold MAX_PDU; change (Z.shiftl 10 20) with 10485760; lia).
  cbn [negb buf verify mbind outcome_bind].
  destruct (Z.ltb_spec n (-4)); [by rewrite (proj2 (Z.leb_gt 0 (n + 4))) by lia|].
  rewrite (proj2 (Z.leb_le 0 (n + 4))) by lia. cbn [verify mbind outcome_bind].
  destruct (Z.ltb_spec n 0); [by rewrite (proj2 (Z.ltb_lt (n + 4) 4)) by lia|].
  rewrite (proj2 (Z.ltb_ge (n + 4) 4)) by lia. cbn [mbind outcome_bind].
  unfold read_body, sys_read. cbn [rpdu_ set_rpdu sz solong avail].
  rewrite (proj2 (Z.ltb_lt SSIZE_MAX (u64 (n - 4)))) by (unfold SSIZE_MAX; width_lia).
  cbn [mbind outcome_bind]. destruct c. cbn in *. by subst.
Qed.

(** * What the accepting side keeps *)

(** A connection only the table refers to, and dead. *)
Definition garbage (c : connection) : bool := isdead c && (ref c =? 1).

Lemma decref_garbage c :
  garbage c = true -> buf (wpdu_ c) = None -> decref c = Ret None.
Proof.
  unfold garbage, isdead, ref, decref, connection_delete. rewrite andb_true_iff, Z.eqb_eq.
  intros [Hd Hr] Hb. simpl. rewrite Hr, Hd, Hb. done.
Qed.

Lemma collect_dead_spec l : forall m,
  Forall (fun e => garbage e.2 = true -> buf (wpdu_ e.2) = None) l ->
  exists m', collect_dead l m = Ret m' /\
    forall fd, m' !! fd =
      if existsb (fun e => (e.1 =? fd) && garbage e.2) l then None else m !! fd.
Proof.
  induction l as [|[fd c] l IH]; intros m Hb; simpl; [by exists m|].
  apply Forall_cons in Hb as [Hc Hb]. simpl in Hc.
  change (isdead c && (ref c =? 1)) with (garbage c).
  destruct (garbage c) eqn:Hg.
  - rewrite (decref_garbage c Hg) by auto. simpl.
    destruct (IH (delete fd m) Hb) as (m' & E & Hm). exists m'. split; [done|].
    intros x. rewrite Hm. destruct (Z.eqb_spec fd x) as [->|Hne]; simpl.
    + rewrite lookup_delete_eq. by destruct (existsb _ l).
    + by rewrite lookup_delete_ne.
  - destruct (IH m Hb) as (m' & E & Hm). exists m'. split; [done|].
    intros x. by rewrite Hm, andb_false_r.
Qed.

(** [process_accept] forgets exactly the dead connections nobody else holds, deleting them,
    and keeps every other one beside the new one. *)
Lemma process_accept_spec conns s1 :
  0 <= s1 ->
  map_Forall (fun _ c => garbage c = true -> buf (wpdu_ c) = None) conns ->
  exists conns', process_accept conns s1 = Ret (Some conns') /\
    forall fd, conns' !! fd =
      if decide (fd = s1) then Some (connection_new s1).1
      else match conns !! fd with
           | Some c => if garbage c then None else Some c
           | None => None
           end.
Proof.
  intros Hs Hb. unfold process_accept. rewrite (proj2 (Z.ltb_ge s1 0)) by lia.
  destruct (collect_dead_spec (map_to_list conns) conns) as (m' & E & Hm).
  { apply Forall_forall. intros [fd c] Hin%elem_of_map_to_list. by apply (Hb fd). }
  simpl. rewrite E. simpl. eexists. split; [reflexivity|]. intros fd.
  destruct (decide (fd = s1)) as [->|Hne]; [apply lookup_insert_eq|].
  rewrite lookup_insert_ne, Hm by done. clear E Hm.
  destruct (existsb _ _) eqn:Ex.
  - apply existsb_exists in Ex as ([x c] & Hin & Hx). simpl in Hx.
    apply andb_true_iff in Hx as [->%Z.eqb_eq Hg].
    apply list_elem_of_In, elem_of_map_to_list in Hin. by rewrite Hin, Hg.
  - destruct (conns !! fd) as [c|] eqn:Ec; [|done]. destruct (garbage c) eqn:Hg; [|done].
    apply elem_of_map_to_list, list_elem_of_In in Ec.
    rewrite (proj2 (existsb_exists _ _)) in Ex; [done|].
    exists (fd, c). split; [done|]. simpl. by rewrite Z.eqb_refl, Hg.
Qed.

(** * Concrete links *)

#[local] Instance zero_memory : Memory := zero.
Definition hello : list ascii := cs "0000hello".

(** A connection closed by another thread fails the assertion of [write_cb] if the poll thread
    reaches it before [block_remove_fd] returns. *)
Lemma write_cb_closed c res : write_cb (closeconn c).1 res = Fault AssertFail.
Proof. unfold write_cb, closeconn. by destruct (dead_ c) eqn:E; simpl; rewrite ?E. Qed.

(** Take a step from a reachable concrete state, by computing. *)
Ltac link_do R tac :=
  vm_compute in R;
  let R' := fresh R in
  pose proof (link_next _ _ R ltac:(tac; vm_compute; reflexivity)) as R';
  clear R; rename R' into R; vm_compute in R.

(** One PDU written in two pieces, arriving in two pieces. *)
Lemma hello_reachable :
  exists l, link_reachable l /\ sent l = [hello] /\ got l = [] /\
    readable (rsock l) = true /\ complete_pdu (rcv_ l) = None /\ dead_ (rcv_ l) = false /\
    dead_ (snd_ l) = false /\ to_write (snd_ l) = [] /\ wire l = [] /\ broken (rsock l) = false /\
    avail (rsock l) = drop 6 (frame hello).
Proof.
  pose proof (link_next _ _ link_init (link_enter _ _ _ _ _ _)) as R.
  link_do R ltac:(eapply (link_start _ _ _ _ _ _ hello (WroteBytes 7)); [by_computing|done|]).
  link_do R ltac:(eapply (link_write _ _ _ _ _ _ (WroteBytes 9))).
  link_do R ltac:(apply link_finish).
  link_do R ltac:(apply (link_arrive _ _ (take 6 (frame hello)) (drop 6 (frame hello)))).
  link_do R ltac:(eapply (link_read _ _ _ _ _ _ 4 2 false true)).
  link_do R ltac:(apply (link_arrive _ _ (drop 6 (frame hello)) [])).
  eexists. split; [exact R|]. vm_compute. repeat split; reflexivity.
Qed.

Lemma pdus_in_order_witness :
  exists l, sent l = [hello] /\ got l `prefix_of` [frame hello] /\
    is_ret (read_cb (rcv_ l) 4 1 false true (rsock l)).
Proof.
  destruct hello_reachable as (l & Hl & Hs & _ & Hr & _). exists l.
  destruct (pdus_in_order l Hl) as (Hp & Hread & _). rewrite Hs in Hp.
  split; [exact Hs|]. split; [exact Hp|]. exact (Hread Hr 4%nat 1%nat false true).
Defined.

Lemma all_pdus_delivered_witness :
  exists l ps c s, drain 3 (fun _ => 1%nat) (rcv_ l) (rsock l) = Ret (ps, c, s) /\
    ps = [frame hello].
Proof.
  destruct hello_reachable as (l & Hl & Hs & Hg & _ & Hc & Hd & Hds & Htw & Hw & Hb & Ha).
  destruct (all_pdus_delivered l (fun _ => 1%nat) Hl Hds Htw Hw Hb Hd Hc) as (ps & c & s & E & Hps & _).
  exists l, ps, c, s. rewrite Ha in E. split; [exact E|]. rewrite Hg, Hs in Hps. exact Hps.
Defined.

Lemma small_size_word_witness :
  read_cb (connection_new 5).1 4 3 false true (Sock (size_word (-2) ++ cs "abc") false false) = Fault Undefined /\
  read_cb (connection_new 5).1 4 3 false true (Sock (size_word 2 ++ cs "abc") false false) =
    Ret (set_dead (connection_new 5).1, Sock (cs "abc") false false, [DelCallback CB_RDWR], None).
Proof.
  split.
  - apply (small_size_word (connection_new 5).1 (-2) (cs "abc") 3 false true false false);
      [reflexivity|reflexivity|unfold is_s32; lia|lia].
  - apply (small_size_word (connection_new 5).1 2 (cs "abc") 3 false true false false);
      [reflexivity|reflexivity|unfold is_s32; lia|lia].
Defined.
