(* ===== verification/ThrPool.v ===== *)
(** The job queue and the thread pool of rpc/fifo.h, rpc/thr_pool.cc and rpc/thr_pool.h, and
    the way [rpcs::got_pdu] of rpc/rpc.cc feeds it.

    [enq] and [deq] hold the queue's mutex for their whole body save the waits: one pass of
    their loop is a function, whose result says whether the thread goes to sleep.  [pool_step]
    is the pool: clients that add jobs, workers, and the destructor with its poison pills.  A
    job is known by a number; a pill is the job with a null function. *)
From Stdlib Require Import ZArith Lia.
From stdpp Require Import base list.
From S2P Require Import Prelude Marshall PollMgr Transport.
Local Open Scope Z_scope.

(** * fifo *)

Record fifo (A : Type) := Fifo { q_ : list A; max_ : Z }.
Arguments Fifo {A} q_ max_.
Arguments q_ {A} f.
Arguments max_ {A} f.

(** What a pass through the loop of [enq] or [deq] does: finish with a result, or wait. *)
Inductive pass (A B : Type) := Finish (f : fifo A) (b : B) | Wait.
Arguments Finish {A B} f b.
Arguments Wait {A B}.

Section fifo.
  Context {A : Type}.

(** The constructor: [max_] is unsigned. *)
Definition fifo_new (limit : Z) : fifo A := Fifo [] (u32 limit).

(** [size()] is declared to return [bool]. *)
Definition size (f : fifo A) : bool := negb (Z.of_nat (length (q_ f)) =? 0).

Definition has_room (f : fifo A) : bool :=
  (max_ f =? 0) || (Z.of_nat (length (q_ f)) <? max_ f).

Definition enq (f : fifo A) (e : A) (blocking : bool) : pass A bool :=
  if has_room f then Finish (Fifo (q_ f ++ [e]) (max_ f)) true
  else if blocking then Wait else Finish f false.

Definition deq (f : fifo A) : pass A A :=
  match q_ f with
  | [] => Wait
  | e :: q' => Finish (Fifo q' (max_ f)) e
  end.

(** [deq] wakes a thread waiting for room exactly when it made some. *)
Definition deq_signals (f : fifo A) : bool :=
  negb (max_ f =? 0) && (Z.of_nat (length (q_ f)) <? max_ f).

Definition fifo_ok (f : fifo A) : Prop :=
  0 <= max_ f /\ (max_ f = 0 \/ Z.of_nat (length (q_ f)) <= max_ f).

Lemma fifo_new_ok limit : fifo_ok (fifo_new limit).
Proof. split; [|right]; apply u32_range. Qed.

(** The queue never grows past its limit, and [enq] waits or refuses only at the limit. *)
Lemma enq_ok f e blocking :
  fifo_ok f ->
  match enq f e blocking with
  | Finish f' b => fifo_ok f' /\ max_ f' = max_ f /\
      (if b then q_ f' = q_ f ++ [e]
       else f' = f /\ blocking = false /\ Z.of_nat (length (q_ f)) = max_ f /\ 0 < max_ f)
  | Wait => blocking = true /\ Z.of_nat (length (q_ f)) = max_ f /\ 0 < max_ f
  end.
Proof.
  intros [H0 Hm]. unfold enq. destruct (has_room f) eqn:Hr; unfold has_room in Hr.
  - split; [|done]. split; [done|]. simpl. rewrite length_app. simpl. lia.
  - destruct blocking; [lia|]. do 4 (split; [done|]). lia.
Qed.

Lemma deq_ok f :
  fifo_ok f ->
  match deq f with
  | Finish f' e => fifo_ok f' /\ max_ f' = max_ f /\ q_ f = e :: q_ f' /\
      deq_signals f' = negb (max_ f =? 0)
  | Wait => q_ f = []
  end.
Proof.
  intros [H0 Hm]. unfold deq, deq_signals. destruct (q_ f) as [|e q] eqn:E; simpl in *; [done|].
  split; [split; simpl; lia|]. do 2 (split; [done|]). lia.
Qed.
End fifo.

(** * ThrPool *)

Definition job := option nat.       (* [None] is a poison pill *)

Inductive worker := Idle | Busy (j : nat) | Gone.

Record pool := Pool {
  nthreads_ : nat;
  blockadd_ : bool;
  jobq_ : fifo job;
  workers : list worker;
  pills : option nat;            (* how many the destructor has put in, if it runs *)
  accepted : list nat;           (* jobs [addJob] answered true for, in order *)
  started : list nat             (* jobs workers took, in order *)
}.

Definition pool_new (n : nat) (blocking : bool) : pool :=
  Pool n blocking (fifo_new (100 * Z.of_nat n)) (replicate n Idle) None [] [].

(** [addJob]: [None] when the caller sleeps. *)
Definition addJob (p : pool) (j : nat) : option (pool * bool) :=
  match enq (jobq_ p) (Some j) (blockadd_ p) with
  | Finish f b => Some (Pool (nthreads_ p) (blockadd_ p) f (workers p) (pills p)
      (if b then accepted p ++ [j] else accepted p) (started p), b)
  | Wait => None
  end.

(** [takeJob]: [false] is the order to exit. *)
Definition takeJob (f : fifo job) : option (fifo job * job * bool) :=
  match deq f with
  | Finish f' j => Some (f', j, match j with Some _ => true | None => false end)
  | Wait => None
  end.

(** The two steps of [do_worker]: take a job, and have run it. *)
Definition do_worker_take (p : pool) (i : nat) : option pool :=
  match workers p !! i with
  | Some Idle =>
      match takeJob (jobq_ p) with
      | Some (f, Some j, true) =>
          Some (Pool (nthreads_ p) (blockadd_ p) f (<[i := Busy j]> (workers p)) (pills p)
                     (accepted p) (started p ++ [j]))
      | Some (f, _, _) =>
          Some (Pool (nthreads_ p) (blockadd_ p) f (<[i := Gone]> (workers p)) (pills p)
                     (accepted p) (started p))
      | None => None
      end
  | _ => None
  end.

Definition do_worker_done (p : pool) (i : nat) : option pool :=
  match workers p !! i with
  | Some (Busy _) =>
      Some (Pool (nthreads_ p) (blockadd_ p) (jobq_ p) (<[i := Idle]> (workers p)) (pills p)
                 (accepted p) (started p))
  | _ => None
  end.

(** The destructor's first loop, a pill at a time ([enq] blocks when the queue is full), and
    the condition for its second loop to end: every thread can be joined. *)
Definition push_pill (p : pool) : option pool :=
  match pills p with
  | Some k =>
      if Nat.ltb k (nthreads_ p) then
        match enq (jobq_ p) None true with
        | Finish f _ => Some (Pool (nthreads_ p) (blockadd_ p) f (workers p) (Some (S k))
                                   (accepted p) (started p))
        | Wait => None
        end
      else None
  | None => None
  end.
Definition all_joined (p : pool) : Prop :=
  pills p = Some (nthreads_ p) /\ Forall (fun w => w = Gone) (workers p).

Inductive pool_step : pool -> pool -> Prop :=
| ps_add p j p' b : pills p = None -> addJob p j = Some (p', b) -> pool_step p p'
| ps_take p i p' : do_worker_take p i = Some p' -> pool_step p p'
| ps_done p i p' : do_worker_done p i = Some p' -> pool_step p p'
| ps_destroy p : pills p = None ->
    pool_step p (Pool (nthreads_ p) (blockadd_ p) (jobq_ p) (workers p) (Some 0%nat)
                      (accepted p) (started p))
| ps_pill p p' : push_pill p = Some p' -> pool_step p p'.

Inductive pool_reachable (n : nat) (b : bool) : pool -> Prop :=
| pr_init : pool_reachable n b (pool_new n b)
| pr_step p p' : pool_reachable n b p -> pool_step p p' -> pool_reachable n b p'.

(** * The pool's invariant *)

Definition is_gone (w : worker) : nat := match w with Gone => 1 | _ => 0 end.
Definition is_busy (w : worker) : nat := match w with Busy _ => 1 | _ => 0 end.
Definition tally (f : worker -> nat) (ws : list worker) : nat := sum_list_with f ws.

Lemma tally_insert f ws i w w' :
  ws !! i = Some w -> (tally f (<[i := w']> ws) + f w = tally f ws + f w')%nat.
Proof. apply sum_list_insert. Qed.
Lemma tally_all ws : (tally is_gone ws <= length ws)%nat.
Proof. induction ws as [|[] ws IH]; simpl; unfold tally in *; lia. Qed.
Lemma all_gone ws : tally is_gone ws = length ws -> Forall (fun w => w = Gone) ws.
Proof.
  induction ws as [|w ws IH]; intros E; [done|]. pose proof (tally_all ws) as Hle.
  unfold tally in *. destruct w; simpl in *; try lia. constructor; [done|]. apply IH. lia.
Qed.
Lemma someone_left ws :
  (tally is_gone ws < length ws)%nat ->
  exists i w, ws !! i = Some w /\ (w = Idle \/ exists j, w = Busy j).
Proof.
  induction ws as [|w ws IH]; intros E; [simpl in E; lia|].
  destruct w as [|j|]; [exists 0%nat, Idle; eauto|exists 0%nat, (Busy j); eauto|].
  destruct IH as (i & w & ? & ?); [simpl in E; unfold tally in *; lia|]. by exists (S i), w.
Qed.

(** Jobs wait before pills; no worker leaves before the last job is taken. *)
Record pool_inv (n : nat) (p : pool) : Prop := {
  po_n : nthreads_ p = n;
  po_workers : length (workers p) = n;
  po_fifo : fifo_ok (jobq_ p);
  po_max : max_ (jobq_ p) = u32 (100 * Z.of_nat n);
  po_queue : exists js k, q_ (jobq_ p) = (Some <$> js) ++ replicate k None /\
    accepted p = started p ++ js /\
    match pills p with
    | None => k = 0%nat /\ tally is_gone (workers p) = 0%nat
    | Some c => (tally is_gone (workers p) + k = c /\ c <= n)%nat /\
        ((0 < tally is_gone (workers p))%nat -> js = [])
    end
}.

Lemma pool_new_inv n b : pool_inv n (pool_new n b).
Proof.
  constructor; simpl; [done|apply length_replicate|apply fifo_new_ok|done|].
  exists [], 0%nat. split; [done|]. split; [done|]. split; [done|].
  induction n as [|n IH]; [done|]. simpl. exact IH.
Qed.

Lemma pool_step_inv n p p' : pool_inv n p -> pool_step p p' -> pool_inv n p'.
Proof.
  intros [Hn Hw Hf Hm (js & k & Hq & Ha & Hp)] Hst.
  destruct Hst as [p j p' b Hnone E|p i p' E|p i p' E|p Hnone|p p' E].
  - unfold addJob in E. pose proof (enq_ok (jobq_ p) (Some j) (blockadd_ p) Hf) as Hen.
    destruct (enq _ _ _) as [f b'|]; [|done]. injection E as <- <-.
    destruct Hen as (Hf' & Hm' & Hb). rewrite Hnone in *. destruct Hp as [-> Hg].
    constructor; simpl; [done..|congruence|]. destruct b'.
    + exists (js ++ [j]), 0%nat. rewrite Hb, Hq, fmap_app, Ha. simpl.
      rewrite !app_nil_r, app_assoc. done.
    + destruct Hb as (-> & _). by exists js, 0%nat.
  - unfold do_worker_take, takeJob in E. destruct (workers p !! i) as [[]|] eqn:Ei; try done.
    pose proof (deq_ok (jobq_ p) Hf) as Hde. destruct (deq (jobq_ p)) as [f e|]; [|done].
    destruct Hde as (Hf' & Hm' & Hq' & _). rewrite Hq' in Hq.
    pose proof (tally_insert is_gone (workers p) i Idle) as Ht.
    destruct e as [j|]; injection E as <-; constructor; simpl; rewrite ?length_insert;
      try done; try congruence.
    + destruct js as [|j' js]; [by destruct k|]. injection Hq as -> Hq. exists js, k.
      split; [done|]. split; [by rewrite Ha, <- app_assoc|].
      specialize (Ht (Busy j') Ei). simpl in Ht. rewrite !Nat.add_0_r in Ht. rewrite Ht.
      destruct (pills p); [|done]. destruct Hp as [? Hg]. split; [done|].
      intros Hpos. discriminate (Hg Hpos).
    + destruct js as [|j' js]; [|done]. destruct k as [|k]; [done|]. injection Hq as Hq.
      specialize (Ht Gone Ei). simpl in Ht. exists [], k. split; [done|]. split; [done|].
      destruct (pills p); [|lia]. split; [lia|done].
  - unfold do_worker_done in E. destruct (workers p !! i) as [[]|] eqn:Ei; try done.
    injection E as <-. constructor; simpl; rewrite ?length_insert; try done.
    exists js, k. pose proof (tally_insert is_gone (workers p) i _ Idle Ei) as Ht.
    simpl in Ht. rewrite !Nat.add_0_r in Ht. by rewrite Ht.
  - rewrite Hnone in Hp. constructor; simpl; try done. exists js, k. split; [done|].
    split; [done|]. lia.
  - unfold push_pill in E. destruct (pills p) as [c|] eqn:Epl; [|done].
    destruct (Nat.ltb_spec c (nthreads_ p)); [|done].
    pose proof (enq_ok (jobq_ p) None true Hf) as Hen. destruct (enq _ _ _) as [f b'|]; [|done].
    injection E as <-. destruct Hen as (Hf' & Hm' & Hb). destruct Hp as [Hp Hg].
    constructor; simpl; [done..|congruence|].
    destruct b'; [|destruct Hb as (_ & ? & _); done].
    exists js, (S k). rewrite Hb, Hq, <- app_assoc.
    split; [f_equal; by rewrite replicate_S_end|]. split; [done|].
    split; [lia|done].
Qed.

Lemma pool_reachable_inv n b p : pool_reachable n b p -> pool_inv n p.
Proof. induction 1; eauto using pool_new_inv, pool_step_inv. Qed.

(** What is left to do while the destructor runs. *)
Definition work_left (p : pool) : nat :=
  (3 * (nthreads_ p - default 0 (pills p)) + 2 * length (q_ (jobq_ p)) +
   tally is_busy (workers p))%nat.

Lemma work_decreases n p p' c :
  pool_inv n p -> pills p = Some c -> pool_step p p' -> (work_left p' < work_left p)%nat.
Proof.
  intros Hinv Hc Hst. pose proof (po_fifo n p Hinv) as Hf. unfold work_left.
  destruct Hst as [p j p' b Hnone E|p i p' E|p i p' E|p Hnone|p p' E]; [congruence| | |congruence|].
  - unfold do_worker_take, takeJob in E. destruct (workers p !! i) as [[]|] eqn:Ei; try done.
    pose proof (deq_ok (jobq_ p) Hf) as Hde. destruct (deq (jobq_ p)) as [f e|]; [|done].
    destruct Hde as (_ & _ & Hq & _). rewrite Hq.
    pose proof (tally_insert is_busy (workers p) i Idle) as Ht.
    destruct e as [j|]; injection E as <-; simpl;
      [specialize (Ht (Busy j) Ei)|specialize (Ht Gone Ei)]; simpl in Ht; lia.
  - unfold do_worker_done in E. destruct (workers p !! i) as [[]|] eqn:Ei; try done.
    injection E as <-. pose proof (tally_insert is_busy (workers p) i _ Idle Ei) as Ht.
    simpl in *. lia.
  - unfold push_pill in E. rewrite Hc in *.
    destruct (Nat.ltb_spec c (nthreads_ p)); [|done].
    pose proof (enq_ok (jobq_ p) None true Hf) as Hen. destruct (enq _ _ _) as [f b'|]; [|done].
    injection E as <-. destruct Hen as (_ & _ & Hb).
    destruct b'; [|destruct Hb as (_ & ? & _); done]. simpl. rewrite Hb, length_app. simpl. lia.
Qed.

(** While a worker is left, either it can go on or there is nothing to take. *)
Lemma worker_moves n p :
  pool_inv n p -> (tally is_gone (workers p) < n)%nat -> q_ (jobq_ p) <> [] ->
  exists p', pool_step p p'.
Proof.
  intros [Hn Hw Hf Hm _] Hg Hq.
  destruct (someone_left (workers p)) as (i & w & Hi & Hc); [lia|].
  destruct Hc as [->|[j ->]].
  - destruct (jobq_ p) as [[|[j|] q] m] eqn:Eq; simpl in Hq; [done| |]; eexists;
      (eapply ps_take with (i := i); unfold do_worker_take, takeJob, deq;
       rewrite Hi, Eq; simpl; reflexivity).
  - eexists. eapply ps_done with (i := i). unfold do_worker_done. rewrite Hi. reflexivity.
Qed.

Lemma stuck_is_joined n p c :
  (0 < n)%nat -> 100 * Z.of_nat n < 2 ^ 32 -> pool_inv n p -> pills p = Some c ->
  (forall p', ~ pool_step p p') -> all_joined p /\ q_ (jobq_ p) = [].
Proof.
  intros Hpos Hbig Hinv Hc Hstuck. pose proof Hinv as [Hn Hw Hf Hm (js & k & Hq & _ & Hp)].
  rewrite Hc in Hp. destruct Hp as [[Hk Hcn] Hg].
  assert (Hidle : (tally is_gone (workers p) < n)%nat -> q_ (jobq_ p) = []).
  { intros Hlt. destruct (q_ (jobq_ p)) eqn:Eq; [done|].
    destruct (worker_moves n p Hinv Hlt) as [p' Hs]; [by rewrite Eq|]. by destruct (Hstuck p'). }
  assert (Hcn' : c = n).
  { destruct (Nat.lt_ge_cases c n); [|lia]. rewrite Hidle in Hq by lia.
    assert (Hen : enq (jobq_ p) None true =
      Finish (Fifo (q_ (jobq_ p) ++ [None]) (max_ (jobq_ p))) true).
    { unfold enq, has_room. rewrite Hidle, Hm, u32_id by (unfold is_u32; lia).
      simpl length. by rewrite (proj2 (Z.ltb_lt _ _)), orb_true_r by lia. }
    destruct (Hstuck _ (ps_pill p _ ltac:(unfold push_pill; rewrite Hc, Hn;
      rewrite (proj2 (Nat.ltb_lt c n)) by done; rewrite Hen; reflexivity))). }
  subst c. assert (Hgn : tally is_gone (workers p) = n).
  { destruct (Nat.lt_ge_cases (tally is_gone (workers p)) n) as [Hlt|]; [|lia].
    rewrite (Hidle Hlt) in Hq. symmetry in Hq. apply app_nil in Hq as [_ Hr].
    destruct k; [lia|done]. }
  split; [split; [congruence|apply all_gone; congruence]|].
  rewrite Hq, (Hg ltac:(lia)). simpl. replace k with 0%nat by lia. done.
Qed.

(** Jobs start in the order they were accepted: in every reachable state of the pool, the
    jobs workers have taken are, in order and once each, the first of those [addJob] accepted;
    the others are in the queue, which holds no more than its limit of a hundred entries a
    thread, pills included. *)
Theorem pool_is_fifo n b p :
  pool_reachable n b p -> (0 < n)%nat -> 100 * Z.of_nat n < 2 ^ 32 ->
  (exists js, accepted p = started p ++ js /\ omap id (q_ (jobq_ p)) = js) /\
  (length (q_ (jobq_ p)) <= 100 * n)%nat.
Proof.
  intros Hr Hpos Hbig. apply pool_reachable_inv in Hr as [Hn Hw [_ Hf] Hm (js & k & Hq & Ha & _)].
  split.
  - exists js. split; [done|]. rewrite Hq. clear. induction js as [|j js IH]; simpl; [|by f_equal].
    by induction k.
  - rewrite Hm, u32_id in Hf by (unfold is_u32; lia). lia.
Qed.

(** C22 (the destructor waits for every job): once [~ThrPool] runs, every step of the pool brings
    it nearer to its end, and it cannot get stuck before it: when nothing can move any more,
    every job ever accepted was started and finished, all pills are taken and every worker
    thread has exited, so that the joins return. *)
Theorem destructor_drains n b p c :
  pool_reachable n b p -> (0 < n)%nat -> 100 * Z.of_nat n < 2 ^ 32 -> pills p = Some c ->
  (forall p', pool_step p p' -> (work_left p' < work_left p)%nat) /\
  ((forall p', ~ pool_step p p') -> all_joined p /\ started p = accepted p).
Proof.
  intros Hr Hpos Hbig Hc. apply pool_reachable_inv in Hr. split.
  - intros p'. by eapply (work_decreases n).
  - intros Hstuck. destruct (stuck_is_joined n p c Hpos Hbig Hr Hc Hstuck) as [Hj Hq].
    split; [done|]. destruct Hr as [_ _ _ _ (js & k & Hq' & Ha & _)].
    rewrite Hq in Hq'. symmetry in Hq'. apply app_nil in Hq' as [Hjs _].
    destruct js; [|done]. by rewrite Ha, app_nil_r.
Qed.

(** * [rpcs::got_pdu] *)

(** What the server's channel manager does with a PDU: the pool, the connection (gone if the
    reference was its last), the answer, and whether the job object was deleted.  [r1] and
    [r2] are the two reads of [reachable_]; [None] is a caller that sleeps. *)
Definition got_pdu (p : pool) (c : connection) (j : nat) (r1 r2 : bool)
    : outcome (option (pool * option connection * bool * bool)) :=
  if negb r1 then Ret (Some (p, Some c, true, false))
  else
    let c := incref c in
    match addJob p j with
    | None => Ret None
    | Some (p', succ) =>
        if negb succ || negb r2
        then oc ← decref c; Ret (Some (p', oc, succ, true))
        else Ret (Some (p', Some c, succ, false))
    end.

(** A reachable server takes a PDU, with a reference to its connection, exactly when the queue
    has room, and leaves everything as it was when it has none. *)
Lemma got_pdu_reachable p c j :
  blockadd_ p = false -> fifo_ok (jobq_ p) -> 1 <= refno_ c ->
  got_pdu p c j true true =
  Ret (Some (if has_room (jobq_ p)
             then (Pool (nthreads_ p) false (Fifo (q_ (jobq_ p) ++ [Some j]) (max_ (jobq_ p)))
                     (workers p) (pills p) (accepted p ++ [j]) (started p),
                   Some (incref c), true, false)
             else (p, Some c, false, true))).
Proof.
  intros Hb Hf Hc. unfold got_pdu, addJob, enq. rewrite Hb. simpl.
  destruct (has_room (jobq_ p)); simpl; [done|].
  unfold decref. simpl. replace (refno_ c + 1 - 1) with (refno_ c) by lia.
  rewrite (proj2 (Z.leb_le 0 _)) by lia. simpl. rewrite (proj2 (Z.eqb_neq _ 0)) by lia.
  simpl. destruct p, c; simpl in *; subst; done.
Qed.

(** If [set_reachable(false)] comes between the two reads, the job is deleted while it is in
    the queue, and the reference it stands for is given back. *)
Lemma got_pdu_deletes_queued p c j :
  blockadd_ p = false -> has_room (jobq_ p) = true -> 1 <= refno_ c ->
  exists p', got_pdu p c j true false = Ret (Some (p', Some c, true, true)) /\
    Some j ∈ q_ (jobq_ p').
Proof.
  intros Hb Hr Hc. unfold got_pdu, addJob, enq. rewrite Hr. simpl. unfold decref. simpl.
  replace (refno_ c + 1 - 1) with (refno_ c) by lia.
  rewrite (proj2 (Z.leb_le 0 _)) by lia. simpl. rewrite (proj2 (Z.eqb_neq _ 0)) by lia.
  simpl. eexists. split; [by destruct c|]. simpl. rewrite elem_of_app, list_elem_of_singleton. by right.
Qed.

(** * A pool of two at work *)

Definition add (j : nat) (p : pool) : option pool := fst <$> addJob p j.
Lemma reach_add n b p j p' :
  pool_reachable n b p -> pills p = None -> add j p = Some p' -> pool_reachable n b p'.
Proof.
  unfold add. intros Hr Hp E. destruct (addJob p j) as [[p1 b1]|] eqn:E1; [|done].
  injection E as <-. eapply pr_step; [done|by eapply ps_add].
Qed.

Lemma two_reachable :
  exists p, pool_reachable 2 false p /\ accepted p = [7; 8; 9]%nat /\ started p = [7]%nat /\
    pills p = Some 1%nat /\ q_ (jobq_ p) = [Some 8; Some 9; None]%nat.
Proof.
  assert (R : pool_reachable 2 false (pool_new 2 false)) by constructor. vm_compute in R.
  eapply (reach_add _ _ _ 7) in R; [|done|vm_compute; reflexivity]. vm_compute in R.
  eapply (reach_add _ _ _ 8) in R; [|done|vm_compute; reflexivity]. vm_compute in R.
  eapply (reach_add _ _ _ 9) in R; [|done|vm_compute; reflexivity]. vm_compute in R.
  eapply pr_step in R; [|eapply (ps_take _ 1); vm_compute; reflexivity]. vm_compute in R.
  eapply pr_step in R; [|eapply ps_destroy; vm_compute; reflexivity]. vm_compute in R.
  eapply pr_step in R; [|eapply ps_pill; vm_compute; reflexivity]. vm_compute in R.
  eexists. split; [exact R|]. done.
Qed.

Lemma pool_is_fifo_witness :
  exists p, started p = [7]%nat /\ omap id (q_ (jobq_ p)) = [8; 9]%nat /\
    (length (q_ (jobq_ p)) <= 200)%nat.
Proof.
  destruct two_reachable as (p & Hr & Ha & Hs & _).
  destruct (pool_is_fifo 2 false p Hr) as [(js & Hjs & Hq) Hl]; [lia|lia|].
  exists p. rewrite Ha, Hs in Hjs. injection Hjs as <-.
  split; [exact Hs|]. split; [exact Hq|exact Hl].
Defined.

Lemma destructor_drains_witness :
  exists p, accepted p = [7; 8; 9]%nat /\ started p = [7]%nat /\
    ~ (forall p', ~ pool_step p p').
Proof.
  destruct two_reachable as (p & Hr & Ha & Hs & Hp & _). exists p.
  split; [exact Ha|]. split; [exact Hs|]. intros Hstuck.
  destruct (destructor_drains 2 false p 1 Hr) as [_ Hend]; [lia|lia|exact Hp|].
  destruct (Hend Hstuck) as [_ E]. rewrite Ha, Hs in E. discriminate E.
Defined.
