(* ===== verification/Protocols.v ===== *)
(** Wire protocols: the message structures of paxos_protocol.h, rsm_protocol.h and
    extent_protocol.h with their marshalling, and the status codes of every
    protocol header.  Each structure is an instance of [Marshal], so a message that
    is sent is the message that is received. *)
From Stdlib Require Import ZArith Lia Ascii String.
From stdpp Require Import base list strings.
From S2P Require Import Prelude Marshall.
Local Open Scope Z_scope.

(** * Status codes *)

Module rpc_const.
Definition bind : Z := 1.
Definition timeout_failure : Z := -1.
Definition unmarshal_args_failure : Z := -2.
Definition unmarshal_reply_failure : Z := -3.
Definition atmostonce_failure : Z := -4.
Definition oldsrv_failure : Z := -5.
Definition bind_failure : Z := -6.
Definition cancel_failure : Z := -7.
End rpc_const.

Module paxos_protocol.
Definition OK : Z := 0.
Definition ERR : Z := 1.
End paxos_protocol.

Module rsm_client_protocol.
Definition OK : Z := 0.
Definition ERR : Z := 1.
Definition NOTPRIMARY : Z := 2.
Definition BUSY : Z := 3.
End rsm_client_protocol.

Module rsm_protocol.
Definition OK : Z := 0.
Definition ERR : Z := 1.
Definition BUSY : Z := 2.
End rsm_protocol.

Module extent_protocol.
Definition OK : Z := 0.
Definition RPCERR : Z := 1.
Definition NOENT : Z := 2.
Definition IOERR : Z := 3.
End extent_protocol.

Module lock_protocol.
Definition OK : Z := 0.
Definition RETRY : Z := 1.
Definition RPCERR : Z := 2.
Definition NOENT : Z := 3.
Definition IOERR : Z := 4.
End lock_protocol.

(** * Structures *)

(** A proposal number: a counter and the proposer that used it. *)
Record prop_t := Prop_t { prop_n : Z; prop_m : cstring }.

Record preparearg := PrepareArg { pa_instance : Z; pa_n : prop_t }.
Record prepareres := PrepareRes {
  pr_oldinstance : bool; pr_accept : bool; pr_n_a : prop_t; pr_v_a : cstring }.
Record acceptarg := AcceptArg { aa_instance : Z; aa_n : prop_t; aa_v : cstring }.
Record decidearg := DecideArg { da_instance : Z; da_v : cstring }.
Record viewstamp := Viewstamp { vs_vid : Z; vs_seqno : Z }.
Record transferres := TransferRes { tr_state : cstring; tr_last : viewstamp }.
Record joinres := JoinRes { jr_log : cstring }.
Record attr := Attr { a_atime : Z; a_mtime : Z; a_ctime : Z; a_size : Z }.

#[global] Instance prop_t_eq_dec : EqDecision prop_t.
Proof. solve_decision. Defined.
#[global] Instance prepareres_eq_dec : EqDecision prepareres.
Proof. solve_decision. Defined.
#[global] Instance viewstamp_eq_dec : EqDecision viewstamp.
Proof. solve_decision. Defined.
#[global] Instance attr_eq_dec : EqDecision attr.
Proof. solve_decision. Defined.

(** * Insertion and extraction *)

Section operators.
  Context `{Memory}.

Definition put_prop_t (m : marshall) (a : prop_t) : marshall :=
  put_string (put_uint m (prop_n a)) (prop_m a).
Definition put_preparearg (m : marshall) (a : preparearg) : marshall :=
  put_prop_t (put_uint m (pa_instance a)) (pa_n a).
Definition put_prepareres (m : marshall) (r : prepareres) : marshall :=
  let m := put_bool m (pr_oldinstance r) in
  let m := put_bool m (pr_accept r) in
  let m := put_prop_t m (pr_n_a r) in
  put_string m (pr_v_a r).
Definition put_acceptarg (m : marshall) (a : acceptarg) : marshall :=
  let m := put_uint m (aa_instance a) in
  let m := put_prop_t m (aa_n a) in
  put_string m (aa_v a).
Definition put_decidearg (m : marshall) (a : decidearg) : marshall :=
  put_string (put_uint m (da_instance a)) (da_v a).
Definition put_viewstamp (m : marshall) (v : viewstamp) : marshall :=
  put_uint (put_uint m (vs_vid v)) (vs_seqno v).
Definition put_transferres (m : marshall) (r : transferres) : marshall :=
  put_viewstamp (put_string m (tr_state r)) (tr_last r).
Definition put_joinres (m : marshall) (r : joinres) : marshall := put_string m (jr_log r).
Definition put_attr (m : marshall) (a : attr) : marshall :=
  let m := put_uint m (a_atime a) in
  let m := put_uint m (a_mtime a) in
  let m := put_uint m (a_ctime a) in
  put_uint m (a_size a).
End operators.

Definition get_prop_t (u : unmarshall) (a : prop_t) : outcome (unmarshall * prop_t) :=
  let '(u, n) := get_uint u in
  '(u, m) ← get_string u (prop_m a);
  Ret (u, Prop_t n m).
Definition get_preparearg (u : unmarshall) (a : preparearg) : outcome (unmarshall * preparearg) :=
  let '(u, i) := get_uint u in
  '(u, n) ← get_prop_t u (pa_n a);
  Ret (u, PrepareArg i n).
Definition get_prepareres (u : unmarshall) (r : prepareres) : outcome (unmarshall * prepareres) :=
  let '(u, oldinstance) := get_bool u in
  let '(u, accept) := get_bool u in
  '(u, n_a) ← get_prop_t u (pr_n_a r);
  '(u, v_a) ← get_string u (pr_v_a r);
  Ret (u, PrepareRes oldinstance accept n_a v_a).
Definition get_acceptarg (u : unmarshall) (a : acceptarg) : outcome (unmarshall * acceptarg) :=
  let '(u, i) := get_uint u in
  '(u, n) ← get_prop_t u (aa_n a);
  '(u, v) ← get_string u (aa_v a);
  Ret (u, AcceptArg i n v).
Definition get_decidearg (u : unmarshall) (a : decidearg) : outcome (unmarshall * decidearg) :=
  let '(u, i) := get_uint u in
  '(u, v) ← get_string u (da_v a);
  Ret (u, DecideArg i v).
Definition get_viewstamp (u : unmarshall) (_ : viewstamp) : outcome (unmarshall * viewstamp) :=
  let '(u, vid) := get_uint u in
  let '(u, seqno) := get_uint u in
  Ret (u, Viewstamp vid seqno).
Definition get_transferres (u : unmarshall) (r : transferres)
  : outcome (unmarshall * transferres) :=
  '(u, state) ← get_string u (tr_state r);
  '(u, last) ← get_viewstamp u (tr_last r);
  Ret (u, TransferRes state last).
Definition get_joinres (u : unmarshall) (r : joinres) : outcome (unmarshall * joinres) :=
  '(u, l) ← get_string u (jr_log r); Ret (u, JoinRes l).
Definition get_attr (u : unmarshall) (_ : attr) : outcome (unmarshall * attr) :=
  let '(u, atime) := get_uint u in
  let '(u, mtime) := get_uint u in
  let '(u, ctime) := get_uint u in
  let '(u, size) := get_uint u in
  Ret (u, Attr atime mtime ctime size).

(** * Comparisons *)

(** [operator>] and [operator>=] on proposals: by number, then by name. *)
Definition prop_gt (a b : prop_t) : bool :=
  (prop_n b <? prop_n a) || ((prop_n a =? prop_n b) && str_gtb (prop_m a) (prop_m b)).
Definition prop_ge (a b : prop_t) : bool :=
  (prop_n b <? prop_n a)
  || ((prop_n a =? prop_n b) && negb (str_ltb (prop_m a) (prop_m b))).

Definition vs_eqb (a b : viewstamp) : bool :=
  (vs_vid a =? vs_vid b) && (vs_seqno a =? vs_seqno b).
Definition vs_gt (a b : viewstamp) : bool :=
  (vs_vid b <? vs_vid a) || ((vs_vid a =? vs_vid b) && (vs_seqno b <? vs_seqno a)).
Definition vs_neqb (a b : viewstamp) : bool :=
  negb (vs_vid a =? vs_vid b) || negb (vs_seqno a =? vs_seqno b).

(** Proposals are totally ordered. *)
Lemma prop_gt_irrefl a : prop_gt a a = false.
Proof. unfold prop_gt, str_gtb. rewrite str_ltb_irrefl. lia. Qed.
Lemma prop_gt_trans a b c : prop_gt a b = true -> prop_gt b c = true -> prop_gt a c = true.
Proof.
  unfold prop_gt, str_gtb. rewrite !orb_true_iff, !andb_true_iff, !Z.ltb_lt, !Z.eqb_eq.
  intros [?|[? ?]] [?|[? ?]]; try (left; lia).
  right. split; [lia|]. by eapply str_ltb_trans.
Qed.
Lemma prop_gt_total a b : prop_gt a b = true \/ a = b \/ prop_gt b a = true.
Proof.
  unfold prop_gt, str_gtb. rewrite !orb_true_iff, !andb_true_iff, !Z.ltb_lt, !Z.eqb_eq.
  destruct a as [n1 m1], b as [n2 m2]; simpl.
  destruct (Z.lt_total n1 n2) as [?|[->|?]]; [by auto| |by auto].
  destruct (str_ltb_total m1 m2) as [?|[->|?]]; auto 6.
Qed.
Lemma prop_ge_gt a b : prop_ge a b = negb (prop_gt b a).
Proof.
  unfold prop_ge, prop_gt, str_gtb.
  destruct (Z.ltb_spec (prop_n b) (prop_n a)), (Z.ltb_spec (prop_n a) (prop_n b)),
    (Z.eqb_spec (prop_n a) (prop_n b)), (Z.eqb_spec (prop_n b) (prop_n a)); simpl; try lia; done.
Qed.

(** * What is sent is received *)

Lemma get_bool_enc u x r :
  u_wf u -> u_left u = enc x ++ r ->
  get_bool u = (u_adv u 1, x) /\ u_wf (u_adv u 1) /\ u_left (u_adv u 1) = r.
Proof.
  intros W L. destruct (@get_enc bool marshal_bool u x x r W I L) as (E & ? & ?). simpl in E.
  injection E as ->. done.
Qed.

(** Read one field of a structure: the number, flag, string or nested structure
    the goal extracts next. *)
Ltac read_field :=
  match goal with
  | W : u_wf ?u, L : u_left ?u = enc_uint ?x ++ _ |- context [get_uint ?u] =>
      destruct (get_uint_enc u x _ W ltac:(first [assumption | apply u32_range]) L)
        as (-> & ? & ?); clear W L
  | W : u_wf ?u, L : u_left ?u = @enc bool _ ?x ++ _ |- context [get_bool ?u] =>
      destruct (get_bool_enc u x _ W L) as (-> & ? & ?); clear W L
  | W : u_wf ?u, L : u_left ?u = enc ?x ++ _ |- context [?g ?u ?old] =>
      change (g u old) with (get u old);
      let G := fresh in
      pose proof (fun s => get_enc u x old _ W s L) as G;
      destruct (G ltac:(first [assumption | exact I])) as (-> & ? & ?);
      clear W L G
  end; cbn [mbind outcome_bind]; rewrite ?u_adv_adv in *.

(** The two laws of a structure, field by field. *)
Ltac put_fields :=
  intros; cbv beta;
  match goal with |- appends _ (?p _ _ _) _ => unfold p; cbv zeta end;
  match goal with |- appends ?m _ ?l => change l with ([] ++ l) end;
  rewrite ?app_assoc;
  repeat match goal with
  | |- appends _ (put_string _ _) _ => apply appends_string
  | |- appends _ (put_bool _ _) _ => apply appends_bool
  | |- appends _ (put_uint _ _) _ => apply appends_uint
  | |- appends _ (put_prop_t ?m ?x) _ => change (put_prop_t m x) with (put m x); apply appends_put
  | |- appends _ (put_viewstamp ?m ?x) _ =>
      change (put_viewstamp m x) with (put m x); apply appends_put
  | |- appends ?m ?m _ => apply appends_refl; assumption
  end.
Ltac get_fields :=
  intros; cbv beta in *;
  repeat match goal with H : _ /\ _ |- _ => destruct H end;
  rewrite <- ?app_assoc in *;
  match goal with |- ?g _ _ = _ /\ _ => unfold g end;
  repeat read_field;
  rewrite ?length_app in *; rewrite ?Nat.add_assoc in *;
  split; [do 2 f_equal; by match goal with |- _ = ?x => destruct x end | by auto].

#[global, program] Instance marshal_prop_t : Marshal prop_t := {|
  put _ := put_prop_t;
  get := get_prop_t;
  enc a := enc_uint (prop_n a) ++ enc (prop_m a);
  sendable a := is_u32 (prop_n a) |}.
Next Obligation. put_fields. Qed.
Next Obligation. get_fields. Qed.

#[global, program] Instance marshal_preparearg : Marshal preparearg := {|
  put _ := put_preparearg;
  get := get_preparearg;
  enc a := enc_uint (pa_instance a) ++ enc (pa_n a);
  sendable a := is_u32 (pa_instance a) /\ sendable (pa_n a) |}.
Next Obligation. put_fields. Qed.
Next Obligation. get_fields. Qed.

#[global, program] Instance marshal_prepareres : Marshal prepareres := {|
  put _ := put_prepareres;
  get := get_prepareres;
  enc a := enc (pr_oldinstance a) ++ enc (pr_accept a) ++ enc (pr_n_a a) ++ enc (pr_v_a a);
  sendable a := sendable (pr_n_a a) |}.
Next Obligation. put_fields. Qed.
Next Obligation. get_fields. Qed.

#[global, program] Instance marshal_acceptarg : Marshal acceptarg := {|
  put _ := put_acceptarg;
  get := get_acceptarg;
  enc a := enc_uint (aa_instance a) ++ enc (aa_n a) ++ enc (aa_v a);
  sendable a := is_u32 (aa_instance a) /\ sendable (aa_n a) |}.
Next Obligation. put_fields. Qed.
Next Obligation. get_fields. Qed.

#[global, program] Instance marshal_decidearg : Marshal decidearg := {|
  put _ := put_decidearg;
  get := get_decidearg;
  enc a := enc_uint (da_instance a) ++ enc (da_v a);
  sendable a := is_u32 (da_instance a) |}.
Next Obligation. put_fields. Qed.
Next Obligation. get_fields. Qed.

#[global, program] Instance marshal_viewstamp : Marshal viewstamp := {|
  put _ := put_viewstamp;
  get := get_viewstamp;
  enc a := enc_uint (vs_vid a) ++ enc_uint (vs_seqno a);
  sendable a := is_u32 (vs_vid a) /\ is_u32 (vs_seqno a) |}.
Next Obligation. put_fields. Qed.
Next Obligation. get_fields. Qed.

#[global, program] Instance marshal_transferres : Marshal transferres := {|
  put _ := put_transferres;
  get := get_transferres;
  enc a := enc (tr_state a) ++ enc (tr_last a);
  sendable a := sendable (tr_last a) |}.
Next Obligation. put_fields. Qed.
Next Obligation. get_fields. Qed.

#[global, program] Instance marshal_attr : Marshal attr := {|
  put _ := put_attr;
  get := get_attr;
  enc a := enc_uint (a_atime a) ++ enc_uint (a_mtime a) ++ enc_uint (a_ctime a) ++ enc_uint (a_size a);
  sendable a := is_u32 (a_atime a) /\ is_u32 (a_mtime a) /\ is_u32 (a_ctime a) /\ is_u32 (a_size a) |}.
Next Obligation. put_fields. Qed.
Next Obligation. get_fields. Qed.

#[global, program] Instance marshal_joinres : Marshal joinres := {|
  put _ := put_joinres;
  get := get_joinres;
  enc a := enc (jr_log a);
  sendable a := True |}.
Next Obligation. put_fields. Qed.
Next Obligation. get_fields. Qed.


(** * Examples of messages *)

Module wire_examples.
#[local] Instance zeroed : Memory := char_of_Z 0.
Definition header : req_header := ReqHeader 7 0x11001 123 456 6.
Definition res : prepareres := PrepareRes false true (Prop_t 3 (cs "4001")) (cs "2 4001 4002").

Lemma request_roundtrip_witness :
  exists u u', unpack_req_header (unmarshall_of_buf
      (m_bytes (pack_req_header (put marshall_new res) header))) = (u, header)
    /\ get u (PrepareRes false false (Prop_t 0 []) []) = Ret (u', res) /\ okdone u' = true.
Proof.
  apply request_roundtrip; [|by vm_compute|by vm_compute].
  by vm_compute.
Defined.
Lemma reply_roundtrip_witness :
  exists u u', unpack_reply_header (unmarshall_of_buf
      (m_bytes (pack_reply_header (put marshall_new res) (ReplyHeader 7 0)))) = (u, ReplyHeader 7 0)
    /\ get u (PrepareRes false false (Prop_t 0 []) []) = Ret (u', res) /\ okdone u' = true.
Proof.
  apply reply_roundtrip; [|by vm_compute|by vm_compute].
  by vm_compute.
Defined.

(** The size word [0xffffffff] right after a request header. *)
Definition lying : unmarshall :=
  Unmarshall (replicate 24 junk ++ enc_uint (2 ^ 32 - 1)) 28 24 true.
Lemma string_size_check_witness : get_string lying [] = Fault Undefined.
Proof.
  destruct (string_size_check lying (2 ^ 32 - 1) [] []) as [_ H];
    [|by_computing|reflexivity|by vm_compute|by apply H; vm_compute].
  split; [reflexivity|]. split; [simpl; lia|]. split; [by vm_compute|reflexivity].
Defined.
End wire_examples.
