(* ===== verification/PaxosLog.v ===== *)
(** The durable log of log.cc and the acceptor state of paxos.h it rebuilds.

    The log file is its text.  [loginstance], [logprop] and [logaccept] append one
    line each; [logread] replays a file into an acceptor.  A file the writers
    produced is a list of [entry]s, and replaying it applies them in order. *)
From Stdlib Require Import ZArith Lia Ascii String.
From stdpp Require Import base gmap list strings.
From S2P Require Import Prelude TextIO Protocols.
Local Open Scope Z_scope.

(** * The acceptor *)

(** [acceptor] of paxos.h; [logfile] is the text of the file [log] writes. *)
Record acceptor := Acceptor {
  acc_cfg : bool;                 (* cfg is not null *)
  acc_me : cstring;
  n_h : prop_t;                   (* highest proposal seen in a prepare *)
  n_a : prop_t;                   (* highest proposal accepted *)
  v_a : cstring;                  (* its value *)
  instance_h : Z;                 (* highest instance decided *)
  values : gmap Z cstring;        (* values of each instance *)
  logfile : cstring }.

Definition set_n_h (a : acceptor) (n : prop_t) : acceptor :=
  Acceptor (acc_cfg a) (acc_me a) n (n_a a) (v_a a) (instance_h a) (values a) (logfile a).
Definition set_accepted (a : acceptor) (n : prop_t) (v : cstring) : acceptor :=
  Acceptor (acc_cfg a) (acc_me a) (n_h a) n v (instance_h a) (values a) (logfile a).
Definition set_decided (a : acceptor) (i : Z) (v : cstring) : acceptor :=
  Acceptor (acc_cfg a) (acc_me a) (n_h a) (n_a a) (v_a a) i (<[i := v]> (values a)) (logfile a).
Definition set_values (a : acceptor) (vs : gmap Z cstring) : acceptor :=
  Acceptor (acc_cfg a) (acc_me a) (n_h a) (n_a a) (v_a a) (instance_h a) vs (logfile a).
Definition set_logfile (a : acceptor) (t : cstring) : acceptor :=
  Acceptor (acc_cfg a) (acc_me a) (n_h a) (n_a a) (v_a a) (instance_h a) (values a) t.

(** * Writing *)

Definition done_line (instance : Z) (v : cstring) : cstring :=
  cs "done" ++ [space] ++ print_dec instance ++ [space] ++ v ++ [newline].
Definition propseen_line (n : prop_t) : cstring :=
  cs "propseen" ++ [space] ++ print_dec (prop_n n) ++ [space] ++ prop_m n ++ [newline].
Definition accepted_line (n : prop_t) (v : cstring) : cstring :=
  cs "accepted" ++ [space] ++ print_dec (prop_n n) ++ [space] ++ prop_m n ++ [space]
  ++ v ++ [newline].

Definition loginstance (a : acceptor) (instance : Z) (v : cstring) : acceptor :=
  set_logfile a (logfile a ++ done_line instance v).
Definition logprop (a : acceptor) (n : prop_t) : acceptor :=
  set_logfile a (logfile a ++ propseen_line n).
Definition logaccept (a : acceptor) (n : prop_t) (v : cstring) : acceptor :=
  set_logfile a (logfile a ++ accepted_line n v).

(** * Reading *)

(** What a [done] record does to the acceptor: the names in [n_h] and [n_a] stay. *)
Definition replay_done (a : acceptor) (instance : Z) (v : cstring) : acceptor :=
  let a := set_decided a instance v in
  let a := set_n_h a (Prop_t 0 (prop_m (n_h a))) in
  set_accepted a (Prop_t 0 (prop_m (n_a a))) [].

(** The loop of [logread]; [type] and [instance] are its variables. *)
Fixpoint logread_loop (fuel : nat) (from : istream) (type : cstring) (instance : Z)
    (a : acceptor) : outcome acceptor :=
  match fuel with
  | O => Fault Diverged
  | S fuel =>
      let '(from, type) := read_word from type in
      if negb (i_ok from) then Ret a
      else if str_eqb type (cs "done") then
        let '(from, instance) := read_unsigned 32 from instance in
        let from := get_char from in
        let '(from, v) := read_line from [] in
        logread_loop fuel from type instance (replay_done a instance v)
      else if str_eqb type (cs "propseen") then
        let '(from, n) := read_unsigned 32 from (prop_n (n_h a)) in
        let '(from, m) := read_word from (prop_m (n_h a)) in
        logread_loop fuel from type instance (set_n_h a (Prop_t n m))
      else if str_eqb type (cs "accepted") then
        let '(from, n) := read_unsigned 32 from (prop_n (n_a a)) in
        let '(from, m) := read_word from (prop_m (n_a a)) in
        let from := get_char from in
        let '(from, v) := read_line from [] in
        logread_loop fuel from type instance (set_accepted a (Prop_t n m) v)
      else Fault AssertFail
  end.

(** Every turn of the loop reads at least one character. *)
Definition logread (a : acceptor) : outcome acceptor :=
  logread_loop (S (length (logfile a))) (open_text (logfile a)) [] 0 a.

(** The lines of a text, each with its newline: the loop of [log::dump]. *)
Fixpoint dump_loop (fuel : nat) (from : istream) (v res : cstring) : outcome cstring :=
  match fuel with
  | O => Fault Diverged
  | S fuel =>
      let '(from, v) := read_line from v in
      if i_ok from then dump_loop fuel from v (res ++ v ++ [newline]) else Ret res
  end.
Definition log_dump (a : acceptor) : outcome cstring :=
  dump_loop (S (length (logfile a))) (open_text (logfile a)) [] [].

Definition log_restore (a : acceptor) (s : cstring) : acceptor := set_logfile a s.

(** * Logs as lists of entries *)

Inductive entry :=
| EDone (instance : Z) (v : cstring)
| EPropseen (n : prop_t)
| EAccepted (n : prop_t) (v : cstring).

Definition line (e : entry) : cstring :=
  match e with
  | EDone i v => done_line i v
  | EPropseen n => propseen_line n
  | EAccepted n v => accepted_line n v
  end.
Definition render (es : list entry) : cstring := concat (map line es).

Definition replay1 (a : acceptor) (e : entry) : acceptor :=
  match e with
  | EDone i v => replay_done a i v
  | EPropseen n => set_n_h a n
  | EAccepted n v => set_accepted a n v
  end.
Definition replay (a : acceptor) (es : list entry) : acceptor := fold_left replay1 es a.

(** What a log can carry: machine integers, a name that is one word, a value
    without a newline. *)
Definition prop_loggable (n : prop_t) : Prop := is_u32 (prop_n n) /\ is_word (prop_m n).
Definition loggable (e : entry) : Prop :=
  match e with
  | EDone i v => is_u32 i /\ is_line v
  | EPropseen n => prop_loggable n
  | EAccepted n v => prop_loggable n /\ is_line v
  end.

(** * Replaying what was written *)

Lemma u32_u64 z : is_u32 z -> is_u64 z.
Proof. width_lia. Qed.
#[export] Hint Resolve u32_u64 : width.

Lemma render_nil_or_keyword es :
  render es = [] \/ exists c r, render es = c :: r /\ is_space c = false.
Proof. destruct es as [|[] ?]; [by left|..]; right; eexists _, _; split; try reflexivity; done. Qed.

(** The keyword, a blank and the number at the head of a line. *)
Lemma read_keyword k r old :
  is_word k -> read_word (open_text (k ++ [space] ++ r)) old = (open_text (space :: r), k).
Proof. intros. by rewrite read_word_app. Qed.
Lemma read_number n r old :
  is_u32 n ->
  read_unsigned 32 (open_text (space :: print_dec n ++ [space] ++ r)) old
  = (open_text (space :: r), n).
Proof.
  intros. rewrite read_unsigned_space, read_unsigned_app; [done|done| |done]. by apply u32_u64.
Qed.

Section replaying.
  Variables (fuel : nat) (instance : Z) (a : acceptor).

(** One turn of the loop per entry, whether or not a newline is still pending. *)
Lemma logread_loop_done type i v r :
  is_u32 i -> is_line v ->
  logread_loop (S fuel) (open_text (done_line i v ++ r)) type instance a
  = logread_loop fuel (open_text r) (cs "done") i (replay_done a i v).
Proof.
  intros Hi Hv. unfold done_line. rewrite <- !app_assoc. cbn [logread_loop].
  rewrite read_keyword by (split; [done|by repeat constructor]).
  cbn [i_ok i_fail open_text negb]. rewrite str_eqb_refl.
  rewrite (read_number i) by done.
  cbn [get_char i_good i_eof i_fail open_text negb andb i_rest].
  change (Istream (v ++ [newline] ++ r) false false) with (open_text (v ++ newline :: r)).
  by rewrite read_line_app.
Qed.

Lemma logread_loop_propseen type n r :
  prop_loggable n ->
  logread_loop (S fuel) (open_text (propseen_line n ++ r)) type instance a
  = logread_loop fuel (open_text (newline :: r)) (cs "propseen") instance (set_n_h a n).
Proof.
  intros [Hn Hm]. unfold propseen_line. rewrite <- !app_assoc. cbn [logread_loop].
  rewrite read_keyword by (split; [done|by repeat constructor]).
  cbn [i_ok i_fail open_text negb].
  change (str_eqb (cs "propseen") (cs "done")) with false. rewrite str_eqb_refl.
  rewrite (read_number (prop_n n)) by done.
  rewrite read_word_space, read_word_app by done. by destruct n.
Qed.

Lemma logread_loop_accepted type n v r :
  prop_loggable n -> is_line v ->
  logread_loop (S fuel) (open_text (accepted_line n v ++ r)) type instance a
  = logread_loop fuel (open_text r) (cs "accepted") instance (set_accepted a n v).
Proof.
  intros [Hn Hm] Hv. unfold accepted_line. rewrite <- !app_assoc. cbn [logread_loop].
  rewrite read_keyword by (split; [done|by repeat constructor]).
  cbn [i_ok i_fail open_text negb].
  change (str_eqb (cs "accepted") (cs "done")) with false.
  change (str_eqb (cs "accepted") (cs "propseen")) with false. rewrite str_eqb_refl.
  rewrite (read_number (prop_n n)) by done.
  rewrite read_word_space, read_word_app by done.
  cbn [get_char i_good i_eof i_fail open_text negb andb i_rest null app].
  change (Istream (v ++ newline :: r) false false) with (open_text (v ++ newline :: r)).
  rewrite read_line_app by done. by destruct n.
Qed.

Lemma logread_loop_newline type r :
  logread_loop (S fuel) (open_text (newline :: r)) type instance a
  = logread_loop (S fuel) (open_text r) type instance a.
Proof. cbn [logread_loop]. by rewrite read_word_newline. Qed.
End replaying.

(** The complete records at the head of a file are replayed one by one, whatever
    follows them. *)
Lemma logread_loop_prefix es t fuel type instance a :
  Forall loggable es ->
  exists type' instance',
    logread_loop (length es + S fuel) (open_text (render es ++ t)) type instance a
    = logread_loop (S fuel) (open_text t) type' instance' (replay a es).
Proof.
  revert type instance a. induction es as [|e es IH]; intros type instance a He; [by eauto|].
  apply Forall_cons in He as [He Hes].
  change (render (e :: es)) with (line e ++ render es). rewrite <- app_assoc.
  change (replay a (e :: es)) with (replay (replay1 a e) es).
  change (length (e :: es) + S fuel)%nat with (S (length es + S fuel)).
  destruct e as [i v|n|n v]; simpl in He; cbn [line].
  - destruct He. rewrite logread_loop_done by done. by apply IH.
  - rewrite logread_loop_propseen by done. rewrite Nat.add_succ_r, logread_loop_newline.
    rewrite <- Nat.add_succ_r. by apply IH.
  - destruct He. rewrite logread_loop_accepted by done. by apply IH.
Qed.

Lemma logread_loop_render es fuel type instance a :
  Forall loggable es -> (length es < fuel)%nat ->
  logread_loop fuel (open_text (render es)) type instance a = Ret (replay a es).
Proof.
  intros He Hf. replace fuel with (length es + S (fuel - length es - 1))%nat by lia.
  destruct (logread_loop_prefix es [] (fuel - length es - 1) type instance a He)
    as (type' & instance' & E). rewrite app_nil_r in E. by rewrite E.
Qed.

Lemma line_nonempty e : (0 < length (line e))%nat.
Proof. destruct e; simpl; lia. Qed.
Lemma render_length es : (length es <= length (render es))%nat.
Proof.
  induction es as [|e es IH]; [done|]. unfold render in *; simpl.
  rewrite length_app. pose proof (line_nonempty e). lia.
Qed.
Lemma render_app es es' : render (es ++ es') = render es ++ render es'.
Proof. unfold render. by rewrite map_app, concat_app. Qed.
Lemma replay_app a es es' : replay a (es ++ es') = replay (replay a es) es'.
Proof. apply fold_left_app. Qed.

Lemma logread_entries a es :
  logfile a = render es -> Forall loggable es -> logread a = Ret (replay a es).
Proof.
  intros E He. unfold logread. rewrite E. apply logread_loop_render; [done|].
  pose proof (render_length es). lia.
Qed.

(** * Any file: the loop ends *)

(** One reader's result named, with what it says about the length left. *)
Ltac read_step :=
  match goal with
  | |- context [get_char ?i] =>
      let H := fresh "Hlen" in pose proof (get_char_shrinks i) as H;
      let i' := fresh "i" in set (i' := get_char i) in *; clearbody i'
  | |- context [read_word ?i ?o] =>
      let H := fresh "Hlen" in pose proof (read_word_shrinks i o) as H;
      let i' := fresh "i" in destruct (read_word i o) as [i' ?]; cbn [fst] in H
  | |- context [read_unsigned ?w ?i ?o] =>
      let H := fresh "Hlen" in pose proof (read_unsigned_shrinks w i o) as H;
      let i' := fresh "i" in destruct (read_unsigned w i o) as [i' ?]; cbn [fst] in H
  | |- context [read_line ?i ?o] =>
      let H := fresh "Hlen" in pose proof (read_line_shrinks i o) as H;
      let i' := fresh "i" in destruct (read_line i o) as [i' ?]; cbn [fst] in H
  end.

Lemma logread_loop_ends fuel i type instance a :
  (i_len i < fuel)%nat ->
  is_ret (logread_loop fuel i type instance a)
  \/ logread_loop fuel i type instance a = Fault AssertFail.
Proof.
  revert i type instance a. induction fuel as [|fuel IH]; intros i type instance a Hf; [lia|].
  cbn [logread_loop]. pose proof (read_word_consumes i type) as Hc.
  destruct (read_word i type) as [i1 ty]; cbn [fst] in Hc.
  destruct (i_ok i1) eqn:Ei; cbn [negb]; [|by left; eexists].
  specialize (Hc eq_refl).
  repeat match goal with |- context [str_eqb ty ?k] => destruct (str_eqb ty k) end;
    try (by right); repeat read_step; apply IH; lia.
Qed.

Lemma dump_loop_ends fuel i v res :
  (i_len i < fuel)%nat -> is_ret (dump_loop fuel i v res).
Proof.
  revert i v res. induction fuel as [|fuel IH]; intros i v res Hf; [lia|].
  cbn [dump_loop]. pose proof (read_until_consumes newline i v) as Hc.
  unfold read_line. destruct (read_until newline i v) as [i1 l]; cbn [fst] in Hc.
  destruct (i_ok i1); [|by eexists]. apply IH. specialize (Hc eq_refl). lia.
Qed.

(** * Dumping *)

(** A text whose last line is complete. *)
Definition lines_text (ls : list cstring) : cstring := concat (map (fun l => l ++ [newline]) ls).

Lemma dump_loop_lines ls fuel v res :
  Forall is_line ls -> (length ls < fuel)%nat ->
  dump_loop fuel (open_text (lines_text ls)) v res = Ret (res ++ lines_text ls).
Proof.
  revert fuel v res. induction ls as [|l ls IH]; intros [|fuel] v res Hl Hf;
    simpl in Hf; try lia.
  - cbn. by rewrite app_nil_r.
  - apply Forall_cons in Hl as [H1 H2]. cbn [dump_loop]. unfold lines_text; simpl.
    rewrite <- app_assoc. simpl app. rewrite read_line_app by done. simpl i_ok. cbn iota.
    fold (lines_text ls). rewrite IH by (done || lia). by rewrite <- !app_assoc.
Qed.

(** Any text that ends with a newline is such a text. *)
Lemma lines_text_exists t : exists ls, Forall is_line ls /\ t ++ [newline] = lines_text ls.
Proof.
  induction t as [|c t (ls & Hls & E)].
  - exists [[]]. split; [by repeat constructor; apply not_elem_of_nil|done].
  - simpl. rewrite E. destruct (decide (c = newline)) as [->|Hc].
    + exists ([] :: ls). split; [|done]. constructor; [apply not_elem_of_nil|done].
    + destruct ls as [|l ls]; [by destruct t|]. apply Forall_cons in Hls as [H1 H2].
      exists ((c :: l) :: ls). split; [|done]. constructor; [|done].
      unfold is_line. rewrite not_elem_of_cons. done.
Qed.

Lemma lines_text_length ls : (length ls <= length (lines_text ls))%nat.
Proof.
  induction ls as [|l ls IH]; [done|]. unfold lines_text in *; simpl.
  rewrite !length_app; simpl. lia.
Qed.

Lemma log_dump_complete a t : logfile a = t ++ [newline] -> log_dump a = Ret (logfile a).
Proof.
  intros E. destruct (lines_text_exists t) as (ls & Hls & El).
  unfold log_dump. rewrite E, El.
  rewrite dump_loop_lines; [done|done|]. pose proof (lines_text_length ls). lia.
Qed.

Lemma render_complete es : es <> [] -> exists t, render es = t ++ [newline].
Proof.
  intros H. destruct es as [|e es] using rev_ind; [done|]. rewrite render_app.
  assert (exists t, line e = t ++ [newline]) as [t E].
  { destruct e; simpl; unfold done_line, propseen_line, accepted_line;
      rewrite !app_assoc; by eexists. }
  exists (render es ++ t). unfold render at 2. simpl. by rewrite app_nil_r, E, app_assoc.
Qed.

(** * A record that was cut short *)

Lemma logread_loop_torn fuel type instance a i :
  is_u32 i ->
  logread_loop (S (S fuel)) (open_text (cs "done" ++ [space] ++ print_dec i)) type instance a
  = Ret (replay_done a i []).
Proof.
  intros Hi. cbn [logread_loop].
  rewrite read_keyword by (split; [done|by repeat constructor]).
  cbn [i_ok i_fail open_text negb]. rewrite str_eqb_refl, read_unsigned_space.
  rewrite <- (app_nil_r (print_dec i)), read_unsigned_app; [done|done|by apply u32_u64|done].
Qed.

(** Torn writes: a crash in the middle of [loginstance], after the instance
    number and before the value, leaves a file that is read without any error, as one
    whose instance is decided with the empty value. *)
Theorem logread_torn_done a es i :
  Forall loggable es -> is_u32 i ->
  logfile a = render es ++ cs "done" ++ [space] ++ print_dec i ->
  logread a = Ret (replay a (es ++ [EDone i []])).
Proof.
  intros He Hi E. unfold logread. rewrite E.
  pose proof (render_length es) as Hl.
  set (t := cs "done" ++ [space] ++ print_dec i).
  assert (5 <= length t)%nat as Ht.
  { unfold t. rewrite !length_app. simpl. lia. }
  replace (S (length (render es ++ t)))
    with (length es + S (S (length (render es ++ t) - length es - 1)))%nat
    by (rewrite length_app; lia).
  destruct (logread_loop_prefix es t (S (length (render es ++ t) - length es - 1)) [] 0 a He)
    as (type' & instance' & ->).
  unfold t at 2. rewrite logread_loop_torn by done. by rewrite replay_app.
Qed.

Definition torn_acceptor : acceptor :=
  Acceptor true (cs "4001") (Prop_t 0 []) (Prop_t 0 []) [] 0 ∅
    (render [EDone 1 (cs "1 4001")] ++ cs "done" ++ [space] ++ print_dec 2).
Lemma logread_torn_done_witness :
  exists a, logread torn_acceptor = Ret a /\ instance_h a = 2 /\ values a !! 2 = Some [].
Proof.
  exists (replay torn_acceptor ([EDone 1 (cs "1 4001")] ++ [EDone 2 []])).
  split; [|by vm_compute].
  apply (logread_torn_done torn_acceptor [EDone 1 (cs "1 4001")] 2);
    [|by_computing|reflexivity].
  constructor; [|constructor]. split; by_computing.
Defined.

(** Termination: reading back any file at all ends, with the replayed acceptor
    or with the assertion that reports an unknown record. *)
Theorem logread_ends a : is_ret (logread a) \/ logread a = Fault AssertFail.
Proof. apply logread_loop_ends. unfold i_len. simpl. lia. Qed.
