(* ===== verification/Acceptor.v ===== *)
(** The acceptor of paxos.cc: its constructor and request handlers, on the state
    and log of [PaxosLog].

    The theorems: decided values never change and [instance_h] never goes back; the
    log is a faithful journal, so that an acceptor that is restarted, any number of
    times and at any point of its life, answers as the one that crashed would have. *)
From Stdlib Require Import ZArith Lia Ascii String.
From stdpp Require Import base gmap list strings.
From S2P Require Import Prelude TextIO Protocols PaxosLog.
Local Open Scope Z_scope.

(** * Operations *)

(** What the constructor sets before the log is read. *)
Definition acceptor_init (cfg : bool) (me file : cstring) : acceptor :=
  Acceptor cfg me (Prop_t 0 me) (Prop_t 0 me) [] 0 ∅ file.

(** The constructor, on the log [file] a former life of this node left behind
    (empty when there is none). *)
Definition acceptor_new (cfg _first : bool) (me _value file : cstring) : outcome acceptor :=
  a ← logread (acceptor_init cfg me file);
  if (instance_h a =? 0) && _first then
    let a := set_values a (<[1 := _value]> (values a)) in
    let a := loginstance a 1 _value in
    Ret (Acceptor (acc_cfg a) (acc_me a) (n_h a) (n_a a) (v_a a) 1 (values a) (logfile a))
  else Ret a.

(** [values[i]]: reading a missing instance inserts an empty value. *)
Definition value_of (a : acceptor) (i : Z) : cstring := default [] (values a !! i).
Definition value (a : acceptor) (i : Z) : acceptor * cstring :=
  (set_values a (<[i := value_of a i]> (values a)), value_of a i).

(** The handlers write their reply over [r], what the reply variable held. *)
Definition preparereq (a : acceptor) (arg : preparearg) (r : prepareres)
  : acceptor * prepareres * Z :=
  if instance_h a >=? pa_instance arg then
    let '(a, v) := value a (pa_instance arg) in
    (a, PrepareRes true false (pr_n_a r) v, paxos_protocol.OK)
  else if prop_gt (pa_n arg) (n_h a) then
    let a := set_n_h a (pa_n arg) in
    let r := PrepareRes false true (n_a a) (v_a a) in
    (logprop a (n_h a), r, paxos_protocol.OK)
  else (a, PrepareRes false false (pr_n_a r) (pr_v_a r), paxos_protocol.OK).

Definition acceptreq (a : acceptor) (arg : acceptarg) : acceptor * bool * Z :=
  if prop_ge (aa_n arg) (n_h a) then
    let a := set_accepted a (aa_n arg) (aa_v arg) in
    (logaccept a (n_a a) (v_a a), true, paxos_protocol.OK)
  else (a, false, paxos_protocol.OK).

(** The state after a commit and the [paxos_commit] upcalls it makes. *)
Definition commit_wo (a : acceptor) (instance : Z) (v : cstring)
  : acceptor * list (Z * cstring) :=
  if instance >? instance_h a then
    let a := set_values a (<[instance := v]> (values a)) in
    let a := loginstance a instance v in
    let a := Acceptor (acc_cfg a) (acc_me a) (Prop_t 0 (acc_me a)) (Prop_t 0 (acc_me a)) []
               instance (values a) (logfile a) in
    (a, if acc_cfg a then [(instance, v)] else [])
  else (a, []).

Definition commit := commit_wo.

Definition decidereq (a : acceptor) (arg : decidearg)
  : outcome (acceptor * list (Z * cstring) * Z) :=
  if da_instance arg =? u32 (instance_h a + 1) then
    _ ← verify (str_eqb (v_a a) (da_v arg));
    Ret (commit_wo a (da_instance arg) (v_a a), paxos_protocol.OK)
  else if da_instance arg <=? instance_h a then Ret (a, [], paxos_protocol.OK)
  else Fault AssertFail.

Definition acc_dump (a : acceptor) : outcome cstring := log_dump a.
Definition acc_restore (a : acceptor) (s : cstring) : outcome acceptor :=
  logread (log_restore a s).

(** * A life of an acceptor *)

Inductive acc_op :=
| OpPrepare (arg : preparearg) (r : prepareres)
| OpAccept (arg : acceptarg)
| OpDecide (arg : decidearg)
| OpCommit (instance : Z) (v : cstring).

Definition acc_step (a : acceptor) (o : acc_op) : outcome acceptor :=
  match o with
  | OpPrepare arg r => Ret (preparereq a arg r).1.1
  | OpAccept arg => Ret (acceptreq a arg).1.1
  | OpDecide arg => '(a, _, _) ← decidereq a arg; Ret a
  | OpCommit i v => Ret (commit a i v).1
  end.

(** What the proposers send: positive proposal numbers ([setn] never uses 0), names
    that are words, values that are lines. *)
Definition op_ok (o : acc_op) : Prop :=
  match o with
  | OpPrepare arg _ => prop_loggable (pa_n arg) /\ 0 < prop_n (pa_n arg)
  | OpAccept arg => prop_loggable (aa_n arg) /\ 0 < prop_n (aa_n arg) /\ is_line (aa_v arg)
  | OpDecide arg => is_u32 (da_instance arg)
  | OpCommit i v => is_u32 i /\ is_line v
  end.

#[global] Instance op_ok_dec o : Decision (op_ok o).
Proof. destruct o; simpl; unfold prop_loggable; apply _. Defined.

(** The states of a node: it is started, handles requests, and is restarted from its
    log whenever it crashes. *)
Section life.
  Variables (cfg first : bool) (me v0 : cstring).

Inductive move : acceptor -> acceptor -> Prop :=
| move_step a o a' : op_ok o -> acc_step a o = Ret a' -> move a a'
| move_restart a a' : acceptor_new cfg first me v0 (logfile a) = Ret a' -> move a a'.

Inductive life : acceptor -> Prop :=
| life_start a : acceptor_new cfg first me v0 [] = Ret a -> life a
| life_move a a' : life a -> move a a' -> life a'.
End life.

(** * States a request cannot tell apart

    A [done] record resets the numbers of [n_h] and [n_a] but not their names, while
    [commit_wo] resets both; and reading a value inserts an empty one.  Neither
    shows: no proposal has number 0, and a missing value reads as empty. *)

Definition prop_same (a b : prop_t) : Prop :=
  prop_n a = prop_n b /\ (prop_n a <> 0 -> prop_m a = prop_m b).
#[global] Instance prop_equiv : Equiv prop_t := prop_same.

#[global] Instance acceptor_equiv : Equiv acceptor := fun a b =>
  acc_cfg a = acc_cfg b /\ acc_me a = acc_me b /\ n_h a ≡ n_h b /\ n_a a ≡ n_a b
  /\ v_a a = v_a b /\ instance_h a = instance_h b
  /\ (forall i, value_of a i = value_of b i).

#[global] Instance prop_equivalence : Equivalence (≡@{prop_t}).
Proof.
  split; unfold equiv, prop_equiv, prop_same.
  - done.
  - intros ?? [-> H]. split; [done|]. intros. by rewrite H.
  - intros ??? [-> H] [H' H'']. split; [done|]. intros Hx. rewrite H by done. apply H''.
    congruence.
Qed.
#[global] Instance acceptor_equivalence : Equivalence (≡@{acceptor}).
Proof.
  split; unfold equiv, acceptor_equiv.
  - by intros a.
  - intros a b (?&?&?&?&?&?&?). by split_and!.
  - intros a b c (?&?&?&?&?&?&?) (?&?&?&?&?&?&?).
    split_and!; try congruence; by etrans.
Qed.

(** A proposal with a positive number compares alike with either. *)
Lemma prop_gt_equiv p a b : 0 < prop_n p -> a ≡ b -> prop_gt p a = prop_gt p b.
Proof.
  intros Hp [E H]. unfold prop_gt. rewrite <- E.
  destruct (Z.eq_dec (prop_n a) 0) as [Ez|Hz]; [|by rewrite H]. rewrite Ez. lia.
Qed.
Lemma prop_ge_equiv p a b : 0 < prop_n p -> a ≡ b -> prop_ge p a = prop_ge p b.
Proof.
  intros Hp [E H]. unfold prop_ge. rewrite <- E.
  destruct (Z.eq_dec (prop_n a) 0) as [Ez|Hz]; [|by rewrite H]. rewrite Ez. lia.
Qed.

Lemma value_of_insert a i v j :
  default [] ((<[i := v]> (values a)) !! j) = if decide (j = i) then v else value_of a j.
Proof.
  unfold value_of. destruct (decide (j = i)) as [->|]; by simplify_map_eq.
Qed.

(** Split an equivalence of acceptors, and prove one field by field. *)
Ltac equiv_split :=
  unfold equiv, acceptor_equiv, value_of in *; simpl in *; destruct_and?; split_and!;
  try done; try congruence.

#[global] Instance replay1_proper : Proper ((≡) ==> (=) ==> (≡)) replay1.
Proof.
  intros a b H e ? <-. destruct e; simpl; unfold replay_done, set_decided, set_n_h, set_accepted;
    equiv_split.
  intros j. by destruct (decide (j = instance)) as [->|]; simplify_map_eq.
Qed.
#[global] Instance replay_proper : Proper ((≡) ==> (=) ==> (≡)) replay.
Proof.
  intros a b H es ? <-. revert a b H. induction es as [|e es IH]; intros a b H; [done|].
  apply IH. by rewrite H.
Qed.

Lemma commit_wo_equiv a b i v : a ≡ b -> (commit_wo a i v).1 ≡ (commit_wo b i v).1.
Proof.
  intros H. assert (instance_h b = instance_h a) as E by (symmetry; apply H).
  unfold commit_wo. rewrite E. case_match; [|done]. equiv_split.
  intros j. by destruct (decide (j = i)) as [->|]; simplify_map_eq.
Qed.

(** The reply and the next state do not depend on which of two equivalent acceptors
    handles a request. *)
Lemma acc_step_equiv a b o a' :
  a ≡ b -> op_ok o -> acc_step a o = Ret a' -> exists b', acc_step b o = Ret b' /\ a' ≡ b'.
Proof.
  intros H Ho Hs. pose proof H as H'. destruct H' as (Hc & Hme & Hnh & Hna & Hva & Hi & Hv).
  destruct o as [arg r|arg|arg|i v]; simpl in *.
  - unfold preparereq, value in *. rewrite <- Hi, <- (prop_gt_equiv _ (n_h a)) by (done || apply Ho).
    eexists; split; [done|]. simplify_eq. case_match; [|case_match; [|done]]; equiv_split.
    intros j. destruct (decide (j = pa_instance arg)) as [->|]; simplify_map_eq; [apply Hv|done].
  - unfold acceptreq in *. rewrite <- (prop_ge_equiv _ (n_h a)) by (done || apply Ho).
    eexists; split; [done|]. simplify_eq. case_match; equiv_split.
  - unfold decidereq in *. rewrite <- Hi, <- Hva.
    case_match; [|case_match; [|done]; inv_ret; by eexists].
    inv_ret. simpl in *. pose proof (commit_wo_equiv a b (da_instance arg) (v_a a) H).
    destruct (commit_wo a _ _), (commit_wo b _ _); inv_ret. by eexists.
  - injection Hs as <-. eexists. split; [done|]. by apply commit_wo_equiv.
Qed.

(** * The log is a journal of the state *)

Definition durable (a : acceptor) (es : list entry) : Prop :=
  logfile a = render es /\ Forall loggable es
  /\ replay (acceptor_init (acc_cfg a) (acc_me a) (logfile a)) es ≡ a.

Lemma init_equiv cfg me f f' : acceptor_init cfg me f ≡ acceptor_init cfg me f'.
Proof. equiv_split. Qed.

(** Appending the entry whose effect the operation had keeps the journal. *)
Lemma durable_log a es a' e :
  durable a es -> loggable e -> acc_cfg a' = acc_cfg a -> acc_me a' = acc_me a ->
  logfile a' = logfile a ++ line e -> replay1 a e ≡ a' -> durable a' (es ++ [e]).
Proof.
  intros (Hf & Hl & Hr) He Hc Hm Hlog Ha. split_and!.
  - rewrite Hlog, Hf, render_app. unfold render at 3. simpl. by rewrite app_nil_r.
  - apply Forall_app. by split; [|constructor].
  - rewrite Hc, Hm, replay_app. simpl. etrans; [|exact Ha].
    rewrite (init_equiv _ _ (logfile a') (logfile a)). by rewrite Hr.
Qed.
Lemma durable_same a es a' :
  durable a es -> a ≡ a' -> logfile a' = logfile a -> durable a' es.
Proof.
  intros (Hf & Hl & Hr) (Hc & Hm & H) Hlog. split_and!; [congruence|done|].
  rewrite <- Hc, <- Hm, Hlog. by rewrite Hr.
Qed.

Lemma replay_v_a_line a es : Forall loggable es -> is_line (v_a a) -> is_line (v_a (replay a es)).
Proof.
  intros H. revert a. induction H as [|e es He _ IH]; intros a Ha; [done|].
  apply IH. destruct e; simpl; [apply not_elem_of_nil|done|apply He].
Qed.
Lemma durable_v_a_line a es : durable a es -> is_line (v_a a).
Proof.
  intros (_ & Hl & (_ & _ & _ & _ & <- & _)). apply replay_v_a_line; [done|apply not_elem_of_nil].
Qed.

Lemma durable_commit a es i v :
  durable a es -> is_u32 i -> is_line v -> exists es', durable (commit_wo a i v).1 es'.
Proof.
  intros H Hi Hv. unfold commit_wo. case_match; [|by eauto]. exists (es ++ [EDone i v]).
  by eapply durable_log; [done|done|done|done|done|]; equiv_split.
Qed.

Lemma durable_step a es o a' :
  durable a es -> op_ok o -> acc_step a o = Ret a' -> exists es', durable a' es'.
Proof.
  intros H Ho Hs. destruct o as [arg r|arg|arg|i v]; simpl in Ho, Hs.
  - injection Hs as <-. unfold preparereq, value. case_match; [|case_match]; simpl; [|eauto..].
    + exists es. eapply durable_same; [done| |done]. equiv_split.
      intros j. by destruct (decide (j = pa_instance arg)) as [->|]; simplify_map_eq.
    + exists (es ++ [EPropseen (pa_n arg)]). destruct Ho. by eapply durable_log.
  - injection Hs as <-. unfold acceptreq. case_match; simpl; [|by eauto].
    exists (es ++ [EAccepted (aa_n arg) (aa_v arg)]). destruct Ho as (? & ? & ?).
    by eapply durable_log.
  - unfold decidereq in Hs. repeat case_match; inv_ret; [|by eauto].
    destruct (durable_commit a es (da_instance arg) (v_a a)) as [es' Hd];
      [done|done|by eapply durable_v_a_line|].
    destruct (commit_wo a _ _); inv_ret. by exists es'.
  - injection Hs as <-. unfold commit. destruct Ho. by apply (durable_commit a es).
Qed.

(** [instance_h] only grows, and what is decided stays decided. *)
Lemma acc_step_decided a o a' :
  acc_step a o = Ret a' ->
  instance_h a <= instance_h a'
  /\ forall i, i <= instance_h a -> value_of a' i = value_of a i.
Proof.
  assert (forall i v, instance_h a <= instance_h (commit_wo a i v).1
    /\ forall j, j <= instance_h a -> value_of (commit_wo a i v).1 j = value_of a j) as Hcommit.
  { intros i v. unfold commit_wo. case_match; simpl; [|done]. split; [lia|]. intros j Hj.
    unfold value_of; simpl. rewrite lookup_insert_ne by lia. done. }
  intros Hs. destruct o as [arg r|arg|arg|i v]; simpl in Hs.
  - injection Hs as <-. unfold preparereq, value. case_match; [|case_match]; simpl; try done.
    split; [done|]. intros j Hj. unfold value_of; simpl. rewrite value_of_insert.
    by case_decide; subst.
  - injection Hs as <-. unfold acceptreq. by case_match.
  - unfold decidereq in Hs. repeat case_match; inv_ret; [|done].
    specialize (Hcommit (da_instance arg) (v_a a)). by destruct commit_wo; inv_ret.
  - injection Hs as <-. apply Hcommit.
Qed.

(** * Restarting *)

Lemma replay_logfile a es : logfile (replay a es) = logfile a.
Proof.
  revert a. induction es as [|e es IH]; intros a; [done|].
  change (replay a (e :: es)) with (replay (replay1 a e) es). rewrite IH. by destruct e.
Qed.

(** The log of a live acceptor replays to it, and the constructor of the first node
    does not start the first instance again. *)
Lemma acceptor_new_recovers a es first v0 :
  durable a es -> (first = true -> instance_h a <> 0) ->
  exists a', acceptor_new (acc_cfg a) first (acc_me a) v0 (logfile a) = Ret a' /\ a' ≡ a
    /\ logfile a' = logfile a.
Proof.
  intros (Hf & Hl & Hr) Hfirst. unfold acceptor_new.
  rewrite (logread_entries _ es) by done. simpl.
  assert (instance_h (replay (acceptor_init (acc_cfg a) (acc_me a) (logfile a)) es)
    = instance_h a) as -> by apply Hr.
  assert ((instance_h a =? 0) && first = false) as ->.
  { destruct first; [|by rewrite andb_false_r]. specialize (Hfirst eq_refl). lia. }
  eexists. split; [done|]. split; [done|].
  by rewrite replay_logfile.
Qed.

Definition sound_life (cfg first : bool) (me : cstring) (a : acceptor) : Prop :=
  acc_cfg a = cfg /\ acc_me a = me /\ (first = true -> 0 < instance_h a)
  /\ 0 <= instance_h a /\ exists es, durable a es.

Lemma acc_step_ids a o a' :
  acc_step a o = Ret a' -> acc_cfg a' = acc_cfg a /\ acc_me a' = acc_me a.
Proof.
  intros Hs. destruct o; simpl in Hs; unfold preparereq, value, acceptreq, decidereq, commit,
    commit_wo in Hs; repeat case_match; inv_ret; simplify_eq; done.
Qed.

Lemma acceptor_new_empty cfg first me v0 a :
  is_line v0 -> acceptor_new cfg first me v0 [] = Ret a -> sound_life cfg first me a.
Proof.
  intros Hv. unfold acceptor_new. simpl. assert (durable (acceptor_init cfg me []) []) as H0.
  { by split_and!. }
  destruct first; simpl; intros [= <-]; unfold sound_life; simpl; split_and!; try done; try lia.
  - exists ([] ++ [EDone 1 v0]). by eapply durable_log; [done|done|done|done|done|]; equiv_split.
  - by eexists.
Qed.

Lemma sound_restart cfg first me v0 a a' :
  sound_life cfg first me a -> acceptor_new cfg first me v0 (logfile a) = Ret a' ->
  a' ≡ a /\ logfile a' = logfile a.
Proof.
  intros (<- & <- & Hf & H0 & es & Hd) Hs.
  destruct (acceptor_new_recovers a es first v0) as (a2 & E & Ha & Hlog); [done| |].
  { intros E. specialize (Hf E). lia. }
  rewrite E in Hs. by injection Hs as <-.
Qed.

Lemma sound_move cfg first me v0 a a' :
  sound_life cfg first me a -> move cfg first me v0 a a' -> sound_life cfg first me a'.
Proof.
  intros H Hm. destruct Hm as [a o a' Ho Hs|a a' Hs].
  - destruct H as (<- & <- & Hf & H0 & es & Hd).
    apply acc_step_ids in Hs as Hid. destruct Hid as [Hc Hm].
    destruct (acc_step_decided _ _ _ Hs) as [Hi _].
    unfold sound_life; split_and!; try done; try lia.
    { intros E. specialize (Hf E). lia. }
    by eapply durable_step.
  - pose proof (sound_restart _ _ _ _ _ _ H Hs) as [Ha Hlog].
    destruct H as (<- & <- & Hf & H0 & es & Hd).
    assert (durable a' es) by by eapply durable_same.
    destruct Ha as (Hc & Hm & _ & _ & _ & Hi & _). unfold sound_life. rewrite Hi. by eauto 8.
Qed.

Lemma life_sound cfg first me v0 a :
  is_line v0 -> life cfg first me v0 a -> sound_life cfg first me a.
Proof.
  intros Hv H. induction H as [a Ha|a a' _ IH Hm].
  - by eapply acceptor_new_empty.
  - by eapply sound_move.
Qed.

(** A move keeps what is decided; and a promise, while the instance lasts. *)
Lemma move_decided cfg first me v0 a a' :
  sound_life cfg first me a -> move cfg first me v0 a a' ->
  instance_h a <= instance_h a' /\ forall i, i <= instance_h a -> value_of a' i = value_of a i.
Proof.
  intros H Hm. destruct Hm as [a o a' _ Hs|a a' Hs]; [by eapply acc_step_decided|].
  destruct (sound_restart _ _ _ _ _ _ H Hs) as [(_&_&_&_&_&Hi&Hv) _]. rewrite Hi. by split; [|auto].
Qed.

Definition promise_kept (a a' : acceptor) : Prop :=
  0 < prop_n (n_h a) -> prop_ge (n_h a') (n_h a) = true.

Lemma prop_ge_refl p : prop_ge p p = true.
Proof. by rewrite prop_ge_gt, prop_gt_irrefl. Qed.
Lemma prop_gt_ge p q : prop_gt p q = true -> prop_ge p q = true.
Proof.
  rewrite prop_ge_gt. intros H. destruct (prop_gt q p) eqn:E; [|done].
  pose proof (prop_gt_trans _ _ _ H E) as F. by rewrite prop_gt_irrefl in F.
Qed.
Lemma prop_ge_trans p q r : prop_ge p q = true -> prop_ge q r = true -> prop_ge p r = true.
Proof.
  rewrite !prop_ge_gt, !negb_true_iff. intros H1 H2. destruct (prop_gt r p) eqn:E; [|done].
  destruct (prop_gt_total p q) as [F|[->|F]]; [|congruence|congruence].
  by rewrite (prop_gt_trans _ _ _ E F) in H2.
Qed.

Lemma acc_step_promise a o a' :
  acc_step a o = Ret a' -> instance_h a' = instance_h a -> promise_kept a a'.
Proof.
  intros Hs Hi _. destruct o; simpl in Hs; unfold preparereq, value, acceptreq, decidereq, commit,
    commit_wo in Hs; repeat case_match; inv_ret; simplify_eq; simpl in *;
    try apply prop_ge_refl; try (by apply prop_gt_ge); lia.
Qed.

Lemma move_promise cfg first me v0 a a' :
  sound_life cfg first me a -> move cfg first me v0 a a' -> instance_h a' = instance_h a ->
  promise_kept a a'.
Proof.
  intros H Hm Hi. destruct Hm as [a o a' _ Hs|a a' Hs]; [by eapply acc_step_promise|].
  destruct (sound_restart _ _ _ _ _ _ H Hs) as [(_&_&[E Em]&_) _]. intros Hn.
  replace (n_h a') with (n_h a); [apply prop_ge_refl|].
  destruct (n_h a), (n_h a'); simpl in *. subst. rewrite Em; [done|lia].
Qed.

Lemma moves_inv cfg first me v0 a a' :
  sound_life cfg first me a -> rtc (move cfg first me v0) a a' ->
  instance_h a <= instance_h a'
  /\ (forall i, i <= instance_h a -> value_of a' i = value_of a i)
  /\ (instance_h a' = instance_h a -> promise_kept a a').
Proof.
  intros H Hr. induction Hr as [a|a b c Hm Hr IH].
  - split_and!; try done. intros _ _. apply prop_ge_refl.
  - pose proof (sound_move _ _ _ _ _ _ H Hm) as Hb. specialize (IH Hb).
    destruct (move_decided _ _ _ _ _ _ H Hm) as [Hi Hv]. destruct IH as (Hi' & Hv' & Hp).
    split_and!; [lia| |].
    + intros i ?. rewrite Hv' by lia. by apply Hv.
    + intros E Hn. assert (instance_h b = instance_h a) as Eb by lia.
      pose proof (move_promise _ _ _ _ _ _ H Hm Eb Hn) as Hab.
      eapply prop_ge_trans; [apply Hp|done]; [congruence|].
      unfold prop_ge in Hab. lia.
Qed.

(** ** Replies of equivalent acceptors *)

#[global] Instance prepareres_equiv : Equiv prepareres := fun r r' =>
  pr_oldinstance r = pr_oldinstance r' /\ pr_accept r = pr_accept r'
  /\ pr_n_a r ≡ pr_n_a r' /\ pr_v_a r = pr_v_a r'.

Lemma preparereq_reply a b arg r :
  a ≡ b -> 0 < prop_n (pa_n arg) -> (preparereq a arg r).1.2 ≡ (preparereq b arg r).1.2.
Proof.
  intros (Hc & Hme & Hnh & Hna & Hva & Hi & Hv) Hn. unfold preparereq, value.
  rewrite <- Hi, <- (prop_gt_equiv _ _ _ Hn Hnh). case_match; [|case_match];
    unfold equiv, prepareres_equiv; simpl; by rewrite ?Hv.
Qed.
Lemma acceptreq_reply a b arg :
  a ≡ b -> 0 < prop_n (aa_n arg) -> (acceptreq a arg).1.2 = (acceptreq b arg).1.2.
Proof.
  intros (Hc & Hme & Hnh & Hna & Hva & Hi & Hv) Hn. unfold acceptreq.
  rewrite <- (prop_ge_equiv _ _ _ Hn Hnh). by case_match.
Qed.

(** ** Moving a log to another node *)

Definition rename (me : cstring) (a : acceptor) : acceptor :=
  Acceptor (acc_cfg a) me (n_h a) (n_a a) (v_a a) (instance_h a) (values a) (logfile a).

Lemma replay_rename me a es : replay (rename me a) es = rename me (replay a es).
Proof.
  revert a. induction es as [|e es IH]; intros a; [done|].
  change (replay (rename me a) (e :: es)) with (replay (replay1 (rename me a) e) es).
  change (replay a (e :: es)) with (replay (replay1 a e) es). rewrite <- IH. by destruct e.
Qed.
#[global] Instance rename_proper me : Proper ((≡) ==> (≡)) (rename me).
Proof. intros a b H. unfold rename. equiv_split. Qed.
Lemma rename_init me me' cfg f :
  rename me' (acceptor_init cfg me f) ≡ acceptor_init cfg me' f.
Proof. equiv_split. Qed.

Lemma log_dump_durable a es : durable a es -> log_dump a = Ret (logfile a).
Proof.
  intros (Hf & _). destruct (decide (es = [])) as [->|Hne].
  - unfold log_dump. by rewrite Hf.
  - destruct (render_complete es Hne) as [t E]. apply (log_dump_complete a t). by rewrite Hf.
Qed.

(** * Properties *)

(** C3 (crash recovery): whatever requests an acceptor has handled, and however
    often it was restarted, its constructor rebuilds from the log alone an acceptor
    that gives every later request the answer the live one would give. *)
Theorem acceptor_recovers cfg first me v0 a :
  is_line v0 -> life cfg first me v0 a ->
  exists a', acceptor_new cfg first me v0 (logfile a) = Ret a'
    /\ a' ≡ a /\ logfile a' = logfile a
    /\ (forall arg r, 0 < prop_n (pa_n arg) ->
          (preparereq a' arg r).1.2 ≡ (preparereq a arg r).1.2)
    /\ (forall arg, 0 < prop_n (aa_n arg) -> (acceptreq a' arg).1.2 = (acceptreq a arg).1.2).
Proof.
  intros Hv H. destruct (life_sound _ _ _ _ _ Hv H) as (<- & <- & Hf & H0 & es & Hd).
  destruct (acceptor_new_recovers a es first v0) as (a' & E & Ha & Hlog); [done| |].
  { intros E. specialize (Hf E). lia. }
  exists a'. split_and!; try done; intros.
  - by apply preparereq_reply.
  - by apply acceptreq_reply.
Qed.

(** C7 (stability): over any sequence of requests and restarts [instance_h] never
    goes back and the value of a decided instance never changes; and as long as the
    instance lasts, the proposal promised never goes back, crashes included. *)
Theorem acceptor_stable cfg first me v0 a a' :
  is_line v0 -> life cfg first me v0 a -> rtc (move cfg first me v0) a a' ->
  instance_h a <= instance_h a'
  /\ (forall i, i <= instance_h a -> value_of a' i = value_of a i)
  /\ (instance_h a' = instance_h a -> promise_kept a a').
Proof. intros Hv H. apply moves_inv. by eapply life_sound. Qed.

(** A log that describes a state restores it, on a node that was just started. *)
Lemma restore_durable a es me' f :
  durable a es ->
  exists b, acc_restore (acceptor_init (acc_cfg a) me' f) (logfile a) = Ret b
    /\ b ≡ rename me' a /\ logfile b = logfile a.
Proof.
  intros (Hf & Hl & Hr). unfold acc_restore.
  exists (replay (acceptor_init (acc_cfg a) me' (logfile a)) es).
  rewrite (logread_entries _ es) by done. split_and!; try done.
  - rewrite <- (rename_init (acc_me a)), replay_rename. by apply rename_proper.
  - by rewrite replay_logfile.
Qed.

(** State transfer: the log one node dumps restores, on a node that was just
    started, the state of the first under the name of the second. *)
Theorem dump_restore cfg first me v0 a me' f :
  is_line v0 -> life cfg first me v0 a ->
  exists t b, acc_dump a = Ret t /\ acc_restore (acceptor_init cfg me' f) t = Ret b
    /\ b ≡ rename me' a /\ logfile b = logfile a.
Proof.
  intros Hv H. destruct (life_sound _ _ _ _ _ Hv H) as (<- & <- & _ & _ & es & Hd).
  destruct (restore_durable a es me' f Hd) as (b & Eb & Hb). exists (logfile a), b.
  split; [by apply (log_dump_durable a es)|]. by destruct Hb.
Qed.

(** ** Witnesses *)

Module examples.
Definition me : cstring := cs "4001".
Definition view1 : cstring := cs "1 4001".
Definition view2 : cstring := cs "1 4001 4002".
Definition n1 : prop_t := Prop_t 1 (cs "4002").
Definition r0 : prepareres := PrepareRes false false (Prop_t 0 []) [].
Definition requests : list acc_op :=
  [OpPrepare (PrepareArg 2 n1) r0; OpAccept (AcceptArg 2 n1 view2);
   OpDecide (DecideArg 2 view2); OpPrepare (PrepareArg 3 (Prop_t 1 me)) r0].
Definition start : acceptor :=
  match acceptor_new true true me view1 [] with
  | Ret a => a | _ => acceptor_init true me [] end.
Definition after (os : list acc_op) : acceptor :=
  fold_left (fun a o => match acc_step a o with Ret a' => a' | _ => a end) os start.

Lemma start_life : life true true me view1 start.
Proof. by apply life_start. Qed.
Lemma requests_ok : Forall op_ok requests.
Proof. by_computing. Qed.
Lemma after_moves os a :
  Forall op_ok os ->
  rtc (move true true me view1) a
    (fold_left (fun a o => match acc_step a o with Ret a' => a' | _ => a end) os a).
Proof.
  intros H. revert a. induction H as [|o os Ho _ IH]; intros a; [done|]. simpl.
  destruct (acc_step a o) eqn:E; [|done]. eapply rtc_l; [|apply IH]. by eapply move_step.
Qed.
Lemma life_moves a a' : life true true me view1 a -> rtc (move true true me view1) a a' ->
  life true true me view1 a'.
Proof. intros H Hr. induction Hr; [done|]. eauto using life_move. Qed.
Lemma after_life : life true true me view1 (after requests).
Proof. eapply life_moves; [apply start_life|]. apply after_moves, requests_ok. Qed.

(** The acceptor that has handled a whole round and a prepare of the next one. *)
Lemma acceptor_recovers_witness :
  instance_h (after requests) = 2 /\ n_h (after requests) = Prop_t 1 me
  /\ exists a', acceptor_new true true me view1 (logfile (after requests)) = Ret a'
    /\ a' ≡ after requests.
Proof.
  split; [by vm_compute|]. split; [by vm_compute|].
  destruct (acceptor_recovers true true me view1 (after requests)) as (a' & E & H & _).
  - by_computing.
  - apply after_life.
  - by exists a'.
Defined.

Lemma acceptor_stable_witness :
  value_of start 1 = view1 /\ value_of (after requests) 1 = view1
  /\ promise_kept (after (take 1 requests)) (after (take 2 requests)).
Proof.
  split; [by vm_compute|]. split.
  - rewrite (proj1 (proj2 (acceptor_stable true true me view1 start (after requests)
      ltac:(by_computing) start_life (after_moves _ _ requests_ok))) 1); by vm_compute.
  - apply (acceptor_stable true true me view1 (after (take 1 requests)) (after (take 2 requests))).
    + by_computing.
    + eapply life_moves; [apply start_life|]. apply after_moves. by apply Forall_take, requests_ok.
    + apply (after_moves [OpAccept (AcceptArg 2 n1 view2)]).
      constructor; [exact (Forall_lookup_1 _ _ 1 _ requests_ok eq_refl)|constructor].
    + by_computing.
Defined.

Lemma dump_restore_witness :
  exists t b, acc_dump (after requests) = Ret t
    /\ acc_restore (acceptor_init true (cs "4002") []) t = Ret b
    /\ instance_h b = 2 /\ v_a b = [] /\ value_of b 2 = view2.
Proof.
  destruct (dump_restore true true me view1 (after requests) (cs "4002") [])
    as (t & b & Et & Eb & (_ & _ & _ & _ & Ev & Ei & Hv) & _).
  - by_computing.
  - apply after_life.
  - exists t, b. split_and!; [done|done|rewrite Ei; by vm_compute|rewrite Ev; by vm_compute|].
    rewrite Hv. by vm_compute.
Defined.
End examples.
