(* ===== verification/Proposer.v ===== *)
(** The proposer of paxos.cc.

    A remote call goes through parameters that stand for the rpc library and the
    nodes it reaches: a call returns [None] when [safebind] fails, and otherwise the
    status and what the reply variable then holds.  The bodies of the loops and the
    tests between the phases are definitions of their own, which [PaxosSystem] uses
    too, where the calls of several proposers interleave. *)
From Stdlib Require Import ZArith Lia Ascii String.
From stdpp Require Import base list strings.
From S2P Require Import Prelude Protocols.
Local Open Scope Z_scope.

(** * Lists of nodes *)

Fixpoint print_members (nodes : list cstring) : cstring :=
  match nodes with
  | [] => []
  | [m] => m
  | m :: nodes => m ++ cs "," ++ print_members nodes
  end.

Definition isamember (m : cstring) (nodes : list cstring) : bool :=
  existsb (fun x => str_eqb x m) nodes.

(** How many servers of [l1] are in [l2]; [n] is an [unsigned]. *)
Definition count_members (l1 l2 : list cstring) : nat :=
  length (List.filter (fun x => isamember x l2) l1).
Definition majority (l1 l2 : list cstring) : bool :=
  Z.shiftr (Z.of_nat (length l1)) 1 + 1 <=? u32 (Z.of_nat (count_members l1 l2)).

(** * State *)

Record proposer := Proposer {
  prp_me : cstring; break1 : bool; break2 : bool; stable : bool; my_n : prop_t }.

Definition proposer_new (me : cstring) : proposer :=
  Proposer me false false true (Prop_t 0 me).
Definition isrunning (p : proposer) : bool := negb (stable p).
Definition set_stable (p : proposer) (b : bool) : proposer :=
  Proposer (prp_me p) (break1 p) (break2 p) b (my_n p).

(** [setn], where [n_h] is what [acc->get_n_h()] returns. *)
Definition setn (p : proposer) (n_h : prop_t) : proposer :=
  let n := if u32 (prop_n n_h + 1) >? u32 (prop_n (my_n p) + 1)
           then u32 (prop_n n_h + 1) else u32 (prop_n (my_n p) + 1) in
  Proposer (prp_me p) (break1 p) (break2 p) (stable p) (Prop_t n (prop_m (my_n p))).

Definition breakpoint (p : proposer) (b : Z) : proposer :=
  if b =? 3 then Proposer (prp_me p) true (break2 p) (stable p) (my_n p)
  else if b =? 4 then Proposer (prp_me p) (break1 p) true (stable p) (my_n p)
  else p.

(** * Loop bodies *)

(** The variables [highest_seen], [v] and [accepts] of [prepare]. *)
Record prep := Prep { p_highest : prop_t; p_v : cstring; p_accepts : list cstring }.
Definition prep0 : prep := Prep (Prop_t 0 []) [] [].

(** What [prepare] does with the status and the response of one node: either it goes
    on, or some node knows the instance to be decided. *)
Definition prepare_reply (node : cstring) (ret : Z) (r : prepareres) (s : prep)
  : prep + cstring :=
  if ret =? paxos_protocol.OK then
    if pr_oldinstance r then inr (pr_v_a r)
    else if pr_accept r then
      let '(h, v) := if prop_gt (pr_n_a r) (p_highest s) then (pr_n_a r, pr_v_a r)
                     else (p_highest s, p_v s) in
      inl (Prep h v (p_accepts s ++ [node]))
    else inl s
  else inl s.

Definition accept_reply (node : cstring) (ret : Z) (r : bool) (accepts : list cstring)
  : list cstring :=
  if (ret =? paxos_protocol.OK) && r then accepts ++ [node] else accepts.

(** The value proposed after a majority of prepare responses. *)
Definition choose_value (v newv : cstring) : cstring :=
  if Z.of_nat (length v) =? 0 then newv else v.

(** * The phases *)

Module phases.
Section run.
  Context {W : Type}.
  Variable rpc_prepare : W -> cstring -> preparearg -> prepareres -> W * option (Z * prepareres).
  Variable rpc_accept : W -> cstring -> acceptarg -> bool -> W * option (Z * bool).
  Variable rpc_decide : W -> cstring -> decidearg -> W * option Z.
  (** [acc->commit] and [acc->get_n_h] of the local acceptor. *)
  Variable acc_commit : W -> Z -> cstring -> W.
  Variable get_n_h : W -> prop_t.

(** The loop of [prepare]; the response variable is shared by the calls. *)
Fixpoint prepare_loop (w : W) (args : preparearg) (nodes : list cstring) (response : prepareres)
    (s : prep) : W * option prep :=
  match nodes with
  | [] => (w, Some s)
  | node :: nodes =>
      match rpc_prepare w node args response with
      | (w, None) => prepare_loop w args nodes response s
      | (w, Some (ret, response)) =>
          match prepare_reply node ret response s with
          | inl s => prepare_loop w args nodes response s
          | inr v => (acc_commit w (pa_instance args) v, None)
          end
      end
  end.
Definition prepare (p : proposer) (w : W) (instance : Z) (nodes : list cstring)
    (response : prepareres) : W * option prep :=
  prepare_loop w (PrepareArg instance (my_n p)) nodes response prep0.

Fixpoint accept_loop (w : W) (args : acceptarg) (nodes : list cstring) (response : bool)
    (accepts : list cstring) : W * list cstring :=
  match nodes with
  | [] => (w, accepts)
  | node :: nodes =>
      match rpc_accept w node args response with
      | (w, None) => accept_loop w args nodes response accepts
      | (w, Some (ret, response)) =>
          accept_loop w args nodes response (accept_reply node ret response accepts)
      end
  end.
Definition accept (p : proposer) (w : W) (instance : Z) (nodes : list cstring) (v : cstring)
    (response : bool) : W * list cstring :=
  accept_loop w (AcceptArg instance (my_n p) v) nodes response [].

Definition decide (w : W) (instance : Z) (accepts : list cstring) (v : cstring) : W :=
  fold_left (fun w node => (rpc_decide w node (DecideArg instance v)).1) accepts w.

(** How [run] ends: it returns, or the process exits at a breakpoint. *)
Inductive run_result := Returned (p : proposer) (r : bool) | Exited.

(** [run]; [r0] and [b0] are the uninitialised response variables. *)
Definition run (p : proposer) (w : W) (instance : Z) (cur_nodes : list cstring) (newv : cstring)
    (r0 : prepareres) (b0 : bool) : W * run_result :=
  if negb (stable p) then (w, Returned p false)
  else
    let p := setn (set_stable p false) (get_n_h w) in
    let finish := set_stable p true in
    match prepare p w (u32 instance) cur_nodes r0 with
    | (w, None) => (w, Returned finish false)
    | (w, Some s) =>
        if majority cur_nodes (p_accepts s) then
          let v := choose_value (p_v s) newv in
          if break1 p then (w, Exited)
          else
            let '(w, accepts) := accept p w (u32 instance) (p_accepts s) v b0 in
            if majority cur_nodes accepts then
              if break2 p then (w, Exited)
              else (decide w (u32 instance) accepts v, Returned finish true)
            else (w, Returned finish false)
        else (w, Returned finish false)
    end.
End run.
End phases.

(** * Membership and majorities *)

Lemma isamember_elem m nodes : isamember m nodes = true <-> m ∈ nodes.
Proof.
  unfold isamember. rewrite existsb_exists. setoid_rewrite str_eqb_eq.
  rewrite list_elem_of_In. split; [by intros (x & ? & ->)|by eauto].
Qed.

Lemma majority_count l1 l2 :
  majority l1 l2 = true -> (length l1 < 2 * count_members l1 l2)%nat.
Proof.
  unfold majority. rewrite Z.leb_le, Z.shiftr_div_pow2 by lia.
  assert (u32 (Z.of_nat (count_members l1 l2)) <= Z.of_nat (count_members l1 l2)) by width_lia.
  change (2 ^ 1) with 2. Z.to_euclidean_division_equations. lia.
Qed.

Lemma count_disjoint {A} (f g : A -> bool) l :
  (length l < length (List.filter f l) + length (List.filter g l))%nat ->
  exists x, x ∈ l /\ f x = true /\ g x = true.
Proof.
  induction l as [|x l IH]; simpl; [lia|]. intros H.
  destruct (f x) eqn:Ef, (g x) eqn:Eg; simpl in H;
    [by exists x; split_and!; [left|..]|..];
    (destruct IH as (y & ? & ? & ?); [lia|]; exists y; split_and!; try done; by right).
Qed.

(** Two majorities of the same nodes have a node in common. *)
Lemma majority_intersect ns l1 l2 :
  majority ns l1 = true -> majority ns l2 = true -> exists q, q ∈ ns /\ q ∈ l1 /\ q ∈ l2.
Proof.
  intros H1%majority_count H2%majority_count. unfold count_members in *.
  destruct (count_disjoint (fun x => isamember x l1) (fun x => isamember x l2) ns)
    as (q & Hq & E1 & E2); [lia|].
  exists q. split_and!; [done|by apply isamember_elem..].
Qed.

Lemma choose_value_nil newv : choose_value [] newv = newv.
Proof. reflexivity. Qed.
Lemma choose_value_cons v newv : v <> [] -> choose_value v newv = v.
Proof. destruct v; [done|]. unfold choose_value. simpl length. by destruct (Z.eqb_spec (Z.of_nat (S (length v))) 0); [lia|]. Qed.

(** Unless the counter wraps around, a new number exceeds every earlier one and the
    one the local acceptor has promised. *)
Lemma setn_fresh p n_h :
  is_u32 (prop_n n_h + 1) -> is_u32 (prop_n (my_n p) + 1) ->
  prop_n (my_n (setn p n_h)) = Z.max (prop_n n_h + 1) (prop_n (my_n p) + 1).
Proof. intros H1 H2. unfold setn. simpl. rewrite !u32_id by done. case_match; lia. Qed.
