(* ===== verification/PaxosSystem.v ===== *)
(** Paxos as a distributed system: the acceptors of [Acceptor], a proposer thread per
    node running the phases of [Proposer], and the messages between them.

    A message once sent may be delivered at any time and any number of times, or
    never; a caller may give a call up at any time.  Acceptors crash and restart from
    their logs.  [exec] runs one action on a state of the system, so that a schedule
    can be evaluated; the theorems are about every schedule. *)
From Stdlib Require Import ZArith Lia Ascii String.
From stdpp Require Import base gmap list strings relations.
From S2P Require Import Prelude TextIO Protocols PaxosLog Acceptor Proposer.
Local Open Scope Z_scope.

(** * Messages *)

Inductive msg :=
| MPrepare (to : cstring) (arg : preparearg)
| MPromise (from : cstring) (arg : preparearg) (r : prepareres)
| MAccept (to : cstring) (arg : acceptarg)
| MAccepted (from : cstring) (arg : acceptarg) (r : bool)
| MDecide (to : cstring) (arg : decidearg).

#[global] Instance preparearg_eq_dec : EqDecision preparearg.
Proof. solve_decision. Defined.
#[global] Instance acceptarg_eq_dec : EqDecision acceptarg.
Proof. solve_decision. Defined.
#[global] Instance decidearg_eq_dec : EqDecision decidearg.
Proof. solve_decision. Defined.
#[global] Instance msg_eq_dec : EqDecision msg.
Proof. solve_decision. Defined.

(** * Proposer threads *)

(** Where a thread is in [run]: the nodes still to be called and the variables of the
    phase.  [Halted] is a process that exited at a breakpoint. *)
Inductive phase :=
| Idle
| Preparing (todo : list cstring) (s : prep)
| Accepting (v : cstring) (todo accepts : list cstring)
| Deciding (v : cstring) (todo : list cstring)
| Halted.

Record pthread := Pthread {
  pt_prop : proposer; pt_instance : Z; pt_nodes : list cstring; pt_newv : cstring;
  pt_phase : phase }.

Definition set_phase (t : pthread) (ph : phase) : pthread :=
  Pthread (pt_prop t) (pt_instance t) (pt_nodes t) (pt_newv t) ph.
Definition finish (t : pthread) : pthread :=
  Pthread (set_stable (pt_prop t) true) (pt_instance t) (pt_nodes t) (pt_newv t) Idle.

(** The entry of [run], up to the first call. *)
Definition start (t : pthread) (nh : prop_t) (instance : Z) (nodes : list cstring)
    (newv : cstring) : pthread :=
  if negb (stable (pt_prop t)) then t
  else Pthread (setn (set_stable (pt_prop t) false) nh) (u32 instance) nodes newv
         (Preparing nodes prep0).

(** The call a thread makes next. *)
Definition next_call (t : pthread) : option msg :=
  match pt_phase t with
  | Preparing (q :: _) _ => Some (MPrepare q (PrepareArg (pt_instance t) (my_n (pt_prop t))))
  | Accepting v (q :: _) _ => Some (MAccept q (AcceptArg (pt_instance t) (my_n (pt_prop t)) v))
  | Deciding v (q :: _) => Some (MDecide q (DecideArg (pt_instance t) v))
  | _ => None
  end.

(** The call to the next node failed: the loops go on with the node after it. *)
Definition skip_call (t : pthread) : option pthread :=
  match pt_phase t with
  | Preparing (_ :: todo) s => Some (set_phase t (Preparing todo s))
  | Accepting v (_ :: todo) accepts => Some (set_phase t (Accepting v todo accepts))
  | Deciding v (_ :: todo) => Some (set_phase t (Deciding v todo))
  | _ => None
  end.

(** A reply to the call of the thread: the thread, and a value the local acceptor
    must commit. *)
Definition take_reply (t : pthread) (m : msg) : option (pthread * option cstring) :=
  match pt_phase t, m with
  | Preparing (q :: todo) s, MPromise q' arg r =>
      if bool_decide (q' = q /\ arg = PrepareArg (pt_instance t) (my_n (pt_prop t))) then
        match prepare_reply q paxos_protocol.OK r s with
        | inl s => Some (set_phase t (Preparing todo s), None)
        | inr v => Some (finish t, Some v)
        end
      else None
  | Accepting v (q :: todo) accepts, MAccepted q' arg r =>
      if bool_decide (q' = q /\ arg = AcceptArg (pt_instance t) (my_n (pt_prop t)) v) then
        Some (set_phase t (Accepting v todo (accept_reply q paxos_protocol.OK r accepts)), None)
      else None
  | _, _ => None
  end.

(** All nodes were called: the test that ends a phase of [run]. *)
Definition end_phase (t : pthread) : option pthread :=
  match pt_phase t with
  | Preparing [] s =>
      Some (if majority (pt_nodes t) (p_accepts s) then
              if break1 (pt_prop t) then set_phase t Halted
              else set_phase t (Accepting (choose_value (p_v s) (pt_newv t)) (p_accepts s) [])
            else finish t)
  | Accepting v [] accepts =>
      Some (if majority (pt_nodes t) accepts then
              if break2 (pt_prop t) then set_phase t Halted
              else set_phase t (Deciding v accepts)
            else finish t)
  | Deciding v [] => Some (finish t)
  | _ => None
  end.

(** * The system *)

Record sys := Sys {
  accs : gmap cstring acceptor; pts : gmap cstring pthread; msgs : list msg }.

Inductive action :=
| AStart (p : cstring) (instance : Z) (nodes : list cstring) (newv : cstring)
| ACall (p : cstring)
| ASkip (p : cstring)
| AReply (p : cstring) (m : msg)
| APhase (p : cstring)
| ADeliver (m : msg) (r0 : prepareres)
| AReboot (q : cstring).

Definition set_acc (s : sys) (q : cstring) (a : acceptor) (m : list msg) : sys :=
  Sys (<[q := a]> (accs s)) (pts s) (m ++ msgs s).
Definition set_pt (s : sys) (p : cstring) (t : pthread) : sys :=
  Sys (accs s) (<[p := t]> (pts s)) (msgs s).
Definition send (s : sys) (m : msg) : sys := Sys (accs s) (pts s) (m :: msgs s).

(** A node handles a request that was sent to it. *)
Definition deliver (s : sys) (m : msg) (r0 : prepareres) : option (outcome sys) :=
  match m with
  | MPrepare q arg =>
      a ← accs s !! q;
      let '(a', r, _) := preparereq a arg r0 in
      Some (Ret (set_acc s q a' [MPromise q arg r]))
  | MAccept q arg =>
      a ← accs s !! q;
      let '(a', r, _) := acceptreq a arg in
      Some (Ret (set_acc s q a' [MAccepted q arg r]))
  | MDecide q arg =>
      a ← accs s !! q;
      Some ('(a', _, _) ← decidereq a arg; Ret (set_acc s q a' []))
  | _ => None
  end.

(** [None]: the action is not possible; a [Fault]: a process aborts in it. *)
Definition exec (s : sys) (act : action) : option (outcome sys) :=
  match act with
  | AStart p instance nodes newv =>
      t ← pts s !! p; a ← accs s !! p;
      Some (Ret (set_pt s p (start t (n_h a) instance nodes newv)))
  | ACall p => t ← pts s !! p; m ← next_call t; Some (Ret (send s m))
  | ASkip p => t ← pts s !! p; t' ← skip_call t; Some (Ret (set_pt s p t'))
  | AReply p m =>
      if bool_decide (m ∈ msgs s) then
        t ← pts s !! p;
        '(t', c) ← take_reply t m;
        match c with
        | None => Some (Ret (set_pt s p t'))
        | Some v =>
            a ← accs s !! p;
            Some (Ret (set_acc (set_pt s p t') p (commit a (pt_instance t) v).1 []))
        end
      else None
  | APhase p => t ← pts s !! p; t' ← end_phase t; Some (Ret (set_pt s p t'))
  | ADeliver m r0 => if bool_decide (m ∈ msgs s) then deliver s m r0 else None
  | AReboot q =>
      a ← accs s !! q;
      Some (a' ← acceptor_new (acc_cfg a) false (acc_me a) [] (logfile a); Ret (set_acc s q a' []))
  end.

(** * Schedules *)

Section agreement.
  (** The instance that is run, and the nodes of the current view. *)
  Variables (inst : Z) (ns : list cstring).

(** What the callers of [run] and the network must respect: proposals are for this
    instance and these nodes, with a nonempty one-line value (an empty one stands for
    no value in [run]) and a counter that does not wrap around; and an accept
    request reaches an acceptor before it has decided the instance. *)
Definition timely (s : sys) (act : action) : Prop :=
  match act with
  | AStart p instance nodes newv =>
      instance = inst /\ nodes = ns /\ newv <> [] /\ is_line newv
      /\ match pts s !! p, accs s !! p with
         | Some t, Some a =>
             is_u32 (prop_n (n_h a) + 1) /\ is_u32 (prop_n (my_n (pt_prop t)) + 1)
         | _, _ => True
         end
  | ADeliver (MAccept q arg) _ =>
      match accs s !! q with
      | Some a => instance_h a + 1 = aa_instance arg
      | None => True
      end
  | _ => True
  end.
#[global] Instance timely_dec s act : Decision (timely s act).
Proof.
  destruct act as [p ???|?|?|??|?|[] ?|?]; simpl; try apply _.
  - destruct (pts s !! p), (accs s !! p); apply _.
  - case_match; apply _.
Defined.

(** All nodes have decided the instances before this one and start it afresh. *)
Definition initial (s : sys) : Prop :=
  msgs s = []
  /\ (forall q a, accs s !! q = Some a ->
        instance_h a = inst - 1 /\ prop_n (n_h a) = 0 /\ prop_n (n_a a) = 0 /\ v_a a = []
        /\ exists es, durable a es)
  /\ (forall p t, pts s !! p = Some t ->
        is_word p /\ prop_m (my_n (pt_prop t)) = p /\ 0 <= prop_n (my_n (pt_prop t)) < 2 ^ 32
        /\ pt_phase t = Idle).

Definition step (s s' : sys) : Prop :=
  exists act, timely s act /\ exec s act = Some (Ret s').
Definition reachable (s : sys) : Prop := exists s0, initial s0 /\ rtc step s0 s.

(** * What the messages say *)

Definition voted (ms : list msg) (q : cstring) (n : prop_t) (v : cstring) : Prop :=
  MAccepted q (AcceptArg inst n v) true ∈ ms.
Definition promised (ms : list msg) (q : cstring) (n : prop_t) (r : prepareres) : Prop :=
  MPromise q (PrepareArg inst n) r ∈ ms /\ pr_accept r = true.
Definition proposed (ms : list msg) (n : prop_t) (v : cstring) : Prop :=
  exists q, MAccept q (AcceptArg inst n v) ∈ ms.
(** A majority of the nodes has accepted the value in one ballot. *)
Definition chosen (ms : list msg) (n : prop_t) (v : cstring) : Prop :=
  exists Q, majority ns Q = true /\ forall q, q ∈ Q -> voted ms q n v.

(** No value but [v] is or can still be chosen in a ballot before [n]. *)
Definition safe (ms : list msg) (n : prop_t) (v : cstring) : Prop :=
  forall k w, prop_gt n k = true -> w <> v ->
    exists Q, majority ns Q = true
      /\ forall q, q ∈ Q ->
           (exists n' r, promised ms q n' r /\ prop_gt n' k = true) /\ ~ voted ms q k w.

(** * The invariant *)

(** A ballot some proposer has used. *)
Definition ballot_ok (ts : gmap cstring pthread) (n : prop_t) : Prop :=
  0 < prop_n n /\ prop_loggable n
  /\ exists t, ts !! prop_m n = Some t /\ prop_n n <= prop_n (my_n (pt_prop t)).

Definition msg_ok (ts : gmap cstring pthread) (ms : list msg) (m : msg) : Prop :=
  match m with
  | MPrepare q arg => pa_instance arg = inst /\ ballot_ok ts (pa_n arg)
  | MPromise q arg r =>
      pa_instance arg = inst /\ ballot_ok ts (pa_n arg)
      /\ (pr_oldinstance r = true -> exists n, chosen ms n (pr_v_a r))
  | MAccept q arg =>
      aa_instance arg = inst /\ ballot_ok ts (aa_n arg) /\ aa_v arg <> [] /\ is_line (aa_v arg)
      /\ (exists r, promised ms q (aa_n arg) r) /\ safe ms (aa_n arg) (aa_v arg)
  | MAccepted q arg r =>
      aa_instance arg = inst /\ (r = true -> proposed ms (aa_n arg) (aa_v arg))
  | MDecide q arg =>
      da_instance arg = inst
      /\ exists n, chosen ms n (da_v arg) /\ voted ms q n (da_v arg)
  end.

(** What a promise reports: the last vote of the node, if it has one. *)
Definition report_ok (ms : list msg) (q : cstring) (n n_a : prop_t) (v_a : cstring) : Prop :=
  (prop_n n_a = 0 /\ v_a = [] /\ forall k w, prop_gt n k = true -> ~ voted ms q k w)
  \/ (voted ms q n_a v_a /\ prop_gt n n_a = true
      /\ forall k w, prop_gt n k = true -> prop_gt k n_a = true -> ~ voted ms q k w).

(** The votes and promises of a node against its state. *)
Definition acc_ok (ms : list msg) (q : cstring) (a : acceptor) : Prop :=
  (forall n r, promised ms q n r -> prop_ge (n_h a) n = true)
  /\ (forall n v, voted ms q n v -> prop_ge (n_a a) n = true)
  /\ ((prop_n (n_a a) = 0 /\ v_a a = [])
      \/ (voted ms q (n_a a) (v_a a) /\ prop_ge (n_h a) (n_a a) = true)).
Definition acc_inv (ms : list msg) (q : cstring) (a : acceptor) : Prop :=
  (exists es, durable a es)
  /\ ((instance_h a = inst - 1 /\ acc_ok ms q a)
      \/ (instance_h a = inst /\ exists n, chosen ms n (value_of a inst))).

(** What a thread has collected in the prepare phase of ballot [n]. *)
Definition collected (ms : list msg) (n : prop_t) (s : prep) : Prop :=
  (forall q, q ∈ p_accepts s -> exists r, promised ms q n r
     /\ (prop_n (pr_n_a r) = 0 \/ prop_ge (p_highest s) (pr_n_a r) = true))
  /\ ((prop_n (p_highest s) = 0 /\ p_v s = [])
      \/ exists q r, promised ms q n r /\ pr_n_a r = p_highest s /\ pr_v_a r = p_v s
           /\ prop_n (p_highest s) <> 0).

Definition thread_run (t : pthread) : Prop :=
  pt_instance t = inst /\ pt_nodes t = ns /\ pt_newv t <> [] /\ is_line (pt_newv t)
  /\ 0 < prop_n (my_n (pt_prop t)).

Definition phase_ok (ms : list msg) (t : pthread) : Prop :=
  let n := my_n (pt_prop t) in
  match pt_phase t with
  | Preparing todo s =>
      thread_run t /\ (forall v, ~ proposed ms n v) /\ collected ms n s
  | Accepting v todo accepts =>
      thread_run t /\ v <> [] /\ is_line v /\ safe ms n v
      /\ (forall v', proposed ms n v' -> v' = v)
      /\ (forall q, q ∈ todo -> exists r, promised ms q n r)
      /\ (forall q, q ∈ accepts -> voted ms q n v)
  | Deciding v todo =>
      thread_run t /\ exists k, chosen ms k v /\ forall q, q ∈ todo -> voted ms q k v
  | _ => True
  end.

Definition thread_inv (ms : list msg) (p : cstring) (t : pthread) : Prop :=
  is_word p /\ prop_m (my_n (pt_prop t)) = p /\ is_u32 (prop_n (my_n (pt_prop t)))
  /\ phase_ok ms t.

Record inv (s : sys) : Prop := {
  inv_msgs : forall m, m ∈ msgs s -> msg_ok (pts s) (msgs s) m;
  inv_reports : forall q n r, promised (msgs s) q n r ->
    report_ok (msgs s) q n (pr_n_a r) (pr_v_a r);
  inv_unique : forall n v v', proposed (msgs s) n v -> proposed (msgs s) n v' -> v = v';
  inv_accs : forall q a, accs s !! q = Some a -> acc_inv (msgs s) q a;
  inv_pts : forall p t, pts s !! p = Some t -> thread_inv (msgs s) p t }.

(** ** Orders *)

Lemma prop_gt_not_ge n k : prop_gt n k = true -> prop_ge k n = true -> False.
Proof. rewrite prop_ge_gt. intros ->. done. Qed.
Lemma prop_ge_gt_trans a b c : prop_ge a b = true -> prop_gt b c = true -> prop_gt a c = true.
Proof.
  rewrite prop_ge_gt, negb_true_iff. intros H1 H2.
  destruct (prop_gt_total a b) as [F|[->|F]]; [by eapply prop_gt_trans|done|congruence].
Qed.
Lemma prop_gt_ge_trans a b c : prop_gt a b = true -> prop_ge b c = true -> prop_gt a c = true.
Proof.
  rewrite prop_ge_gt, negb_true_iff. intros H1 H2.
  destruct (prop_gt_total b c) as [F|[<-|F]]; [by eapply prop_gt_trans|done|congruence].
Qed.
Lemma prop_ge_antisym a b : prop_ge a b = true -> prop_ge b a = true -> a = b.
Proof.
  rewrite !prop_ge_gt, !negb_true_iff. destruct (prop_gt_total a b) as [F|[->|F]]; congruence.
Qed.
Lemma prop_ge_pos a b : prop_ge a b = true -> 0 < prop_n b -> 0 < prop_n a.
Proof. unfold prop_ge. lia. Qed.
Lemma prop_gt_zero a b : prop_n b = 0 -> 0 < prop_n a -> prop_gt a b = true.
Proof. unfold prop_gt. lia. Qed.

(** ** Growing message sets *)

(** More messages, in which no node votes below what it had promised. *)
Definition ext (ms ms' : list msg) : Prop :=
  ms ⊆ ms'
  /\ forall q k w n r, voted ms' q k w -> promised ms q n r ->
       voted ms q k w \/ prop_ge k n = true.

Lemma voted_mono ms ms' q n v : ms ⊆ ms' -> voted ms q n v -> voted ms' q n v.
Proof. unfold voted. intros H ?. by apply H. Qed.
Lemma promised_mono ms ms' q n r : ms ⊆ ms' -> promised ms q n r -> promised ms' q n r.
Proof. intros H [? ?]. split; [by apply H|done]. Qed.
Lemma proposed_mono ms ms' n v : ms ⊆ ms' -> proposed ms n v -> proposed ms' n v.
Proof. intros H [q ?]. exists q. by apply H. Qed.
Lemma chosen_mono ms ms' n v : ms ⊆ ms' -> chosen ms n v -> chosen ms' n v.
Proof. intros H (Q & HQ & Hv). exists Q. split; [done|]. intros. by eapply voted_mono, Hv. Qed.

Lemma not_voted_ext ms ms' q k w n r :
  ext ms ms' -> promised ms q n r -> prop_gt n k = true -> ~ voted ms q k w -> ~ voted ms' q k w.
Proof.
  intros [_ He] Hp Hk Hn Hv. destruct (He _ _ _ _ _ Hv Hp) as [?|?]; [done|].
  by eapply prop_gt_not_ge.
Qed.
Lemma safe_ext ms ms' n v : ext ms ms' -> safe ms n v -> safe ms' n v.
Proof.
  intros He Hs k w Hk Hw. destruct (Hs k w Hk Hw) as (Q & HQ & H). exists Q. split; [done|].
  intros q Hq. destruct (H q Hq) as [(n' & r & Hp & Hn') Hv]. split.
  - exists n', r. split; [|done]. eapply promised_mono; [apply He|done].
  - by eapply not_voted_ext.
Qed.
Lemma report_ext ms ms' q n r :
  ext ms ms' -> promised ms q n r -> report_ok ms q n (pr_n_a r) (pr_v_a r) ->
  report_ok ms' q n (pr_n_a r) (pr_v_a r).
Proof.
  intros He Hp [(Hz & Hv & Hn)|(Hv & Hg & Hn)]; [left|right]; split_and!; try done.
  - intros. eapply not_voted_ext; [done|done|done|]. by apply Hn.
  - eapply voted_mono; [apply He|done].
  - intros. eapply not_voted_ext; [done|done|done|]. by apply Hn.
Qed.
Lemma collected_mono ms ms' n s : ms ⊆ ms' -> collected ms n s -> collected ms' n s.
Proof.
  intros Hs [H1 H2]. split.
  - intros q Hq. destruct (H1 q Hq) as (r & Hr & Hh). exists r. split; [|done].
    by eapply promised_mono.
  - destruct H2 as [H2|(q & r & Hp & H2)]; [by left|right]. exists q, r. split; [|done].
    by eapply promised_mono.
Qed.

(** Threads only start over with a higher number. *)
Definition pts_grow (ts ts' : gmap cstring pthread) : Prop :=
  forall p t, ts !! p = Some t ->
    exists t', ts' !! p = Some t' /\ prop_n (my_n (pt_prop t)) <= prop_n (my_n (pt_prop t')).
Lemma ballot_grow ts ts' n : pts_grow ts ts' -> ballot_ok ts n -> ballot_ok ts' n.
Proof.
  intros Hg (H0 & Hl & t & Ht & Hle). split_and!; [done|done|].
  destruct (Hg _ _ Ht) as (t' & Ht' & Hle'). exists t'. split; [done|lia].
Qed.
Lemma msg_ok_mono ts ts' ms ms' m :
  pts_grow ts ts' -> ext ms ms' -> msg_ok ts ms m -> msg_ok ts' ms' m.
Proof.
  intros Hg He. pose proof (proj1 He) as Hs. destruct m; simpl.
  - intros [? ?]. eauto using ballot_grow.
  - intros (? & ? & H). split_and!; [done|by eapply ballot_grow|]. intros E.
    destruct (H E). eauto using chosen_mono.
  - intros (? & ? & ? & ? & (r & Hr) & ?). split_and!; try done;
      [by eapply ballot_grow|eauto using promised_mono|by eapply safe_ext].
  - intros [? H]. split; [done|]. intros E. eapply proposed_mono; [done|auto].
  - intros (? & n & ? & ?). eauto 6 using chosen_mono, voted_mono.
Qed.

(** What the other threads and acceptors know survives a message of someone else. *)
Lemma phase_ok_mono ms ms' t :
  ext ms ms' -> (forall v, proposed ms' (my_n (pt_prop t)) v -> proposed ms (my_n (pt_prop t)) v) ->
  phase_ok ms t -> phase_ok ms' t.
Proof.
  intros He Hq. pose proof (proj1 He) as Hs. unfold phase_ok. destruct (pt_phase t); try done.
  - intros (Hr & Hp & Hc). split_and!; [done| |by eapply collected_mono]. intros v Hv.
    by eapply Hp, Hq.
  - intros (Hr & Hv & Hl & Hsafe & Hu & Ht & Ha). split_and!; try done.
    + by eapply safe_ext.
    + intros v' Hv'. by apply Hu, Hq.
    + intros q Hin. destruct (Ht q Hin). eauto using promised_mono.
    + intros q Hin. by eapply voted_mono, Ha.
  - intros (Hr & k & Hc & Hv). split; [done|]. exists k. split; [by eapply chosen_mono|].
    intros q Hin. by eapply voted_mono, Hv.
Qed.
Lemma acc_inv_mono ms ms' q a :
  ms ⊆ ms' ->
  (forall n r, promised ms' q n r -> promised ms q n r) ->
  (forall n v, voted ms' q n v -> voted ms q n v) ->
  acc_inv ms q a -> acc_inv ms' q a.
Proof.
  intros Hs Hp Hv (Hd & [(Hi & Ha)|(Hi & n & Hc)]); split; try done; [left|right]; split; try done.
  - destruct Ha as (H1 & H2 & H3). split_and!; [eauto|eauto|].
    destruct H3 as [?|[? ?]]; [by left|right; split; [by eapply voted_mono|done]].
  - eauto using chosen_mono.
Qed.

(** A message that is neither a vote nor a promise nor a proposal says nothing new. *)
Definition silent (m : msg) : Prop :=
  match m with
  | MPrepare _ _ | MDecide _ _ => True
  | MPromise _ _ r => pr_accept r = false
  | MAccepted _ _ r => r = false
  | MAccept _ _ => False
  end.
Lemma silent_voted m ms q n v : silent m -> voted (m :: ms) q n v -> voted ms q n v.
Proof. unfold voted. intros H. rewrite elem_of_cons. intros [<-|?]; by simpl in H. Qed.
Lemma silent_promised m ms q n r : silent m -> promised (m :: ms) q n r -> promised ms q n r.
Proof.
  unfold promised. intros H. rewrite elem_of_cons. intros [[<-|?] ?]; simpl in H; [congruence|done].
Qed.
Lemma silent_proposed m ms n v : silent m -> proposed (m :: ms) n v -> proposed ms n v.
Proof.
  unfold proposed. intros H [q Hq]. apply elem_of_cons in Hq as [<-|?]; [done|]. by exists q.
Qed.
Lemma sub_cons (m : msg) ms : ms ⊆ m :: ms.
Proof. intros x ?. by right. Qed.
Lemma acc_inv_silent m ms q a : silent m -> acc_inv ms q a -> acc_inv (m :: ms) q a.
Proof.
  intros Hs. apply acc_inv_mono; [apply sub_cons|..]; intros ??;
    [by apply silent_promised|by apply silent_voted].
Qed.
Lemma ext_refl ms : ext ms ms.
Proof. split; [done|]. auto. Qed.
Lemma ext_no_vote m ms :
  (forall q n v, voted (m :: ms) q n v -> voted ms q n v) -> ext ms (m :: ms).
Proof. intros H. split; [apply sub_cons|]. intros ????? Hv _. left. by apply H. Qed.

(** ** Consequences *)

Lemma majority_nonempty Q : majority ns Q = true -> exists q, q ∈ Q.
Proof. intros H. destruct (majority_intersect ns Q Q) as (q & _ & ? & _); eauto. Qed.

Section consequences.
  Context (s : sys) (I : inv s).

Lemma voted_proposed q n v : voted (msgs s) q n v -> proposed (msgs s) n v.
Proof. intros H. by apply (inv_msgs s I) in H as [_ H]; apply H. Qed.
Lemma chosen_proposed n v : chosen (msgs s) n v -> proposed (msgs s) n v.
Proof.
  intros (Q & HQ & Hv). destruct (majority_nonempty Q HQ) as [q Hq].
  by eapply voted_proposed, Hv.
Qed.
Lemma proposed_ok n v :
  proposed (msgs s) n v ->
  ballot_ok (pts s) n /\ v <> [] /\ is_line v /\ safe (msgs s) n v.
Proof. intros [q H]. apply (inv_msgs s I) in H as (_ & ? & ? & ? & _ & ?). done. Qed.
Lemma voted_pos q n v : voted (msgs s) q n v -> 0 < prop_n n.
Proof. intros H%voted_proposed. by apply proposed_ok in H as [(? & _) _]. Qed.
Lemma promised_ballot q n r : promised (msgs s) q n r -> ballot_ok (pts s) n.
Proof. intros [H _]. by apply (inv_msgs s I) in H as (_ & ? & _). Qed.

Lemma chosen_safe k w n v :
  chosen (msgs s) k w -> safe (msgs s) n v -> prop_gt n k = true -> w = v.
Proof.
  intros (Q & HQ & Hv) Hs Hk. destruct (decide (w = v)) as [|Hne]; [done|].
  destruct (Hs k w Hk Hne) as (Q' & HQ' & H').
  destruct (majority_intersect ns Q Q') as (q & _ & H1 & H2); [done|done|].
  destruct (H' q H2) as [_ []]. by apply Hv.
Qed.

(** A chosen value and the value of any vote in a later ballot are the same. *)
Lemma chosen_proposed_eq k w n v :
  chosen (msgs s) k w -> proposed (msgs s) n v -> prop_ge n k = true -> w = v.
Proof.
  intros Hc Hp Hk. destruct (prop_gt_total n k) as [?|[->|F]].
  - apply proposed_ok in Hp as (_ & _ & _ & Hs). by eapply chosen_safe.
  - apply chosen_proposed in Hc. by eapply (inv_unique s I).
  - by apply prop_gt_not_ge in F.
Qed.
Lemma chosen_agree n v n' v' : chosen (msgs s) n v -> chosen (msgs s) n' v' -> v = v'.
Proof.
  intros H H'. pose proof (chosen_proposed _ _ H). pose proof (chosen_proposed _ _ H').
  destruct (prop_gt_total n n') as [F|[->|F]].
  - symmetry. eapply chosen_proposed_eq; [exact H'|done|by apply prop_gt_ge].
  - by eapply (inv_unique s I).
  - eapply chosen_proposed_eq; [exact H|done|by apply prop_gt_ge].
Qed.
Lemma chosen_line n v : chosen (msgs s) n v -> v <> [] /\ is_line v.
Proof. intros H%chosen_proposed. by apply proposed_ok in H as (_ & ? & ? & _). Qed.

(** ** The value of a ballot is safe *)

Section choosing.
  Variables (n : prop_t) (sp : prep).
  Hypothesis Hc : collected (msgs s) n sp.
  Hypothesis Hmaj : majority ns (p_accepts sp) = true.

(** Nobody who answered has voted between the highest ballot reported and [n]. *)
Lemma collected_gap k w q :
  q ∈ p_accepts sp -> prop_gt n k = true ->
  (prop_n (p_highest sp) = 0 \/ prop_gt k (p_highest sp) = true) ->
  ~ voted (msgs s) q k w.
Proof.
  intros Hq Hk Hh. destruct (proj1 Hc q Hq) as (r & Hp & Hle).
  destruct (inv_reports s I _ _ _ Hp) as [(_ & _ & H)|(Hv & _ & H)]; [by apply H|].
  apply voted_pos in Hv as Hpos. destruct Hle as [Hle|Hle]; [lia|].
  destruct Hh as [Hh|Hh].
  - pose proof (prop_ge_pos _ _ Hle Hpos). lia.
  - apply H; [done|]. by eapply prop_gt_ge_trans.
Qed.

Lemma collected_safe newv :
  newv <> [] -> is_line newv ->
  let v := choose_value (p_v sp) newv in v <> [] /\ is_line v /\ safe (msgs s) n v.
Proof.
  intros Hne Hline v.
  assert (forall q k, q ∈ p_accepts sp -> prop_gt n k = true ->
    exists n' r, promised (msgs s) q n' r /\ prop_gt n' k = true) as Hprom.
  { intros q k Hq Hk. destruct (proj1 Hc q Hq) as (r & Hr & _). eauto. }
  destruct (proj2 Hc) as [[Hz Hv]|(q0 & r0 & Hp0 & Eh & Ev & Hnz)].
  - unfold v. rewrite Hv, choose_value_nil. split_and!; [done|done|]. intros k w Hk _.
    exists (p_accepts sp). split; [done|]. intros q Hq. split; [by apply Hprom|].
    eapply collected_gap; [done|done|by left].
  - destruct (inv_reports s I _ _ _ Hp0) as [(Hz & _)|(Hv & Hlt & _)]; [congruence|].
    rewrite Eh, Ev in Hv. rewrite Eh in Hlt. apply voted_proposed in Hv.
    destruct (proposed_ok _ _ Hv) as (_ & Hvne & Hvl & Hsafe).
    unfold v. rewrite choose_value_cons by done. split_and!; [done|done|]. intros k w Hk Hw.
    destruct (prop_gt_total k (p_highest sp)) as [F|[->|F]]; [| |by apply Hsafe].
    + exists (p_accepts sp). split; [done|]. intros q Hq. split; [by apply Hprom|].
      eapply collected_gap; [done|done|by right].
    + exists (p_accepts sp). split; [done|]. intros q Hq. split; [by apply Hprom|].
      intros Hvw%voted_proposed. apply Hw. by eapply (inv_unique s I).
Qed.
End choosing.
End consequences.

(** ** Every action keeps the invariant *)

Lemma inv_set_pt s p t t' :
  inv s -> pts s !! p = Some t -> prop_n (my_n (pt_prop t)) <= prop_n (my_n (pt_prop t')) ->
  thread_inv (msgs s) p t' -> inv (set_pt s p t').
Proof.
  intros I Ht Hle Ht'. assert (pts_grow (pts s) (<[p := t']> (pts s))) as Hg.
  { intros p0 t0 H0. destruct (decide (p0 = p)) as [->|].
    - exists t'. split; [apply lookup_insert_eq|]. by simplify_map_eq.
    - exists t0. by rewrite lookup_insert_ne. }
  destruct I as [Im Ir Iu Ia Ip]. split; simpl; try done.
  - intros m Hm. eapply msg_ok_mono; [done|apply ext_refl|by apply Im].
  - intros p0 t0 H0. destruct (decide (p0 = p)) as [->|]; simplify_map_eq; eauto.
Qed.

(** A new message that is no proposal, with the acceptors after it. *)
Lemma inv_grow s m as' :
  inv s -> ext (msgs s) (m :: msgs s) -> msg_ok (pts s) (m :: msgs s) m ->
  (forall n v, proposed (m :: msgs s) n v -> proposed (msgs s) n v) ->
  (forall q n r, promised (m :: msgs s) q n r -> promised (msgs s) q n r
     \/ report_ok (m :: msgs s) q n (pr_n_a r) (pr_v_a r)) ->
  (forall q a, as' !! q = Some a -> acc_inv (m :: msgs s) q a) ->
  inv (Sys as' (pts s) (m :: msgs s)).
Proof.
  intros I He Hm Hp Hr Ha. destruct I as [Im Ir Iu _ Ip]. split; simpl; try done.
  - intros m' [->|Hm']%elem_of_cons; [done|]. eapply msg_ok_mono; [|done|by apply Im].
    intros p t ?. by exists t.
  - intros q n r H. destruct (Hr _ _ _ H) as [H'|?]; [|done]. eapply report_ext; eauto.
  - intros n v v' H1 H2. eauto.
  - intros p t H. destruct (Ip p t H) as (? & ? & ? & ?). split_and!; try done.
    eapply phase_ok_mono; eauto.
Qed.

Lemma inv_send_silent s m :
  inv s -> silent m -> msg_ok (pts s) (m :: msgs s) m -> inv (send s m).
Proof.
  intros I Hs Hm. apply inv_grow; try done.
  - apply ext_no_vote. intros. by eapply silent_voted.
  - intros. by eapply silent_proposed.
  - intros. left. by eapply silent_promised.
  - intros q a H. apply acc_inv_silent; [done|]. by apply (inv_accs s I).
Qed.

Lemma inv_set_acc s q a' : inv s -> acc_inv (msgs s) q a' -> inv (set_acc s q a' []).
Proof.
  intros I Ha. destruct I as [Im Ir Iu Ia Ip]. split; simpl; try done.
  intros q0 a0 H0. destruct (decide (q0 = q)) as [->|]; simplify_map_eq; eauto.
Qed.

(** A proposal: its ballot belongs to the thread that makes it. *)
Lemma inv_send_accept s p t v q todo accepts :
  inv s -> pts s !! p = Some t -> pt_phase t = Accepting v (q :: todo) accepts ->
  inv (send s (MAccept q (AcceptArg (pt_instance t) (my_n (pt_prop t)) v))).
Proof.
  intros I Ht Eph. set (n := my_n (pt_prop t)).
  destruct (inv_pts s I p t Ht) as (Hw & Em & Hu & Hph). unfold phase_ok in Hph. rewrite Eph in Hph.
  destruct Hph as ((Hi & Hns & _ & _ & Hpos) & Hv & Hl & Hsafe & Huniq & Htodo & Hacc).
  rewrite Hi. set (m := MAccept q (AcceptArg inst n v)).
  assert (ext (msgs s) (m :: msgs s)) as He.
  { apply ext_no_vote. unfold voted. intros ??? [?|?]%elem_of_cons; done. }
  assert (forall n' v', proposed (m :: msgs s) n' v' ->
    proposed (msgs s) n' v' \/ (n' = n /\ v' = v)) as Hp.
  { intros n' v' [q' [E|?]%elem_of_cons]; [|left; by exists q'].
    unfold m in E. injection E as -> -> ->. by right. }
  pose proof (proj1 He) as Hsub.
  destruct I as [Im Ir Iu Ia Ip]. split; simpl.
  - intros m' [->|Hm']%elem_of_cons.
    + simpl. split_and!; try done.
      * unfold ballot_ok, prop_loggable. replace (prop_m n) with p by done.
        split_and!; try done. by exists t.
      * destruct (Htodo q) as [r Hr]; [by left|]. eauto using promised_mono.
      * by eapply safe_ext.
    + eapply msg_ok_mono; [|done|by apply Im]. intros p0 t0 ?. by exists t0.
  - intros q' n' r Hr. assert (promised (msgs s) q' n' r) as Hr'.
    { destruct Hr as [[?|?]%elem_of_cons ?]; [done|by split]. }
    eapply report_ext; eauto.
  - intros n' v1 v2 H1 H2.
    destruct (Hp _ _ H1) as [?|[-> ->]], (Hp _ _ H2) as [?|[? ->]]; subst; eauto.
    symmetry. by apply Huniq.
  - intros q' a Ha. eapply acc_inv_mono; [done| | |by apply Ia].
    + intros ?? [[?|?]%elem_of_cons ?]; [done|by split].
    + unfold voted. by intros ?? [?|?]%elem_of_cons.
  - intros p' t' Ht'. destruct (Ip p' t' Ht') as (Hw' & Em' & Hu' & Hph').
    split_and!; try done. destruct (decide (p' = p)) as [->|Hne].
    + assert (t' = t) as -> by congruence. unfold phase_ok in *. rewrite Eph in *.
      destruct Hph' as [Hrun _]. split_and!; try done; [by eapply safe_ext| | |].
      * intros v' Hv'. destruct (Hp _ _ Hv') as [?|[_ ->]]; auto.
      * intros q' Hq'. destruct (Htodo q' Hq'). eauto using promised_mono.
      * intros q' Hq'. by eapply voted_mono, Hacc.
    + eapply phase_ok_mono; [done| |done]. intros v' Hv'.
      destruct (Hp _ _ Hv') as [?|[E _]]; [done|]. unfold n in E. congruence.
Qed.

(** *** Handlers *)

(** A message that changes what node [q] has voted or promised, with its new state. *)
Lemma inv_reply s q a' m :
  inv s -> ext (msgs s) (m :: msgs s) -> msg_ok (pts s) (m :: msgs s) m ->
  (forall n v, proposed (m :: msgs s) n v -> proposed (msgs s) n v) ->
  (forall q' n r, promised (m :: msgs s) q' n r -> promised (msgs s) q' n r
     \/ (q' = q /\ report_ok (m :: msgs s) q n (pr_n_a r) (pr_v_a r))) ->
  (forall q' n v, voted (m :: msgs s) q' n v -> voted (msgs s) q' n v \/ q' = q) ->
  acc_inv (m :: msgs s) q a' ->
  inv (set_acc s q a' [m]).
Proof.
  intros I He Hm Hp Hr Hv Ha. apply (inv_grow s m); try done.
  - intros q' n r H. destruct (Hr _ _ _ H) as [?|[-> ?]]; auto.
  - intros q' b Hb. destruct (decide (q' = q)) as [->|Hne].
    { rewrite lookup_insert_eq in Hb. by injection Hb as <-. }
    rewrite lookup_insert_ne in Hb by done. apply (inv_accs s I) in Hb.
    eapply (acc_inv_mono (msgs s)); [apply He| | |done].
    + intros n r H. by destruct (Hr _ _ _ H) as [?|[-> ?]].
    + intros n v H. by destruct (Hv _ _ _ H) as [?| ->].
Qed.
Lemma inv_reply_silent s q a' m :
  inv s -> silent m -> msg_ok (pts s) (m :: msgs s) m ->
  acc_inv (m :: msgs s) q a' -> inv (set_acc s q a' [m]).
Proof.
  intros I Hs Hm Ha. change (set_acc s q a' [m]) with (set_acc (send s m) q a' []).
  apply inv_set_acc; [|done]. by apply inv_send_silent.
Qed.

(** [preparereq] promises. *)
Lemma inv_promise s q a n es :
  inv s -> ballot_ok (pts s) n -> instance_h a = inst - 1 -> acc_ok (msgs s) q a ->
  prop_gt n (n_h a) = true -> durable (logprop (set_n_h a n) n) es ->
  inv (set_acc s q (logprop (set_n_h a n) n)
         [MPromise q (PrepareArg inst n) (PrepareRes false true (n_a a) (v_a a))]).
Proof.
  intros I Hb Hi (Hok1 & Hok2 & Hok3) Hgt Hd. set (m := MPromise q _ _).
  assert (forall q n v, voted (m :: msgs s) q n v -> voted (msgs s) q n v) as Hv.
  { unfold voted. by intros ??? [?|?]%elem_of_cons. }
  assert (forall q' n' r, promised (m :: msgs s) q' n' r -> promised (msgs s) q' n' r
    \/ (q' = q /\ n' = n /\ r = PrepareRes false true (n_a a) (v_a a))) as Hp.
  { intros q' n' r [[E|?]%elem_of_cons ?]; [|left; by split]. unfold m in E.
    injection E as -> -> ->. by right. }
  pose proof (ext_no_vote m (msgs s) Hv) as He.
  apply inv_reply; try done.
  - intros n' v [q' [?|?]%elem_of_cons]; [done|by exists q'].
  - intros q' n' r H. destruct (Hp _ _ _ H) as [?|(-> & -> & ->)]; [by left|right]. simpl.
    split; [done|]. destruct Hok3 as [[Hz Hva]|[Hvt Hge]]; [left|right].
    + split_and!; try done. intros k w Hk Hvk%Hv.
      apply Hok2 in Hvk as Hge. apply (voted_pos s I) in Hvk. apply prop_ge_pos in Hge; [lia|done].
    + split_and!; [by eapply voted_mono, Hvt; apply He|by eapply prop_gt_ge_trans|].
      intros k w Hk Hka Hvk%Hv. apply Hok2 in Hvk. by eapply prop_gt_not_ge.
  - intros q' n' v H. left. by apply Hv.
  - split; [by eexists|]. left. split; [done|]. split_and!; simpl.
    + intros n' r H. destruct (Hp _ _ _ H) as [H'|(_ & -> & _)]; [|apply prop_ge_refl].
      apply Hok1 in H'. eapply prop_ge_trans; [|exact H']. by apply prop_gt_ge.
    + intros n' v H%Hv. by eapply Hok2.
    + destruct Hok3 as [?|[Hvt Hge]]; [by left|right]. split.
      * by eapply voted_mono, Hvt; apply He.
      * eapply prop_ge_trans; [|exact Hge]. by apply prop_gt_ge.
Qed.

Lemma inv_deliver_prepare s q arg r0 a :
  inv s -> MPrepare q arg ∈ msgs s -> accs s !! q = Some a ->
  let '(a', r, _) := preparereq a arg r0 in inv (set_acc s q a' [MPromise q arg r]).
Proof.
  intros I Hm Ha. pose proof (inv_msgs s I _ Hm) as [Hi Hb]. destruct arg as [i n]; simpl in *.
  subst i. pose proof (inv_accs s I _ _ Ha) as Hainv. pose proof Hainv as [[es Hd] Hinv].
  assert (acc_step a (OpPrepare (PrepareArg inst n) r0) = Ret (preparereq a (PrepareArg inst n) r0).1.1)
    as Hstep by done.
  apply (durable_step a es) in Hstep; [|done|by split; apply Hb]. revert Hstep.
  unfold preparereq; cbn [pa_instance pa_n]. destruct Hinv as [[Hi Hok]|[Hi [k Hch]]].
  - assert ((instance_h a >=? inst) = false) as -> by lia.
    destruct (prop_gt n (n_h a)) eqn:Hgt; simpl; intros [es' Hd'].
    + by eapply inv_promise.
    + apply inv_reply_silent; [done|done| |by apply acc_inv_silent]. by simpl.
  - assert ((instance_h a >=? inst) = true) as -> by lia. simpl. intros [es' Hd'].
    apply inv_reply_silent; [done|done| |apply acc_inv_silent; [done|]].
    + simpl. split_and!; try done. intros _. exists k. eapply chosen_mono, Hch. apply sub_cons.
    + split; [by eexists|right]. split; [done|]. exists k. unfold value_of at 1; simpl.
      by rewrite lookup_insert_eq.
Qed.

(** [acceptreq]: a proposal only reaches nodes that have promised its ballot. *)
Lemma inv_deliver_accept s q arg a :
  inv s -> MAccept q arg ∈ msgs s -> accs s !! q = Some a -> instance_h a + 1 = aa_instance arg ->
  let '(a', r, _) := acceptreq a arg in inv (set_acc s q a' [MAccepted q arg r]).
Proof.
  intros I Hm Ha. pose proof (inv_msgs s I _ Hm) as (Earg & Hb & Hne & Hl & (r & Hr) & _).
  destruct arg as [i n v]; simpl in *. subst i. intros Ht.
  pose proof (inv_accs s I _ _ Ha) as [[es Hd] [[Hi Hok]|[Hi _]]]; [|lia].
  assert (acc_step a (OpAccept (AcceptArg inst n v)) = Ret (acceptreq a (AcceptArg inst n v)).1.1)
    as Hstep by done.
  apply (durable_step a es) in Hstep; [|done|by split_and!; try apply Hb]. revert Hstep.
  unfold acceptreq; cbn [aa_n aa_v]. destruct (prop_ge n (n_h a)) eqn:Hge; simpl; intros [es' Hd'].
  - destruct Hok as (Hok1 & Hok2 & Hok3).
    assert (n = n_h a) as En by (apply prop_ge_antisym; [done|by eapply Hok1]).
    set (m := MAccepted q (AcceptArg inst n v) true).
    assert (forall q' n' v', voted (m :: msgs s) q' n' v' -> voted (msgs s) q' n' v'
      \/ (q' = q /\ n' = n /\ v' = v)) as Hv.
    { unfold voted, m. intros ??? [E|?]%elem_of_cons; [|by left]. injection E as -> -> ->. by right. }
    assert (forall q' n' r, promised (m :: msgs s) q' n' r -> promised (msgs s) q' n' r) as Hp.
    { by intros ??? [[?|?]%elem_of_cons ?]; [|split]. }
    apply inv_reply; try done.
    + split; [apply sub_cons|]. intros q' k w n' r' H1 H2.
      destruct (Hv _ _ _ H1) as [?|(-> & -> & ->)]; [by left|right]. rewrite En. by eapply Hok1.
    + split; [done|]. intros _. exists q. by right.
    + intros n' v' [q' [?|?]%elem_of_cons]; [done|by exists q'].
    + intros q' n' r' H. left. by apply Hp.
    + intros q' n' v' H. destruct (Hv _ _ _ H) as [?|(-> & _)]; auto.
    + split; [by eexists|left]. split; [done|]. split_and!; simpl.
      * intros n' r' H. by eapply Hok1, Hp.
      * intros n' v' H. destruct (Hv _ _ _ H) as [H'|(_ & -> & _)]; [|apply prop_ge_refl].
        apply Hok2 in H' as Hge'. apply (voted_pos s I) in H'.
        destruct Hok3 as [[Hz _]|[_ Hna]]; [apply prop_ge_pos in Hge'; [lia|done]|].
        rewrite En. by eapply prop_ge_trans.
      * right. split; [by left|]. rewrite En. apply prop_ge_refl.
  - apply inv_reply_silent; [done|done|by split|]. apply acc_inv_silent; [done|].
    split; [by eexists|by left].
Qed.

(** [commit_wo] of a chosen value. *)
Lemma acc_inv_commit s q a n v :
  is_u32 inst -> inv s -> acc_inv (msgs s) q a -> chosen (msgs s) n v ->
  acc_inv (msgs s) q (commit_wo a inst v).1.
Proof.
  intros Hinst I [[es Hd] Ha] Hc. destruct (chosen_line s I _ _ Hc) as [_ Hl].
  destruct (durable_commit a es inst v Hd Hinst Hl) as [es' Hd'].
  split; [by eexists|]. revert Hd'. unfold commit_wo. destruct Ha as [[Hi _]|[Hi Hch]].
  - assert ((inst >? instance_h a) = true) as -> by lia. intros _. right. split; [done|].
    exists n. unfold value_of; simpl. by rewrite lookup_insert_eq.
  - assert ((inst >? instance_h a) = false) as -> by lia. intros _. by right.
Qed.

(** [decidereq]: the assertion that the value decided is the one accepted holds. *)
Lemma inv_deliver_decide s q arg a :
  is_u32 inst -> inv s -> MDecide q arg ∈ msgs s -> accs s !! q = Some a ->
  exists a' ups, decidereq a arg = Ret (a', ups, paxos_protocol.OK) /\ acc_inv (msgs s) q a'.
Proof.
  intros Hinst I Hm Ha. pose proof (inv_msgs s I _ Hm) as (Earg & n & Hc & Hv).
  destruct arg as [i v]; simpl in *. subst i. unfold decidereq; cbn [da_instance da_v].
  pose proof (inv_accs s I _ _ Ha) as Hainv. pose proof Hainv as [[es Hd] [[Hi Hok]|[Hi Hch]]].
  - assert ((inst =? u32 (instance_h a + 1)) = true) as ->.
    { rewrite Hi, Z.sub_add, u32_id by done. apply Z.eqb_refl. }
    assert (v_a a = v) as Ev.
    { destruct Hok as (_ & Hok2 & [[Hz _]|[Hva _]]).
      - apply Hok2 in Hv as Hge. apply (voted_pos s I) in Hv. apply prop_ge_pos in Hge; [lia|done].
      - symmetry. eapply (chosen_proposed_eq s I); [done| |by eapply Hok2].
        by eapply (voted_proposed s I). }
    rewrite Ev, str_eqb_refl. simpl. pose proof (acc_inv_commit s q a n v Hinst I Hainv Hc) as H.
    destruct (commit_wo a inst v) as [a' ups]. by exists a', ups.
  - assert ((inst =? u32 (instance_h a + 1)) = false) as -> by (rewrite Hi; width_lia).
    assert ((inst <=? instance_h a) = true) as -> by lia. by exists a, [].
Qed.

(** A restart from the log. *)
Lemma inv_reboot s q a a' :
  inv s -> accs s !! q = Some a ->
  acceptor_new (acc_cfg a) false (acc_me a) [] (logfile a) = Ret a' -> acc_inv (msgs s) q a'.
Proof.
  intros I Ha Hn. pose proof (inv_accs s I _ _ Ha) as [[es Hd] Hinv].
  destruct (acceptor_new_recovers a es false []) as (a2 & E & Heq & Hlog); [done|done|].
  rewrite E in Hn. injection Hn as <-.
  split; [exists es; by eapply durable_same|].
  destruct Heq as (_ & _ & Hnh & Hna & Hva & Hih & Hval).
  destruct Hinv as [[Hi (H1 & H2 & H3)]|[Hi Hc]]; [left|right]; (split; [congruence|]).
  - assert (forall p x y, x ≡ y -> 0 < prop_n p -> prop_ge y p = true -> prop_ge x p = true) as Hge.
    { intros p [] [] [E1 E2] Hpos Hp; simpl in *. subst.
      pose proof (prop_ge_pos _ _ Hp Hpos); simpl in *. by rewrite E2 by lia. }
    split_and!.
    + intros n r H. eapply Hge; [done| |by eapply H1].
      by destruct (promised_ballot s I _ _ _ H) as [? _].
    + intros n v H. eapply Hge; [done|by eapply (voted_pos s I)|by eapply H2].
    + destruct H3 as [[Hz Hv]|[Hv Hg]]; [left|right].
      * split; [|congruence]. destruct Hna. congruence.
      * apply (voted_pos s I) in Hv as Hpos.
        assert (n_a a2 = n_a a) as ->.
        { destruct Hna as [En Em], (n_a a2), (n_a a); simpl in *. subst. by rewrite Em by lia. }
        rewrite Hva. split; [done|]. by eapply Hge.
  - destruct Hc as [n Hc]. exists n. by rewrite Hval.
Qed.

(** *** Threads *)

Lemma inv_start s p t a newv :
  is_u32 inst -> inv s -> pts s !! p = Some t -> newv <> [] -> is_line newv ->
  is_u32 (prop_n (n_h a) + 1) -> is_u32 (prop_n (my_n (pt_prop t)) + 1) ->
  inv (set_pt s p (start t (n_h a) inst ns newv)).
Proof.
  intros Hinst I Ht Hne Hl Hu1 Hu2. destruct (inv_pts s I p t Ht) as (Hw & Em & Hu & Hph).
  unfold start. destruct (stable (pt_prop t)); simpl.
  2:{ by eapply inv_set_pt. }
  pose proof (setn_fresh (set_stable (pt_prop t) false) (n_h a) Hu1 Hu2) as Hn.
  set (pr := setn _ _) in *. assert (prop_m (my_n pr) = p) as Em' by done.
  cbn [my_n set_stable] in Hn. clearbody pr.
  eapply inv_set_pt; [done|done|simpl; lia|]. split_and!; try done; simpl.
  - rewrite Hn. width_lia.
  - unfold phase_ok, thread_run; simpl. rewrite u32_id by done. split_and!; try done.
    + width_lia.
    + intros v ((_ & _ & t0 & Ht0 & Hle) & _)%(proposed_ok s I).
      rewrite Em' in Ht0. assert (t0 = t) as -> by congruence. lia.
    + split; simpl; [|by left]. intros q H. by apply not_elem_of_nil in H.
Qed.

Lemma inv_skip s p t t' :
  inv s -> pts s !! p = Some t -> skip_call t = Some t' -> inv (set_pt s p t').
Proof.
  intros I Ht Hs. destruct (inv_pts s I p t Ht) as (Hw & Em & Hu & Hph).
  unfold skip_call, phase_ok in *. repeat case_match; simplify_eq;
    (eapply inv_set_pt; [done|done|done|]); split_and!; try done.
  - unfold phase_ok; simpl. destruct Hph as (? & ? & ? & ? & ? & Htodo & ?).
    split_and!; try done. intros. apply Htodo. by right.
  - unfold phase_ok; simpl. destruct Hph as (? & k & ? & Hv). split; [done|]. exists k.
    split; [done|]. intros. apply Hv. by right.
Qed.

Lemma inv_end_phase s p t t' :
  inv s -> pts s !! p = Some t -> end_phase t = Some t' -> inv (set_pt s p t').
Proof.
  intros I Ht He. destruct (inv_pts s I p t Ht) as (Hw & Em & Hu & Hph).
  unfold end_phase in He. unfold phase_ok in Hph.
  destruct (pt_phase t) as [|[|] sp|v [|] accepts|v [|]|] eqn:Eph; try done;
    injection He as <-; repeat case_match;
    (eapply inv_set_pt; [done|done|done|]); split_and!; try done;
    unfold phase_ok; simpl.
  - destruct Hph as (Hrun & Hnp & Hc). pose proof Hrun as (_ & Hns & Hnv & Hnl & _).
    rewrite Hns in *.
    destruct (collected_safe s I _ sp Hc) with (newv := pt_newv t) as (? & ? & ?); try done.
    split_and!; try done.
    + intros v' Hv'. by destruct (Hnp v').
    + intros q Hq. destruct (proj1 Hc q Hq) as (r & ? & _). by exists r.
    + intros q Hq. by apply not_elem_of_nil in Hq.
  - destruct Hph as (Hrun & _ & _ & _ & _ & _ & Hacc). split; [done|].
    pose proof Hrun as (_ & Hns & _). rewrite Hns in *.
    exists (my_n (pt_prop t)). split; [|done]. by exists accepts.
Qed.

(** One more promise. *)
Lemma collected_reply s n q r sp sp' :
  inv s -> MPromise q (PrepareArg inst n) r ∈ msgs s -> collected (msgs s) n sp ->
  prepare_reply q paxos_protocol.OK r sp = inl sp' -> collected (msgs s) n sp'.
Proof.
  intros I Hm [H1 H2] Hr. unfold prepare_reply in Hr. simpl in Hr.
  destruct (pr_oldinstance r); [done|]. destruct (pr_accept r) eqn:Ea; [|by injection Hr as <-].
  assert (promised (msgs s) q n r) as Hp by done.
  destruct (prop_gt (pr_n_a r) (p_highest sp)) eqn:Hgt; injection Hr as <-; split; simpl.
  - intros q' [Hq|Hq]%elem_of_app.
    + destruct (H1 q' Hq) as (r' & Hr' & [?|Hle]); exists r'; (split; [done|]); [by left|right].
      eapply prop_ge_trans; [|done]. by apply prop_gt_ge.
    + apply list_elem_of_singleton in Hq as ->. exists r. split; [done|right]. apply prop_ge_refl.
  - destruct (Z.eq_dec (prop_n (pr_n_a r)) 0) as [Hz|Hz]; [left|right; by exists q, r].
    split; [done|]. destruct (inv_reports s I _ _ _ Hp) as [(_ & ? & _)|(Hv & _)]; [done|].
    apply (voted_pos s I) in Hv. lia.
  - intros q' [Hq|Hq]%elem_of_app; [by apply H1|].
    apply list_elem_of_singleton in Hq as ->. exists r. split; [done|right].
    by rewrite prop_ge_gt, Hgt.
  - done.
Qed.

Lemma inv_take_reply s p t m t' c :
  inv s -> pts s !! p = Some t -> m ∈ msgs s -> take_reply t m = Some (t', c) ->
  inv (set_pt s p t') /\ (forall v, c = Some v -> pt_instance t = inst /\ exists n, chosen (msgs s) n v).
Proof.
  intros I Ht Hm Hr. destruct (inv_pts s I p t Ht) as (Hw & Em & Hu & Hph).
  unfold take_reply in Hr. unfold phase_ok in Hph.
  destruct (pt_phase t) as [|[|q todo] sp|v [|q todo] accepts|v todo|] eqn:Eph; try done;
    destruct m as [|q' arg r| |q' arg r|]; try done; case_bool_decide as E; try done;
    destruct E as [-> ->].
  - destruct Hph as (Hrun & Hnp & Hc). pose proof Hrun as (Ei & _). rewrite Ei in Hm.
    destruct (prepare_reply q _ r sp) as [sp'|v] eqn:Er; injection Hr as <- <-.
    + split; [|done]. eapply inv_set_pt; [done|done|done|]. split_and!; try done.
      unfold phase_ok; simpl. split_and!; try done. by eapply collected_reply.
    + split; [by eapply inv_set_pt|]. intros ? [= <-]. split; [done|].
      unfold prepare_reply in Er. simpl in Er. repeat case_match; simplify_eq.
      apply (inv_msgs s I) in Hm as (_ & _ & Hold). by apply Hold.
  - injection Hr as <- <-. split; [|done]. eapply inv_set_pt; [done|done|done|].
    destruct Hph as (Hrun & ? & ? & ? & ? & Htodo & Hacc). pose proof Hrun as (Ei & _).
    rewrite Ei in Hm. split_and!; try done. unfold phase_ok; simpl. split_and!; try done.
    + intros q' Hq'. apply Htodo. by right.
    + unfold accept_reply. simpl. destruct r; [|done].
      intros q' [Hq|Hq]%elem_of_app; [by apply Hacc|]. by apply list_elem_of_singleton in Hq as ->.
Qed.

(** *** Every schedule *)

Lemma inv_initial s : initial s -> inv s.
Proof.
  intros (Hm & Ha & Ht). split; rewrite ?Hm.
  - intros m H. by apply not_elem_of_nil in H.
  - intros q n r [H _]. by apply not_elem_of_nil in H.
  - intros n v v' [q H]. by apply not_elem_of_nil in H.
  - intros q a H. destruct (Ha q a H) as (? & Hnh & Hna & Hva & Hd). split; [done|left].
    split; [done|]. split_and!; [..|by left].
    + intros n r [Hx _]. by apply not_elem_of_nil in Hx.
    + intros n v Hx. by apply not_elem_of_nil in Hx.
  - intros p t H. destruct (Ht p t H) as (? & ? & ? & Hph). split_and!; try done.
    unfold phase_ok. by rewrite Hph.
Qed.

Lemma inv_call s p t m :
  inv s -> pts s !! p = Some t -> next_call t = Some m -> inv (send s m).
Proof.
  intros I Ht Hn. pose proof (inv_pts s I p t Ht) as (Hw & Em & Hu & Hph).
  unfold next_call in Hn. unfold phase_ok in Hph.
  destruct (pt_phase t) as [|[|q todo] sp|v [|q todo] accepts|v [|q todo]|] eqn:Eph; try done;
    injection Hn as <-.
  - destruct Hph as ((Hi & _ & _ & _ & Hpos) & _). apply inv_send_silent; [done|done|]. simpl.
    split; [done|]. unfold ballot_ok, prop_loggable. rewrite Em. split_and!; try done. by exists t.
  - by eapply inv_send_accept.
  - destruct Hph as ((Hi & _) & k & Hc & Hv). apply inv_send_silent; [done|done|]. simpl.
    split; [done|]. exists k. split; [eapply chosen_mono, Hc|eapply voted_mono, Hv; [|by left]];
      apply sub_cons.
Qed.

Lemma exec_inv s act o :
  is_u32 inst -> inv s -> timely s act -> exec s act = Some o ->
  exists s', o = Ret s' /\ inv s'.
Proof.
  intros Hinst I Ht He. destruct act as [p i nodes newv|p|p|p m|p|m r0|q]; simpl in He.
  - destruct Ht as (-> & -> & Hne & Hl & Hw).
    destruct (pts s !! p) as [t|] eqn:Et; [|done]. destruct (accs s !! p) as [a|] eqn:Ea; [|done].
    injection He as <-. eexists; split; [done|]. destruct Hw. by apply inv_start.
  - destruct (pts s !! p) as [t|] eqn:Et; [|done]. simpl in He.
    destruct (next_call t) as [m|] eqn:En; [|done]. injection He as <-.
    eexists; split; [done|]. by eapply inv_call.
  - destruct (pts s !! p) as [t|] eqn:Et; [|done]. simpl in He.
    destruct (skip_call t) as [t'|] eqn:En; [|done]. injection He as <-.
    eexists; split; [done|]. by eapply inv_skip.
  - case_bool_decide as Hm; [|done]. destruct (pts s !! p) as [t|] eqn:Et; [|done]. simpl in He.
    destruct (take_reply t m) as [[t' c]|] eqn:Er; [|done]. simpl in He.
    destruct (inv_take_reply s p t m t' c) as [I' Hc]; try done.
    destruct c as [v|]; [|injection He as <-; by eexists].
    destruct (accs s !! p) as [a|] eqn:Ea; [|done]. injection He as <-.
    destruct (Hc v eq_refl) as [-> [n Hch]]. eexists; split; [done|].
    apply inv_set_acc; [done|]. simpl. eapply acc_inv_commit; [done|done| |done].
    by apply (inv_accs s I).
  - destruct (pts s !! p) as [t|] eqn:Et; [|done]. simpl in He.
    destruct (end_phase t) as [t'|] eqn:En; [|done]. injection He as <-.
    eexists; split; [done|]. by eapply inv_end_phase.
  - case_bool_decide as Hm; [|done].
    destruct m as [q arg| |q arg| |q arg]; simpl in He, Ht; try done;
      (destruct (accs s !! q) as [a|] eqn:Ea; [|done]); simpl in He.
    + pose proof (inv_deliver_prepare s q arg r0 a I Hm Ea) as H.
      destruct (preparereq a arg r0) as [[a' r] st]. injection He as <-. by eexists.
    + pose proof (inv_deliver_accept s q arg a I Hm Ea Ht) as H.
      destruct (acceptreq a arg) as [[a' r] st]. injection He as <-. by eexists.
    + destruct (inv_deliver_decide s q arg a Hinst I Hm Ea) as (a' & ups & E & H).
      rewrite E in He. injection He as <-. eexists; split; [done|]. by apply inv_set_acc.
  - destruct (accs s !! q) as [a|] eqn:Ea; [|done]. injection He as <-.
    pose proof (inv_accs s I _ _ Ea) as [[es Hd] _].
    destruct (acceptor_new_recovers a es false []) as (a' & E & _); [done|done|].
    rewrite E. eexists; split; [done|]. apply inv_set_acc; [done|]. by eapply inv_reboot.
Qed.

Lemma reachable_inv s : is_u32 inst -> reachable s -> inv s.
Proof.
  intros Hinst (s0 & H0 & Hr). apply inv_initial in H0. induction Hr as [|s1 s2 s3 Hs _ IH]; [done|].
  apply IH. destruct Hs as (act & Ht & He). destruct (exec_inv s1 act _ Hinst H0 Ht He) as (s' & E & ?).
  by injection E as ->.
Qed.

(** Run a schedule of timely actions. *)
Fixpoint run_timely (s : sys) (acts : list action) : option sys :=
  match acts with
  | [] => Some s
  | act :: acts =>
      if bool_decide (timely s act) then
        match exec s act with Some (Ret s') => run_timely s' acts | _ => None end
      else None
  end.
Lemma run_timely_steps s acts s' : run_timely s acts = Some s' -> rtc step s s'.
Proof.
  revert s. induction acts as [|act acts IH]; simpl; intros s H; [by injection H as ->|].
  case_bool_decide; [|done]. destruct (exec s act) as [[s1|]|] eqn:E; try done.
  eapply rtc_l; [by exists act|]. by apply IH.
Qed.
End agreement.

(** Run any schedule. *)
Fixpoint run_schedule (s : sys) (acts : list action) : option (outcome sys) :=
  match acts with
  | [] => Some (Ret s)
  | act :: acts =>
      match exec s act with Some (Ret s') => run_schedule s' acts | r => r end
  end.

(** * Properties *)

(** C1 (agreement): in every schedule of calls, losses, delays, duplications, lost
    replies and restarts of acceptors in which every accept request reaches its acceptor
    before that has decided the instance, and the proposers propose lines for it to the
    same nodes without a wrap-around of the counters ([timely]), two acceptors that
    have decided the instance have decided the same value, and it is a value a majority
    accepted in one ballot.  Without that proviso it is false
    ([schedules.stale_accept_disagrees]). *)
Theorem paxos_agreement inst ns s :
  is_u32 inst -> reachable inst ns s ->
  forall q a q' a', accs s !! q = Some a -> accs s !! q' = Some a' ->
    inst <= instance_h a -> inst <= instance_h a' ->
    value_of a inst = value_of a' inst
    /\ exists n, chosen inst ns (msgs s) n (value_of a inst).
Proof.
  intros Hinst Hr q a q' a' Ha Ha' Hi Hi'. pose proof (reachable_inv _ _ _ Hinst Hr) as I.
  destruct (inv_accs _ _ _ I _ _ Ha) as [_ [[? _]|[_ [n Hc]]]]; [lia|].
  destruct (inv_accs _ _ _ I _ _ Ha') as [_ [[? _]|[_ [n' Hc']]]]; [lia|].
  split; [by eapply chosen_agree|by exists n].
Qed.

(** C2 (no abort): no timely action makes a process fail an assertion: the value a
    [decidereq] carries is the one the acceptor accepted, no acceptor is behind the
    instance decided, and every log reads back. *)
Theorem paxos_never_aborts inst ns s act :
  is_u32 inst -> reachable inst ns s -> timely inst ns s act ->
  forall f, exec s act <> Some (Fault f).
Proof.
  intros Hinst Hr Ht f He. pose proof (reachable_inv _ _ _ Hinst Hr) as I.
  by destruct (exec_inv _ _ _ _ _ Hinst I Ht He) as (? & ? & _).
Qed.

(** ** Schedules *)

Module schedules.
Definition A : cstring := cs "4001".
Definition B : cstring := cs "4002".
Definition C : cstring := cs "4003".
Definition nodes : list cstring := [A; B; C].
Definition v1 : cstring := cs "1 4001 4002 4003".
Definition v2 : cstring := cs "2 4001 4002".
Definition w3 : cstring := cs "3 4001 4002 4003".
Definition r0 : prepareres := PrepareRes false false (Prop_t 0 []) [].

(** A node that has decided instance 1. *)
Definition node (me : cstring) : acceptor :=
  Acceptor false me (Prop_t 0 me) (Prop_t 0 me) [] 1 {[1 := v1]} (done_line 1 v1).
Definition thread (me : cstring) : pthread := Pthread (proposer_new me) 0 [] [] Idle.
Definition s0 : sys :=
  Sys (list_to_map ((fun m => (m, node m)) <$> nodes))
      (list_to_map ((fun m => (m, thread m)) <$> nodes)) [].

(** One prepare, accept or decide call that succeeds. *)
Definition prepare_ok (p q : cstring) (i : Z) (n : prop_t) (r : prepareres) : list action :=
  [ACall p; ADeliver (MPrepare q (PrepareArg i n)) r0; AReply p (MPromise q (PrepareArg i n) r)].
Definition accept_ok (p q : cstring) (i : Z) (n : prop_t) (v : cstring) : list action :=
  [ACall p; ADeliver (MAccept q (AcceptArg i n v)) r0;
   AReply p (MAccepted q (AcceptArg i n v) true)].
Definition decide_ok (p q : cstring) (i : Z) (v : cstring) : list action :=
  [ACall p; ADeliver (MDecide q (DecideArg i v)) r0; ASkip p].
Definition none (q : cstring) : prepareres := PrepareRes false true (Prop_t 0 q) [].

(** 4001 gets [v2] accepted by itself and 4002, which crashes before it hears the
    decision; 4003 proposes another value and finds [v2]. *)
Definition n1 : prop_t := Prop_t 1 A.
Definition n2 : prop_t := Prop_t 2 C.
Definition recovery : list action :=
  [AStart A 2 nodes v2]
  ++ prepare_ok A A 2 n1 (none A) ++ prepare_ok A B 2 n1 (none B) ++ [ASkip A; APhase A]
  ++ accept_ok A A 2 n1 v2 ++ accept_ok A B 2 n1 v2 ++ [APhase A] ++ decide_ok A A 2 v2
  ++ [AReboot B; AStart C 2 nodes w3; ASkip C; ASkip C; ASkip C; APhase C;
      AStart C 2 nodes w3; ASkip C]
  ++ prepare_ok C B 2 n2 (PrepareRes false true n1 v2)
  ++ prepare_ok C C 2 n2 (none C) ++ [APhase C]
  ++ accept_ok C B 2 n2 v2 ++ accept_ok C C 2 n2 v2 ++ [APhase C]
  ++ decide_ok C B 2 v2 ++ decide_ok C C 2 v2 ++ [AReboot C].
Definition recovered : sys := default s0 (run_timely 2 nodes s0 recovery).

Lemma node_durable m : m ∈ nodes -> durable (node m) [EDone 1 v1].
Proof.
  intros Hm. split_and!; [done|repeat constructor; by_computing|].
  by unfold equiv, acceptor_equiv; split_and!.
Qed.
Lemma s0_initial : initial 2 s0.
Proof.
  assert (forall {X} (f : cstring -> X) q x,
    (list_to_map ((fun m => (m, f m)) <$> nodes) : gmap cstring X) !! q = Some x ->
    q ∈ nodes /\ x = f q) as Hl.
  { intros X f q x H. apply elem_of_list_to_map_2 in H.
    apply list_elem_of_fmap in H as (m & E & Hm). by injection E as -> ->. }
  split_and!; [done| |].
  - intros q a [Hq ->]%Hl. split_and!; try done. exists [EDone 1 v1]. by apply node_durable.
  - intros p t [Hp ->]%Hl. split_and!; try done; simpl; try lia.
    assert (Forall is_word nodes) as Hw by by_computing.
    by eapply Forall_forall in Hw.
Qed.
Lemma recovered_run : run_timely 2 nodes s0 recovery = Some recovered.
Proof. vm_compute. reflexivity. Qed.
Lemma recovered_reachable : reachable 2 nodes recovered.
Proof. exists s0. split; [apply s0_initial|]. eapply run_timely_steps, recovered_run. Qed.

Lemma paxos_agreement_witness :
  exists a c, accs recovered !! A = Some a /\ accs recovered !! C = Some c
    /\ value_of a 2 = v2 /\ value_of a 2 = value_of c 2.
Proof.
  destruct (accs recovered !! A) as [a|] eqn:Ea; [|by vm_compute in Ea].
  destruct (accs recovered !! C) as [c|] eqn:Ec; [|by vm_compute in Ec].
  exists a, c. split; [done|]. split; [done|]. split.
  - apply (f_equal (fun o => match o with Some x => value_of x 2 | None => [] end)) in Ea.
    rewrite <- Ea. by vm_compute.
  - eapply (paxos_agreement 2 nodes recovered); [by_computing|apply recovered_reachable|
      exact Ea|exact Ec|..].
    + apply (f_equal (fun o => match o with Some x => instance_h x | None => 0 end)) in Ea.
      rewrite <- Ea. by vm_compute.
    + apply (f_equal (fun o => match o with Some x => instance_h x | None => 0 end)) in Ec.
      rewrite <- Ec. by vm_compute.
Defined.

Lemma paxos_never_aborts_witness :
  exec recovered (ADeliver (MDecide B (DecideArg 2 v2)) r0) <> Some (Fault AssertFail).
Proof.
  apply (paxos_never_aborts 2 nodes recovered);
    [by_computing|apply recovered_reachable|exact I].
Defined.

(** In instance 2 an accept request from 4001 to 4003 is delayed.  In instance 3,
    4002 gets [w3] accepted by itself and 4003 and decides it; then the delayed request
    reaches 4003, which takes it for a proposal of instance 3. *)
Definition nA2 : prop_t := Prop_t 2 A.
Definition nC3 : prop_t := Prop_t 3 C.
Definition nB1 : prop_t := Prop_t 1 B.
Definition nA3 : prop_t := Prop_t 3 A.
Definition stale_accept : list action :=
  [AStart A 2 nodes v2; ASkip A; ASkip A; ASkip A; APhase A; AStart A 2 nodes v2]
  ++ prepare_ok A A 2 nA2 (none A) ++ prepare_ok A B 2 nA2 (none B)
  ++ prepare_ok A C 2 nA2 (none C) ++ [APhase A]
  ++ accept_ok A A 2 nA2 v2 ++ accept_ok A B 2 nA2 v2
  ++ [ACall A; ASkip A; APhase A] ++ decide_ok A A 2 v2 ++ decide_ok A B 2 v2 ++ [APhase A]
  ++ [AStart C 2 nodes v2] ++ prepare_ok C A 2 nC3 (PrepareRes true false (Prop_t 0 []) v2)
  ++ [AStart B 3 nodes w3]
  ++ prepare_ok B A 3 nB1 (none A) ++ prepare_ok B B 3 nB1 (none B)
  ++ prepare_ok B C 3 nB1 (none C) ++ [APhase B; ASkip B]
  ++ accept_ok B B 3 nB1 w3 ++ accept_ok B C 3 nB1 w3 ++ [APhase B] ++ decide_ok B B 3 w3
  ++ [ADeliver (MAccept C (AcceptArg 2 nA2 v2)) r0]
  ++ [AStart A 3 nodes w3] ++ prepare_ok A A 3 nA3 (none A) ++ [ASkip A]
  ++ prepare_ok A C 3 nA3 (PrepareRes false true nA2 v2) ++ [APhase A]
  ++ accept_ok A A 3 nA3 v2 ++ accept_ok A C 3 nA3 v2 ++ [APhase A] ++ decide_ok A A 3 v2.

(** C35 (stale accepts): [acceptreq] does not look at the instance of a request, so
    without the timeliness of accept requests agreement is lost: after one delayed
    accept of instance 2, nodes 4001 and 4002 decide different values of instance 3. *)
Theorem stale_accept_disagrees :
  exists s a b, run_schedule s0 stale_accept = Some (Ret s)
    /\ accs s !! A = Some a /\ accs s !! B = Some b
    /\ instance_h a = 3 /\ instance_h b = 3 /\ value_of a 3 = v2 /\ value_of b 3 = w3.
Proof. do 3 eexists. split; [by vm_compute|]. by vm_compute. Qed.
End schedules.
