(* ===== verification/PaxosLive.v ===== *)
(** A proposer alone: paxos.cc with its proposer, the acceptors and the calls between them, in
    the case that gives Paxos its progress.  The nodes of [up] answer every call, the others
    none; nobody else proposes.  [run] of [Proposer] is then applied to the handlers of
    [Acceptor]. *)
From Stdlib Require Import ZArith Lia Ascii String.
From stdpp Require Import base gmap list strings.
From S2P Require Import Prelude TextIO Protocols PaxosLog Acceptor Proposer.
Local Open Scope Z_scope.

(** * The nodes *)

Definition world : Type := cstring -> acceptor.
Definition upd (w : world) (x : cstring) (a : acceptor) : world :=
  fun y => if str_eqb y x then a else w y.

Section calls.
  Context (up : cstring -> bool) (me : cstring).

(** A call to a node that is up runs its handler and brings the reply back. *)
Definition call_prepare (w : world) (node : cstring) (args : preparearg) (r : prepareres)
    : world * option (Z * prepareres) :=
  if up node then
    let '(a, res, ret) := preparereq (w node) args r in (upd w node a, Some (ret, res))
  else (w, None).
Definition call_accept (w : world) (node : cstring) (args : acceptarg) (r : bool)
    : world * option (Z * bool) :=
  if up node then
    let '(a, res, ret) := acceptreq (w node) args in (upd w node a, Some (ret, res))
  else (w, None).
(** A node that fails an assertion is gone; its state stays as it was. *)
Definition call_decide (w : world) (node : cstring) (args : decidearg) : world * option Z :=
  if up node then
    match decidereq (w node) args with
    | Ret (a, _, ret) => (upd w node a, Some ret)
    | Fault _ => (w, None)
    end
  else (w, None).
Definition commit_here (w : world) (instance : Z) (v : cstring) : world :=
  upd w me (commit (w me) instance v).1.
Definition n_h_here (w : world) : prop_t := n_h (w me).

Definition run_here := phases.run call_prepare call_accept call_decide commit_here n_h_here.

(** * The phases *)

Lemma world_upd_same w x a : upd w x a x = a.
Proof. unfold upd. by rewrite str_eqb_refl. Qed.
Lemma world_upd_other w x a y : y <> x -> upd w x a y = w y.
Proof. intros Hn. unfold upd. by rewrite (proj2 (str_eqb_neq y x)). Qed.

(** What a node is after it promised [n], after it accepted [v] for it and after it learnt
    that [v] was chosen. *)
Definition promised (n : prop_t) (a : acceptor) : acceptor := logprop (set_n_h a n) n.
Definition accepted (n : prop_t) (v : cstring) (a : acceptor) : acceptor :=
  logaccept (set_accepted a n v) n v.

(** [f] was applied to the nodes of [l] that are up, and to no other. *)
Definition applied (f : acceptor -> acceptor) (l : list cstring) (w w' : world) : Prop :=
  (forall x, x ∈ l -> up x = true -> w' x = f (w x)) /\
  (forall x, x ∉ l \/ up x = false -> w' x = w x).

Lemma applied_nil f w : applied f [] w w.
Proof. split; [by intros x ?%elem_of_nil|done]. Qed.
Lemma applied_skip f x l w w' : up x = false -> applied f l w w' -> applied f (x :: l) w w'.
Proof.
  intros Hx [H1 H2]. split.
  - intros y [->|Hy]%elem_of_cons Hup; [congruence|auto].
  - intros y [Hy|Hy]; apply H2; [left; contradict Hy; by right|by right].
Qed.
Lemma applied_cons f x l w w' :
  up x = true -> x ∉ l -> applied f l (upd w x (f (w x))) w' -> applied f (x :: l) w w'.
Proof.
  intros Hx Hn [H1 H2]. split.
  - intros y Hy Hup. destruct (decide (y = x)) as [->|Hne].
    + rewrite H2 by by left. apply world_upd_same.
    + apply elem_of_cons in Hy as [|Hy]; [done|]. by rewrite H1, world_upd_other.
  - intros y Hy. assert (y <> x) by (intros ->; destruct Hy; [set_solver|congruence]).
    rewrite H2, world_upd_other; [done|done|]. destruct Hy; [left; set_solver|by right].
Qed.

(** A node that can be counted on for instance [i] and number [n]. *)
Definition ready (i : Z) (n : prop_t) (a : acceptor) : Prop :=
  instance_h a < i /\ prop_gt n (n_h a) = true.

Lemma preparereq_ready i n a r :
  ready i n a ->
  preparereq a (PrepareArg i n) r =
  (promised n a, PrepareRes false true (n_a a) (v_a a), paxos_protocol.OK).
Proof.
  intros [Hi Hn]. unfold preparereq. cbn [pa_instance pa_n].
  rewrite Z.geb_leb, (proj2 (Z.leb_gt _ _)), Hn by lia. done.
Qed.

Lemma prepare_loop_ok i n nodes : forall w r s,
  NoDup nodes -> (forall x, x ∈ nodes -> up x = true -> ready i n (w x)) ->
  exists w' s',
    phases.prepare_loop call_prepare commit_here w (PrepareArg i n) nodes r s = (w', Some s') /\
    applied (promised n) nodes w w' /\
    p_accepts s' = p_accepts s ++ List.filter up nodes /\
    ((forall x, x ∈ nodes -> up x = true -> v_a (w x) = []) -> p_v s = [] -> p_v s' = []).
Proof.
  induction nodes as [|x nodes IH]; intros w r s Hnd Hr; simpl.
  - exists w, s. split; [done|]. split; [apply applied_nil|]. by rewrite app_nil_r.
  - apply NoDup_cons in Hnd as [Hx Hnd]. unfold call_prepare at 1. destruct (up x) eqn:Hup.
    + rewrite preparereq_ready by (apply Hr; [by left|done]).
      unfold prepare_reply. simpl.
      destruct (if prop_gt _ _ then _ else _) as [h v] eqn:Ehv.
      assert (Hkeep : forall y, y ∈ nodes -> upd w x (promised n (w x)) y = w y).
      { intros y Hy. apply world_upd_other. by intros ->. }
      destruct (IH (upd w x (promised n (w x))) (PrepareRes false true (n_a (w x)) (v_a (w x)))
        (Prep h v (p_accepts s ++ [x])) Hnd) as (w' & s' & E & Ha & Hac & Hv).
      { intros y Hy. rewrite Hkeep by done. apply Hr. by right. }
      exists w', s'. split; [done|]. split; [by apply applied_cons|].
      split; [rewrite Hac; simpl; by rewrite <- app_assoc|]. intros Hall Hs. apply Hv; simpl.
      * intros y Hy. rewrite Hkeep by done. apply Hall. by right.
      * destruct (prop_gt _ _); injection Ehv as _ <-; [apply Hall; [by left|done]|done].
    + destruct (IH w r s Hnd) as (w' & s' & E & Ha & Hac & Hv).
      { intros y Hy. apply Hr. by right. }
      exists w', s'. split; [done|]. split; [by apply applied_skip|]. split; [done|].
      intros Hall. apply Hv. intros y Hy. apply Hall. by right.
Qed.

Lemma accept_loop_ok i n v nodes : forall w b acc,
  NoDup nodes -> (forall x, x ∈ nodes -> up x = true /\ prop_ge n (n_h (w x)) = true) ->
  exists w', phases.accept_loop call_accept w (AcceptArg i n v) nodes b acc = (w', acc ++ nodes) /\
    applied (accepted n v) nodes w w'.
Proof.
  induction nodes as [|x nodes IH]; intros w b acc Hnd Hall; simpl.
  - exists w. rewrite app_nil_r. split; [done|apply applied_nil].
  - apply NoDup_cons in Hnd as [Hx Hnd]. destruct (Hall x) as [Hup Hn]; [by left|].
    unfold call_accept at 1, acceptreq. rewrite Hup. cbn [aa_n aa_v]. rewrite Hn.
    unfold accept_reply. simpl.
    destruct (IH (upd w x (accepted n v (w x))) true (acc ++ [x]) Hnd) as (w' & E & Ha).
    { intros y Hy. rewrite world_upd_other by (by intros ->). apply Hall. by right. }
    exists w'. rewrite <- app_assoc in E. split; [exact E|by apply applied_cons].
Qed.

(** A node that accepted [v] for the instance it is at learns that it was chosen. *)
Lemma decidereq_accepted i v a :
  is_u32 (instance_h a + 1) -> i = instance_h a + 1 -> v_a a = v ->
  exists ups, decidereq a (DecideArg i v) = Ret ((commit_wo a i v).1, ups, paxos_protocol.OK).
Proof.
  intros Hu -> Hv. unfold decidereq. cbn [da_instance da_v]. rewrite u32_id by done.
  rewrite Z.eqb_refl, Hv, str_eqb_refl. simpl. destruct (commit_wo _ _ _) as [a' ups]. eauto.
Qed.

Lemma decide_ok i v nodes : forall w,
  NoDup nodes ->
  (forall x, x ∈ nodes -> up x = true /\ is_u32 (instance_h (w x) + 1) /\
     i = instance_h (w x) + 1 /\ v_a (w x) = v) ->
  applied (fun a => (commit_wo a i v).1) nodes w (phases.decide call_decide w i nodes v).
Proof.
  unfold phases.decide. induction nodes as [|x nodes IH]; intros w Hnd Hall; simpl.
  - apply applied_nil.
  - apply NoDup_cons in Hnd as [Hx Hnd]. destruct (Hall x) as (Hup & Hu & Hi & Hv); [by left|].
    unfold call_decide at 2. rewrite Hup.
    destruct (decidereq_accepted i v (w x) Hu Hi Hv) as [ups ->]. simpl.
    apply applied_cons; [done|done|]. apply IH; [done|].
    intros y Hy. rewrite world_upd_other by (by intros ->). apply Hall. by right.
Qed.
End calls.

(** * Progress *)

(** The number [run] will use. *)
Definition next_n (p : proposer) (n_h : prop_t) : prop_t := my_n (setn (set_stable p false) n_h).

Lemma elem_of_filter_up (up : cstring -> bool) nodes x :
  x ∈ List.filter up nodes <-> x ∈ nodes /\ up x = true.
Proof. rewrite !list_elem_of_In. apply filter_In. Qed.
Lemma NoDup_filter_up (up : cstring -> bool) nodes : NoDup nodes -> NoDup (List.filter up nodes).
Proof. rewrite !NoDup_ListNoDup. apply List.NoDup_filter. Qed.

(** C23 (a lone proposer gets its way): if a majority of the nodes answers, nobody else
    proposes, the answering nodes are at the instance before the one proposed and the
    proposer's next number exceeds what they promised, then [run] returns true, and every
    answering node has decided the same value for the instance: the one proposed, unless one
    of them had accepted another before. *)
Theorem lone_proposer_decides up me p w i nodes newv r0 b0 :
  stable p = true -> break1 p = false -> break2 p = false -> NoDup nodes -> is_u32 i ->
  majority nodes (List.filter up nodes) = true ->
  (forall x, x ∈ nodes -> up x = true ->
     instance_h (w x) + 1 = i /\ prop_gt (next_n p (n_h (w me))) (n_h (w x)) = true) ->
  exists w' p' v,
    run_here up me p w i nodes newv r0 b0 = (w', phases.Returned p' true) /\ stable p' = true /\
    (forall x, x ∈ nodes -> up x = true ->
       instance_h (w' x) = i /\ value_of (w' x) i = v) /\
    (forall x, x ∉ nodes \/ up x = false -> w' x = w x) /\
    ((forall x, x ∈ nodes -> up x = true -> v_a (w x) = []) -> v = newv).
Proof.
  intros Hst Hb1 Hb2 Hnd Hi Hmaj Hready. unfold run_here, phases.run. rewrite Hst. simpl negb.
  cbv iota zeta. unfold n_h_here at 1 2 3 4 5 6. rewrite (u32_id i) by done.
  set (q := setn (set_stable p false) (n_h (w me))).
  assert (Hq : break1 q = false /\ break2 q = false) by done. destruct Hq as [Hq1 Hq2].
  change (next_n p (n_h (w me))) with (my_n q) in Hready.
  unfold phases.prepare.
  destruct (prepare_loop_ok up me i (my_n q) nodes w r0 prep0 Hnd) as (w1 & s & -> & Ha1 & Hac & Hv).
  { intros x Hx Hup. destruct (Hready x Hx Hup). split; [lia|done]. }
  simpl in Hac. rewrite Hac, Hmaj, Hq1. set (v := choose_value (p_v s) newv).
  unfold phases.accept.
  destruct (accept_loop_ok up i (my_n q) v (List.filter up nodes) w1 b0 [])
    as (w2 & -> & Ha2); [by apply NoDup_filter_up| |].
  { intros x [Hx Hup]%elem_of_filter_up. split; [done|].
    rewrite (proj1 Ha1 x Hx Hup). simpl. apply prop_ge_refl. }
  simpl app. rewrite Hmaj, Hq2.
  pose proof (decide_ok up i v (List.filter up nodes) w2) as Ha3.
  eexists _, _, v. split; [reflexivity|]. split; [done|].
  assert (Hnode : forall x, x ∈ nodes -> up x = true ->
    w2 x = accepted (my_n q) v (promised (my_n q) (w x))).
  { intros x Hx Hup. rewrite (proj1 Ha2 x) by (by try apply elem_of_filter_up).
    by rewrite (proj1 Ha1 x Hx Hup). }
  destruct Ha3 as [Hd Hk]; [by apply NoDup_filter_up| |].
  { intros x [Hx Hup]%elem_of_filter_up. rewrite (Hnode x Hx Hup). simpl.
    destruct (Hready x Hx Hup) as [Hix _]. by rewrite Hix. }
  split; [|split].
  - intros x Hx Hup. rewrite Hd by (by try apply elem_of_filter_up).
    rewrite (Hnode x Hx Hup). destruct (Hready x Hx Hup) as [Hix _].
    unfold commit_wo. simpl. rewrite Z.gtb_ltb, (proj2 (Z.ltb_lt _ _)) by lia. simpl.
    split; [done|]. unfold value_of. simpl. by rewrite lookup_insert_eq.
  - intros x Hx. assert (Hn : x ∉ List.filter up nodes \/ up x = false).
    { destruct Hx; [left; rewrite elem_of_filter_up; tauto|by right]. }
    by rewrite (Hk x Hn), (proj2 Ha2 x Hn), (proj2 Ha1 x Hx).
  - intros Hall. unfold v. by rewrite (Hv Hall eq_refl).
Qed.

Module lone_example.
Definition three : list cstring := [cs "a"; cs "b"; cs "c"].
Definition two_up (x : cstring) : bool := str_eqb x (cs "a") || str_eqb x (cs "c").
Definition at_one : world := fun x =>
  Acceptor false x (Prop_t 0 x) (Prop_t 0 x) [] 1 {[1 := cs "a"]} [].

Lemma lone_proposer_decides_witness :
  exists w' p',
    run_here two_up (cs "a") (proposer_new (cs "a")) at_one 2 three (cs "a,b")
      (PrepareRes false false (Prop_t 0 []) []) false = (w', phases.Returned p' true) /\
    value_of (w' (cs "c")) 2 = cs "a,b".
Proof.
  destruct (lone_proposer_decides two_up (cs "a") (proposer_new (cs "a")) at_one 2 three
    (cs "a,b") (PrepareRes false false (Prop_t 0 []) []) false)
    as (w' & p' & v & E & _ & Hd & _ & Hv);
    [reflexivity..|by_computing|unfold is_u32; lia|reflexivity| |].
  - intros x Hx _. split; [reflexivity|].
    repeat (apply elem_of_cons in Hx as [->|Hx]; [reflexivity|]). by apply elem_of_nil in Hx.
  - exists w', p'. split; [exact E|].
    destruct (Hd (cs "c")) as [_ Hc]; [by_computing|reflexivity|].
    rewrite Hc. apply Hv. intros x _ _. reflexivity.
Defined.
End lone_example.
