(* ===== verification/Extent.v ===== *)
(** The extent server and the write-back cache of its clients (extent_server.cc,
    extent_client.cc).

    The server maps extents to their contents and attributes.  A client keeps copies,
    changes them locally and writes them back when it flushes them, which the file
    system does when it gives the lock of an extent up.  The theorems: a client with
    its cache behaves as a map from extents to contents, and the caches of clients
    that hold an extent's lock while they use it are coherent. *)
From Stdlib Require Import ZArith Lia Ascii String.
From stdpp Require Import base gmap list strings relations.
From S2P Require Import Prelude Protocols.
Local Open Scope Z_scope.

Definition ROOTDIR : Z := 1.

(** The readings of [time(NULL)] one operation makes, in order. *)
Abbreviation clock := (nat -> Z).

(** The attribute fields are [unsigned int]. *)
Definition attr_times (a : attr) (atime mtime ctime : Z) : attr :=
  Attr (u32 atime) (u32 mtime) (u32 ctime) (a_size a).
Definition attr_atime (a : attr) (atime : Z) : attr :=
  Attr (u32 atime) (a_mtime a) (a_ctime a) (a_size a).
Definition attr_size (a : attr) (size : nat) : attr :=
  Attr (a_atime a) (a_mtime a) (a_ctime a) (u32 (Z.of_nat size)).
Definition attr0 : attr := Attr 0 0 0 0.

(** * The server *)

Module extent_server.
Record file_inode := FileInode { attributes : attr; fid : Z; file_buf : cstring }.
Abbreviation state := (gmap Z file_inode).

Definition put (t : clock) (id : Z) (buf : cstring) (s : state) : state * Z * Z :=
  match s !! id with
  | None =>
      let f := FileInode (attr_times (attr_size attr0 (length buf)) (t 0%nat) (t 2%nat) (t 1%nat))
                 id buf in
      (<[id := f]> s, extent_protocol.OK, 0)
  | Some f =>
      let f := FileInode (attr_times (attr_size (attributes f) (length buf))
                            (t 0%nat) (t 2%nat) (t 1%nat)) (fid f) buf in
      (<[id := f]> s, extent_protocol.OK, 0)
  end.

(** The reply variable of the stub is empty until the handler sets it. *)
Definition get (t : clock) (id : Z) (s : state) : state * Z * cstring :=
  match s !! id with
  | None => (s, extent_protocol.IOERR, [])
  | Some f =>
      (<[id := FileInode (attr_atime (attributes f) (t 0%nat)) (fid f) (file_buf f)]> s,
       extent_protocol.OK, file_buf f)
  end.

Definition getattr (id : Z) (s : state) : state * Z * attr :=
  match s !! id with
  | None => (s, extent_protocol.IOERR, attr0)
  | Some f => (s, extent_protocol.OK, attributes f)
  end.

Definition remove (id : Z) (s : state) : state * Z * Z :=
  match s !! id with
  | None => (s, extent_protocol.IOERR, 0)
  | Some _ => (delete id s, extent_protocol.OK, 0)
  end.

Definition new (t : clock) : state := (put t ROOTDIR [] ∅).1.1.

(** What an extent holds. *)
Definition buf_of (s : state) (id : Z) : option cstring := file_buf <$> s !! id.
End extent_server.

(** * The client *)

Module extent_client.
Import extent_server.

Record cached_extent_info := Cached {
  is_dirty : bool; c_attr : attr; c_eid : Z; c_buf : cstring }.
Abbreviation cache := (gmap Z cached_extent_info).

(** [new cached_extent_info()] zeroes it. *)
Definition cached0 : cached_extent_info := Cached false attr0 0 [].

(** [eid] fetched from the server, by a [get] into [buf] and a [getattr]: the server,
    the two statuses and what they brought. *)
Definition fetch (f1 f2 : fate) (t : clock) (eid : Z) (buf : cstring) (s : state)
  : state * Z * cstring * Z * attr :=
  let '(s, ret1, buf) := call f1 (extent_server.get t eid) s buf in
  let '(s, ret2, a) := call f2 (extent_server.getattr eid) s attr0 in
  (s, ret1, buf, ret2, a).

(** [ts] is the clock of the server, [t] that of the client; [buf] is what the
    caller's variable held. *)
Definition get (f1 f2 : fate) (ts t : clock) (eid : Z) (buf : cstring) (c : cache) (s : state)
  : cache * state * Z * cstring :=
  match c !! eid with
  | None =>
      let '(s, ret, buf, _, a) := fetch f1 f2 ts eid buf s in
      (<[eid := Cached false (attr_atime a (t 0%nat)) eid buf]> c, s, ret, buf)
  | Some e =>
      (<[eid := Cached (is_dirty e) (attr_atime (c_attr e) (t 0%nat)) (c_eid e) (c_buf e)]> c,
       s, extent_protocol.OK, c_buf e)
  end.

Definition getattr (f1 f2 : fate) (ts : clock) (eid : Z) (c : cache) (s : state)
  : cache * state * Z * attr :=
  match c !! eid with
  | None =>
      let '(s, _, buf, ret, a) := fetch f1 f2 ts eid [] s in
      (<[eid := Cached false a eid buf]> c, s, ret, a)
  | Some e => (c, s, extent_protocol.OK, c_attr e)
  end.

Definition put (f1 f2 : fate) (ts t : clock) (eid : Z) (buf : cstring) (c : cache) (s : state)
  : cache * state * Z :=
  let '(c, s, ret, e) :=
    match c !! eid with
    | None =>
        let '(s, _, buf0, ret, a) := fetch f1 f2 ts eid [] s in
        let e := Cached false a eid buf0 in (<[eid := e]> c, s, ret, e)
    | Some e => (c, s, extent_protocol.OK, e)
    end in
  let a := attr_times (attr_size (c_attr e) (length buf)) (t 0%nat) (t 2%nat) (t 1%nat) in
  (<[eid := Cached true a (c_eid e) buf]> c, s, ret).

Definition remove (f : fate) (eid : Z) (c : cache) (s : state) : cache * state * Z :=
  match c !! eid with
  | None => (c, s, extent_protocol.OK)
  | Some _ =>
      let '(s, ret, _) := call f (extent_server.remove eid) s 0 in
      (delete eid c, s, ret)
  end.

Definition flush (f : fate) (ts : clock) (eid : Z) (c : cache) (s : state) : cache * state * Z :=
  match c !! eid with
  | None => (c, s, extent_protocol.OK)
  | Some e =>
      let s := if is_dirty e then (call f (extent_server.put ts eid (c_buf e)) s 0).1.1 else s in
      (delete eid c, s, extent_protocol.OK)
  end.

(** * The map a client sees *)

(** What the client reads: its copy, or else what the server has. *)
Definition view (c : cache) (s : state) (id : Z) : cstring :=
  match c !! id with
  | Some e => c_buf e
  | None => default [] (buf_of s id)
  end.

(** A clean copy is the server's. *)
Definition faithful (c : cache) (s : state) (id : Z) : Prop :=
  forall e, c !! id = Some e -> is_dirty e = false -> c_buf e = default [] (buf_of s id).

Lemma server_put_buf t id buf s i :
  buf_of (extent_server.put t id buf s).1.1 i = if decide (i = id) then Some buf else buf_of s i.
Proof.
  unfold extent_server.put, buf_of. destruct (s !! id) eqn:E; simpl;
    destruct (decide (i = id)) as [->|]; by rewrite ?lookup_insert_eq, ?lookup_insert_ne.
Qed.
Lemma server_get_buf t id s i : buf_of (extent_server.get t id s).1.1 i = buf_of s i.
Proof.
  unfold extent_server.get, buf_of. destruct (s !! id) eqn:E; simpl; [|done].
  destruct (decide (i = id)) as [->|]; by rewrite ?lookup_insert_eq, ?lookup_insert_ne, ?E.
Qed.
Lemma server_remove_buf id s i :
  buf_of (extent_server.remove id s).1.1 i = if decide (i = id) then None else buf_of s i.
Proof.
  unfold extent_server.remove, buf_of. destruct (s !! id) eqn:E; simpl;
    destruct (decide (i = id)) as [->|]; by rewrite ?lookup_delete_eq, ?lookup_delete_ne, ?E.
Qed.

(** Fetching changes no contents, and brings them when the call completes. *)
Lemma fetch_buf f1 f2 t eid buf s s' r1 b r2 a i :
  fetch f1 f2 t eid buf s = (s', r1, b, r2, a) -> buf_of s' i = buf_of s i.
Proof.
  intros E. unfold fetch in E.
  pose proof (call_keeps (fun s' => buf_of s' i = buf_of s i) f1 (extent_server.get t eid) s buf
    eq_refl (server_get_buf t eid s i)) as H1.
  destruct (call f1 _ s buf) as [[s1 ?] ?]. simpl in H1.
  assert (forall s, (extent_server.getattr eid s).1.1 = s) as Hg.
  { intros s0. unfold extent_server.getattr. by destruct (s0 !! eid). }
  pose proof (call_keeps (fun s' => s' = s1) f2 (extent_server.getattr eid) s1 attr0
    eq_refl (Hg s1)) as H2.
  destruct (call f2 _ s1 attr0) as [[s2 ?] ?]. simpl in H2. by simplify_eq.
Qed.
Lemma fetch_completed f2 t eid buf s s' r1 b r2 a :
  fetch Completed f2 t eid buf s = (s', r1, b, r2, a) -> b = default [] (buf_of s eid).
Proof.
  intros E. unfold fetch in E. cbn [call] in E.
  assert ((extent_server.get t eid s).2 = default [] (buf_of s eid)) as H.
  { unfold extent_server.get, buf_of. by destruct (s !! eid). }
  destruct (extent_server.get t eid s) as [[s1 ?] ?]. simpl in H.
  destruct (call f2 _ s1 attr0) as [[s2 ?] ?]. by simplify_eq.
Qed.

(** An operation of a client touches one extent: others keep their copies and their
    contents on the server, whatever becomes of its calls. *)
Definition only (id : Z) (c c' : cache) (s s' : state) : Prop :=
  forall i, i <> id -> c' !! i = c !! i /\ buf_of s' i = buf_of s i.

Lemma get_only f1 f2 ts t id buf c s :
  only id c (get f1 f2 ts t id buf c s).1.1.1 s (get f1 f2 ts t id buf c s).1.1.2.
Proof.
  unfold get, only. intros i Hi. destruct (c !! id) as [e|]; [simpl; by rewrite lookup_insert_ne|].
  destruct (fetch f1 f2 ts id buf s) as [[[[s' r1] b] r2] a] eqn:Ef. simpl.
  rewrite lookup_insert_ne by done. split; [done|by eapply fetch_buf].
Qed.
Lemma getattr_only f1 f2 ts id c s :
  only id c (getattr f1 f2 ts id c s).1.1.1 s (getattr f1 f2 ts id c s).1.1.2.
Proof.
  unfold getattr, only. intros i Hi. destruct (c !! id) as [e|]; [done|].
  destruct (fetch f1 f2 ts id [] s) as [[[[s' r1] b] r2] a] eqn:Ef. simpl.
  rewrite lookup_insert_ne by done. split; [done|by eapply fetch_buf].
Qed.
Lemma remove_only f id c s : only id c (remove f id c s).1.1 s (remove f id c s).1.2.
Proof.
  unfold remove, only. intros i Hi. destruct (c !! id) as [e|]; [|done].
  pose proof (call_keeps (fun s' => buf_of s' i = buf_of s i) f (extent_server.remove id) s 0 eq_refl) as Hk. cbv beta in Hk.
  rewrite server_remove_buf, decide_False in Hk by done. specialize (Hk eq_refl).
  destruct (call f _ s 0) as [[s' ret] x]. simpl in *. by rewrite lookup_delete_ne.
Qed.
Lemma flush_only f ts id c s : only id c (flush f ts id c s).1.1 s (flush f ts id c s).1.2.
Proof.
  unfold flush, only. intros i Hi. destruct (c !! id) as [e|]; [|done]. simpl. rewrite lookup_delete_ne by done.
  split; [done|]. destruct (is_dirty e); [|done].
  pose proof (call_keeps (fun s' => buf_of s' i = buf_of s i) f (extent_server.put ts id (c_buf e)) s 0 eq_refl) as Hk. cbv beta in Hk.
  rewrite server_put_buf, decide_False in Hk by done. by apply Hk.
Qed.

(** The request of the call reached the server. *)
Definition reached (f : fate) : bool := match f with RequestLost _ => false | _ => true end.
Lemma call_reached {S R} f (h : S -> S * Z * R) s r : reached f = true -> (call f h s r).1.1 = (h s).1.1.
Proof. by destruct f. Qed.

Lemma get_spec f1 f2 ts t id buf c s :
  (c !! id = None -> f1 = Completed) -> faithful c s id ->
  let '(c', s', ret, b) := get f1 f2 ts t id buf c s in
  b = view c s id /\ view c' s' id = view c s id /\ faithful c' s' id /\ only id c c' s s'
  /\ (ret = extent_protocol.OK <-> c !! id <> None \/ buf_of s id <> None).
Proof.
  intros Hf Hc. unfold get, view, faithful, only in *. destruct (c !! id) as [e|] eqn:E.
  - rewrite lookup_insert_eq. simpl. split_and!; try done.
    + intros e' [= <-]. simpl. by apply Hc.
    + intros i Hi. by rewrite lookup_insert_ne.
    + split; [|done]. by left.
  - rewrite Hf by done. destruct (fetch _ f2 ts id buf s) as [[[[s' r1] b] r2] a] eqn:Ef.
    rewrite lookup_insert_eq. simpl. pose proof (fetch_completed _ _ _ _ _ _ _ _ _ _ Ef) as ->.
    split_and!; try done.
    + intros e' [= <-] _. simpl. by rewrite (fetch_buf _ _ _ _ _ _ _ _ _ _ _ id Ef).
    + intros i Hi. rewrite lookup_insert_ne by done. split; [done|by eapply fetch_buf].
    + unfold fetch in Ef. cbn [call] in Ef. unfold extent_server.get, buf_of in *.
      destruct (s !! id); simpl in *; destruct (call f2 _ _ _) as [[??]?]; simplify_eq;
        split; [by right|done| |]; [done|]. by intros [?|?].
Qed.

Lemma getattr_spec f1 f2 ts id c s :
  (c !! id = None -> f1 = Completed) -> faithful c s id ->
  let '(c', s', ret, a) := getattr f1 f2 ts id c s in
  view c' s' id = view c s id /\ faithful c' s' id /\ only id c c' s s'.
Proof.
  intros Hf Hc. unfold getattr, view, faithful, only in *. destruct (c !! id) as [e|] eqn:E.
  - rewrite E. by split_and!.
  - rewrite Hf by done. destruct (fetch _ f2 ts id [] s) as [[[[s' r1] b] r2] a] eqn:Ef.
    rewrite lookup_insert_eq. simpl. pose proof (fetch_completed _ _ _ _ _ _ _ _ _ _ Ef) as ->.
    split_and!; try done.
    + intros e' [= <-] _. simpl. by rewrite (fetch_buf _ _ _ _ _ _ _ _ _ _ _ id Ef).
    + intros i Hi. rewrite lookup_insert_ne by done. split; [done|by eapply fetch_buf].
Qed.

Lemma put_spec f1 f2 ts t id buf c s :
  let '(c', s', ret) := put f1 f2 ts t id buf c s in
  view c' s' id = buf /\ faithful c' s' id /\ only id c c' s s'
  /\ (exists e, c' !! id = Some e /\ is_dirty e = true).
Proof.
  unfold put, view, faithful, only. destruct (c !! id) as [e|] eqn:E.
  - rewrite lookup_insert_eq. simpl. split_and!; try done; [by intros ? [= <-]| |by eauto].
    intros i Hi. by rewrite lookup_insert_ne.
  - destruct (fetch f1 f2 ts id [] s) as [[[[s' r1] b] r2] a] eqn:Ef.
    rewrite lookup_insert_eq. simpl. split_and!; try done; [by intros ? [= <-]| |by eauto].
    intros i Hi. rewrite !lookup_insert_ne by done. split; [done|by eapply fetch_buf].
Qed.

Lemma flush_reached f ts id c s :
  (forall e, c !! id = Some e -> is_dirty e = true -> reached f = true) -> faithful c s id ->
  let '(c', s', ret) := flush f ts id c s in
  c' !! id = None /\ default [] (buf_of s' id) = view c s id.
Proof.
  intros Hf Hc. unfold flush, view, faithful in *. destruct (c !! id) as [e|] eqn:E; [|done].
  rewrite lookup_delete_eq. split; [done|]. destruct (is_dirty e) eqn:Ed; [|by rewrite (Hc e)].
  rewrite call_reached by by eapply Hf. by rewrite server_put_buf, decide_True.
Qed.
Lemma remove_reached f id c s e : c !! id = Some e -> reached f = true ->
  let '(c', s', ret) := remove f id c s in c' !! id = None /\ default [] (buf_of s' id) = [].
Proof.
  intros E Hf. unfold remove. rewrite E. pose proof (server_remove_buf id s id) as Hr.
  rewrite decide_True, <- (call_reached f (extent_server.remove id) s 0 Hf) in Hr by done.
  destruct (call f _ s 0) as [[s' ret] x]. simpl in *. by rewrite lookup_delete_eq, Hr.
Qed.

Lemma flush_spec f ts id c s :
  (f = Completed \/ (forall e, c !! id = Some e -> is_dirty e = false)) -> faithful c s id ->
  let '(c', s', ret) := flush f ts id c s in
  c' !! id = None /\ default [] (buf_of s' id) = view c s id /\ only id c c' s s'.
Proof.
  intros Hf Hc. unfold flush, view, faithful, only in *. destruct (c !! id) as [e|] eqn:E; [|done].
  rewrite lookup_delete_eq. destruct (is_dirty e) eqn:Ed.
  - assert (f = Completed) as ->.
    { destruct Hf as [|Hf]; [done|]. by rewrite (Hf e) in Ed. }
    cbn [call]. rewrite server_put_buf, decide_True by done. split_and!; try done.
    intros i Hi. by rewrite lookup_delete_ne, server_put_buf, decide_False.
  - split_and!; [done|by rewrite (Hc e)|]. intros i Hi. by rewrite lookup_delete_ne.
Qed.

Lemma remove_spec id c s :
  let '(c', s', ret) := remove Completed id c s in
  c' !! id = None /\ only id c c' s s'
  /\ default [] (buf_of s' id) = (if c !! id is Some _ then [] else default [] (buf_of s id)).
Proof.
  unfold remove, only. destruct (c !! id) as [e|] eqn:E; simpl; [|done].
  pose proof (server_remove_buf id s) as Hr.
  destruct (extent_server.remove id s) as [[s' r] x]. simpl in Hr.
  rewrite lookup_delete_eq, Hr, decide_True by done. split_and!; try done.
  intros i Hi. by rewrite lookup_delete_ne, Hr, decide_False.
Qed.
End extent_client.

(** * Coherence of the caches

    Clients share the server.  Each uses an extent only while it holds its lock, and
    flushes it before it gives the lock up ([lock_releaser::dorelease]). *)

Module coherence.
Import extent_server extent_client.

Record world := World {
  w_server : state; w_cache : gmap nat cache; w_holder : gmap Z nat }.

Definition cache_of (w : world) (i : nat) : cache := default ∅ (w_cache w !! i).
Definition update (w : world) (i : nat) (c : cache) (s : state) : world :=
  World s (<[i := c]> (w_cache w)) (w_holder w).

(** What a client asks for, with the clocks and the fates of the calls it leads to. *)
Inductive request :=
| Acquire (id : Z)
| Release (f : fate) (ts : clock) (id : Z)
| Get (f1 f2 : fate) (ts t : clock) (id : Z) (buf : cstring)
| GetAttr (f1 f2 : fate) (ts : clock) (id : Z)
| Put (f1 f2 : fate) (ts t : clock) (id : Z) (buf : cstring)
| Remove (f : fate) (id : Z).
Definition about (r : request) : Z :=
  match r with
  | Acquire id | Release _ _ id | Get _ _ _ _ id _ | GetAttr _ _ _ id | Put _ _ _ _ id _ | Remove _ id => id
  end.

(** What an observer of the clients sees; a removal asks for an extent without contents. *)
Inductive event :=
| Read (id : Z) (v : cstring)
| Write (id : Z) (v : cstring).
Definition extent_of (e : event) : Z := match e with Read id _ | Write id _ => id end.

Definition holds (w : world) (i : nat) (id : Z) : bool := bool_decide (w_holder w !! id = Some i).

(** One request of client [i]: [None] when the lock does not allow it. *)
Definition perform (w : world) (i : nat) (r : request) : option (world * list event) :=
  let c := cache_of w i in
  let s := w_server w in
  match r with
  | Acquire id =>
      match w_holder w !! id with
      | None => Some (World s (w_cache w) (<[id := i]> (w_holder w)), [])
      | Some _ => None
      end
  | Release f ts id =>
      if holds w i id then
        let '(c, s, _) := flush f ts id c s in
        Some (World s (<[i := c]> (w_cache w)) (delete id (w_holder w)), [])
      else None
  | Get f1 f2 ts t id buf =>
      if holds w i id then
        let '(c, s, ret, v) := get f1 f2 ts t id buf c s in
        Some (update w i c s, [Read id v])
      else None
  | GetAttr f1 f2 ts id =>
      if holds w i id then
        let '(c, s, ret, a) := getattr f1 f2 ts id c s in
        Some (update w i c s, [])
      else None
  | Put f1 f2 ts t id buf =>
      if holds w i id then
        let '(c, s, ret) := put f1 f2 ts t id buf c s in
        Some (update w i c s, [Write id buf])
      else None
  | Remove f id =>
      if holds w i id then
        let '(c, s, ret) := remove f id c s in
        Some (update w i c s, [Write id []])
      else None
  end.

Fixpoint perform_all (w : world) (rs : list (nat * request)) : option (world * list event) :=
  match rs with
  | [] => Some (w, [])
  | (i, r) :: rs =>
      '(w, es) ← perform w i r;
      '(w, es') ← perform_all w rs;
      Some (w, es ++ es')
  end.

(** ** When the cache keeps its promise

    A fetch must bring the contents, a write-back must reach the server, and a removal must find a
    copy, since [remove] forgets to ask the server otherwise, and reach the server. *)
Definition completed (f : fate) : bool := match f with Completed => true | _ => false end.
Definition served (w : world) (i : nat) (r : request) : bool :=
  match r with
  | Acquire _ | Put _ _ _ _ _ _ => true
  | Release f _ id =>
      match cache_of w i !! id with Some e => implb (is_dirty e) (reached f) | None => true end
  | Get f1 _ _ _ id _ | GetAttr f1 _ _ id =>
      match cache_of w i !! id with Some _ => true | None => completed f1 end
  | Remove f id => match cache_of w i !! id with Some _ => reached f | None => false end
  end.
(** The requests about [id] were all served. *)
Fixpoint well_served (id : Z) (w : world) (rs : list (nat * request)) : bool :=
  match rs with
  | [] => true
  | (i, r) :: rs =>
      implb (about r =? id) (served w i r) &&
      match perform w i r with Some (w, _) => well_served id w rs | None => true end
  end.

(** ** The specification: one copy of every extent *)

(** A sequence of reads and writes of one extent a single copy can show, with what is in it at the
    end: every read gives what was last written. *)
Fixpoint replays (v : cstring) (es : list event) : option cstring :=
  match es with
  | [] => Some v
  | Read _ u :: es => if str_eqb v u then replays v es else None
  | Write _ u :: es => replays u es
  end.
Definition on_extent (id : Z) (es : list event) : list event := filter (fun e => extent_of e = id) es.

Lemma replays_app v es es' : replays v (es ++ es') = (u ← replays v es; replays u es').
Proof.
  revert v. induction es as [|[id u|id u] es IH]; intros v; simpl; [done| |apply IH].
  destruct (str_eqb v u); [apply IH|done].
Qed.

(** ** Simulation *)

(** Who holds the lock of [id] has its current contents, and nobody else a copy. *)
Definition sim (w : world) (id : Z) (v : cstring) : Prop :=
  match w_holder w !! id with
  | Some i =>
      (forall j, j <> i -> cache_of w j !! id = None)
      /\ view (cache_of w i) (w_server w) id = v
      /\ faithful (cache_of w i) (w_server w) id
  | None =>
      (forall j, cache_of w j !! id = None) /\ default [] (buf_of (w_server w) id) = v
  end.

Lemma cache_of_world s i c' (w : world) h j :
  cache_of (World s (<[i := c']> (w_cache w)) h) j = if decide (j = i) then c' else cache_of w j.
Proof.
  unfold cache_of; simpl. destruct (decide (j = i)) as [->|]; by rewrite ?lookup_insert_eq, ?lookup_insert_ne.
Qed.

(** An operation on one extent leaves the simulation of the others alone. *)
Lemma sim_other w v i c' s' id h' id' :
  sim w id' v -> id' <> id -> only id (cache_of w i) c' (w_server w) s' ->
  h' !! id' = w_holder w !! id' -> sim (World s' (<[i := c']> (w_cache w)) h') id' v.
Proof.
  intros Hs Hne Ho Hh. destruct (Ho id' Hne) as [Hc Hb].
  assert (forall j, cache_of (World s' (<[i := c']> (w_cache w)) h') j !! id' = cache_of w j !! id') as Hcache.
  { intros j. rewrite cache_of_world. by case_decide; subst. }
  unfold sim in *; cbn [w_holder w_server]. rewrite Hh. unfold view, faithful in *.
  destruct (w_holder w !! id') as [k|]; rewrite ?Hb.
  - destruct Hs as (H1 & H2 & H3). split_and!.
    + intros j Hj. rewrite Hcache. by apply H1.
    + by rewrite Hcache.
    + intros e. rewrite Hcache. apply H3.
  - destruct Hs as (H1 & H2). split; [|done]. intros j. by rewrite Hcache.
Qed.

(** An operation of the holder that leaves [v'] as the contents. *)
Lemma sim_holder w v i id c' s' v' :
  sim w id v -> w_holder w !! id = Some i -> view c' s' id = v' -> faithful c' s' id ->
  sim (update w i c' s') id v'.
Proof.
  intros Hs Hh Hv Hf. unfold sim, update in *. cbn [w_holder w_server]. rewrite Hh in *.
  destruct Hs as (H1 & _ & _). rewrite (cache_of_world s' i c' w (w_holder w) i), decide_True by done.
  split_and!; [|done|done]. intros j Hj. rewrite cache_of_world, decide_False by done. by apply H1.
Qed.

(** A request about another extent shows nothing of this one and keeps it. *)
Lemma perform_other w id v i r w' es :
  sim w id v -> perform w i r = Some (w', es) -> about r <> id -> on_extent id es = [] /\ sim w' id v.
Proof.
  intros Hs Hp Hne. unfold perform in Hp.
  destruct r as [x|f ts x|f1 f2 ts t x buf|f1 f2 ts x|f1 f2 ts t x buf|f x]; simpl in Hne;
    unfold on_extent; [destruct (w_holder w !! x) eqn:Hx; [done|]; injection Hp as <- <-|destruct (holds w i x); [|done]..].
  - split; [done|]. unfold sim in *. cbn [w_holder w_server]. rewrite lookup_insert_ne by done. exact Hs.
  - pose proof (flush_only f ts x (cache_of w i) (w_server w)) as Ho.
    destruct (flush _ _ _ _ _) as [[c s] ret]. injection Hp as <- <-. split; [done|].
    eapply sim_other; [exact Hs| |exact Ho|by apply lookup_delete_ne]. done.
  - pose proof (get_only f1 f2 ts t x buf (cache_of w i) (w_server w)) as Ho.
    destruct (get _ _ _ _ _ _ _ _) as [[[c s] ret] u]. injection Hp as <- <-.
    split; [by rewrite filter_cons_False|]. by eapply sim_other.
  - pose proof (getattr_only f1 f2 ts x (cache_of w i) (w_server w)) as Ho.
    destruct (getattr _ _ _ _ _ _) as [[[c s] ret] u]. injection Hp as <- <-. split; [done|]. by eapply sim_other.
  - pose proof (put_spec f1 f2 ts t x buf (cache_of w i) (w_server w)) as Ho.
    destruct (put _ _ _ _ _ _ _ _) as [[c s] ret]. destruct Ho as (_ & _ & Ho & _). injection Hp as <- <-.
    split; [by rewrite filter_cons_False|]. by eapply sim_other.
  - pose proof (remove_only f x (cache_of w i) (w_server w)) as Ho.
    destruct (remove _ _ _ _) as [[c s] ret]. injection Hp as <- <-.
    split; [by rewrite filter_cons_False|]. by eapply sim_other.
Qed.

(** The client holds the lock, and what the simulation says of the extent. *)
Ltac holder_case Hp Hs Hh H2 H3 :=
  match type of Hp with
  | context [holds ?w ?i ?id] =>
      let Hid := fresh in
      unfold holds in Hp; case_bool_decide as Hh; [|done];
      pose proof Hs as Hid; unfold sim in Hid; rewrite Hh in Hid; destruct Hid as (_ & H2 & H3)
  end.

Lemma perform_served w v i r w' es :
  sim w (about r) v -> perform w i r = Some (w', es) -> served w i r = true ->
  exists v', replays v es = Some v' /\ on_extent (about r) es = es /\ sim w' (about r) v'.
Proof.
  intros Hs Hp Hok. unfold perform in Hp.
  destruct r as [id|f ts id|f1 f2 ts t id buf|f1 f2 ts id|f1 f2 ts t id buf|f id]; simpl in *.
  - destruct (w_holder w !! id) eqn:Hh; [done|]. injection Hp as <- <-. exists v. do 2 (split; [done|]).
    unfold sim in *. cbn [w_holder w_server]. rewrite Hh in Hs. rewrite lookup_insert_eq.
    destruct Hs as [H1 H2]. unfold view, faithful. change (cache_of (World _ _ _) i) with (cache_of w i).
    rewrite (H1 i). split_and!; [intros; apply H1|done|done].
  - holder_case Hp Hs Hh H2 H3.
    pose proof (flush_reached f ts id (cache_of w i) (w_server w)) as Hf.
    destruct (flush _ _ _ _ _) as [[c' s'] ret]. injection Hp as <- <-.
    destruct Hf as (Hc & Hb); [|done|].
    { intros e He Hd. by rewrite He, Hd in Hok. }
    exists v. do 2 (split; [done|]). unfold sim in *; cbn [w_holder w_server]. rewrite lookup_delete_eq, Hb.
    split; [|done]. intros j. rewrite cache_of_world. rewrite Hh in Hs. case_decide; [done|by apply Hs].
  - holder_case Hp Hs Hh H2 H3.
    pose proof (get_spec f1 f2 ts t id buf (cache_of w i) (w_server w)) as Hg.
    destruct (get _ _ _ _ _ _ _ _) as [[[c' s'] ret] u]. injection Hp as <- <-.
    destruct Hg as (Hv & Hv' & Hf & _); [|done|].
    { intros Hn. rewrite Hn in Hok. by destruct f1. }
    exists v. simpl. rewrite Hv, H2, str_eqb_refl. split; [done|].
    split; [by unfold on_extent; rewrite filter_cons_True|]. apply (sim_holder w v); [done|done|congruence|done].
  - holder_case Hp Hs Hh H2 H3.
    pose proof (getattr_spec f1 f2 ts id (cache_of w i) (w_server w)) as Hg.
    destruct (getattr _ _ _ _ _ _) as [[[c' s'] ret] a]. injection Hp as <- <-.
    destruct Hg as (Hv & Hf & _); [|done|].
    { intros Hn. rewrite Hn in Hok. by destruct f1. }
    exists v. do 2 (split; [done|]). apply (sim_holder w v); [done|done|congruence|done].
  - holder_case Hp Hs Hh H2 H3.
    pose proof (put_spec f1 f2 ts t id buf (cache_of w i) (w_server w)) as Hput.
    destruct (put _ _ _ _ _ _ _ _) as [[c' s'] ret]. injection Hp as <- <-.
    destruct Hput as (Hv & Hf & _). exists buf. split; [done|].
    split; [by unfold on_extent; rewrite filter_cons_True|]. by apply (sim_holder w v).
  - holder_case Hp Hs Hh H2 H3. destruct (cache_of w i !! id) as [e|] eqn:E; [|done].
    pose proof (remove_reached f id (cache_of w i) (w_server w) e E Hok) as Hr.
    destruct (remove _ _ _ _) as [[c' s'] ret]. injection Hp as <- <-. destruct Hr as (Hc & Hb).
    exists []. split; [done|]. split; [by unfold on_extent; rewrite filter_cons_True|].
    apply (sim_holder w v); [done|done| |].
    + unfold view. by rewrite Hc.
    + intros e'. by rewrite Hc.
Qed.

Lemma perform_all_sim id rs : forall w v w' es,
  sim w id v -> perform_all w rs = Some (w', es) -> well_served id w rs = true ->
  exists v', replays v (on_extent id es) = Some v' /\ sim w' id v'.
Proof.
  induction rs as [|[i r] rs IH]; simpl; intros w v w' es Hs Hp Hok.
  { injection Hp as <- <-. by exists v. }
  destruct (perform w i r) as [[w1 e1]|] eqn:E1; [|done]. simpl in Hp.
  destruct (perform_all w1 rs) as [[w2 e2]|] eqn:E2; [|done]. injection Hp as <- <-.
  apply andb_true_iff in Hok as [Hr Hok].
  assert (exists v1, replays v (on_extent id e1) = Some v1 /\ sim w1 id v1) as (v1 & R1 & S1).
  { destruct (Z.eqb_spec (about r) id) as [<-|Hne].
    - destruct (perform_served _ _ _ _ _ _ Hs E1 Hr) as (v1 & R1 & -> & S1). eauto.
    - destruct (perform_other _ _ _ _ _ _ _ Hs E1 Hne) as [-> S1]. by exists v. }
  destruct (IH _ _ _ _ S1 E2 Hok) as (v2 & R2 & S2). exists v2. split; [|done].
  unfold on_extent in *. by rewrite filter_app, replays_app, R1.
Qed.

(** A server that was just started, and clients with empty caches. *)
Definition world0 (t : clock) : world := World (extent_server.new t) ∅ ∅.

(** C5 (coherence): clients hold the lock of an extent while they use it and flush it before they
    give the lock back.  Then, for each extent, what they read, write and remove is what a single
    copy would show: every read returns the last value written, by whichever client, through caches
    and write-backs; provided that, of the requests about this extent, the fetches were answered,
    the write-backs reached the server, and removals reached it and were made by a client that had
    a copy.  Nothing is asked of the requests about other extents. *)
Theorem caches_coherent t rs w es id :
  perform_all (world0 t) rs = Some (w, es) -> well_served id (world0 t) rs = true ->
  exists v, replays [] (on_extent id es) = Some v.
Proof.
  intros H Hok. destruct (perform_all_sim id rs (world0 t) [] w es) as (v & ? & _); [|done|done|by exists v].
  unfold sim, world0; simpl. split; [done|].
  unfold extent_server.new. rewrite server_put_buf. by case_decide.
Qed.

Definition at0 : clock := fun _ => 0.
(** The first client shares extent 5 with the second; its removal of extent 6, which it has no copy
    of, is lost. *)
Definition sharing : list (nat * request) :=
  [(1%nat, Acquire 5); (1%nat, Put Completed Completed at0 at0 5 (cs "x"));
   (1%nat, Acquire 6); (1%nat, Put Completed Completed at0 at0 6 (cs "z")); (1%nat, Release Completed at0 6);
   (1%nat, Release (ReplyLost (-1)) at0 5); (2%nat, Acquire 5); (2%nat, Get Completed Completed at0 at0 5 []);
   (2%nat, Put Completed Completed at0 at0 5 (cs "y")); (2%nat, Release Completed at0 5);
   (1%nat, Acquire 6); (1%nat, Remove Completed 6); (1%nat, Get Completed Completed at0 at0 6 []);
   (1%nat, Acquire 5); (1%nat, Get Completed Completed at0 at0 5 []); (1%nat, Remove Completed 5);
   (1%nat, Get Completed Completed at0 at0 5 [])].
Definition shown (o : option (world * list event)) : list event :=
  match o with Some (_, es) => es | None => [] end.
Lemma caches_coherent_witness :
  exists w es v, perform_all (world0 at0) sharing = Some (w, es)
    /\ on_extent 5 es = [Write 5 (cs "x"); Read 5 (cs "x"); Write 5 (cs "y"); Read 5 (cs "y"); Write 5 []; Read 5 []]
    /\ replays [] (on_extent 5 es) = Some v.
Proof.
  destruct (perform_all (world0 at0) sharing) as [[w es]|] eqn:E; [|by vm_compute in E].
  destruct (caches_coherent at0 sharing w es 5 E) as [v Hv]; [vm_compute; reflexivity|].
  exists w, es, v. split; [done|]. split; [|done].
  change es with (shown (Some (w, es))). rewrite <- E. by vm_compute.
Defined.

(** Extent 6 was not well served: after its removal its old contents are read. *)
Example removal_lost :
  well_served 6 (world0 at0) sharing = false /\
  on_extent 6 (shown (perform_all (world0 at0) sharing)) = [Write 6 (cs "z"); Write 6 []; Read 6 (cs "z")] /\
  replays [] (on_extent 6 (shown (perform_all (world0 at0) sharing))) = None.
Proof. vm_compute. by split_and!. Qed.
End coherence.

(** * What the cache hides *)

Module cache_errors.
Import extent_server extent_client.

(** Missing extents: the first [get] of an extent the server does not have fails,
    and leaves an empty copy behind, so that the next one succeeds. *)
Theorem get_missing_twice ts t ts' t' f2 f1' f2' id buf buf' c s :
  c !! id = None -> buf_of s id = None ->
  exists c' s' c'' s'',
    get Completed f2 ts t id buf c s = (c', s', extent_protocol.IOERR, [])
    /\ get f1' f2' ts' t' id buf' c' s' = (c'', s'', extent_protocol.OK, []).
Proof.
  intros Hc Hs.
  assert (s !! id = None) as Hn by (unfold buf_of in Hs; by destruct (s !! id)).
  destruct (get Completed f2 ts t id buf c s) as [[[c' s'] ret] b] eqn:E. unfold get in E.
  rewrite Hc in E. unfold fetch in E. cbn [call] in E. unfold extent_server.get in E.
  rewrite Hn in E. destruct (call f2 _ s attr0) as [[s2 r2] a]. simplify_eq.
  eexists _, _, _, _. split; [done|]. unfold get. by rewrite lookup_insert_eq.
Qed.
Lemma get_missing_twice_witness :
  exists c' s' c'' s'',
    get Completed Completed (fun _ => 0) (fun _ => 0) 7 [] ∅ ∅ = (c', s', extent_protocol.IOERR, [])
    /\ get Completed Completed (fun _ => 0) (fun _ => 0) 7 [] c' s'
       = (c'', s'', extent_protocol.OK, []).
Proof. by apply get_missing_twice. Defined.

(** Lost removals: [remove] of an extent the client has no copy of reports
    success and removes nothing: the next [get] still finds the contents. *)
Theorem remove_uncached_lost f f2 ts t id buf b c s :
  c !! id = None -> buf_of s id = Some b ->
  let '(c', s', ret) := remove f id c s in
  ret = extent_protocol.OK
  /\ exists c'' s'', get Completed f2 ts t id buf c' s' = (c'', s'', extent_protocol.OK, b).
Proof.
  intros Hc Hb. unfold remove. rewrite Hc. split; [done|].
  pose proof (get_spec Completed f2 ts t id buf c s (fun _ => eq_refl)) as H.
  assert (faithful c s id) as Hf by (intros e; by rewrite Hc). specialize (H Hf).
  destruct (get Completed f2 ts t id buf c s) as [[[c' s'] ret] v].
  destruct H as (Hv & _ & _ & _ & Hr). exists c', s'.
  assert (ret = extent_protocol.OK) as -> by (apply Hr; right; congruence).
  unfold view in Hv. rewrite Hc, Hb in Hv. by subst.
Qed.
Lemma remove_uncached_lost_witness :
  let s := (extent_server.put (fun _ => 0) 7 (cs "x") ∅).1.1 in
  let '(c', s', ret) := remove Completed 7 ∅ s in
  ret = extent_protocol.OK
  /\ exists c'' s'',
       get Completed Completed (fun _ => 0) (fun _ => 0) 7 [] c' s' = (c'', s'', extent_protocol.OK, cs "x").
Proof.
  apply (remove_uncached_lost Completed Completed (fun _ => 0) (fun _ => 0) 7 [] (cs "x")); reflexivity.
Defined.
End cache_errors.
