(* ===== verification/YfsDir.v ===== *)
(** Directories of yfs_client.cc: a directory is stored in an extent as a text,
    [inum@name/inum@name/...], which the client splits and prints.  The theorem is the
    round trip; names with a separator in them do not survive it. *)
From Stdlib Require Import ZArith Lia Ascii String.
From stdpp Require Import base list strings.
From S2P Require Import Prelude TextIO.
Local Open Scope Z_scope.

Definition ELEMENTSEPERATOR : ascii := char_of_Z 47.
Definition INUMSEPERATOR : ascii := char_of_Z 64.

Record dirent := Dirent { d_name : cstring; d_inum : Z }.

#[global] Instance dirent_eq_dec : EqDecision dirent.
Proof. solve_decision. Defined.

(** [finum] is not initialised: it is read only when the extraction stores to it. *)
Definition n2i (n : cstring) : outcome Z :=
  match sentry_skip (open_text n) with
  | None => Fault Undefined
  | Some _ => Ret (read_unsigned 64 (open_text n) 0).2
  end.
Definition filename (inum : Z) : cstring := print_dec inum.

Definition isfile (inum : Z) : bool := negb (Z.land inum 0x80000000 =? 0).
Definition isdir (inum : Z) : bool := negb (isfile inum).

(** [split]: every turn of its loop reads at least one character. *)
Fixpoint split_loop (fuel : nat) (delim : ascii) (ss : istream) (item : cstring)
    (elems : list cstring) : outcome (list cstring) :=
  match fuel with
  | O => Fault Diverged
  | S fuel =>
      let '(ss, item) := read_until delim ss item in
      if i_ok ss then split_loop fuel delim ss item (elems ++ [item]) else Ret elems
  end.
Definition split (s : cstring) (delim : ascii) : outcome (list cstring) :=
  split_loop (S (length s)) delim (open_text s) [] [].

Definition createBuffElement (inum : Z) (buf : cstring) : cstring :=
  print_dec inum ++ [INUMSEPERATOR] ++ buf.

(** The iterator is followed without a test for the end of the list. *)
Definition parseDirent (value : cstring) : outcome dirent :=
  l ← split value INUMSEPERATOR;
  match l with
  | [] => Fault Undefined
  | first :: rest =>
      inum ← n2i first;
      match rest with
      | [] => Fault Undefined
      | name :: _ => Ret (Dirent name inum)
      end
  end.

Fixpoint parse_all (l : list cstring) : outcome (list dirent) :=
  match l with
  | [] => Ret []
  | v :: l => d ← parseDirent v; ds ← parse_all l; Ret (d :: ds)
  end.
Definition parsebuf (buf : cstring) : outcome (list dirent) :=
  l ← split buf ELEMENTSEPERATOR; parse_all l.

Fixpoint write_entries (firstLoop : bool) (entries : list dirent) : cstring :=
  match entries with
  | [] => []
  | d :: entries =>
      (if firstLoop then [] else [ELEMENTSEPERATOR])
      ++ createBuffElement (d_inum d) (d_name d) ++ write_entries false entries
  end.
Definition writeDirent (entries : list dirent) : cstring := write_entries true entries.

(** * Splitting *)

(** Texts that join without an empty piece split back. *)
Fixpoint join (delim : ascii) (l : list cstring) : cstring :=
  match l with
  | [] => []
  | [x] => x
  | x :: l => x ++ delim :: join delim l
  end.

Lemma split_loop_join delim l fuel item elems :
  Forall (fun x => x <> [] /\ delim ∉ x) l -> (length l < fuel)%nat ->
  split_loop fuel delim (open_text (join delim l)) item elems = Ret (elems ++ l).
Proof.
  revert fuel item elems. induction l as [|x l IH]; intros [|fuel] item elems Hl Hf;
    simpl in Hf; try lia.
  - simpl. by rewrite app_nil_r.
  - apply Forall_cons in Hl as [[Hx Hd] Hl]. destruct l as [|y l].
    + cbn [join split_loop]. rewrite read_until_end by done. destruct fuel; [lia|].
      destruct x; [done|]. by cbn.
    + change (join delim (x :: y :: l)) with (x ++ delim :: join delim (y :: l)).
      cbn [split_loop]. rewrite read_until_app by done. simpl i_ok. cbn iota.
      rewrite IH by (done || simpl in *; lia). by rewrite <- app_assoc.
Qed.
Lemma join_length delim l :
  Forall (fun x => x <> [] /\ delim ∉ x) l -> (length l <= length (join delim l))%nat.
Proof.
  induction 1 as [|x l [Hx _] _ IH]; [done|]. destruct x; [done|].
  destruct l; simpl in *; [lia|]. rewrite length_app. simpl in *. lia.
Qed.
Lemma split_join delim l :
  Forall (fun x => x <> [] /\ delim ∉ x) l -> split (join delim l) delim = Ret l.
Proof.
  intros H. unfold split. rewrite split_loop_join; [done|done|].
  pose proof (join_length delim l H). lia.
Qed.

Lemma split_ends s delim : is_ret (split s delim).
Proof.
  unfold split. assert ((i_len (open_text s) < S (length s))%nat) as H by (unfold i_len; simpl; lia).
  revert H. generalize (open_text s) as i, (@nil ascii) as item, (@nil cstring) as elems.
  generalize (S (length s)) as fuel.
  induction fuel as [|fuel IH]; intros i item elems H; [lia|]. cbn [split_loop].
  pose proof (read_until_consumes delim i item) as Hc.
  destruct (read_until delim i item) as [i' it]. cbn [fst] in Hc.
  destruct (i_ok i'); [|by eexists]. apply IH. specialize (Hc eq_refl). lia.
Qed.

(** * Entries *)

(** What a directory can hold: a name that is neither empty nor has a separator. *)
Definition name_ok (n : cstring) : Prop :=
  n <> [] /\ (INUMSEPERATOR ∉ n) /\ (ELEMENTSEPERATOR ∉ n).
Definition dirent_ok (d : dirent) : Prop := name_ok (d_name d) /\ is_u64 (d_inum d).

#[global] Instance name_ok_dec n : Decision (name_ok n).
Proof. unfold name_ok. apply _. Defined.
#[global] Instance dirent_ok_dec d : Decision (dirent_ok d).
Proof. unfold dirent_ok. apply _. Defined.

Lemma n2i_print n : is_u64 n -> n2i (print_dec n) = Ret n.
Proof.
  intros H. unfold n2i. pose proof (read_unsigned_app 64 n [] 0 H H I) as E.
  rewrite app_nil_r in E. destruct (sentry_skip (open_text (print_dec n))) eqn:Es.
  - by rewrite E.
  - pose proof (print_dec_word n) as [Hne Hw]. destruct (print_dec n) as [|c r]; [done|].
    apply Forall_cons in Hw as [Hc _]. by rewrite sentry_skip_nonspace in Es.
Qed.

Lemma not_in_digits c n : is_digit c = false -> c ∉ print_dec n.
Proof.
  intros Hc Hin. pose proof (print_dec_digits n) as H.
  eapply Forall_forall in H; [|exact Hin]. simpl in H. congruence.
Qed.

Lemma parse_element d :
  dirent_ok d -> parseDirent (createBuffElement (d_inum d) (d_name d)) = Ret d.
Proof.
  intros [(Hne & Hat & _) Hu]. unfold parseDirent, createBuffElement.
  change (print_dec (d_inum d) ++ [INUMSEPERATOR] ++ d_name d)
    with (join INUMSEPERATOR [print_dec (d_inum d); d_name d]).
  rewrite split_join; [|repeat constructor; try done].
  - simpl. rewrite n2i_print by done. by destruct d.
  - apply print_dec_nonnil.
  - by apply not_in_digits.
Qed.

Lemma element_ok d :
  dirent_ok d ->
  createBuffElement (d_inum d) (d_name d) <> []
  /\ ELEMENTSEPERATOR ∉ createBuffElement (d_inum d) (d_name d).
Proof.
  intros [(_ & _ & Hs) _]. unfold createBuffElement. split.
  - intros E. apply app_eq_nil in E as [_ E]. done.
  - rewrite !not_elem_of_app, not_elem_of_cons. split_and!; try done.
    + by apply not_in_digits.
    + by apply not_elem_of_nil.
Qed.

Lemma write_entries_join l :
  writeDirent l = join ELEMENTSEPERATOR ((fun d => createBuffElement (d_inum d) (d_name d)) <$> l).
Proof.
  unfold writeDirent. destruct l as [|d l]; [done|]. simpl. revert d.
  induction l as [|d' l IH]; intros d; simpl; [by rewrite app_nil_r|].
  f_equal. simpl. f_equal. apply IH.
Qed.

Lemma parse_all_ok l :
  Forall dirent_ok l ->
  parse_all ((fun d => createBuffElement (d_inum d) (d_name d)) <$> l) = Ret l.
Proof.
  induction 1 as [|d l Hd _ IH]; [done|].
  cbn [fmap list_fmap parse_all]. rewrite parse_element by done. simpl. by rewrite IH.
Qed.

Lemma parse_write l : Forall dirent_ok l -> parsebuf (writeDirent l) = Ret l.
Proof.
  intros H. unfold parsebuf. rewrite write_entries_join, split_join.
  - simpl. by apply parse_all_ok.
  - apply Forall_fmap. eapply Forall_impl; [exact H|]. apply element_ok.
Qed.

(** Appending an element, as the creating operations do. *)
Lemma write_snoc l d :
  writeDirent (l ++ [d])
  = (if null l then writeDirent l else writeDirent l ++ [ELEMENTSEPERATOR])
    ++ createBuffElement (d_inum d) (d_name d).
Proof.
  assert (forall l, write_entries false (l ++ [d])
    = write_entries false l ++ [ELEMENTSEPERATOR] ++ createBuffElement (d_inum d) (d_name d)) as H.
  { clear. induction l as [|x l IH]; simpl; [by rewrite app_nil_r|].
    rewrite IH. simpl. by rewrite <- !app_assoc. }
  unfold writeDirent. destruct l as [|x l]; simpl; [by rewrite app_nil_r|].
  rewrite H. simpl. by rewrite <- !app_assoc.
Qed.

(** * Properties *)

(** C36 (directory round trip): the text a directory is stored as reads back as the
    same list of entries, provided the names are nonempty and have no separator. *)
Theorem directory_roundtrip l : Forall dirent_ok l -> parsebuf (writeDirent l) = Ret l.
Proof. apply parse_write. Qed.
Definition two_entries : list dirent :=
  [Dirent (cs "dir") 5; Dirent (cs "a b.txt") 2147483653].
Lemma directory_roundtrip_witness : parsebuf (writeDirent two_entries) = Ret two_entries.
Proof. apply directory_roundtrip. by_computing. Defined.

(** Separators in names: a name with the [@] of the directory format in it is
    stored and comes back cut at that character. *)
Theorem at_sign_truncates n1 n2 inum :
  name_ok n1 -> is_u64 inum -> n2 <> [] -> INUMSEPERATOR ∉ n2 -> ELEMENTSEPERATOR ∉ n2 ->
  parsebuf (writeDirent [Dirent (n1 ++ INUMSEPERATOR :: n2) inum]) = Ret [Dirent n1 inum].
Proof.
  intros (Hne & Hat & Hs) Hu Hne2 Hat2 Hs2. unfold parsebuf, writeDirent; simpl.
  rewrite app_nil_r. set (x := createBuffElement inum (n1 ++ INUMSEPERATOR :: n2)).
  change x with (join ELEMENTSEPERATOR [x]). rewrite split_join.
  2:{ repeat constructor.
      - unfold x, createBuffElement. intros E. apply app_eq_nil in E as [_ E]. done.
      - unfold x, createBuffElement. rewrite !not_elem_of_app, !not_elem_of_cons.
        split_and!; try done; [by apply not_in_digits|by apply not_elem_of_nil]. }
  simpl. unfold parseDirent. unfold x, createBuffElement.
  change (print_dec inum ++ [INUMSEPERATOR] ++ n1 ++ INUMSEPERATOR :: n2)
    with (join INUMSEPERATOR [print_dec inum; n1; n2]).
  rewrite split_join; [|repeat constructor; try done].
  - simpl. by rewrite n2i_print.
  - apply print_dec_nonnil.
  - by apply not_in_digits.
Qed.
Lemma at_sign_truncates_witness :
  parsebuf (writeDirent [Dirent (cs "me@home") 9]) = Ret [Dirent (cs "me") 9].
Proof. apply (at_sign_truncates (cs "me") (cs "home")); by_computing. Defined.
