(* ===== verification/Yfs.v ===== *)
(** The file system client: yfs_client.cc.

    Its operations use extents and locks through the interface [FileStore], whose laws
    are what they rely on; [Yfs] proves them against the laws, and the extent client of
    [Extent] with a list of the locks held is an instance. *)
From Stdlib Require Import ZArith Lia Ascii String.
From stdpp Require Import base gmap list strings.
From S2P Require Import Prelude TextIO Protocols Extent YfsDir.
Local Open Scope Z_scope.

Module yfs_status.
Definition OK : Z := 0.
Definition RPCERR : Z := 1.
Definition NOENT : Z := 2.
Definition IOERR : Z := 3.
Definition EXIST : Z := 4.
(** [EEXIST] of <errno.h>, which the creating operations return. *)
Definition EEXIST : Z := 17.
End yfs_status.
Import yfs_status.

Record fileinfo := FileInfo { fi_size : Z; fi_atime : Z; fi_mtime : Z; fi_ctime : Z }.
Record dirinfo := DirInfo { di_atime : Z; di_mtime : Z; di_ctime : Z }.

(** * Extents and locks *)

Class FileStore (W : Type) := {
  ec_get : Z -> W -> W * Z * cstring;
  ec_getattr : Z -> W -> W * Z * attr;
  ec_put : Z -> cstring -> W -> W * Z;
  ec_remove : Z -> W -> W * Z;
  lc_acquire : Z -> W -> W;
  lc_release : Z -> W -> W }.

(** A lock is given up. *)
Fixpoint unlock (id : Z) (l : list Z) : list Z :=
  match l with
  | [] => []
  | x :: l => if x =? id then l else x :: unlock id l
  end.

(** From one state to the next: what the client may use it still may, and it has no new copies
    without their locks but of [new]. *)
Definition evolves {W} (wf : W -> Prop) (usable loose : W -> Z -> Prop) (new : list Z)
    (w w' : W) : Prop :=
  wf w' /\ (forall i, usable w i -> usable w' i) /\
  (forall i, loose w' i -> loose w i \/ i ∈ new).

Lemma evolves_trans {W} (wf : W -> Prop) usable loose l l' (w w1 w2 : W) :
  evolves wf usable loose l w w1 -> evolves wf usable loose l' w1 w2 ->
  evolves wf usable loose (l ++ l') w w2.
Proof.
  intros (_ & U1 & L1) (W2 & U2 & L2). split; [done|]. split; [auto|].
  intros i [Hi|Hi]%L2; [|rewrite elem_of_app; auto].
  destruct (L1 i Hi); [auto|]. rewrite elem_of_app. auto.
Qed.

(** What the operations of a store do, as one of its clients sees it: to the contents of the
    extents ([None]: there is no such extent), to the locks its thread holds, to the extents it
    may use because no other client has their locks ([usable]), and to the extents it has a copy
    of without having the lock ([loose]).  A lock the thread holds cannot be acquired again: the
    thread would wait for itself. *)
Class FileStoreLaws (W : Type) `{FileStore W} := {
  stored : W -> Z -> option cstring;
  held : W -> list Z;
  wf : W -> Prop;
  usable : W -> Z -> Prop;
  loose : W -> Z -> Prop;
  held_usable id w : wf w -> id ∈ held w -> usable w id;
  held_not_loose id w : wf w -> id ∈ held w -> ~ loose w id;
  get_law id w : wf w -> id ∈ held w ->
    let '(w', st, b) := ec_get id w in
    evolves wf usable loose [] w w' /\ held w' = held w
    /\ (forall i, stored w' i = stored w i)
    /\ match stored w id with
       | Some v => st = extent_protocol.OK /\ b = v
       | None => b = []
       end;
  getattr_law id w : wf w -> id ∈ held w ->
    let '(w', st, a) := ec_getattr id w in
    evolves wf usable loose [] w w' /\ held w' = held w
    /\ (forall i, stored w' i = stored w i)
    /\ match stored w id with
       | Some v => st = extent_protocol.OK /\ a_size a = u32 (Z.of_nat (length v))
       | None => a_size a = 0
       end;
  put_law id b w : wf w -> usable w id ->
    let '(w', st) := ec_put id b w in
    evolves wf usable loose [id] w w' /\ held w' = held w
    /\ (forall i, stored w' i = if decide (i = id) then Some b else stored w i);
  remove_law id w : wf w -> id ∈ held w ->
    let '(w', st) := ec_remove id w in
    evolves wf usable loose [] w w' /\ held w' = held w
    /\ (forall i, i <> id -> stored w' i = stored w i);
  acquire_law id w : wf w -> id ∉ held w ->
    evolves wf usable loose [] w (lc_acquire id w)
    /\ held (lc_acquire id w) = id :: held w
    /\ (forall i, stored (lc_acquire id w) i = stored w i);
  release_law id w : wf w -> id ∈ held w ->
    evolves wf usable loose [] w (lc_release id w)
    /\ held (lc_release id w) = unlock id (held w)
    /\ (forall i, stored (lc_release id w) i = stored w i) }.

Abbreviation evolved := (evolves wf usable loose).

(** * Operations *)

(** [resize(n, '\0')]. *)
Definition resize (s : cstring) (n : nat) : cstring :=
  take n s ++ repeat (char_of_Z 0) (n - length s).

Section operations.
  Context {W : Type} `{FileStore W}.

(** The result variable keeps its value on failure. *)
Definition getfile (inum : Z) (fin : fileinfo) (w : W) : W * Z * fileinfo :=
  let w := lc_acquire inum w in
  let '(w, st, a) := ec_getattr inum w in
  if negb (st =? extent_protocol.OK) then (lc_release inum w, IOERR, fin)
  else (lc_release inum w, OK, FileInfo (a_size a) (a_atime a) (a_mtime a) (a_ctime a)).

Definition getdir (inum : Z) (din : dirinfo) (w : W) : W * Z * dirinfo :=
  let w := lc_acquire inum w in
  let '(w, st, a) := ec_getattr inum w in
  if negb (st =? extent_protocol.OK) then (lc_release inum w, IOERR, din)
  else (lc_release inum w, OK, DirInfo (a_atime a) (a_mtime a) (a_ctime a)).

(** What follows in the creating operations once the name is known to be free. *)
Definition append_entry (parent : Z) (contents : list dirent) (parent_buf : cstring) (inum : Z)
    (buf : cstring) (w : W) : W :=
  let parent_buf := if negb (Z.of_nat (length contents) =? 0)
                    then parent_buf ++ [ELEMENTSEPERATOR] else parent_buf in
  let parent_buf := parent_buf ++ createBuffElement inum buf in
  let '(w, _) := ec_put inum [] w in
  let '(w, _) := ec_put parent parent_buf w in
  lc_release parent w.

(** [rnd] is what [random()] returns; [inum] what the result variable held. *)
Definition createFile (rnd inum parent : Z) (buf : cstring) (w : W) : outcome (W * Z * Z) :=
  let w := lc_acquire parent w in
  let '(w, st, parent_buf) := ec_get parent w in
  if negb (st =? extent_protocol.OK) then Ret (w, NOENT, inum)
  else
    contents ← parsebuf parent_buf;
    if existsb (fun d => str_eqb (d_name d) buf && isfile (d_inum d)) contents
    then Ret (lc_release parent w, EEXIST, inum)
    else
      let inum := Z.lor rnd 0x80000000 in
      Ret (append_entry parent contents parent_buf inum buf w, OK, inum).

Definition createDirectory (rnd inum parent : Z) (buf : cstring) (w : W) : outcome (W * Z * Z) :=
  let w := lc_acquire parent w in
  let '(w, st, parent_buf) := ec_get parent w in
  if negb (st =? extent_protocol.OK) then Ret (lc_release parent w, NOENT, inum)
  else
    contents ← parsebuf parent_buf;
    if existsb (fun d => str_eqb (d_name d) buf && negb (isfile (d_inum d))) contents
    then Ret (lc_release parent w, EEXIST, inum)
    else
      let inum := Z.land rnd 0x7FFFFFFF in
      Ret (append_entry parent contents parent_buf inum buf w, OK, inum).

(** The first file with the name is taken out of the list. *)
Fixpoint take_out (buf : cstring) (contents : list dirent) : option (Z * list dirent) :=
  match contents with
  | [] => None
  | d :: contents =>
      if str_eqb (d_name d) buf && isfile (d_inum d) then Some (d_inum d, contents)
      else match take_out buf contents with
           | Some (i, l) => Some (i, d :: l)
           | None => None
           end
  end.
Definition unlinkFile (parent : Z) (buf : cstring) (w : W) : outcome (W * Z) :=
  let w := lc_acquire parent w in
  let '(w, st, parent_buf) := ec_get parent w in
  if negb (st =? extent_protocol.OK) then Ret (lc_release parent w, NOENT)
  else
    contents ← parsebuf parent_buf;
    match take_out buf contents with
    | None => Ret (lc_release parent w, NOENT)
    | Some (fileInum, contents) =>
        let w := lc_acquire fileInum w in
        let '(w, _) := ec_put parent (writeDirent contents) w in
        let '(w, _) := ec_remove fileInum w in
        let w := lc_release fileInum w in
        Ret (lc_release parent w, OK)
    end.

Definition find_name (buf : cstring) (contents : list dirent) : Z :=
  match List.find (fun d => str_eqb (d_name d) buf) contents with
  | Some d => d_inum d
  | None => 0
  end.
Definition lookupResource (parent : Z) (buf : cstring) (w : W) : outcome (W * Z * Z) :=
  let w := lc_acquire parent w in
  let '(w, st, parent_buf) := ec_get parent w in
  if negb (st =? extent_protocol.OK) then Ret (lc_release parent w, IOERR, 0)
  else
    contents ← parsebuf parent_buf;
    Ret (lc_release parent w, OK, find_name buf contents).

Definition getDirContents (inum : Z) (w : W) : W * Z * cstring :=
  let w := lc_acquire inum w in
  let '(w, st, buf) := ec_get inum w in
  (lc_release inum w, if st =? extent_protocol.OK then OK else IOERR, buf).

Definition setAttr (inum : Z) (fi : fileinfo) (w : W) : W * Z :=
  let w := lc_acquire inum w in
  let '(w, st, a) := ec_getattr inum w in
  if st =? extent_protocol.OK then
    if (fi_size fi <? a_size a) || (a_size a <? fi_size fi) then
      let '(w, _, buf) := ec_get inum w in
      let '(w, _) := ec_put inum (resize buf (Z.to_nat (fi_size fi))) w in
      (lc_release inum w, OK)
    else (lc_release inum w, OK)
  else (lc_release inum w, IOERR).

(** [off + size] is an unsigned 64-bit sum; [replace] throws when it starts past the
    end. *)
Definition writeFile (inum : Z) (data : cstring) (off : Z) (w : W) : outcome (W * Z) :=
  let w := lc_acquire inum w in
  let '(w, st, cur) := ec_get inum w in
  if st =? extent_protocol.OK then
    let size := Z.of_nat (length data) in
    let cur := if Z.of_nat (length cur) <? u64 (off + size)
               then resize cur (Z.to_nat (u64 (off + size))) else cur in
    let pos := Z.to_nat (u64 off) in
    if (length cur <? pos)%nat then Fault Uncaught
    else
      let cur := take pos cur ++ data ++ drop (pos + length data) cur in
      let '(w, _) := ec_put inum cur w in
      Ret (lc_release inum w, OK)
  else Ret (lc_release inum w, IOERR).

Definition readFile (inum : Z) (buf : cstring) (size off : Z) (w : W) : W * Z * cstring :=
  let w := lc_acquire inum w in
  let '(w, st, cur) := ec_get inum w in
  if st =? extent_protocol.OK then
    if Z.of_nat (length cur) <? u64 off then (lc_release inum w, IOERR, buf)
    else (lc_release inum w, OK, take (Z.to_nat (u64 size)) (drop (Z.to_nat (u64 off)) cur))
  else (lc_release inum w, IOERR, buf).
End operations.

(** * Correctness *)

Lemma isfile_testbit i : isfile i = Z.testbit i 31.
Proof.
  unfold isfile. replace 0x80000000 with (2 ^ 31) by done.
  destruct (Z.eqb_spec (Z.land i (2 ^ 31)) 0) as [E|E]; simpl.
  - apply (f_equal (fun z => Z.testbit z 31)) in E.
    rewrite Z.land_spec, Z.pow2_bits_true, andb_true_r, Z.bits_0 in E by lia. done.
  - destruct (Z.testbit i 31) eqn:F; [done|]. destruct E. apply Z.bits_inj'. intros n Hn.
    rewrite Z.land_spec, Z.bits_0. destruct (Z.eq_dec n 31) as [->|]; [by rewrite F|].
    rewrite Z.pow2_bits_false by lia. apply andb_false_r.
Qed.
Lemma new_file rnd : 0 <= rnd < 2 ^ 31 ->
  isfile (Z.lor rnd 0x80000000) = true /\ is_u64 (Z.lor rnd 0x80000000).
Proof.
  intros Hr. split.
  - rewrite isfile_testbit, Z.lor_spec. apply orb_true_r.
  - split; [apply Z.lor_nonneg; lia|].
    destruct (Z.eq_dec (Z.lor rnd 0x80000000) 0) as [->|Hnz]; [done|].
    assert (0 <= Z.lor rnd 0x80000000) by (apply Z.lor_nonneg; lia).
    apply Z.log2_lt_pow2; [lia|]. rewrite Z.log2_lor by lia.
    change (Z.log2 0x80000000) with 31.
    destruct (Z.eq_dec rnd 0) as [->|]; [done|].
    assert (Z.log2 rnd < 31) by (apply Z.log2_lt_pow2; lia). lia.
Qed.
Lemma new_dir rnd : 0 <= rnd -> isfile (Z.land rnd 0x7FFFFFFF) = false
  /\ 0 <= Z.land rnd 0x7FFFFFFF < 2 ^ 31.
Proof.
  intros Hr. replace 0x7FFFFFFF with (Z.ones 31) by done. rewrite Z.land_ones by lia.
  split; [|apply Z.mod_pos_bound; lia].
  rewrite isfile_testbit. apply Z.mod_pow2_bits_high. lia.
Qed.

Section correct.
  Context {W : Type} `{FileStoreLaws W}.

Lemma evolved_trans l l' w w1 w2 : evolved l w w1 -> evolved l' w1 w2 -> evolved (l ++ l') w w2.
Proof. apply evolves_trans. Qed.
Lemma evolved_wf l w w' : evolved l w w' -> wf w'.
Proof. by intros []. Qed.
Lemma evolved_usable l w w' i : evolved l w w' -> usable w i -> usable w' i.
Proof. intros (_ & U & _). apply U. Qed.
(** New copies whose locks the thread has since taken are not loose. *)
Lemma evolved_held l w w' : evolved l w w' -> Forall (fun i => i ∈ held w') l -> evolved [] w w'.
Proof.
  intros (Hw & U & L) Hl. split; [done|]. split; [done|]. intros i Hi.
  destruct (L i Hi) as [|Hin]; [auto|]. eapply Forall_forall in Hl; [|exact Hin].
  by destruct (held_not_loose i w' Hw Hl).
Qed.

Lemma put_held id b w : wf w -> id ∈ held w ->
  let '(w', st) := ec_put id b w in
  evolved [] w w' /\ held w' = held w
  /\ (forall i, stored w' i = if decide (i = id) then Some b else stored w i).
Proof.
  intros Hw Hi. pose proof (put_law id b w Hw (held_usable id w Hw Hi)) as Hp.
  destruct (ec_put id b w) as [w' st]. destruct Hp as (He & Hh & Hs). split; [|done].
  eapply evolved_held; [exact He|]. rewrite Hh. by constructor.
Qed.

(** Taking the lock of an extent and reading it. *)
Lemma open_spec id w :
  wf w -> id ∉ held w ->
  let '(w', st, b) := ec_get id (lc_acquire id w) in
  evolved [] w w' /\ held w' = id :: held w
  /\ (forall i, stored w' i = stored w i)
  /\ match stored w id with
     | Some v => st = extent_protocol.OK /\ b = v
     | None => b = []
     end.
Proof.
  intros Hw Hi. destruct (acquire_law id w Hw Hi) as (He & Hh & Hs).
  pose proof (get_law id _ (evolved_wf _ _ _ He)) as Hg. rewrite Hh in Hg.
  specialize (Hg ltac:(by left)). destruct (ec_get id _) as [[w' st] b].
  destruct Hg as (He' & Hh' & Hs' & Hst). rewrite Hs in Hst. split_and!; try done.
  - exact (evolved_trans _ _ _ _ _ He He').
  - intros i. by rewrite Hs', Hs.
Qed.
Lemma open_attr_spec id w :
  wf w -> id ∉ held w ->
  let '(w', st, a) := ec_getattr id (lc_acquire id w) in
  evolved [] w w' /\ held w' = id :: held w
  /\ (forall i, stored w' i = stored w i)
  /\ match stored w id with
     | Some v => st = extent_protocol.OK /\ a_size a = u32 (Z.of_nat (length v))
     | None => a_size a = 0
     end.
Proof.
  intros Hw Hi. destruct (acquire_law id w Hw Hi) as (He & Hh & Hs).
  pose proof (getattr_law id _ (evolved_wf _ _ _ He)) as Hg. rewrite Hh in Hg.
  specialize (Hg ltac:(by left)). destruct (ec_getattr id _) as [[w' st] b].
  destruct Hg as (He' & Hh' & Hs' & Hst). rewrite Hs in Hst. split_and!; try done.
  - exact (evolved_trans _ _ _ _ _ He He').
  - intros i. by rewrite Hs', Hs.
Qed.

(** Giving up the lock taken last. *)
Lemma close_spec id l h w w1 :
  evolved l w w1 -> held w1 = id :: h ->
  evolved l w (lc_release id w1) /\ held (lc_release id w1) = h
  /\ (forall i, stored (lc_release id w1) i = stored w1 i).
Proof.
  intros He Hh. destruct (release_law id w1 (evolved_wf _ _ _ He)) as (He2 & Hh2 & Hs2).
  { rewrite Hh. by left. }
  split_and!; [|by rewrite Hh2, Hh; simpl; rewrite Z.eqb_refl|done].
  rewrite <- (app_nil_r l). by eapply evolved_trans.
Qed.

(** Between two operations: the thread holds no lock. *)
Definition idle (w : W) : Prop := wf w /\ held w = [].
(** What an operation that starts and ends idle comes to. *)
Definition done_with (new : list Z) (w w' : W) : Prop := evolved new w w' /\ held w' = [].

Lemma done_idle l w w' : done_with l w w' -> idle w'.
Proof. intros [He Hh]. split; [by eapply evolved_wf|done]. Qed.
Lemma done_trans l l' w w1 w2 : done_with l w w1 -> done_with l' w1 w2 -> done_with (l ++ l') w w2.
Proof. intros [E1 _] [E2 ?]. split; [by eapply evolved_trans|done]. Qed.
Lemma done_usable l w w' i : done_with l w w' -> usable w i -> usable w' i.
Proof. intros [He _]. by eapply evolved_usable. Qed.
Lemma done_refl w : idle w -> done_with [] w w.
Proof. intros []. split; [|done]. split; [done|]. auto. Qed.

Lemma idle_open id w : idle w ->
  let '(w', st, b) := ec_get id (lc_acquire id w) in
  evolved [] w w' /\ held w' = [id] /\ (forall i, stored w' i = stored w i)
  /\ match stored w id with
     | Some v => st = extent_protocol.OK /\ b = v
     | None => b = []
     end.
Proof.
  intros [Hw Hh]. pose proof (open_spec id w Hw) as Ho. rewrite Hh in Ho.
  apply Ho. apply not_elem_of_nil.
Qed.
Lemma idle_open_attr id w : idle w ->
  let '(w', st, a) := ec_getattr id (lc_acquire id w) in
  evolved [] w w' /\ held w' = [id] /\ (forall i, stored w' i = stored w i)
  /\ match stored w id with
     | Some v => st = extent_protocol.OK /\ a_size a = u32 (Z.of_nat (length v))
     | None => a_size a = 0
     end.
Proof.
  intros [Hw Hh]. pose proof (open_attr_spec id w Hw) as Ho. rewrite Hh in Ho.
  apply Ho. apply not_elem_of_nil.
Qed.
Lemma idle_close id l w w1 : evolved l w w1 -> held w1 = [id] ->
  done_with l w (lc_release id w1) /\ (forall i, stored (lc_release id w1) i = stored w1 i).
Proof.
  intros He Hh. destruct (close_spec id l [] w w1 He Hh) as (? & ? & ?). by split; [split|].
Qed.

(** Two writes and the release of the lock taken first. *)
Lemma append_entry_spec parent es inum name w w1 :
  evolved [] w w1 -> held w1 = [parent] -> parent <> inum -> usable w inum ->
  let w' := append_entry parent es (writeDirent es) inum name w1 in
  done_with [inum] w w'
  /\ stored w' parent = Some (writeDirent (es ++ [Dirent name inum]))
  /\ stored w' inum = Some []
  /\ (forall i, i <> parent -> i <> inum -> stored w' i = stored w1 i).
Proof.
  intros He Hh Hne Hu. unfold append_entry.
  match goal with |- context [ec_put parent ?b _] => set (pb := b) end.
  assert (pb = writeDirent (es ++ [Dirent name inum])) as Epb.
  { unfold pb. rewrite write_snoc. by destruct es. }
  clearbody pb. subst pb.
  pose proof (put_law inum [] w1 (evolved_wf _ _ _ He) (evolved_usable _ _ _ _ He Hu)) as H1.
  destruct (ec_put inum [] w1) as [w2 st1]. destruct H1 as (He1 & Hh1 & Hs1).
  pose proof (put_held parent (writeDirent (es ++ [Dirent name inum])) w2
    (evolved_wf _ _ _ He1)) as H2. rewrite Hh1, Hh in H2. specialize (H2 ltac:(by left)).
  destruct (ec_put parent _ w2) as [w3 st2]. destruct H2 as (He2 & Hh2 & Hs2).
  pose proof (evolved_trans _ _ _ _ _ He (evolved_trans _ _ _ _ _ He1 He2)) as He3.
  simpl in He3. destruct (idle_close parent _ _ _ He3 Hh2) as (Hd & Hs3). split_and!; [done|..].
  - by rewrite Hs3, Hs2, decide_True.
  - by rewrite Hs3, Hs2, decide_False, Hs1, decide_True by done.
  - intros i ??. by rewrite Hs3, Hs2, decide_False, Hs1, decide_False by done.
Qed.

(** A directory that holds the entries [es]. *)
Definition directory (w : W) (parent : Z) (es : list dirent) : Prop :=
  stored w parent = Some (writeDirent es) /\ Forall dirent_ok es.

Definition has_file (es : list dirent) (name : cstring) : bool :=
  existsb (fun d => str_eqb (d_name d) name && isfile (d_inum d)) es.
Definition has_dir (es : list dirent) (name : cstring) : bool :=
  existsb (fun d => str_eqb (d_name d) name && negb (isfile (d_inum d))) es.

(** What creating [inum] under a name comes to: an error and no change if the name is taken. *)
Definition created (taken : bool) (i0 parent inum : Z) (name : cstring) (es : list dirent)
    (w w' : W) (st i : Z) : Prop :=
  if taken
  then st = EEXIST /\ i = i0 /\ done_with [] w w' /\ (forall x, stored w' x = stored w x)
  else st = OK /\ i = inum /\ done_with [inum] w w' /\ stored w' inum = Some []
       /\ directory w' parent (es ++ [Dirent name inum])
       /\ (forall x, x <> parent -> x <> inum -> stored w' x = stored w x).

Lemma createFile_spec rnd i0 parent name es w :
  let inum := Z.lor rnd 0x80000000 in
  idle w -> directory w parent es -> isdir parent = true -> name_ok name ->
  0 <= rnd < 2 ^ 31 -> usable w inum ->
  exists w' st i, createFile rnd i0 parent name w = Ret (w', st, i)
    /\ created (has_file es name) i0 parent inum name es w w' st i.
Proof.
  intros inum Hw [Hd Hes] Hdir Hname Hr Hu. unfold createFile.
  pose proof (idle_open parent w Hw) as Ho. destruct (ec_get parent _) as [[w1 st] b].
  destruct Ho as (He1 & Hh1 & Hs1 & Hst). rewrite Hd in Hst. destruct Hst as [-> ->].
  simpl negb. cbn iota. rewrite parse_write by done. simpl. fold (has_file es name).
  destruct (new_file rnd Hr) as [Hf Hu64]. unfold created.
  destruct (has_file es name).
  - destruct (idle_close parent _ _ _ He1 Hh1) as (Hd2 & Hs2).
    eexists _, _, _. split; [done|]. split_and!; try done. intros x. by rewrite Hs2, Hs1.
  - assert (parent <> inum) as Hne.
    { intros E. unfold isdir in Hdir. rewrite E in Hdir. unfold inum in Hdir. by rewrite Hf in Hdir. }
    destruct (append_entry_spec parent es inum name w w1 He1 Hh1 Hne Hu) as (Hd2 & Hp & Hi & Ho).
    eexists _, _, _. split; [done|]. split_and!; try done.
    + split; [done|]. apply Forall_app. split; [done|]. by apply Forall_singleton.
    + intros x ??. by rewrite Ho, Hs1.
Qed.

Lemma createDirectory_spec rnd i0 parent name es w :
  let inum := Z.land rnd 0x7FFFFFFF in
  idle w -> directory w parent es -> name_ok name -> 0 <= rnd -> parent <> inum ->
  usable w inum ->
  exists w' st i, createDirectory rnd i0 parent name w = Ret (w', st, i)
    /\ created (has_dir es name) i0 parent inum name es w w' st i.
Proof.
  intros inum Hw [Hd Hes] Hname Hr Hne Hu. unfold createDirectory.
  pose proof (idle_open parent w Hw) as Ho. destruct (ec_get parent _) as [[w1 st] b].
  destruct Ho as (He1 & Hh1 & Hs1 & Hst). rewrite Hd in Hst. destruct Hst as [-> ->].
  simpl negb. cbn iota. rewrite parse_write by done. simpl. fold (has_dir es name).
  destruct (new_dir rnd Hr) as [_ Hrange]. unfold created.
  destruct (has_dir es name).
  - destruct (idle_close parent _ _ _ He1 Hh1) as (Hd2 & Hs2).
    eexists _, _, _. split; [done|]. split_and!; try done. intros x. by rewrite Hs2, Hs1.
  - destruct (append_entry_spec parent es inum name w w1 He1 Hh1 Hne Hu) as (Hd2 & Hp & Hi & Ho).
    eexists _, _, _. split; [done|]. split_and!; try done.
    + split; [done|]. apply Forall_app. split; [done|]. apply Forall_singleton.
      split; [done|]. unfold is_u64. simpl. unfold inum. lia.
    + intros x ??. by rewrite Ho, Hs1.
Qed.

Lemma lookup_spec parent name es w :
  idle w -> directory w parent es ->
  exists w', lookupResource parent name w = Ret (w', OK, find_name name es)
    /\ done_with [] w w' /\ forall x, stored w' x = stored w x.
Proof.
  intros Hw [Hd Hes]. unfold lookupResource.
  pose proof (idle_open parent w Hw) as Ho. destruct (ec_get parent _) as [[w1 st] b].
  destruct Ho as (He1 & Hh1 & Hs1 & Hst). rewrite Hd in Hst. destruct Hst as [-> ->].
  simpl negb. cbn iota. rewrite parse_write by done. simpl.
  destruct (idle_close parent _ _ _ He1 Hh1) as (Hd2 & Hs2).
  eexists. split; [done|]. split; [done|]. intros x. by rewrite Hs2, Hs1.
Qed.

Lemma take_out_ok name es i es' :
  Forall dirent_ok es -> take_out name es = Some (i, es') ->
  isfile i = true /\ Forall dirent_ok es' /\
  exists l l' d, es = l ++ d :: l' /\ es' = l ++ l' /\ d_inum d = i /\ d_name d = name.
Proof.
  intros Hes. revert i es'. induction Hes as [|d es Hd Hes IH]; simpl; intros i es' Et; [done|].
  destruct (str_eqb (d_name d) name && isfile (d_inum d)) eqn:E.
  - apply andb_true_iff in E as [En Ef]. simplify_eq. split_and!; try done.
    exists [], es', d. split_and!; try done. by apply str_eqb_eq.
  - destruct (take_out name es) as [[j l]|]; [|done]. simplify_eq.
    destruct (IH _ _ eq_refl) as (Hf & Hok & l1 & l2 & d' & -> & -> & ? & ?).
    split_and!; [done|by constructor|]. by exists (d :: l1), l2, d'.
Qed.

Lemma unlink_spec parent name es w :
  idle w -> directory w parent es -> isdir parent = true ->
  exists w' st, unlinkFile parent name w = Ret (w', st)
    /\ done_with [] w w'
    /\ match take_out name es with
       | None => st = NOENT /\ forall x, stored w' x = stored w x
       | Some (i, es') => st = OK /\ directory w' parent es'
           /\ forall x, x <> parent -> x <> i -> stored w' x = stored w x
       end.
Proof.
  intros Hw [Hd Hes] Hdir. unfold unlinkFile.
  pose proof (idle_open parent w Hw) as Ho. destruct (ec_get parent _) as [[w1 st] b].
  destruct Ho as (He1 & Hh1 & Hs1 & Hst). rewrite Hd in Hst. destruct Hst as [-> ->].
  simpl negb. cbn iota. rewrite parse_write by done. simpl.
  destruct (take_out name es) as [[i es']|] eqn:Et.
  - destruct (take_out_ok _ _ _ _ Hes Et) as (Hf & Hes' & _).
    assert (i <> parent) as Hip by (intros ->; unfold isdir in Hdir; by rewrite Hf in Hdir).
    destruct (acquire_law i w1 (evolved_wf _ _ _ He1)) as (He2 & Hh2 & Hs2).
    { rewrite Hh1. by rewrite list_elem_of_singleton. }
    rewrite Hh1 in Hh2. pose proof (put_held parent (writeDirent es') _ (evolved_wf _ _ _ He2)) as H3.
    rewrite Hh2 in H3. specialize (H3 ltac:(set_solver)).
    destruct (ec_put parent _ _) as [w3 st3]. destruct H3 as (He3 & Hh3 & Hs3).
    pose proof (remove_law i w3 (evolved_wf _ _ _ He3)) as H4. rewrite Hh3 in H4.
    specialize (H4 ltac:(set_solver)). destruct (ec_remove i w3) as [w4 st4].
    destruct H4 as (He4 & Hh4 & Hs4).
    pose proof (evolved_trans _ _ _ _ _ (evolved_trans _ _ _ _ _ He1 He2)
      (evolved_trans _ _ _ _ _ He3 He4)) as He5. simpl in He5.
    destruct (close_spec i _ _ _ _ He5 Hh4) as (He6 & Hh6 & Hs6).
    destruct (idle_close parent _ _ _ He6 Hh6) as (Hd7 & Hs7).
    eexists _, _. split; [done|]. split; [done|]. split; [done|]. split.
    + split; [|done]. by rewrite Hs7, Hs6, Hs4, Hs3, decide_True by done.
    + intros x Hxp Hxi. by rewrite Hs7, Hs6, Hs4, Hs3, decide_False, Hs2, Hs1 by done.
  - destruct (idle_close parent _ _ _ He1 Hh1) as (Hd2 & Hs2).
    eexists _, _. split; [done|]. split; [done|]. split; [done|].
    intros x. by rewrite Hs2, Hs1.
Qed.

(** ** Contents of files *)

Lemma length_resize s n : length (resize s n) = n.
Proof. unfold resize. rewrite length_app, length_take, repeat_length. lia. Qed.

(** The text with [data] at [off], padded with zero bytes when it was too short. *)
Definition overwrite (cur data : cstring) (off : nat) : cstring :=
  let cur := resize cur (Nat.max (length cur) (off + length data)) in
  take off cur ++ data ++ drop (off + length data) cur.

Lemma resize_same s : resize s (length s) = s.
Proof. unfold resize. rewrite take_ge by lia. rewrite Nat.sub_diag. apply app_nil_r. Qed.

(** A write at an offset that does not wrap around; a file that is not there is not written, or
    is made, empty, and then written. *)
Lemma write_spec inum data off w :
  idle w -> 0 <= off -> off + Z.of_nat (length data) < 2 ^ 64 ->
  exists w' st, writeFile inum data off w = Ret (w', st)
    /\ done_with [] w w' /\ (forall x, x <> inum -> stored w' x = stored w x)
    /\ ((st = OK /\ stored w' inum
           = Some (overwrite (default [] (stored w inum)) data (Z.to_nat off)))
        \/ (st = IOERR /\ stored w inum = None /\ stored w' inum = None)).
Proof.
  intros Hw H0' H1'. unfold writeFile.
  pose proof (idle_open inum w Hw) as Ho. destruct (ec_get inum _) as [[w1 st] b].
  destruct Ho as (He1 & Hh1 & Hs1 & Hst).
  destruct (Z.eqb_spec st extent_protocol.OK) as [_|Hne].
  2:{ destruct (idle_close inum _ _ _ He1 Hh1) as (Hd2 & Hs2).
      eexists _, _. split; [done|]. split; [done|]. split; [intros; by rewrite Hs2, Hs1|].
      right. rewrite Hs2, Hs1. destruct (stored w inum); [by destruct Hst|done]. }
  assert (b = default [] (stored w inum)) as ->.
  { destruct (stored w inum); [by destruct Hst|done]. }
  rewrite (u64_id (off + _)), (u64_id off) by width_lia. set (v := default [] (stored w inum)).
  match goal with |- context [if (Z.of_nat (length v) <? ?x) then ?y else v] =>
    set (cur := if (Z.of_nat (length v) <? x) then y else v) end.
  assert (cur = resize v (Nat.max (length v) (Z.to_nat off + length data))) as Ecur.
  { unfold cur. destruct (Z.ltb_spec (Z.of_nat (length v)) (off + Z.of_nat (length data))).
    - f_equal. lia.
    - replace (Nat.max _ _) with (length v) by lia. symmetry. apply resize_same. }
  assert ((length cur <? Z.to_nat off)%nat = false) as ->.
  { apply Nat.ltb_ge. rewrite Ecur, length_resize. lia. }
  rewrite Ecur. fold (overwrite v data (Z.to_nat off)).
  pose proof (put_held inum (overwrite v data (Z.to_nat off)) w1 (evolved_wf _ _ _ He1)) as H2.
  rewrite Hh1 in H2. specialize (H2 ltac:(by left)).
  destruct (ec_put inum _ w1) as [w2 st2]. destruct H2 as (He2 & Hh2 & Hs2).
  pose proof (evolved_trans _ _ _ _ _ He1 He2) as He3.
  destruct (idle_close inum _ _ _ He3 Hh2) as (Hd3 & Hs3).
  eexists _, _. split; [done|]. split; [done|]. split.
  - intros x Hx. by rewrite Hs3, Hs2, decide_False, Hs1 by done.
  - left. by rewrite Hs3, Hs2, decide_True.
Qed.

Lemma read_spec inum buf size off w :
  idle w -> is_u64 off -> is_u64 size ->
  let '(w', st, b) := readFile inum buf size off w in
  done_with [] w w' /\ (forall x, stored w' x = stored w x)
  /\ (forall v, stored w inum = Some v ->
      if Z.of_nat (length v) <? off then st = IOERR /\ b = buf
      else st = OK /\ b = take (Z.to_nat size) (drop (Z.to_nat off) v)).
Proof.
  intros Hw Ho Hsz. unfold readFile.
  pose proof (idle_open inum w Hw) as Hop. destruct (ec_get inum _) as [[w1 st] b].
  destruct Hop as (He1 & Hh1 & Hs1 & Hst).
  destruct (idle_close inum _ _ _ He1 Hh1) as (Hd2 & Hs2).
  assert (forall x, stored (lc_release inum w1) x = stored w x) as Hs by (intros; by rewrite Hs2, Hs1).
  rewrite !u64_id by done.
  destruct (Z.eqb_spec st extent_protocol.OK) as [_|Hne].
  - assert (b = default [] (stored w inum)) as ->.
    { destruct (stored w inum); [by destruct Hst|done]. }
    destruct (Z.of_nat (length (default [] (stored w inum))) <? off) eqn:E;
      (split; [done|]); (split; [done|]); intros v Hv; rewrite Hv in *; simpl in *; by rewrite E.
  - split; [done|]. split; [done|]. intros v Hv. rewrite Hv in Hst. by destruct Hst.
Qed.

Lemma read_overwrite v data off :
  take (length data) (drop off (overwrite v data off)) = data
  /\ (off <= length (overwrite v data off))%nat.
Proof.
  unfold overwrite. set (c := resize v _).
  assert (off + length data <= length c)%nat as Hl by (unfold c; rewrite length_resize; lia).
  assert (length (take off c) = off) as Ht by (rewrite length_take; lia).
  split.
  - rewrite drop_app_ge by lia. rewrite Ht, Nat.sub_diag, drop_0.
    rewrite take_app_le by lia. by rewrite take_ge.
  - rewrite !length_app. lia.
Qed.

(** A file whose size fits the attribute's 32 bits gets the size; another extent is touched
    only when it is the one named. *)
Lemma setattr_spec inum fi w :
  idle w -> 0 <= fi_size fi ->
  let '(w', st) := setAttr inum fi w in
  done_with [] w w' /\ (forall x, x <> inum -> stored w' x = stored w x)
  /\ (stored w inum <> None -> stored w' inum <> None)
  /\ (forall v, stored w inum = Some v -> is_u32 (Z.of_nat (length v)) ->
      st = OK /\ stored w' inum = Some (resize v (Z.to_nat (fi_size fi)))).
Proof.
  intros Hw Hsz. unfold setAttr.
  pose proof (idle_open_attr inum w Hw) as Ho. destruct (ec_getattr inum _) as [[w1 st] a].
  destruct Ho as (He1 & Hh1 & Hs1 & Hst).
  destruct (idle_close inum _ _ _ He1 Hh1) as (Hd2 & Hs2).
  assert (forall x, stored (lc_release inum w1) x = stored w x) as Hs by (intros; by rewrite Hs2, Hs1).
  destruct (Z.eqb_spec st extent_protocol.OK) as [->|Hne].
  2:{ split; [done|]. split; [done|]. split; [by rewrite Hs|]. intros v Hv. rewrite Hv in Hst.
      by destruct Hst. }
  destruct ((fi_size fi <? _) || (_ <? fi_size fi)) eqn:E.
  - pose proof (get_law inum w1 (evolved_wf _ _ _ He1)) as Hg. rewrite Hh1 in Hg.
    specialize (Hg ltac:(by left)). destruct (ec_get inum w1) as [[w2 st2] b].
    destruct Hg as (He2 & Hh2 & Hs3 & Hst2). rewrite Hs1 in Hst2.
    pose proof (put_held inum (resize b (Z.to_nat (fi_size fi))) w2 (evolved_wf _ _ _ He2)) as H3.
    rewrite Hh2 in H3. specialize (H3 ltac:(by left)).
    destruct (ec_put inum _ w2) as [w3 st3]. destruct H3 as (He3 & Hh3 & Hs4).
    pose proof (evolved_trans _ _ _ _ _ He1 (evolved_trans _ _ _ _ _ He2 He3)) as He4.
    destruct (idle_close inum _ _ _ He4 Hh3) as (Hd5 & Hs5). split; [done|]. split_and!.
    + intros x Hx. by rewrite Hs5, Hs4, decide_False, Hs3, Hs1 by done.
    + by rewrite Hs5, Hs4, decide_True by done.
    + intros v Hv _. rewrite Hv in Hst2. destruct Hst2 as [_ ->]. split; [done|].
      by rewrite Hs5, Hs4, decide_True by done.
  - split; [done|]. split_and!; [done|by rewrite Hs|]. intros v Hv Hl. split; [done|].
    rewrite Hv in Hst. destruct Hst as [_ Ha]. rewrite Ha, u32_id in E by done.
    assert (Z.to_nat (fi_size fi) = length v) as -> by lia. by rewrite resize_same, Hs.
Qed.
End correct.

(** * The extent client is such a store *)

Record client := Client {
  cl_cache : extent_client.cache; cl_server : extent_server.state; cl_locks : list Z }.

(** The calls complete; [tick] is the time. *)
Definition tick : clock := fun _ => 0.
#[global] Instance client_store : FileStore client := {
  ec_get id w :=
    let '(c, s, st, b) :=
      extent_client.get Completed Completed tick tick id [] (cl_cache w) (cl_server w) in
    (Client c s (cl_locks w), st, b);
  ec_getattr id w :=
    let '(c, s, st, a) :=
      extent_client.getattr Completed Completed tick id (cl_cache w) (cl_server w) in
    (Client c s (cl_locks w), st, a);
  ec_put id b w :=
    let '(c, s, st) :=
      extent_client.put Completed Completed tick tick id b (cl_cache w) (cl_server w) in
    (Client c s (cl_locks w), st);
  ec_remove id w :=
    let '(c, s, st) := extent_client.remove Completed id (cl_cache w) (cl_server w) in
    (Client c s (cl_locks w), st);
  lc_acquire id w := Client (cl_cache w) (cl_server w) (id :: cl_locks w);
  lc_release id w := Client (cl_cache w) (cl_server w) (unlock id (cl_locks w)) }.

(** What an extent holds: a copy that was changed, or else what the server has.  The empty copy
    a failed [get] leaves behind stands for no extent. *)
Definition contents (c : extent_client.cache) (s : extent_server.state) (id : Z) : option cstring :=
  match c !! id with
  | Some e => if extent_client.is_dirty e then Some (extent_client.c_buf e)
              else extent_server.buf_of s id
  | None => extent_server.buf_of s id
  end.

(** The sizes in the attributes are those of the contents. *)
Definition sized (a : attr) (b : cstring) : Prop := a_size a = u32 (Z.of_nat (length b)).
Definition copy_sized (e : extent_client.cached_extent_info) : Prop :=
  sized (extent_client.c_attr e) (extent_client.c_buf e).
Definition inode_sized (f : extent_server.file_inode) : Prop :=
  sized (extent_server.attributes f) (extent_server.file_buf f).
(** A copy has the right size, and the contents of the server if it is clean. *)
Definition copy_ok (c : extent_client.cache) (s : extent_server.state) (id : Z) : Prop :=
  extent_client.faithful c s id /\ forall e, c !! id = Some e -> copy_sized e.
Definition server_ok (s : extent_server.state) : Prop :=
  forall id f, s !! id = Some f -> inode_sized f.

(** An access changes times only. *)
Definition touch (f : extent_server.file_inode) : extent_server.file_inode :=
  extent_server.FileInode (attr_atime (extent_server.attributes f) 0) (extent_server.fid f)
    (extent_server.file_buf f).

Lemma fetch_complete id b s :
  extent_client.fetch Completed Completed tick id b s
  = match s !! id with
    | None => (s, extent_protocol.IOERR, [], extent_protocol.IOERR, attr0)
    | Some f => (<[id := touch f]> s, extent_protocol.OK, extent_server.file_buf f,
                 extent_protocol.OK, attr_atime (extent_server.attributes f) 0)
    end.
Proof.
  unfold extent_client.fetch, call, extent_server.get, extent_server.getattr.
  destruct (s !! id) eqn:E; [by rewrite lookup_insert_eq|by rewrite E].
Qed.

(** Inserting keeps a property of all entries. *)
Lemma insert_all {A} (P : A -> Prop) (m : gmap Z A) id x :
  P x -> (forall i y, m !! i = Some y -> P y) -> forall i y, <[id := x]> m !! i = Some y -> P y.
Proof.
  intros Hx Hm i y. rewrite lookup_insert_Some. intros [[_ <-]|[_ ?]]; [done|by eapply Hm].
Qed.
Lemma touch_server s id f i :
  s !! id = Some f -> extent_server.buf_of (<[id := touch f]> s) i = extent_server.buf_of s i.
Proof.
  intros E. unfold extent_server.buf_of.
  destruct (decide (i = id)) as [->|]; by rewrite ?lookup_insert_eq, ?lookup_insert_ne, ?E.
Qed.
Lemma touch_ok s id f : s !! id = Some f -> server_ok s -> server_ok (<[id := touch f]> s).
Proof. intros E Hs. exact (insert_all inode_sized s id (touch f) (Hs id f E) Hs). Qed.

(** What every operation on [id] of one client leaves alone: its other copies and what the
    server has of other extents. *)
Definition apart (id : Z) (c c' : extent_client.cache) (s s' : extent_server.state) : Prop :=
  server_ok s' /\ extent_client.only id c c' s s'.

Lemma contents_eq c s c' s' i :
  c' !! i = c !! i -> extent_server.buf_of s' i = extent_server.buf_of s i ->
  contents c' s' i = contents c s i.
Proof. unfold contents. by intros -> ->. Qed.
Lemma copy_ok_eq c s c' s' i :
  c' !! i = c !! i -> extent_server.buf_of s' i = extent_server.buf_of s i ->
  copy_ok c s i -> copy_ok c' s' i.
Proof. unfold copy_ok, extent_client.faithful. by intros -> ->. Qed.
(** A copy the server was asked for. *)
Lemma loaded c s id a' :
  c !! id = None -> server_ok s ->
  let '(s', st, b, st', a) := extent_client.fetch Completed Completed tick id [] s in
  a_size a' = a_size a ->
  let c' := <[id := extent_client.Cached false a' id b]> c in
  apart id c c' s s' /\ copy_ok c' s' id /\ contents c' s' id = contents c s id
  /\ c' !! id <> None /\ sized a b
  /\ match contents c s id with
     | Some v => st = extent_protocol.OK /\ st' = extent_protocol.OK /\ b = v
     | None => b = []
     end.
Proof.
  intros Hc Hs. rewrite fetch_complete.
  set (s' := match s !! id with Some f => <[id := touch f]> s | None => s end).
  assert (server_ok s' /\ forall i, extent_server.buf_of s' i = extent_server.buf_of s i) as [Hok Hb].
  { unfold s'. destruct (s !! id) as [f|] eqn:Es; [|done].
    split; [by apply touch_ok|]. intros. by apply touch_server. }
  destruct (s !! id) as [f|] eqn:Es; fold s'; intros Ha; cbn zeta;
    (split; [split; [done|]; intros i Hi; by rewrite lookup_insert_ne|]);
    unfold copy_ok, extent_client.faithful, contents; rewrite lookup_insert_eq, Hc, Hb; simpl;
    unfold extent_server.buf_of; rewrite Es; simpl.
  - split_and!; try done; [by intros ? [= <-]| |exact (Hs id f Es)].
    intros ? [= <-]. unfold copy_sized, sized. simpl. rewrite Ha. exact (Hs id f Es).
  - split_and!; try done; [by intros ? [= <-]|by intros ? [= <-]].
Qed.

(** The four operations on an extent, whether or not there is a copy of it. *)
Lemma client_get id c s :
  copy_ok c s id -> server_ok s ->
  let '(c', s', st, b) := extent_client.get Completed Completed tick tick id [] c s in
  apart id c c' s s' /\ copy_ok c' s' id /\ contents c' s' id = contents c s id
  /\ c' !! id <> None
  /\ match contents c s id with
     | Some v => st = extent_protocol.OK /\ b = v
     | None => b = []
     end.
Proof.
  intros [Hf Hz] Hs. unfold extent_client.get. destruct (c !! id) as [e|] eqn:Ec; simpl.
  - unfold apart, copy_ok, extent_client.faithful, contents, extent_client.only in *.
    rewrite lookup_insert_eq, Ec in *. simpl. split_and!; try done.
    + intros i Hi. by rewrite lookup_insert_ne.
    + intros ? [= <-]. simpl. by apply Hf.
    + intros ? [= <-]. exact (Hz e eq_refl).
    + destruct (extent_client.is_dirty e) eqn:Ed; [done|]. rewrite (Hf e eq_refl Ed).
      by destruct (extent_server.buf_of s id).
  - pose proof (fun a' => loaded c s id a' Ec Hs) as Hl.
    destruct (extent_client.fetch _ _ _ _ _ _) as [[[[s' st] b] st'] a].
    destruct (Hl (attr_atime a (tick 0%nat)) eq_refl) as (? & ? & ? & ? & _ & Hst).
    split_and!; try done. destruct (contents c s id); [by destruct Hst as (? & _ & ?)|done].
Qed.

Lemma client_getattr id c s :
  copy_ok c s id -> server_ok s ->
  let '(c', s', st, a) := extent_client.getattr Completed Completed tick id c s in
  apart id c c' s s' /\ copy_ok c' s' id /\ contents c' s' id = contents c s id
  /\ c' !! id <> None
  /\ match contents c s id with
     | Some v => st = extent_protocol.OK /\ a_size a = u32 (Z.of_nat (length v))
     | None => a_size a = 0
     end.
Proof.
  intros [Hf Hz] Hs. unfold extent_client.getattr. destruct (c !! id) as [e|] eqn:Ec; simpl.
  - split; [by split|]. split; [by split; [|rewrite Ec]|]. split; [done|]. split; [by rewrite Ec|].
    unfold contents, extent_client.faithful in *. rewrite Ec in *.
    specialize (Hz e eq_refl). unfold copy_sized, sized in Hz.
    destruct (extent_client.is_dirty e) eqn:Ed; [done|]. rewrite (Hf e eq_refl Ed) in Hz.
    by destruct (extent_server.buf_of s id).
  - pose proof (fun a' => loaded c s id a' Ec Hs) as Hl.
    destruct (extent_client.fetch _ _ _ _ _ _) as [[[[s' st] b] st'] a].
    destruct (Hl a eq_refl) as (? & ? & ? & ? & Hsz & Hst). unfold sized in Hsz.
    split_and!; try done.
    destruct (contents c s id); [destruct Hst as (_ & ? & ->)|subst b]; done.
Qed.

Lemma client_put id b c s :
  server_ok s ->
  let '(c', s', st) := extent_client.put Completed Completed tick tick id b c s in
  apart id c c' s s' /\ copy_ok c' s' id /\ contents c' s' id = Some b /\ c' !! id <> None.
Proof.
  intros Hs. pose proof (extent_client.put_spec Completed Completed tick tick id b c s) as Hp.
  assert (server_ok (extent_client.put Completed Completed tick tick id b c s).1.2
    /\ forall e, (extent_client.put Completed Completed tick tick id b c s).1.1 !! id = Some e ->
       copy_sized e) as [Hok Hsz].
  { unfold extent_client.put. rewrite fetch_complete.
    destruct (c !! id) as [e|]; [|destruct (s !! id) as [f|] eqn:Es]; simpl;
      rewrite lookup_insert_eq; (split; [|by intros ? [= <-]]); try done. by apply touch_ok. }
  destruct (extent_client.put _ _ _ _ _ _ _ _) as [[c' s'] st]. simpl in *.
  destruct Hp as (Hv & Hf & Ho & e & He & Hd).
  unfold extent_client.view in Hv. unfold contents. rewrite He in *. rewrite Hd, Hv.
  split; [by split|]. split; [|done]. split; [done|by rewrite He].
Qed.

Lemma client_remove id c s :
  server_ok s ->
  let '(c', s', st) := extent_client.remove Completed id c s in
  apart id c c' s s' /\ c' !! id = None.
Proof.
  intros Hs. pose proof (extent_client.remove_spec id c s) as Hr.
  assert (server_ok (extent_client.remove Completed id c s).1.2) as Hok.
  { unfold extent_client.remove, call, extent_server.remove.
    destruct (c !! id), (s !! id); simpl; try done.
    intros i f' [_ Hi]%lookup_delete_Some. by eapply Hs. }
  destruct (extent_client.remove _ _ _ _) as [[c' s'] st]. by destruct Hr as (? & ? & _).
Qed.

(** ** A client on its own *)

Definition client_stored (w : client) : Z -> option cstring := contents (cl_cache w) (cl_server w).
Definition client_wf (w : client) : Prop :=
  (forall id, copy_ok (cl_cache w) (cl_server w) id) /\ server_ok (cl_server w).
(** It has every lock to itself. *)
Definition client_usable (w : client) (id : Z) : Prop := True.
Definition client_loose (w : client) (id : Z) : Prop := False.
Abbreviation client_evolves := (evolves client_wf client_usable client_loose).

Lemma client_evolved l id c s locks c' s' locks' :
  client_wf (Client c s locks) -> apart id c c' s s' -> copy_ok c' s' id ->
  client_evolves l (Client c s locks) (Client c' s' locks').
Proof.
  intros [Hc _] [Hs Ho] Hid. split; [|by split; [|auto]]. split; [|done]. simpl in *.
  intros i. destruct (decide (i = id)) as [->|Hne]; [done|]. destruct (Ho i Hne).
  by eapply copy_ok_eq.
Qed.
Lemma client_others id c s c' s' : apart id c c' s s' ->
  forall i, i <> id -> contents c' s' i = contents c s i.
Proof. intros [_ Ho] i Hi. destruct (Ho i Hi). by apply contents_eq. Qed.
Lemma client_same id c s c' s' : apart id c c' s s' -> contents c' s' id = contents c s id ->
  forall i, contents c' s' i = contents c s i.
Proof.
  intros Ha He i. destruct (decide (i = id)) as [->|]; [done|by eapply client_others].
Qed.

#[global, refine] Instance client_laws : FileStoreLaws client := {
  stored := client_stored;
  held := cl_locks;
  wf := client_wf;
  usable := client_usable;
  loose := client_loose }.
Proof.
  - done.
  - intros id w _ _ [].
  - intros id [c s l] Hw _. pose proof (client_get id c s (proj1 Hw id) (proj2 Hw)) as Hg. simpl.
    destruct (extent_client.get _ _ _ _ _ _ _ _) as [[[c' s'] st] b].
    destruct Hg as (Ha & Hc & Hs & _ & Hst).
    split_and!; [by eapply client_evolved|done|by eapply client_same|done].
  - intros id [c s l] Hw _. pose proof (client_getattr id c s (proj1 Hw id) (proj2 Hw)) as Hg. simpl.
    destruct (extent_client.getattr _ _ _ _ _ _) as [[[c' s'] st] b].
    destruct Hg as (Ha & Hc & Hs & _ & Hst).
    split_and!; [by eapply client_evolved|done|by eapply client_same|done].
  - intros id b [c s l] Hw _. pose proof (client_put id b c s (proj2 Hw)) as Hp. simpl.
    destruct (extent_client.put _ _ _ _ _ _ _ _) as [[c' s'] st].
    destruct Hp as (Ha & Hc & Hs & _). split_and!; [by eapply client_evolved|done|].
    intros i. case_decide as E; [by subst|by eapply client_others].
  - intros id [c s l] Hw _. pose proof (client_remove id c s (proj2 Hw)) as Hp. simpl.
    destruct (extent_client.remove _ _ _ _) as [[c' s'] st]. destruct Hp as (Ha & Hc).
    split_and!; [|done|by eapply client_others].
    eapply client_evolved; try done. split; intros e; by rewrite Hc.
  - intros id [c s l] Hw _. by split_and!; [split_and!; [| |auto]| |].
  - intros id [c s l] Hw _. by split_and!; [split_and!; [| |auto]| |].
Defined.


(** * Properties *)

Section properties.
  Context {W : Type} `{FileStoreLaws W}.

Lemma find_name_snoc es name i :
  Forall (fun d => d_name d <> name) es -> find_name name (es ++ [Dirent name i]) = i.
Proof.
  intros Hes. unfold find_name. induction Hes as [|d es Hd _ IH]; simpl.
  - by rewrite str_eqb_refl.
  - apply str_eqb_neq in Hd. rewrite Hd. done.
Qed.
Lemma no_file es name : Forall (fun d => d_name d <> name) es -> has_file es name = false.
Proof.
  induction 1 as [|d es Hd _ IH]; [done|]. unfold has_file in *. simpl.
  apply str_eqb_neq in Hd. by rewrite Hd, IH.
Qed.
Lemma take_out_snoc es name i :
  Forall (fun d => d_name d <> name) es -> isfile i = true ->
  take_out name (es ++ [Dirent name i]) = Some (i, es).
Proof.
  intros Hes Hi. induction Hes as [|d es Hd _ IH]; simpl.
  - by rewrite str_eqb_refl, Hi.
  - apply str_eqb_neq in Hd. by rewrite Hd, IH.
Qed.

(** C8 (create, look up, unlink): a client that creates a file under a name the directory does
    not have, with an inode number whose lock no other client has, succeeds, gives back every
    lock, and changes no other extent; looking the name up then finds the new inode, a file; and
    unlinking it brings the directory back. *)
Theorem create_lookup_unlink rnd i0 parent name es w :
  let inum := Z.lor rnd 0x80000000 in
  idle w -> directory w parent es -> isdir parent = true -> name_ok name ->
  Forall (fun d => d_name d <> name) es -> 0 <= rnd < 2 ^ 31 -> usable w inum ->
  exists w1 w2 w3,
    createFile rnd i0 parent name w = Ret (w1, OK, inum) /\ isfile inum = true
    /\ directory w1 parent (es ++ [Dirent name inum]) /\ stored w1 inum = Some []
    /\ (forall x, x <> parent -> x <> inum -> stored w1 x = stored w x)
    /\ lookupResource parent name w1 = Ret (w2, OK, inum)
    /\ unlinkFile parent name w2 = Ret (w3, OK) /\ directory w3 parent es
    /\ idle w1 /\ idle w2 /\ idle w3.
Proof.
  intros inum Hw Hd Hdir Hname Hfree Hr Hu. destruct (new_file rnd Hr) as [Hf _]. fold inum in Hf.
  destruct (createFile_spec rnd i0 parent name es w Hw Hd Hdir Hname Hr Hu)
    as (w1 & st & i & E1 & Hc). unfold created in Hc. rewrite (no_file es name Hfree) in Hc.
  destruct Hc as (-> & -> & D1 & Hs & Hd1 & Ho). fold inum in E1, Hs, Ho, Hd1.
  pose proof (done_idle _ _ _ D1) as Hw1.
  destruct (lookup_spec parent name _ w1 Hw1 Hd1) as (w2 & E2 & D2 & Hs2).
  rewrite find_name_snoc in E2 by done. pose proof (done_idle _ _ _ D2) as Hw2.
  destruct (unlink_spec parent name (es ++ [Dirent name inum]) w2 Hw2) as (w3 & st & E3 & D3 & H3);
    [destruct Hd1; by split; [rewrite Hs2|]|done|].
  rewrite take_out_snoc in H3 by done. destruct H3 as (-> & Hd3 & _).
  exists w1, w2, w3. split_and!; try done. exact (done_idle _ _ _ D3).
Qed.

(** C9 (write, read): a write of any data at any offset leaves the file with exactly
    that data there and zero bytes where it was extended, reading it back returns it,
    and no other extent or lock is touched. *)
Theorem write_read inum data off v buf w :
  idle w -> stored w inum = Some v -> 0 <= off -> off + Z.of_nat (length data) < 2 ^ 64 ->
  exists w1, writeFile inum data off w = Ret (w1, OK)
    /\ stored w1 inum = Some (overwrite v data (Z.to_nat off))
    /\ (forall x, x <> inum -> stored w1 x = stored w x) /\ idle w1
    /\ (readFile inum buf (Z.of_nat (length data)) off w1).1.2 = OK
    /\ (readFile inum buf (Z.of_nat (length data)) off w1).2 = data.
Proof.
  intros Hw Hs H1 H2. destruct (write_spec inum data off w Hw H1 H2) as (w1 & st & E & D & Ho & Hc).
  rewrite Hs in Hc. destruct Hc as [[-> Hv]|(_ & ? & _)]; [|done]. simpl in Hv.
  pose proof (done_idle _ _ _ D) as Hw1. exists w1.
  pose proof (read_spec inum buf (Z.of_nat (length data)) off w1 Hw1
    ltac:(width_lia) ltac:(width_lia)) as Hr.
  destruct (readFile _ _ _ _ w1) as [[w2 st] b]. destruct Hr as (_ & _ & Hr).
  specialize (Hr _ Hv). destruct (read_overwrite v data (Z.to_nat off)) as [Hrd Hlen].
  destruct (Z.ltb_spec (Z.of_nat (length (overwrite v data (Z.to_nat off)))) off); [lia|].
  destruct Hr as [-> ->]. rewrite Nat2Z.id. by split_and!.
Qed.

(** Set size: [setAttr] truncates the file or extends it with zero bytes, so that
    its size is the one asked for, and touches nothing else. *)
Theorem setAttr_resizes inum fi v w :
  idle w -> stored w inum = Some v -> is_u32 (Z.of_nat (length v)) -> 0 <= fi_size fi ->
  let '(w', st) := setAttr inum fi w in
  st = OK /\ idle w'
  /\ stored w' inum = Some (resize v (Z.to_nat (fi_size fi)))
  /\ Z.of_nat (length (resize v (Z.to_nat (fi_size fi)))) = fi_size fi
  /\ forall x, x <> inum -> stored w' x = stored w x.
Proof.
  intros Hw Hs Hl Hsz. pose proof (setattr_spec inum fi w Hw Hsz) as H1.
  destruct (setAttr inum fi w) as [w' st]. destruct H1 as (D & Ho & _ & Hv).
  destruct (Hv v Hs Hl). rewrite length_resize. split_and!; try done; [|lia].
  exact (done_idle _ _ _ D).
Qed.
End properties.

(** Leaked lock: creating a file in a directory that neither the client nor the server has
    fails and keeps the directory's lock; creating a directory there gives it back. *)
Theorem createFile_keeps_lock rnd i0 parent name c s l :
  c !! parent = None -> s !! parent = None ->
  exists w1 w2, createFile rnd i0 parent name (Client c s l) = Ret (w1, NOENT, i0)
    /\ held w1 = parent :: l
    /\ createDirectory rnd i0 parent name (Client c s l) = Ret (w2, NOENT, i0)
    /\ held w2 = l.
Proof.
  intros Hc Hs. unfold createFile, createDirectory. cbn [ec_get lc_acquire client_store].
  unfold extent_client.get. cbn [cl_cache cl_server cl_locks]. rewrite Hc, fetch_complete, Hs.
  simpl. eexists _, _. split_and!; try done. simpl. by rewrite Z.eqb_refl.
Qed.

(** ** Witnesses: a client of a server with an empty root and a file *)

Module yfs_example.
Definition root : client := Client ∅ (extent_server.new tick) [].
Definition with_file : client := (ec_put 2147483655 (cs "hello") root).1.

Lemma server_new_ok : server_ok (extent_server.new tick).
Proof.
  intros id f. unfold extent_server.new, extent_server.put.
  rewrite lookup_empty. simpl. by intros [[<- <-]|[? ?]]%lookup_insert_Some.
Qed.
Lemma root_wf : wf root.
Proof. split; [done|apply server_new_ok]. Qed.
Lemma root_idle : idle root.
Proof. split; [apply root_wf|done]. Qed.
Lemma with_file_idle : idle with_file.
Proof. split; [|done]. exact (proj1 (proj1 (put_law 2147483655 (cs "hello") root root_wf I))). Qed.
Lemma root_directory : directory root ROOTDIR [].
Proof. split; [reflexivity|constructor]. Qed.

Lemma create_lookup_unlink_witness :
  exists w1 w2 w3,
    createFile 77 0 ROOTDIR (cs "a.txt") root = Ret (w1, OK, 2147483725)
    /\ lookupResource ROOTDIR (cs "a.txt") w1 = Ret (w2, OK, 2147483725)
    /\ unlinkFile ROOTDIR (cs "a.txt") w2 = Ret (w3, OK) /\ directory w3 ROOTDIR [].
Proof.
  destruct (create_lookup_unlink 77 0 ROOTDIR (cs "a.txt") [] root)
    as (w1 & w2 & w3 & ? & _ & _ & _ & _ & ? & ? & ? & _);
    [apply root_idle|apply root_directory|reflexivity|by_computing|constructor|lia|exact I|].
  by exists w1, w2, w3.
Defined.
Lemma write_read_witness :
  exists w1, writeFile 2147483655 (cs "abc") 7 with_file = Ret (w1, OK)
    /\ stored w1 2147483655 = Some (overwrite (cs "hello") (cs "abc") 7)
    /\ (readFile 2147483655 [] 3 7 w1).2 = cs "abc".
Proof.
  destruct (write_read 2147483655 (cs "abc") 7 (cs "hello") [] with_file)
    as (w1 & ? & ? & _ & _ & _ & ?);
    [apply with_file_idle|reflexivity|lia|by vm_compute|]. by exists w1.
Defined.
Lemma setAttr_resizes_witness :
  let '(w', st) := setAttr 2147483655 (FileInfo 2 0 0 0) with_file in
  st = OK /\ stored w' 2147483655 = Some (cs "he").
Proof.
  pose proof (setAttr_resizes 2147483655 (FileInfo 2 0 0 0) (cs "hello") with_file
    with_file_idle eq_refl ltac:(by_computing) ltac:(simpl; lia)) as H.
  destruct (setAttr _ _ with_file) as [w' st]. by destruct H as (? & _ & ? & _).
Defined.
Lemma createFile_keeps_lock_witness :
  exists w1, createFile 77 0 9 (cs "a.txt") root = Ret (w1, NOENT, 0) /\ held w1 = [9].
Proof.
  destruct (createFile_keeps_lock 77 0 9 (cs "a.txt") ∅ (extent_server.new tick) [])
    as (w1 & _ & ? & ? & _); [reflexivity|reflexivity|]. by exists w1.
Defined.
End yfs_example.

