(* ===== verification/Fuse.v ===== *)
(** The FUSE front end of fuse.cc: one handler per operation of the file system, on top of
    the operations of [Yfs].

    A handler returns the state and the replies it sends, in order; the messages it prints are
    left out.  [fuse_request] is the table of handlers main() installs.  What libfuse provides
    is a parameter, [Libfuse]: the size and the bytes of a directory entry in a listing. *)
From Stdlib Require Import ZArith Lia Ascii String.
From stdpp Require Import base gmap list strings.
From S2P Require Import Prelude TextIO Protocols Extent YfsDir Yfs.
Local Open Scope Z_scope.
Import yfs_status.

(** Error numbers of <errno.h>. *)
Definition ENOENT : Z := 2.
Definition ENOTDIR : Z := 20.
Definition ENOSYS : Z := 38.

Definition S_IFREG : Z := 0x8000.
Definition S_IFDIR : Z := 0x4000.
Definition FUSE_SET_ATTR_SIZE : Z := 8.

(** The fields of [struct stat] the code sets; the others are zero. *)
Record stat := Stat {
  st_ino : Z; st_mode : Z; st_nlink : Z; st_size : Z;
  st_atime : Z; st_mtime : Z; st_ctime : Z }.
(** [struct fuse_entry_param]; the timeouts and the generation are always zero. *)
Record fuse_entry_param := Entry { e_ino : Z; e_attr : stat }.

Inductive reply :=
| ReplyErr (err : Z)
| ReplyAttr (st : stat)
| ReplyEntry (e : fuse_entry_param)
| ReplyCreate (e : fuse_entry_param)
| ReplyOpen
| ReplyWrite (size : Z)
| ReplyBuf (b : cstring)
| ReplyStatfs (bsize namemax : Z).

(** [fuse_dirent_size] and what [fuse_add_dirent] writes, which is of that size; its last
    argument is the offset of the next entry. *)
Class Libfuse := {
  fuse_dirent_size : nat -> nat;
  fuse_add_dirent : cstring -> stat -> Z -> cstring;
  fuse_add_dirent_size name st off :
    length (fuse_add_dirent name st off) = fuse_dirent_size (length name) }.

Section handlers.
  Context {W : Type} `{FileStore W} `{Libfuse}.

Definition stat0 (inum : Z) : stat := Stat inum 0 0 0 0 0 0.

(** [getattr]: a failed call leaves the structure zeroed but for the inode. *)
Definition getattr (inum : Z) (w : W) : W * Z * stat :=
  if isfile inum then
    let '(w, ret, info) := getfile inum (FileInfo 0 0 0 0) w in
    if negb (ret =? OK) then (w, ret, stat0 inum)
    else (w, OK, Stat inum (Z.lor S_IFREG 0x1b6) 1 (fi_size info)
                      (fi_atime info) (fi_mtime info) (fi_ctime info))
  else
    let '(w, ret, info) := getdir inum (DirInfo 0 0 0) w in
    if negb (ret =? OK) then (w, ret, stat0 inum)
    else (w, OK, Stat inum (Z.lor S_IFDIR 0x1ff) 2 0
                      (di_atime info) (di_mtime info) (di_ctime info)).

Definition fuseserver_getattr (ino : Z) (w : W) : outcome (W * list reply) :=
  let '(w, ret, st) := getattr ino w in
  if negb (ret =? OK) then Ret (w, [ReplyErr ENOENT]) else Ret (w, [ReplyAttr st]).

(** There is no return after the first error reply. *)
Definition fuseserver_setattr (ino size to_set : Z) (w : W) : outcome (W * list reply) :=
  let file_info := FileInfo (u64 size) 0 0 0 in
  let first := if isfile ino then [] else [ReplyErr ENOSYS] in
  if negb (Z.land FUSE_SET_ATTR_SIZE to_set =? 0) then
    let '(w, ret) := setAttr ino file_info w in
    if negb (ret =? OK) then Ret (w, first ++ [ReplyErr ENOENT])
    else
      let '(w, ret, st) := getattr ino w in
      if ret =? OK then Ret (w, first ++ [ReplyAttr st])
      else Ret (w, first ++ [ReplyErr ENOENT])
  else Ret (w, first ++ [ReplyErr ENOSYS]).

Definition fuseserver_read (ino size off : Z) (w : W) : outcome (W * list reply) :=
  let '(w, ret, buf) := readFile ino [] size off w in
  if ret =? OK then Ret (w, [ReplyBuf buf]) else Ret (w, [ReplyErr ENOSYS]).

Definition fuseserver_write (ino : Z) (buf : cstring) (off : Z) (w : W)
    : outcome (W * list reply) :=
  '(w, ret) ← writeFile ino buf off w;
  Ret (w, if (ret : Z) =? OK then [ReplyWrite (Z.of_nat (length buf))] else [ReplyErr ENOSYS]).

(** [i0] is what the uninitialised inode variable holds. *)
Definition fuseserver_createhelper (rnd i0 parent : Z) (name : cstring) (w : W)
    : outcome (W * Z * fuse_entry_param) :=
  '(w, ret, newInum) ← createFile rnd i0 parent name w;
  if negb ((ret : Z) =? OK) then Ret (w, NOENT, Entry 0 (stat0 0))
  else
    let '(w, _, st) := getattr newInum w in
    Ret (w, OK, Entry newInum st).

Definition fuseserver_create (rnd i0 parent : Z) (name : cstring) (w : W)
    : outcome (W * list reply) :=
  '(w, ret, e) ← fuseserver_createhelper rnd i0 parent name w;
  if (ret : Z) =? OK then Ret (w, [ReplyCreate e])
  else if ret =? EXIST then Ret (w, [ReplyErr EEXIST]) else Ret (w, [ReplyErr ENOENT]).

Definition fuseserver_mknod (rnd i0 parent : Z) (name : cstring) (w : W)
    : outcome (W * list reply) :=
  '(w, ret, e) ← fuseserver_createhelper rnd i0 parent name w;
  if (ret : Z) =? OK then Ret (w, [ReplyEntry e])
  else if ret =? EXIST then Ret (w, [ReplyErr EEXIST]) else Ret (w, [ReplyErr ENOENT]).

Definition fuseserver_lookup (parent : Z) (name : cstring) (w : W) : outcome (W * list reply) :=
  '(w, st, resource_inum) ← lookupResource parent name w;
  if negb (resource_inum =? 0) then
    let '(w, _, st) := getattr resource_inum w in
    Ret (w, [ReplyEntry (Entry resource_inum st)])
  else Ret (w, [ReplyErr ENOENT]).

(** [dirbuf] is the buffer built so far. *)
Definition dirbuf_add (b : cstring) (name : cstring) (ino : Z) : cstring :=
  let name := c_string name in
  let size := u64 (Z.of_nat (length b) + Z.of_nat (fuse_dirent_size (length name))) in
  b ++ fuse_add_dirent name (stat0 ino) size.

Definition reply_buf_limited (buf : cstring) (off maxsize : Z) : reply :=
  let bufsize := Z.of_nat (length buf) in
  if u64 off <? bufsize
  then ReplyBuf (take (Z.to_nat (Z.min (u64 (bufsize - off)) maxsize)) (drop (Z.to_nat off) buf))
  else ReplyBuf [].

Definition fuseserver_readdir (ino size off : Z) (w : W) : outcome (W * list reply) :=
  if negb (isdir ino) then Ret (w, [ReplyErr ENOTDIR])
  else
    let '(w, _, buf) := getDirContents ino w in
    contents ← parsebuf buf;
    let b := foldl (fun b d => dirbuf_add b (d_name d) (d_inum d)) [] contents in
    Ret (w, [reply_buf_limited b off size]).

Definition fuseserver_open (ino : Z) (w : W) : outcome (W * list reply) := Ret (w, [ReplyOpen]).

Definition fuseserver_mkdir (rnd i0 parent : Z) (name : cstring) (w : W)
    : outcome (W * list reply) :=
  '(w, ret, newInum) ← createDirectory rnd i0 parent name w;
  if negb ((ret : Z) =? OK) then Ret (w, [ReplyErr EEXIST])
  else
    let '(w, _, st) := getattr newInum w in
    Ret (w, [ReplyEntry (Entry newInum st)]).

Definition fuseserver_unlink (parent : Z) (name : cstring) (w : W) : outcome (W * list reply) :=
  '(w, ret) ← unlinkFile parent name w;
  Ret (w, if (ret : Z) =? OK then [ReplyErr 0] else [ReplyErr ENOENT]).

Definition fuseserver_statfs (w : W) : outcome (W * list reply) :=
  Ret (w, [ReplyStatfs 512 255]).

(** The operations main() installs in [fuseserver_oper]. *)
Inductive fuse_request :=
| FuseGetattr (ino : Z)
| FuseStatfs
| FuseReaddir (ino size off : Z)
| FuseLookup (parent : Z) (name : cstring)
| FuseCreate (parent : Z) (name : cstring)
| FuseMknod (parent : Z) (name : cstring)
| FuseOpen (ino : Z)
| FuseRead (ino size off : Z)
| FuseWrite (ino : Z) (buf : cstring) (off : Z)
| FuseSetattr (ino size to_set : Z)
| FuseUnlink (parent : Z) (name : cstring)
| FuseMkdir (parent : Z) (name : cstring).

(** [rnd] is what [random()] returns during the request. *)
Definition fuseserver_oper (rnd i0 : Z) (r : fuse_request) (w : W) : outcome (W * list reply) :=
  match r with
  | FuseGetattr ino => fuseserver_getattr ino w
  | FuseStatfs => fuseserver_statfs w
  | FuseReaddir ino size off => fuseserver_readdir ino size off w
  | FuseLookup parent name => fuseserver_lookup parent name w
  | FuseCreate parent name => fuseserver_create rnd i0 parent name w
  | FuseMknod parent name => fuseserver_mknod rnd i0 parent name w
  | FuseOpen ino => fuseserver_open ino w
  | FuseRead ino size off => fuseserver_read ino size off w
  | FuseWrite ino buf off => fuseserver_write ino buf off w
  | FuseSetattr ino size to_set => fuseserver_setattr ino size to_set w
  | FuseUnlink parent name => fuseserver_unlink parent name w
  | FuseMkdir parent name => fuseserver_mkdir rnd i0 parent name w
  end.

(** [fuse_session_loop]: one request after the other. *)
Fixpoint fuse_session (i0 : Z) (rs : list (Z * fuse_request)) (w : W)
    : outcome (W * list (list reply)) :=
  match rs with
  | [] => Ret (w, [])
  | (rnd, r) :: rs' =>
      '(w, out) ← fuseserver_oper rnd i0 r w;
      '(w, outs) ← fuse_session i0 rs' w;
      Ret (w, out :: outs)
  end.
End handlers.

(** * Every request is answered *)

(** How many replies a request gets. *)
Definition replies_due (r : fuse_request) : nat :=
  match r with FuseSetattr ino _ _ => if isfile ino then 1 else 2 | _ => 1 end.

(** Take a handler that returned apart, call by call. *)
Ltac inv_handler E :=
  repeat first
    [ progress cbn beta iota in E
    | apply bind_ret_inv in E as ([[? ?] ?] & _ & E)
    | apply bind_ret_inv in E as ([? ?] & _ & E)
    | apply bind_ret_inv in E as (? & _ & E)
    | match type of E with
      | context [let '(_, _) := ?x in _] => destruct x as [? ?]
      | context [if ?b then _ else _] => destruct b
      end ];
  try (injection E as <- <-).

(** C32 (one reply per request): a handler that returns has answered its request exactly once,
    on every path, success or failure, except for [setattr] on something that is not a file:
    that one is answered twice, the return after the first error being missing. *)
Theorem one_reply {W} `{FileStore W} `{Libfuse} rnd i0 r (w w' : W) out :
  fuseserver_oper rnd i0 r w = Ret (w', out) -> length out = replies_due r.
Proof.
  intros E. destruct r as [ino| |ino size off|parent name|parent name|parent name|ino
    |ino size off|ino buf off|ino size to_set|parent name|parent name];
    cbn [fuseserver_oper replies_due] in *;
    unfold fuseserver_getattr, fuseserver_statfs, fuseserver_readdir, fuseserver_lookup,
      fuseserver_create, fuseserver_mknod, fuseserver_open, fuseserver_read, fuseserver_write,
      fuseserver_setattr, fuseserver_unlink, fuseserver_mkdir in E;
    inv_handler E; reflexivity.
Qed.

Section correct.
  Context {W : Type} `{FileStoreLaws W} `{Libfuse}.

(** Operations that only read keep what there is. *)
Definition keeps (w w' : W) : Prop := done_with [] w w' /\ forall x, stored w' x = stored w x.

Lemma keeps_trans w1 w2 w3 : keeps w1 w2 -> keeps w2 w3 -> keeps w1 w3.
Proof.
  intros [Da Sa] [Db Sb]. split; [exact (done_trans _ _ _ _ _ Da Db)|]. intros x. by rewrite Sb.
Qed.
Lemma keeps_idle w w' : keeps w w' -> idle w'.
Proof. intros [D _]. exact (done_idle _ _ _ D). Qed.
Lemma keeps_directory w w' parent es : keeps w w' -> directory w parent es -> directory w' parent es.
Proof. intros [_ Hs] [Hd He]. split; [by rewrite Hs|done]. Qed.

(** [getattr]: the kind and, for a file that exists, the size.  The client has the lock of the
    inode afterwards, so that a copy of it is not loose any more. *)
Lemma handler_attr_spec id l w w0 :
  done_with l w0 w -> (forall i, i ∈ l -> i = id) ->
  exists w' ret st, getattr id w = (w', ret, st) /\ done_with [] w0 w' /\
    (forall x, stored w' x = stored w x) /\ st_ino st = id /\
    (forall v, stored w id = Some v -> ret = OK /\
      if isfile id then st_size st = u32 (Z.of_nat (length v)) /\ st_mode st = 0x81b6
      else st_mode st = 0x41ff).
Proof.
  intros D Hl. pose proof (idle_open_attr id w (done_idle _ _ _ D)) as Ha.
  unfold getattr, getfile, getdir. destruct (ec_getattr id _) as [[w1 st] a].
  destruct Ha as (He & Hh & Hs & Hst).
  assert (evolved [] w0 w1) as He0.
  { pose proof (evolved_trans _ _ _ _ _ (proj1 D) He) as E. rewrite app_nil_r in E.
    eapply evolved_held; [exact E|]. rewrite Hh, Forall_forall. intros i ->%Hl. by left. }
  destruct (idle_close id _ _ _ He0 Hh) as (D2 & Hs2).
  assert (forall x, stored (lc_release id w1) x = stored w x) as Hx by (intros; by rewrite Hs2, Hs).
  destruct (Z.eqb_spec st extent_protocol.OK) as [->|Hne]; simpl;
    destruct (isfile id); simpl; eexists _, _, _; (split; [reflexivity|]);
    split_and!; try done; intros v Hv; rewrite Hv in Hst; by destruct Hst as [??].
Qed.
Lemma attr_keeps id w :
  idle w ->
  exists w' ret st, getattr id w = (w', ret, st) /\ keeps w w' /\ st_ino st = id /\
    (forall v, stored w id = Some v -> ret = OK /\
      if isfile id then st_size st = u32 (Z.of_nat (length v)) /\ st_mode st = 0x81b6
      else st_mode st = 0x41ff).
Proof.
  intros Hw. destruct (handler_attr_spec id [] w w (done_refl w Hw)) as
    (w' & ret & st & E & D & Hs & Hi & Hv); [intros i []%not_elem_of_nil|].
  by exists w', ret, st.
Qed.

Lemma read_keeps inum size off v w :
  idle w -> stored w inum = Some v -> is_u64 off -> is_u64 size -> off <= Z.of_nat (length v) ->
  exists w', readFile inum [] size off w =
      (w', OK, take (Z.to_nat size) (drop (Z.to_nat off) v)) /\ keeps w w'.
Proof.
  intros Hw Hs Ho Hsz Hle. pose proof (read_spec inum [] size off w Hw Ho Hsz) as Hr.
  destruct (readFile inum [] size off w) as [[w' st] b]. destruct Hr as (D & Hst & Hres).
  specialize (Hres v Hs). rewrite (proj2 (Z.ltb_ge _ _)) in Hres by lia.
  destruct Hres as [-> ->]. by exists w'.
Qed.

Lemma find_name_absent es name :
  Forall (fun d => d_name d <> name) es -> find_name name es = 0.
Proof.
  intros Hes. unfold find_name. induction Hes as [|d es Hd _ IH]; simpl; [done|].
  apply str_eqb_neq in Hd. by rewrite Hd.
Qed.

(** A lookup replies with the inode of the entry, or that there is none; an inode number zero
    is taken for no entry. *)
Lemma lookup_handler parent name es w :
  idle w -> directory w parent es ->
  exists w' out, fuseserver_lookup parent name w = Ret (w', out) /\ keeps w w' /\
    if find_name name es =? 0 then out = [ReplyErr ENOENT]
    else exists st, out = [ReplyEntry (Entry (find_name name es) st)] /\
      forall v, stored w (find_name name es) = Some v -> isfile (find_name name es) = true ->
      st_size st = u32 (Z.of_nat (length v)).
Proof.
  intros Hw Hd. unfold fuseserver_lookup.
  destruct (lookup_spec parent name es w Hw Hd) as (w1 & -> & D1 & Hs1). simpl.
  destruct (find_name name es =? 0); simpl; [by exists w1, [ReplyErr ENOENT]|].
  destruct (attr_keeps (find_name name es) w1 (done_idle _ _ _ D1)) as
    (w2 & ret & st & -> & Hk & _ & Hst).
  eexists _, _. split; [done|]. split; [by eapply keeps_trans; [split; [exact D1|exact Hs1]|]|].
  exists st. split; [done|]. intros v Hv Hf. rewrite <- Hs1 in Hv.
  destruct (Hst v Hv) as [_ Hz]. rewrite Hf in Hz. by destruct Hz.
Qed.

(** Creating a file, through [create] or [mknod]: the name is taken, or the file is made. *)
Lemma createhelper_spec rnd i0 parent name es w :
  let inum := Z.lor rnd 0x80000000 in
  idle w -> directory w parent es -> isdir parent = true -> name_ok name ->
  0 <= rnd < 2 ^ 31 -> usable w inum ->
  exists w' ret e, fuseserver_createhelper rnd i0 parent name w = Ret (w', ret, e) /\
    if has_file es name then ret = NOENT /\ keeps w w'
    else ret = OK /\ e_ino e = inum /\ st_size (e_attr e) = 0 /\ done_with [] w w' /\
      stored w' inum = Some [] /\ directory w' parent (es ++ [Dirent name inum]) /\
      (forall x, x <> parent -> x <> inum -> stored w' x = stored w x).
Proof.
  intros inum Hw Hd Hdir Hname Hr Hu. destruct (new_file rnd Hr) as [Hf _].
  unfold fuseserver_createhelper.
  destruct (createFile_spec rnd i0 parent name es w Hw Hd Hdir Hname Hr Hu)
    as (w1 & st & i & -> & Hc). unfold created in Hc. simpl. destruct (has_file es name).
  - destruct Hc as (-> & -> & D & Hs). simpl. by eexists _, _, _.
  - destruct Hc as (-> & -> & D & Hs & Hd1 & Ho). simpl. subst inum.
    destruct (handler_attr_spec (Z.lor rnd 0x80000000) _ w1 w D) as
      (w2 & ret & st & -> & D2 & Hs2 & _ & Hst); [by intros i ->%list_elem_of_singleton|].
    destruct (Hst _ Hs) as [_ Hz]. rewrite Hf in Hz. destruct Hz as [Hz _].
    eexists _, _, _. split; [done|]. simpl. rewrite Hs2. split_and!; try done.
    + destruct Hd1. by split; [rewrite Hs2|].
    + intros. rewrite Hs2. by apply Ho.
Qed.
Lemma create_handler rnd i0 parent name es w :
  let inum := Z.lor rnd 0x80000000 in
  idle w -> directory w parent es -> isdir parent = true -> name_ok name ->
  Forall (fun d => d_name d <> name) es -> 0 <= rnd < 2 ^ 31 -> usable w inum ->
  exists w' st, fuseserver_create rnd i0 parent name w = Ret (w', [ReplyCreate (Entry inum st)]) /\
    done_with [] w w' /\ directory w' parent (es ++ [Dirent name inum]) /\
    stored w' inum = Some [] /\ st_size st = 0 /\
    (forall x, x <> parent -> x <> inum -> stored w' x = stored w x).
Proof.
  intros inum Hw Hd Hdir Hname Hfree Hr Hu. unfold fuseserver_create.
  destruct (createhelper_spec rnd i0 parent name es w Hw Hd Hdir Hname Hr Hu)
    as (w1 & ret & [ino st] & -> & Hc). rewrite (no_file es name Hfree) in Hc. simpl in Hc.
  destruct Hc as (-> & -> & ? & ? & ? & ? & ?). by exists w1, st.
Qed.

(** ** A session *)

Lemma session_cons i0 rnd r rs w w1 w2 out outs :
  fuseserver_oper rnd i0 r w = Ret (w1, out) -> fuse_session i0 rs w1 = Ret (w2, outs) ->
  fuse_session i0 ((rnd, r) :: rs) w = Ret (w2, out :: outs).
Proof. intros E1 E2. simpl. rewrite E1. simpl. by rewrite E2. Qed.

(** ** Listings *)

Definition listing (es : list dirent) : cstring :=
  foldl (fun b d => dirbuf_add b (d_name d) (d_inum d)) [] es.

Lemma readdir_handler ino es size off w :
  idle w -> directory w ino es -> isdir ino = true -> is_u64 off ->
  0 <= size -> Z.of_nat (length (listing es)) < 2 ^ 64 ->
  exists w', fuseserver_readdir ino size off w =
      Ret (w', [ReplyBuf (take (Z.to_nat size) (drop (Z.to_nat off) (listing es)))]) /\ keeps w w'.
Proof.
  intros Hw Hd Hdir Ho Hsz Hlen. unfold fuseserver_readdir, getDirContents. rewrite Hdir. simpl.
  pose proof (idle_open ino w Hw) as Hop. destruct (ec_get ino _) as [[w1 st] b].
  destruct Hop as (He1 & Hh1 & Hs1 & Hst). destruct Hd as [Hd Hes].
  rewrite Hd in Hst. destruct Hst as [-> ->].
  rewrite parse_write by done. simpl. fold (listing es).
  destruct (idle_close ino _ _ _ He1 Hh1) as (D2 & Hs2).
  exists (lc_release ino w1). split; [|split; [done|]; intros x; by rewrite Hs2, Hs1].
  unfold reply_buf_limited. rewrite u64_id by done. do 2 f_equal.
  destruct (Z.ltb_spec off (Z.of_nat (length (listing es)))).
  - rewrite u64_id by (unfold is_u64 in *; lia). do 2 f_equal.
    destruct (Z.min_spec (Z.of_nat (length (listing es)) - off) size) as [[? ->]|[? ->]]; [|done].
    rewrite !take_ge; [done|rewrite length_drop; unfold is_u64 in Ho; lia..].
  - unfold is_u64 in Ho. by rewrite drop_ge, take_nil by lia.
Qed.

(** The data a session's replies carry. *)
Definition reply_data (out : list reply) : cstring :=
  match out with [ReplyBuf b] => b | _ => [] end.

(** Reading on from where the last reply ended. *)
Definition readdir_from (ino size : Z) (i : nat) : Z * fuse_request :=
  (0, FuseReaddir ino size (Z.of_nat i * size)).

Lemma readdir_chunks ino es size i0 n : forall i w,
  idle w -> directory w ino es -> isdir ino = true -> 0 < size ->
  (Z.of_nat (i + n)) * size < 2 ^ 64 -> Z.of_nat (length (listing es)) < 2 ^ 64 ->
  exists w' outs, fuse_session i0 (readdir_from ino size <$> seq i n) w = Ret (w', outs) /\
    keeps w w' /\
    concat (reply_data <$> outs) =
      take (n * Z.to_nat size) (drop (i * Z.to_nat size) (listing es)).
Proof.
  induction n as [|n IH]; intros i w Hw Hd Hdir Hsz Hb Hlen.
  - exists w, []. simpl. rewrite take_0. split; [done|]. split; [|done].
    split; [by apply done_refl|done].
  - destruct (readdir_handler ino es size (Z.of_nat i * size) w) as (w1 & E1 & Hk1);
      [done..|unfold is_u64; nia|lia|done|].
    destruct (IH (S i) w1) as (w2 & outs & E2 & Hk2 & Hc);
      [by eapply keeps_idle|by eapply keeps_directory|done..
      |by replace (S i + n)%nat with (i + S n)%nat by lia|done|].
    exists w2. eexists. split; [eapply session_cons; [exact E1|exact E2]|].
    split; [by eapply keeps_trans|].
    change (concat (reply_data <$> ?a :: ?b)) with (reply_data a ++ concat (reply_data <$> b)).
    rewrite Hc. simpl reply_data.
    replace (Z.to_nat (Z.of_nat i * size)) with (i * Z.to_nat size)%nat by lia.
    replace (S i * Z.to_nat size)%nat with (i * Z.to_nat size + Z.to_nat size)%nat by lia.
    rewrite <- drop_drop, Nat.mul_succ_l, (Nat.add_comm (n * _)).
    apply take_take_drop.
Qed.
End correct.

Section properties.
  Context {W : Type} `{FileStoreLaws W} `{Libfuse}.

(** The requests of a process that makes a file, writes and reads it and removes it. *)
Definition scratch_file (rnd parent : Z) (name data : cstring) (off : Z) : list (Z * fuse_request) :=
  let inum := Z.lor rnd 0x80000000 in
  [(rnd, FuseCreate parent name); (0, FuseLookup parent name); (0, FuseWrite inum data off);
   (0, FuseRead inum (Z.of_nat (length data)) off); (0, FuseUnlink parent name);
   (0, FuseLookup parent name)].

(** A file's life through FUSE: in a directory without the name, the kernel's requests to
    create a file, look it up, write to it at any offset, read the same range back, unlink it
    and look it up again are answered by the new inode with size zero, the same inode, the
    count of bytes, the bytes written, success and [ENOENT]; the directory is as before and no
    lock is left. *)
Theorem file_session rnd i0 parent name data off es w :
  idle w -> directory w parent es -> isdir parent = true -> name_ok name ->
  Forall (fun d => d_name d <> name) es -> 0 <= rnd < 2 ^ 31 ->
  usable w (Z.lor rnd 0x80000000) ->
  0 <= off -> off + Z.of_nat (length data) < 2 ^ 64 ->
  exists w' st1 st2,
    fuse_session i0 (scratch_file rnd parent name data off) w =
      Ret (w', [[ReplyCreate (Entry (Z.lor rnd 0x80000000) st1)];
                [ReplyEntry (Entry (Z.lor rnd 0x80000000) st2)];
                [ReplyWrite (Z.of_nat (length data))]; [ReplyBuf data];
                [ReplyErr 0]; [ReplyErr ENOENT]]) /\
    st_size st1 = 0 /\ directory w' parent es /\ idle w'.
Proof.
  intros Hw Hd Hdir Hname Hfree Hr Hu Ho Hlen. destruct (new_file rnd Hr) as [Hf Hu64].
  destruct (create_handler rnd i0 parent name es w Hw Hd Hdir Hname Hfree Hr Hu)
    as (w1 & st1 & E1 & D1 & Hd1 & Hs1 & Hsz & _).
  unfold scratch_file. cbv zeta. set (inum := Z.lor rnd 0x80000000) in *.
  assert (Hne : parent <> inum) by (intros ->; unfold isdir in Hdir; by rewrite Hf in Hdir).
  assert (Hi0 : inum <> 0) by (intros Hz; rewrite Hz in Hf; done).
  destruct (lookup_handler parent name _ w1 (done_idle _ _ _ D1) Hd1) as (w2 & out & E2 & K2 & H2).
  rewrite find_name_snoc, (proj2 (Z.eqb_neq inum 0)) in H2 by done. destruct H2 as (st2 & -> & _).
  destruct (write_spec inum data off w2 (keeps_idle _ _ K2) Ho Hlen) as (w3 & st3 & E3 & D3 & Ho3 & H3).
  rewrite (proj2 K2), Hs1 in H3. destruct H3 as [[-> Hs3]|(_ & ? & _)]; [|done]. simpl in Hs3.
  assert (Hd3 : directory w3 parent (es ++ [Dirent name inum])).
  { apply (keeps_directory _ _ _ _ K2) in Hd1 as [? ?]. split; [by rewrite Ho3|done]. }
  destruct (read_overwrite [] data (Z.to_nat off)) as [Hrd Hle].
  destruct (read_keeps inum (Z.of_nat (length data)) off _ w3 (done_idle _ _ _ D3) Hs3)
    as (w4 & E4 & K4); [unfold is_u64; lia|unfold is_u64; lia|lia|].
  rewrite Nat2Z.id, Hrd in E4. apply (keeps_directory _ _ _ _ K4) in Hd3.
  destruct (unlink_spec parent name _ w4 (keeps_idle _ _ K4) Hd3 Hdir) as (w5 & st & E5 & D5 & H5).
  rewrite take_out_snoc in H5 by done. destruct H5 as (-> & Hd5 & _).
  destruct (lookup_handler parent name es w5 (done_idle _ _ _ D5) Hd5) as (w6 & out & E6 & K6 & H6).
  rewrite find_name_absent in H6 by done. simpl in H6. subst out.
  exists w6, st1, st2. split.
  - do 2 (eapply session_cons; [eassumption|]).
    eapply session_cons; [simpl; unfold fuseserver_write; rewrite E3; reflexivity|].
    eapply session_cons; [simpl; unfold fuseserver_read; rewrite E4; reflexivity|].
    eapply session_cons; [simpl; unfold fuseserver_unlink; rewrite E5; reflexivity|].
    by eapply session_cons; [eassumption|].
  - split; [done|]. split; [by eapply keeps_directory|by eapply keeps_idle].
Qed.

(** A directory is listed whole: successive [readdir] requests, each for the bytes after
    those of the last, return together exactly the listing of the directory, entry by entry, if
    there are enough of them; a further one returns nothing. *)
Theorem readdir_lists ino es size i0 n w :
  idle w -> directory w ino es -> isdir ino = true -> 0 < size ->
  Z.of_nat n * size < 2 ^ 64 -> Z.of_nat (length (listing es)) <= Z.of_nat n * size ->
  exists w' outs, fuse_session i0 (readdir_from ino size <$> seq 0 n) w = Ret (w', outs) /\
    concat (reply_data <$> outs) = listing es /\ idle w' /\ directory w' ino es.
Proof.
  intros Hw Hd Hdir Hsz Hb Hlen.
  destruct (readdir_chunks ino es size i0 n 0 w) as (w' & outs & E & Hk & Hc);
    [done..|lia|].
  exists w', outs. split; [done|].
  split; [|by split; [eapply keeps_idle|eapply keeps_directory]]. rewrite Hc. simpl. rewrite drop_0.
  apply take_ge. lia.
Qed.

(** Reading past the end is answered with an error, not with zero bytes. *)
Lemma read_past_end ino size off v w :
  idle w -> stored w ino = Some v -> is_u64 off -> is_u64 size -> Z.of_nat (length v) < off ->
  exists w', fuseserver_read ino size off w = Ret (w', [ReplyErr ENOSYS]).
Proof.
  intros Hw Hs Ho Hsz Hlt. unfold fuseserver_read.
  pose proof (read_spec ino [] size off w Hw Ho Hsz) as Hr.
  destruct (readFile ino [] size off w) as [[w' st] b]. destruct Hr as (_ & _ & Hr).
  specialize (Hr v Hs). rewrite (proj2 (Z.ltb_lt _ _)) in Hr by done.
  destruct Hr as [-> _]. eexists. done.
Qed.

(** A name that exists is reported as [ENOENT]: the helper turns every failure into [NOENT]. *)
Lemma create_existing rnd i0 parent name es w :
  idle w -> directory w parent es -> isdir parent = true -> name_ok name ->
  has_file es name = true -> 0 <= rnd < 2 ^ 31 -> usable w (Z.lor rnd 0x80000000) ->
  exists w', fuseserver_create rnd i0 parent name w = Ret (w', [ReplyErr ENOENT]).
Proof.
  intros Hw Hd Hdir Hname Hfile Hr Hu. unfold fuseserver_create.
  destruct (createhelper_spec rnd i0 parent name es w Hw Hd Hdir Hname Hr Hu)
    as (w1 & ret & e & -> & Hc).
  rewrite Hfile in Hc. destruct Hc as (-> & _). simpl. eauto.
Qed.

End properties.

(** * Witnesses *)

Module fuse_example.
Import yfs_example.

(** A listing format: a name and its length. *)
#[export, refine] Instance plain_libfuse : Libfuse := {
  fuse_dirent_size n := (n + 1)%nat;
  fuse_add_dirent name st off := name ++ [char_of_Z (Z.of_nat (length name))] }.
Proof. intros. by rewrite length_app. Defined.

Lemma one_reply_witness :
  exists w', fuseserver_oper 0 0 (FuseSetattr ROOTDIR 5 FUSE_SET_ATTR_SIZE) root =
    Ret (w', [ReplyErr ENOSYS; ReplyAttr (Stat 1 0x41ff 2 0 0 0 0)]) /\
    length [ReplyErr ENOSYS; ReplyAttr (Stat 1 0x41ff 2 0 0 0 0)] =
      replies_due (FuseSetattr ROOTDIR 5 FUSE_SET_ATTR_SIZE).
Proof.
  destruct (fuseserver_oper 0 0 (FuseSetattr ROOTDIR 5 FUSE_SET_ATTR_SIZE) root)
    as [[w' out]|] eqn:E; [|by vm_compute in E].
  pose proof (one_reply 0 0 (FuseSetattr ROOTDIR 5 FUSE_SET_ATTR_SIZE) root w' out E) as Hl.
  assert (Ho : out = [ReplyErr ENOSYS; ReplyAttr (Stat 1 0x41ff 2 0 0 0 0)]).
  { vm_compute in E. injection E as _ <-. reflexivity. }
  clear E. exists w'. rewrite <- Ho. split; [reflexivity|exact Hl].
Defined.

Lemma file_session_witness :
  exists w' st1 st2,
    fuse_session 0 (scratch_file 7 ROOTDIR (cs "notes") (cs "abc") 2) root =
      Ret (w', [[ReplyCreate (Entry 2147483655 st1)]; [ReplyEntry (Entry 2147483655 st2)];
                [ReplyWrite 3]; [ReplyBuf (cs "abc")]; [ReplyErr 0]; [ReplyErr ENOENT]]).
Proof.
  destruct (file_session 7 0 ROOTDIR (cs "notes") (cs "abc") 2 [] root root_idle root_directory)
    as (w' & st1 & st2 & E & _); [reflexivity|by_computing|constructor|lia|exact I|lia|simpl; lia|].
  exists w', st1, st2. exact E.
Defined.

Definition two_files : client := (ec_put ROOTDIR (writeDirent two_entries) root).1.

Lemma two_files_idle : idle two_files.
Proof.
  split; [|done]. exact (proj1 (proj1 (put_law ROOTDIR (writeDirent two_entries) root root_wf I))).
Qed.
Lemma two_files_directory : directory two_files ROOTDIR two_entries.
Proof.
  split; [|by_computing].
  pose proof (put_law ROOTDIR (writeDirent two_entries) root root_wf I) as (_ & _ & Hs).
  rewrite Hs. by rewrite decide_True.
Qed.

Lemma readdir_lists_witness :
  exists w' outs, fuse_session 0 (readdir_from ROOTDIR 5 <$> seq 0 3) two_files = Ret (w', outs) /\
    concat (reply_data <$> outs) = listing two_entries.
Proof.
  destruct (readdir_lists ROOTDIR two_entries 5 0 3 two_files two_files_idle two_files_directory)
    as (w' & outs & E & Hc & _); [reflexivity|lia|lia|vm_compute; discriminate|].
  exists w', outs. split; [exact E|exact Hc].
Defined.
End fuse_example.
