(* ===== verification/Lock.v ===== *)
(** The caching lock service: lock_server_cache.cc and lock_client_cache.cc.

    Every handler and every stretch of a client's [acquire] and [release] between
    taking and giving up its mutex is a definition on the record of one lock.  The
    system runs the threads of any number of clients against the server, with calls
    delivered in any order, late or never, but at most once.  The theorem is mutual
    exclusion: at most one thread of one client holds the lock. *)
From Stdlib Require Import ZArith Lia Ascii String.
From stdpp Require Import base gmap list strings relations.
From S2P Require Import Prelude Protocols.
Local Open Scope Z_scope.

(** * The server: lock_server_cache *)

Module lock_server_cache.
(** The [holder] of a lock nobody holds. *)
Definition FREE : cstring := cs "MMMMM".

Record cached_lock_info := LockInfo {
  holder : cstring; revoked : bool; queue : list cstring }.

(** [acquire], on the record of the lock if there is one. *)
Definition acquire (l : option cached_lock_info) (id : cstring) : cached_lock_info * Z :=
  match l with
  | None => (LockInfo id false [], lock_protocol.OK)
  | Some l =>
      if str_eqb (holder l) FREE then (LockInfo id (revoked l) (queue l), lock_protocol.OK)
      else (LockInfo (holder l) (revoked l) (queue l ++ [id]), lock_protocol.RETRY)
  end.

(** [release]: the record and the client, if any, that gets a retry call.  There is
    no test for a lock without a record. *)
Definition release (l : option cached_lock_info) : outcome (cached_lock_info * option cstring) :=
  match l with
  | None => Fault Undefined
  | Some l =>
      match queue l with
      | [] => Ret (LockInfo FREE false [], None)
      | next :: queue => Ret (LockInfo next false queue, Some next)
      end
  end.

(** The body of the loop of [enforcer]: the record and the revoke request it queues. *)
Definition enforce (l : cached_lock_info) : cached_lock_info * option cstring :=
  if negb (Nat.eqb (length (queue l)) 0) && negb (revoked l)
  then (LockInfo (holder l) true (queue l), Some (holder l))
  else (l, None).
End lock_server_cache.

(** * The client: lock_client_cache *)

Module lock_client_cache.
Definition FREE : Z := 0.

Record lock_info := Lock {
  acquiring : bool; owned : bool; revoked : bool; awaiting_lock : Z; holder : Z }.

(** The record [acquire] makes. *)
Definition new_lock : lock_info := Lock false false false 0 FREE.
Definition find_or_new (l : option lock_info) : lock_info := default new_lock l.

(** [acquire]: the thread counts itself in; does it go to the server? *)
Definition acquire_begin (l : lock_info) : lock_info * bool :=
  (Lock (acquiring l) (owned l) (revoked l) (awaiting_lock l + 1) (holder l),
   negb (owned l) && negb (acquiring l)).

(** [acquire_lock] before its call: [None] when another thread is at it. *)
Definition acquire_lock_begin (l : lock_info) : option lock_info :=
  if negb (acquiring l) && negb (owned l)
  then Some (Lock true (owned l) (revoked l) (awaiting_lock l) (holder l)) else None.

(** [acquire_lock] after its call returned [ret]. *)
Definition acquire_lock_end (l : lock_info) (ret : Z) : lock_info :=
  if owned l then l
  else if ret =? lock_protocol.OK
  then Lock false true (revoked l) (awaiting_lock l) (holder l)
  else Lock true false (revoked l) (awaiting_lock l) (holder l).

(** The lock goes to thread [self]. *)
Definition take_it (l : lock_info) (self : Z) : lock_info :=
  Lock (acquiring l) (owned l) (revoked l) (awaiting_lock l - 1) self.

(** The loop that waits for the client to own the lock: [None] to wait; then the lock
    if no thread has it, or the second loop ([inr]). *)
Definition await_owned (l : lock_info) (self : Z) : option (lock_info + unit) :=
  if negb (owned l) then None
  else if holder l =? FREE then Some (inl (take_it l self)) else Some (inr tt).
(** The loop that waits for the thread that has it. *)
Definition await_free (l : lock_info) (self : Z) : option lock_info :=
  if negb (holder l =? FREE) then None else Some (take_it l self).

(** [release]: is the lock given back to the server? *)
Definition release (l : lock_info) : lock_info * bool :=
  if (awaiting_lock l =? 0) && revoked l
  then (Lock false false false (awaiting_lock l) FREE, true)
  else (Lock (acquiring l) (owned l) (revoked l) (awaiting_lock l) FREE, false).

Definition revoke_handler (l : option lock_info) : lock_info * bool :=
  match l with
  | None => (Lock false true true 0 FREE, false)
  | Some l =>
      if (holder l =? FREE) && (awaiting_lock l =? 0) && negb (acquiring l)
      then (Lock (acquiring l) false false (awaiting_lock l) (holder l), true)
      else (Lock (acquiring l) (owned l) true (awaiting_lock l) (holder l), false)
  end.

Definition retry_handler (l : lock_info) : lock_info :=
  Lock false true (revoked l) (awaiting_lock l) (holder l).
End lock_client_cache.

Module srv := lock_server_cache.
Module clt := lock_client_cache.

(** * The system of one lock *)

(** Where a thread is in [acquire] and [release]: not using the lock; before
    [acquire_lock]; in its call; in the loop for [owned]; in the loop for [holder];
    holding the lock. *)
Inductive pc := PIdle | PStart | PCall | PReply | POwned | PWait | PHold.

(** Calls and replies under way.  [MFlush] is a client that has given the lock up and
    is flushing its extent before it calls [release]. *)
Inductive lmsg :=
| MAcq (c : cstring) (t : nat)
| MAcqRep (c : cstring) (t : nat) (ret : Z)
| MFlush (c : cstring)
| MRel (c : cstring)
| MRetry (c : cstring)
| MRevoke (c : cstring).

Record lsys := LSys {
  l_srv : option srv.cached_lock_info;
  l_rq : list cstring;                       (* revoke_queue *)
  l_clt : gmap cstring clt.lock_info;        (* the record of each client *)
  l_thr : list (cstring * pc);               (* the threads, each of its client *)
  l_msgs : list lmsg }.

Inductive laction :=
| LEnter (t : nat)                 (* acquire is called: the record exists *)
| LBegin (t : nat)
| LCall (t : nat)
| LCallFails (t : nat) (ret : Z)   (* the call ends without a reply *)
| LTake (t : nat)
| LWait (t : nat)
| LRelease (t : nat)
| LDeliver (i : nat)               (* the i-th message *)
| LEnforce
| LRevoker.

Definition self (t : nat) : Z := Z.of_nat (S t).
Definition info (s : lsys) (c : cstring) : clt.lock_info := clt.find_or_new (l_clt s !! c).
Definition set_info (s : lsys) (c : cstring) (l : clt.lock_info) : lsys :=
  LSys (l_srv s) (l_rq s) (<[c := l]> (l_clt s)) (l_thr s) (l_msgs s).
Definition set_pc (s : lsys) (t : nat) (c : cstring) (p : pc) : lsys :=
  LSys (l_srv s) (l_rq s) (l_clt s) (<[t := (c, p)]> (l_thr s)) (l_msgs s).
Definition set_msgs (s : lsys) (ms : list lmsg) : lsys :=
  LSys (l_srv s) (l_rq s) (l_clt s) (l_thr s) ms.
Definition set_srv (s : lsys) (l : srv.cached_lock_info) (rq : list cstring) : lsys :=
  LSys (Some l) rq (l_clt s) (l_thr s) (l_msgs s).

(** The delivery of message [m]; [ms] are the others.  [None] also stands for a process
    that follows a null pointer. *)
Definition deliver (s : lsys) (ms : list lmsg) (m : lmsg) : option lsys :=
  match m with
  | MAcq c t =>
      let '(l, ret) := srv.acquire (l_srv s) c in
      Some (set_msgs (set_srv s l (l_rq s)) (MAcqRep c t ret :: ms))
  | MAcqRep c t ret =>
      match l_thr s !! t with
      | Some (c', PReply) =>
          if str_eqb c' c then
            Some (set_msgs (set_pc (set_info s c (clt.acquire_lock_end (info s c) ret)) t c POwned) ms)
          else None
      | _ => None
      end
  | MFlush c => Some (set_msgs s (MRel c :: ms))
  | MRel c =>
      match srv.release (l_srv s) with
      | Ret (l, next) =>
          Some (set_msgs (set_srv s l (l_rq s))
                  (match next with Some n => MRetry n :: ms | None => ms end))
      | Fault _ => None
      end
  | MRetry c =>
      match l_clt s !! c with
      | Some l => Some (set_msgs (set_info s c (clt.retry_handler l)) ms)
      | None => None
      end
  | MRevoke c =>
      let '(l, give) := clt.revoke_handler (l_clt s !! c) in
      Some (set_msgs (set_info s c l) (if give then MFlush c :: ms else ms))
  end.

Definition lstep (s : lsys) (a : laction) : option lsys :=
  match a with
  | LEnter t =>
      match l_thr s !! t with
      | Some (c, PIdle) => Some (set_pc (set_info s c (info s c)) t c PStart)
      | _ => None
      end
  | LBegin t =>
      match l_thr s !! t with
      | Some (c, PStart) =>
          let '(l, go) := clt.acquire_begin (info s c) in
          Some (set_pc (set_info s c l) t c (if go then PCall else POwned))
      | _ => None
      end
  | LCall t =>
      match l_thr s !! t with
      | Some (c, PCall) =>
          match clt.acquire_lock_begin (info s c) with
          | Some l => Some (set_msgs (set_pc (set_info s c l) t c PReply) (MAcq c t :: l_msgs s))
          | None => Some (set_pc s t c POwned)
          end
      | _ => None
      end
  | LCallFails t ret =>
      match l_thr s !! t with
      | Some (c, PReply) =>
          if ret <? 0 then
            Some (set_pc (set_info s c (clt.acquire_lock_end (info s c) ret)) t c POwned)
          else None
      | _ => None
      end
  | LTake t =>
      match l_thr s !! t with
      | Some (c, POwned) =>
          match clt.await_owned (info s c) (self t) with
          | Some (inl l) => Some (set_pc (set_info s c l) t c PHold)
          | Some (inr _) => Some (set_pc s t c PWait)
          | None => None
          end
      | _ => None
      end
  | LWait t =>
      match l_thr s !! t with
      | Some (c, PWait) =>
          match clt.await_free (info s c) (self t) with
          | Some l => Some (set_pc (set_info s c l) t c PHold)
          | None => None
          end
      | _ => None
      end
  | LRelease t =>
      match l_thr s !! t with
      | Some (c, PHold) =>
          let '(l, give) := clt.release (info s c) in
          Some (set_msgs (set_pc (set_info s c l) t c PIdle)
                  (if give then MFlush c :: l_msgs s else l_msgs s))
      | _ => None
      end
  | LDeliver i =>
      match l_msgs s !! i with
      | Some m => deliver s (delete i (l_msgs s)) m
      | None => None
      end
  | LEnforce =>
      match l_srv s with
      | Some l =>
          let '(l, r) := srv.enforce l in
          Some (set_srv s l (l_rq s ++ match r with Some h => [h] | None => [] end))
      | None => None
      end
  | LRevoker =>
      match l_rq s with
      | h :: rq =>
          Some (LSys (l_srv s) rq (l_clt s) (l_thr s) (MRevoke h :: l_msgs s))
      | [] => None
      end
  end.

(** Nobody has used the lock yet; every client has a name of its own. *)
Definition linitial (s : lsys) : Prop :=
  l_srv s = None /\ l_rq s = [] /\ l_clt s = ∅ /\ l_msgs s = []
  /\ Forall (fun th => th.1 <> srv.FREE /\ th.2 = PIdle) (l_thr s).
Definition lreachable (s : lsys) : Prop :=
  exists s0, linitial s0 /\ rtc (fun s s' => exists a, lstep s a = Some s') s0 s.

(** Thread [t] of client [c] holds the lock. *)
Definition holds (s : lsys) (c : cstring) (t : nat) : Prop := l_thr s !! t = Some (c, PHold).

(** * Counting *)

Fixpoint cnt {A} (f : A -> bool) (l : list A) : nat :=
  match l with [] => 0 | x :: l => Nat.b2n (f x) + cnt f l end.

Lemma cnt_app {A} (f : A -> bool) l l' : cnt f (l ++ l') = (cnt f l + cnt f l')%nat.
Proof. induction l; simpl; lia. Qed.
Lemma cnt_delete {A} (f : A -> bool) l i x :
  l !! i = Some x -> cnt f l = (Nat.b2n (f x) + cnt f (delete i l))%nat.
Proof.
  revert i. induction l as [|y l IH]; intros [|i] H; simplify_eq/=; [done|].
  rewrite (IH i) by done. lia.
Qed.
Lemma cnt_insert {A} (f : A -> bool) l i x y :
  l !! i = Some x -> (cnt f (<[i := y]> l) + Nat.b2n (f x) = cnt f l + Nat.b2n (f y))%nat.
Proof.
  revert i. induction l as [|z l IH]; intros [|i] H; simplify_eq/=; [lia|].
  specialize (IH i H). lia.
Qed.
Lemma cnt_pos {A} (f : A -> bool) l i x : l !! i = Some x -> f x = true -> (0 < cnt f l)%nat.
Proof. intros H Hf. rewrite (cnt_delete f l i x H), Hf. simpl. lia. Qed.
Lemma cnt_zero {A} (f : A -> bool) l i x : l !! i = Some x -> cnt f l = 0%nat -> f x = false.
Proof. intros H Hc. destruct (f x) eqn:E; [|done]. pose proof (cnt_pos f l i x H E). lia. Qed.

(** * The invariant *)

Definition is_acq c m := match m with MAcq c' _ => str_eqb c' c | _ => false end.
Definition is_granted c m :=
  match m with MAcqRep c' _ ret => str_eqb c' c && (ret =? lock_protocol.OK) | _ => false end.
Definition is_retry c m := match m with MRetry c' => str_eqb c' c | _ => false end.
Definition is_returning c m :=
  match m with MFlush c' | MRel c' => str_eqb c' c | _ => false end.
Definition is_revoke c m := match m with MRevoke c' => str_eqb c' c | _ => false end.
Definition is_name c c' := str_eqb c' c.
Definition waiting (p : pc) : bool :=
  match p with PCall | PReply | POwned | PWait => true | _ => false end.
Definition waiting_free (p : pc) : bool := match p with PWait => true | _ => false end.
Definition waits c (th : cstring * pc) := str_eqb th.1 c && waiting th.2.
Definition waits_free c (th : cstring * pc) := str_eqb th.1 c && waiting_free th.2.
Lemma waits_pair c c0 p : waits c (c0, p) = str_eqb c0 c && waiting p.
Proof. done. Qed.
Lemma waits_free_pair c c0 p : waits_free c (c0, p) = str_eqb c0 c && waiting_free p.
Proof. done. Qed.

Lemma waits_free_le c thr : (cnt (waits_free c) thr <= cnt (waits c) thr)%nat.
Proof.
  induction thr as [|[c' q] l IH]; [done|]. cbn [cnt].
  rewrite waits_pair, waits_free_pair. destruct (str_eqb c' c), q; simpl; lia.
Qed.

Definition srv_holds (s : lsys) (c : cstring) : bool :=
  match l_srv s with Some l => str_eqb (srv.holder l) c | None => false end.
Definition srv_revoked (s : lsys) : bool :=
  match l_srv s with Some l => srv.revoked l | None => false end.
Definition srv_queue (s : lsys) : list cstring :=
  match l_srv s with Some l => srv.queue l | None => [] end.

(** The one token of a lock that is held: where client [c] has it. *)
Definition token (s : lsys) (c : cstring) : nat :=
  Nat.b2n (clt.owned (info s c)) + cnt (is_granted c) (l_msgs s) + cnt (is_retry c) (l_msgs s)
  + cnt (is_returning c) (l_msgs s).
(** The one revocation of the holder. *)
Definition revocation (s : lsys) (c : cstring) : nat :=
  cnt (is_revoke c) (l_msgs s) + cnt (is_name c) (l_rq s)
  + Nat.b2n (clt.revoked (info s c)) + cnt (is_returning c) (l_msgs s).
(** The one request of client [c] under way. *)
Definition request (s : lsys) (c : cstring) : nat :=
  cnt (is_acq c) (l_msgs s) + cnt (is_granted c) (l_msgs s) + cnt (is_name c) (srv_queue s)
  + cnt (is_retry c) (l_msgs s).

Record linv1 (s : lsys) (c : cstring) : Prop := {
  inv_token : token s c = Nat.b2n (srv_holds s c);
  inv_revocation : revocation s c = Nat.b2n (srv_holds s c && srv_revoked s);
  inv_request : (request s c <= Nat.b2n (clt.acquiring (info s c)))%nat;
  inv_owned : clt.owned (info s c) = true -> clt.acquiring (info s c) = false;
  inv_awaiting : clt.awaiting_lock (info s c) = Z.of_nat (cnt (waits c) (l_thr s));
  inv_wait_free : (0 < cnt (waits_free c) (l_thr s))%nat -> clt.owned (info s c) = true;
  inv_holder : clt.holder (info s c) <> clt.FREE -> clt.owned (info s c) = true;
  inv_holds : forall t, l_thr s !! t = Some (c, PHold) <-> exists p,
    l_thr s !! t = Some (c, p) /\ clt.holder (info s c) = self t }.
Definition client_of (m : lmsg) : cstring :=
  match m with
  | MAcq c _ | MAcqRep c _ _ | MFlush c | MRel c | MRetry c | MRevoke c => c
  end.

(** A free lock is neither wanted nor revoked, and no client is called [FREE]. *)
Definition srv_ok (s : lsys) : Prop :=
  Forall (fun c => c <> srv.FREE) (l_rq s) /\
  match l_srv s with
  | Some l => (srv.holder l = srv.FREE -> srv.revoked l = false /\ srv.queue l = [])
              /\ Forall (fun c => c <> srv.FREE) (srv.queue l)
  | None => True
  end.
Definition acq_name (m : lmsg) : Prop := client_of m <> srv.FREE.
Definition names_ok (thr : list (cstring * pc)) (ms : list lmsg) : Prop :=
  Forall (fun th => th.1 <> srv.FREE) thr /\ Forall acq_name ms.
Definition linv (s : lsys) : Prop :=
  (forall c, c <> srv.FREE -> linv1 s c) /\ srv_ok s /\ names_ok (l_thr s) (l_msgs s).

(** ** Automation: an action changes a few counters *)

Lemma info_insert s c l c' a b d e :
  info (LSys a b (<[c := l]> (l_clt s)) d e) c' = if decide (c' = c) then l else info s c'.
Proof.
  unfold info; simpl. destruct (decide (c' = c)) as [->|];
    by rewrite ?lookup_insert_eq, ?lookup_insert_ne.
Qed.
Lemma info_same s a b d e c' : info (LSys a b (l_clt s) d e) c' = info s c'.
Proof. done. Qed.
Lemma str_eqb_ne a b : a <> b -> str_eqb a b = false.
Proof. apply str_eqb_neq. Qed.
Lemma str_eqb_ne' a b : a <> b -> str_eqb b a = false.
Proof. intros. by apply str_eqb_neq. Qed.

(** What the counters of client [c] say before the action. *)
Ltac counters :=
  unfold token, revocation, request, srv_holds, srv_revoked, srv_queue in *;
  cbn [l_srv l_rq l_clt l_thr l_msgs] in *.

(** A message is taken out of the list. *)
Ltac taken H c :=
  pose proof (cnt_delete (is_acq c) _ _ _ H);
  pose proof (cnt_delete (is_granted c) _ _ _ H);
  pose proof (cnt_delete (is_retry c) _ _ _ H);
  pose proof (cnt_delete (is_returning c) _ _ _ H);
  pose proof (cnt_delete (is_revoke c) _ _ _ H);
  cbn [is_acq is_granted is_retry is_returning is_revoke] in *.

(** Thread [t] of [c0] goes from one place to another. *)
Ltac moved H c c0 p :=
  pose proof (cnt_insert (waits c) _ _ _ (c0, p) H);
  pose proof (cnt_insert (waits_free c) _ _ _ (c0, p) H);
  rewrite !waits_pair, !waits_free_pair in *; cbn [waiting waiting_free] in *.

Section threads.
  Variables (thr : list (cstring * pc)) (t : nat) (c0 : cstring) (p0 p : pc).
  Hypothesis Ht : thr !! t = Some (c0, p0).

(** The threads that hold the lock, when a thread that neither held it nor gets it
    moves. *)
Lemma holds_frame c h :
  p0 <> PHold -> p <> PHold ->
  (forall t', thr !! t' = Some (c, PHold) <-> exists q, thr !! t' = Some (c, q) /\ h = self t') ->
  forall t', <[t := (c0, p)]> thr !! t' = Some (c, PHold)
    <-> exists q, <[t := (c0, p)]> thr !! t' = Some (c, q) /\ h = self t'.
Proof.
  intros H0 H1 H t'. destruct (decide (t' = t)) as [->|Hne].
  - rewrite list_lookup_insert_eq by by eapply lookup_lt_Some. split; [by intros [= -> ->]|].
    intros (q & [= -> ->] & Hh). exfalso. apply H0.
    assert (thr !! t = Some (c, PHold)) as E by (apply H; eauto). congruence.
  - rewrite list_lookup_insert_ne by done. apply H.
Qed.
(** When it takes the free lock. *)
Lemma holds_taken :
  (forall t', thr !! t' = Some (c0, PHold) <-> exists q, thr !! t' = Some (c0, q) /\ clt.FREE = self t') ->
  forall t', <[t := (c0, PHold)]> thr !! t' = Some (c0, PHold)
    <-> exists q, <[t := (c0, PHold)]> thr !! t' = Some (c0, q) /\ self t = self t'.
Proof.
  intros H t'. destruct (decide (t' = t)) as [->|Hne].
  - rewrite list_lookup_insert_eq by by eapply lookup_lt_Some. split; eauto.
  - rewrite list_lookup_insert_ne by done. split.
    + intros E%H. destruct E as (? & _ & E). unfold clt.FREE, self in E. lia.
    + intros (q & _ & E). unfold self in E. lia.
Qed.
(** When it gives it up. *)
Lemma holds_released :
  p0 = PHold -> p <> PHold ->
  (forall t', thr !! t' = Some (c0, PHold) <-> exists q, thr !! t' = Some (c0, q) /\ self t = self t') ->
  forall t', <[t := (c0, p)]> thr !! t' = Some (c0, PHold)
    <-> exists q, <[t := (c0, p)]> thr !! t' = Some (c0, q) /\ clt.FREE = self t'.
Proof.
  intros H0 H1 H t'. split.
  - destruct (decide (t' = t)) as [->|Hne].
    + rewrite list_lookup_insert_eq by by eapply lookup_lt_Some. by intros [= ->].
    + rewrite list_lookup_insert_ne by done. intros E%H. destruct E as (? & _ & E).
      unfold self in E. lia.
  - intros (q & _ & E). unfold clt.FREE, self in E. lia.
Qed.
(** The threads of other clients. *)
Lemma holds_other c h :
  c <> c0 ->
  (forall t', thr !! t' = Some (c, PHold) <-> exists q, thr !! t' = Some (c, q) /\ h = self t') ->
  forall t', <[t := (c0, p)]> thr !! t' = Some (c, PHold)
    <-> exists q, <[t := (c0, p)]> thr !! t' = Some (c, q) /\ h = self t'.
Proof.
  intros Hc H t'. destruct (decide (t' = t)) as [->|Hne].
  - rewrite list_lookup_insert_eq by by eapply lookup_lt_Some. split; [by intros [= ->]|].
    by intros (q & [= ->] & _).
  - rewrite list_lookup_insert_ne by done. apply H.
Qed.
End threads.

(** ** A step of a client concerns its own counters *)

Definition same_for (ms ms' : list lmsg) (c : cstring) : Prop :=
  cnt (is_acq c) ms' = cnt (is_acq c) ms /\ cnt (is_granted c) ms' = cnt (is_granted c) ms
  /\ cnt (is_retry c) ms' = cnt (is_retry c) ms
  /\ cnt (is_returning c) ms' = cnt (is_returning c) ms
  /\ cnt (is_revoke c) ms' = cnt (is_revoke c) ms.

Lemma same_refl ms c : same_for ms ms c.
Proof. by split_and!. Qed.
Lemma same_cons ms ms' m c : client_of m <> c -> same_for ms ms' c -> same_for ms (m :: ms') c.
Proof.
  intros Hc (H1 & H2 & H3 & H4 & H5). apply str_eqb_ne in Hc.
  unfold same_for; cbn [cnt]. destruct m; simpl in *; rewrite ?Hc; simpl; by split_and!.
Qed.
Lemma same_delete ms i m c : ms !! i = Some m -> client_of m <> c -> same_for ms (delete i ms) c.
Proof.
  intros H Hc. apply str_eqb_ne in Hc. taken H c.
  destruct m; simpl in *; rewrite ?Hc in *; simpl in *; unfold same_for; lia.
Qed.

(** The server, its queues and the threads are as before; client [c0] has record [l]. *)
Lemma linv_record s c0 l ms :
  linv s -> (forall c, c <> c0 -> same_for (l_msgs s) ms c) -> Forall acq_name ms ->
  (c0 <> srv.FREE -> linv1 (LSys (l_srv s) (l_rq s) (<[c0 := l]> (l_clt s)) (l_thr s) ms) c0) ->
  linv (LSys (l_srv s) (l_rq s) (<[c0 := l]> (l_clt s)) (l_thr s) ms).
Proof.
  intros (I & Hsrv & F & _) Hs Hn H. split; [|by split]. intros c Hc.
  destruct (decide (c = c0)) as [->|Hne]; [by apply H|].
  destruct (I c Hc) as [H1 H2 H3 H3' H4 H5 H6 H7]. destruct (Hs c Hne) as (S1 & S2 & S3 & S4 & S5).
  split; counters; rewrite ?info_insert, ?decide_False by done; try done; lia.
Qed.

Lemma linv_move s c0 t p0 p l ms :
  linv s -> l_thr s !! t = Some (c0, p0) -> (forall c, c <> c0 -> same_for (l_msgs s) ms c) ->
  (c0 <> srv.FREE -> Forall acq_name ms) ->
  (c0 <> srv.FREE ->
   linv1 (LSys (l_srv s) (l_rq s) (<[c0 := l]> (l_clt s)) (<[t := (c0, p)]> (l_thr s)) ms) c0) ->
  linv (LSys (l_srv s) (l_rq s) (<[c0 := l]> (l_clt s)) (<[t := (c0, p)]> (l_thr s)) ms).
Proof.
  intros (I & Hsrv & F & _) Ht Hs Hn H.
  pose proof (Forall_lookup_1 _ _ _ _ F Ht) as Hc0. simpl in Hc0. split.
  2:{ split; [done|]. split; [by apply Forall_insert|by apply Hn]. }
  intros c Hc. destruct (decide (c = c0)) as [->|Hne]; [by apply H|].
  destruct (I c Hc) as [H1 H2 H3 H3' H4 H5 H6 H7]. destruct (Hs c Hne) as (S1 & S2 & S3 & S4 & S5).
  moved Ht c c0 p. rewrite (str_eqb_ne' c c0) in * by done. cbn [andb Nat.b2n] in *.
  split; counters; rewrite ?info_insert, ?decide_False by done; try done; try lia.
  - intros. apply H5. lia.
  - by eapply holds_other.
Qed.

Lemma name_of_thread s t c p : linv s -> l_thr s !! t = Some (c, p) -> c <> srv.FREE.
Proof. intros (_ & _ & F & _) H. exact (Forall_lookup_1 _ _ _ _ F H). Qed.
Lemma msgs_named s : linv s -> Forall acq_name (l_msgs s).
Proof. by intros (_ & _ & _ & ?). Qed.
#[local] Hint Resolve msgs_named : core.

(** Close what is arithmetic of counters, or as it was. *)
Ltac closing :=
  repeat match goal with H : ?b = true -> _, E : ?b = true |- _ => specialize (H E) end;
  try done; try lia; try (by eapply holds_frame);
  try match goal with
  | H : (0 < cnt (waits_free _) _)%nat -> _ |- (0 < _)%nat -> _ => intros; apply H; lia
  end.

(** Discharge the counters of the client that moved. *)
Ltac settle :=
  counters; rewrite ?info_insert, ?info_same, ?decide_True by done; cbn [clt.acquiring clt.owned
    clt.revoked clt.awaiting_lock clt.holder] in *.

(** The action is done: the state as one record. *)
Ltac stepped Hs :=
  injection Hs as <-; unfold set_msgs, set_pc, set_info, set_srv;
  cbn [l_srv l_rq l_clt l_thr l_msgs].

Ltac actor Ht I c0 p :=
  let H3' := fresh "Iexcl" in let H1 := fresh "Itok" in let H2 := fresh "Irev" in let H3 := fresh "Ireq" in
  let H4 := fresh "Iwait" in let H5 := fresh "Ifree" in let H6 := fresh "Iown" in
  let H7 := fresh "Iholds" in
  let Hc := fresh "Hc0" in
  intros Hc; destruct (proj1 I c0 Hc) as [H1 H2 H3 H3' H4 H5 H6 H7];
  moved Ht c0 c0 p; rewrite ?str_eqb_refl in *; cbn [andb Nat.b2n] in *.

Lemma step_enter s t s' : linv s -> lstep s (LEnter t) = Some s' -> linv s'.
Proof.
  intros I Hs. simpl in Hs. destruct (l_thr s !! t) as [[c0 []]|] eqn:Ht; try done.
  stepped Hs. eapply linv_move; [done|done|intros; apply same_refl|by auto|].
  actor Ht I c0 PStart. split; settle; closing.
Qed.

Lemma step_begin s t s' : linv s -> lstep s (LBegin t) = Some s' -> linv s'.
Proof.
  intros I Hs. simpl in Hs. destruct (l_thr s !! t) as [[c0 []]|] eqn:Ht; try done.
  set (p := if negb _ && negb _ then PCall else POwned) in Hs.
  assert (p = PCall \/ p = POwned) as Hp by (unfold p; case_match; auto). clearbody p.
  stepped Hs. eapply linv_move; [done|done|intros; apply same_refl|by auto|].
  actor Ht I c0 p. destruct Hp as [-> | ->]; cbn [waiting waiting_free Nat.b2n] in *;
    split; settle; closing.
Qed.

(** A thread that moves within the waiting states, its record unchanged. *)
Lemma linv_pc s c0 t p0 p :
  linv s -> l_thr s !! t = Some (c0, p0) -> waiting p0 = true -> waiting p = true ->
  (waiting_free p = true -> clt.owned (info s c0) = true) ->
  linv (set_pc s t c0 p).
Proof.
  intros (I & Hsrv & F & Hn) Ht H0 Hp Hf. split.
  2:{ split; [done|]. split; [|done]. apply Forall_insert; [done|].
      exact (Forall_lookup_1 _ _ _ _ F Ht). }
  intros c Hc. destruct (I c Hc) as [H1 H2 H3 H3' H4 H5 H6 H7].
  moved Ht c c0 p. rewrite Hp, H0 in *. unfold set_pc. split; counters; rewrite ?info_same; try done.
  - destruct (str_eqb c0 c); simpl in *; lia.
  - intros Hpos. destruct (str_eqb c0 c) eqn:E; simpl in *.
    + apply str_eqb_eq in E as ->. destruct (waiting_free p) eqn:Ep; [by apply Hf|].
      apply H5. simpl in *. lia.
    + apply H5. lia.
  - eapply holds_frame; [done| | |done]; intros ->; done.
Qed.

(** Compute the counters of a message of the client that moved. *)
Ltac counted :=
  cbn [cnt is_acq is_granted is_retry is_returning is_revoke] in *;
  rewrite ?str_eqb_refl in *; cbn [Nat.b2n andb] in *.

Lemma step_call s t s' : linv s -> lstep s (LCall t) = Some s' -> linv s'.
Proof.
  intros I Hs. simpl in Hs. destruct (l_thr s !! t) as [[c0 []]|] eqn:Ht; try done.
  unfold clt.acquire_lock_begin in Hs.
  destruct (clt.acquiring (info s c0)) eqn:Ea; simpl in Hs.
  { injection Hs as <-. by eapply linv_pc. }
  destruct (clt.owned (info s c0)) eqn:Eo; simpl in Hs.
  { injection Hs as <-. by eapply linv_pc. }
  stepped Hs. eapply linv_move; [done|done| |by constructor; auto|].
  { intros c Hc. apply same_cons; [by simpl|apply same_refl]. }
  actor Ht I c0 PReply. split; settle; rewrite ?Ea, ?Eo in *; counted; closing.
Qed.

(** The end of [acquire_lock]: with a reply, or without one. *)
Lemma linv_call_end s c0 t ret ms :
  linv s -> l_thr s !! t = Some (c0, PReply) ->
  (forall c, c <> c0 -> same_for (l_msgs s) ms c) ->
  cnt (is_acq c0) ms = cnt (is_acq c0) (l_msgs s) ->
  (cnt (is_granted c0) ms + Nat.b2n (Z.eqb ret lock_protocol.OK) = cnt (is_granted c0) (l_msgs s))%nat ->
  cnt (is_retry c0) ms = cnt (is_retry c0) (l_msgs s) ->
  cnt (is_returning c0) ms = cnt (is_returning c0) (l_msgs s) ->
  cnt (is_revoke c0) ms = cnt (is_revoke c0) (l_msgs s) -> Forall acq_name ms ->
  linv (LSys (l_srv s) (l_rq s) (<[c0 := clt.acquire_lock_end (info s c0) ret]> (l_clt s))
          (<[t := (c0, POwned)]> (l_thr s)) ms).
Proof.
  intros I Ht Hms M1 M2 M3 M4 M5 Hn. eapply linv_move; [done|done|done|done|].
  actor Ht I c0 POwned. unfold clt.acquire_lock_end.
  assert (token s c0 <= 1)%nat as Hle by (rewrite Itok; by destruct (srv_holds s c0); simpl; lia).
  destruct (clt.owned (info s c0)) eqn:Eo.
  - specialize (Iexcl eq_refl). rewrite Iexcl in *.
    split; settle; rewrite ?Eo, ?Iexcl in *; counted; closing.
  - destruct (ret =? lock_protocol.OK) eqn:Er; split; settle; rewrite ?Eo in *; counted; closing.
    + destruct (clt.acquiring (info s c0)); simpl in *; lia.
    + destruct (clt.acquiring (info s c0)); simpl in *; lia.
Qed.

Lemma step_call_fails s t ret s' : linv s -> lstep s (LCallFails t ret) = Some s' -> linv s'.
Proof.
  intros I Hs. simpl in Hs. destruct (l_thr s !! t) as [[c0 []]|] eqn:Ht; try done.
  destruct (Z.ltb_spec ret 0) as [Hr|]; [|done]. stepped Hs.
  apply linv_call_end; auto using same_refl.
  assert ((ret =? lock_protocol.OK) = false) as -> by (unfold lock_protocol.OK; lia).
  simpl. lia.
Qed.

Lemma step_take s t s' : linv s -> lstep s (LTake t) = Some s' -> linv s'.
Proof.
  intros I Hs. simpl in Hs. destruct (l_thr s !! t) as [[c0 []]|] eqn:Ht; try done.
  unfold clt.await_owned in Hs. destruct (clt.owned (info s c0)) eqn:Eo; simpl in Hs; [|done].
  destruct (clt.holder (info s c0) =? clt.FREE) eqn:Eh.
  - stepped Hs. eapply linv_move; [done|done|intros; apply same_refl|by auto|].
    actor Ht I c0 PHold. apply Z.eqb_eq in Eh. unfold clt.take_it. split; settle; closing.
    rewrite Eh in *. by eapply holds_taken.
  - injection Hs as <-. by eapply linv_pc.
Qed.

Lemma step_wait s t s' : linv s -> lstep s (LWait t) = Some s' -> linv s'.
Proof.
  intros I Hs. simpl in Hs. destruct (l_thr s !! t) as [[c0 []]|] eqn:Ht; try done.
  unfold clt.await_free in Hs. destruct (clt.holder (info s c0) =? clt.FREE) eqn:Eh; [|done].
  stepped Hs. eapply linv_move; [done|done|intros; apply same_refl|by auto|].
  pose proof (cnt_pos (waits_free c0) _ _ _ Ht) as Hpos.
  rewrite waits_free_pair, str_eqb_refl in Hpos. specialize (Hpos eq_refl).
  actor Ht I c0 PHold. apply Z.eqb_eq in Eh. specialize (Ifree Hpos).
  unfold clt.take_it. split; settle; closing.
  rewrite Eh in *. by eapply holds_taken.
Qed.

Lemma step_release s t s' : linv s -> lstep s (LRelease t) = Some s' -> linv s'.
Proof.
  intros I Hs. simpl in Hs. destruct (l_thr s !! t) as [[c0 []]|] eqn:Ht; try done.
  unfold clt.release in Hs.
  assert (clt.holder (info s c0) = self t /\ clt.owned (info s c0) = true) as [Hh Ho].
  { destruct (proj1 I c0 (name_of_thread _ _ _ _ I Ht)) as [_ _ _ _ _ _ H6 H7].
    apply H7 in Ht as (_ & _ & E). split; [done|]. apply H6. rewrite E. unfold self, clt.FREE. lia. }
  destruct ((clt.awaiting_lock (info s c0) =? 0) && clt.revoked (info s c0)) eqn:E.
  - apply andb_true_iff in E as [Ew Er]. apply Z.eqb_eq in Ew. stepped Hs.
    eapply linv_move; [done|done| |by constructor; auto|].
    { intros c Hc. apply same_cons; [by simpl|apply same_refl]. }
    actor Ht I c0 PIdle. specialize (Iexcl Ho).
    pose proof (waits_free_le c0 (l_thr s)) as Hle.
    split; settle; rewrite ?Ho, ?Er, ?Iexcl in *; counted; closing.
    rewrite Hh in *. by eapply holds_released.
  - stepped Hs. eapply linv_move; [done|done|intros; apply same_refl|by auto|].
    actor Ht I c0 PIdle. split; settle; closing.
    rewrite Hh in *. by eapply holds_released.
Qed.

(** ** The server *)

(** The server changes a lock: who is concerned, and the messages for them. *)
Lemma linv_server s l rq ms :
  linv s -> srv_ok (LSys (Some l) rq (l_clt s) (l_thr s) ms) -> Forall acq_name ms ->
  (forall c, c <> srv.FREE -> linv1 (LSys (Some l) rq (l_clt s) (l_thr s) ms) c) ->
  linv (LSys (Some l) rq (l_clt s) (l_thr s) ms).
Proof. intros (_ & _ & F & _) Hs Hn H. by split_and!. Qed.

Lemma named_delete s i : linv s -> Forall acq_name (delete i (l_msgs s)).
Proof. intros I. apply Forall_delete. by apply msgs_named. Qed.
#[local] Hint Resolve named_delete : core.

Lemma deliver_acq s i c t s' :
  linv s -> l_msgs s !! i = Some (MAcq c t) ->
  deliver s (delete i (l_msgs s)) (MAcq c t) = Some s' -> linv s'.
Proof.
  intros I Hm Hs. simpl in Hs. destruct (srv.acquire (l_srv s) c) as [l ret] eqn:Ea.
  pose proof (Forall_lookup_1 _ _ _ _ (msgs_named s I) Hm) as Hc. simpl in Hc.
  pose proof (proj1 (proj2 I)) as [Hrq Hok].
  unfold srv.acquire in Ea. stepped Hs.
  destruct (l_srv s) as [l0|] eqn:El;
    [destruct Hok as [Hfree Hq]; destruct (str_eqb (srv.holder l0) srv.FREE) eqn:Ef|];
    injection Ea as <- <-;
    (apply linv_server; [done| |by constructor; auto|]); try (unfold srv_ok; simpl).
  - apply str_eqb_eq in Ef. destruct (Hfree Ef) as [-> ->]. by split.
  - intros c' Hc'. apply str_eqb_eq in Ef. destruct (Hfree Ef) as [Er Eq].
    destruct (proj1 I c' Hc') as [H1 H2 H3 H3' H4 H5 H6 H7]. taken Hm c'.
    split; counters; rewrite ?El, ?Ef, ?Er, ?Eq, ?(str_eqb_ne' c' srv.FREE) in * by done;
      rewrite ?info_same; cbn [srv.holder srv.revoked srv.queue] in *; try done;
      cbn [cnt is_acq is_granted is_retry is_returning is_revoke] in *;
      destruct (str_eqb c c'); simpl in *; lia.
  - apply str_eqb_neq in Ef. split; [done|]. split; [done|]. apply Forall_app. by split; [|repeat constructor].
  - intros c' Hc'. destruct (proj1 I c' Hc') as [H1 H2 H3 H3' H4 H5 H6 H7]. taken Hm c'.
    split; counters; rewrite ?El in *; rewrite ?info_same;
      cbn [srv.holder srv.revoked srv.queue] in *; try done; rewrite ?cnt_app;
      cbn [cnt is_acq is_granted is_retry is_returning is_revoke] in *; unfold is_name in *;
      destruct (str_eqb c c'); simpl in *; lia.
  - done.
  - intros c' Hc'. destruct (proj1 I c' Hc') as [H1 H2 H3 H3' H4 H5 H6 H7]. taken Hm c'.
    split; counters; rewrite ?El in *; rewrite ?info_same;
      cbn [srv.holder srv.revoked srv.queue] in *; try done;
      cbn [cnt is_acq is_granted is_retry is_returning is_revoke] in *;
      destruct (str_eqb c c'); simpl in *; lia.
Qed.

Lemma deliver_rel s i c s' :
  linv s -> l_msgs s !! i = Some (MRel c) ->
  deliver s (delete i (l_msgs s)) (MRel c) = Some s' -> linv s'.
Proof.
  intros I Hm Hs. simpl in Hs. unfold srv.release in Hs.
  pose proof (Forall_lookup_1 _ _ _ _ (msgs_named s I) Hm) as Hc. unfold acq_name in Hc; simpl in Hc.
  pose proof (proj1 (proj2 I)) as [Hrq Hok].
  destruct (l_srv s) as [l0|] eqn:El; [|done]. destruct Hok as [_ Hq].
  assert (srv.holder l0 = c) as Hh.
  { destruct (proj1 I c Hc) as [H1 _ _ _ _ _ _ _].
    pose proof (cnt_pos (is_returning c) _ _ _ Hm (str_eqb_refl c)).
    unfold token, srv_holds in H1. rewrite El in H1.
    destruct (str_eqb (srv.holder l0) c) eqn:E; [by apply str_eqb_eq|simpl in H1; lia]. }
  destruct (srv.queue l0) as [|n q] eqn:Eq; stepped Hs.
  - apply linv_server; [done|by split|by auto|]. intros c' Hc'.
    destruct (proj1 I c' Hc') as [H1 H2 H3 H3' H4 H5 H6 H7]; taken Hm c'.
    split; counters; rewrite ?El, ?Eq, ?Hh in *; rewrite ?info_same;
      cbn [srv.holder srv.revoked srv.queue] in *; try done;
      rewrite ?(str_eqb_ne' c' srv.FREE) in * by done; cbn [cnt] in *;
      destruct (str_eqb c c'), (srv.revoked l0); simpl in *; lia.
  - apply Forall_cons in Hq as [Hn Hq].
    apply linv_server; [done|by split|by constructor; auto|]. intros c' Hc'.
    destruct (proj1 I c' Hc') as [H1 H2 H3 H3' H4 H5 H6 H7]; taken Hm c'.
    split; counters; rewrite ?El, ?Eq, ?Hh in *; rewrite ?info_same;
      cbn [srv.holder srv.revoked srv.queue] in *; try done; unfold is_name in *;
      cbn [cnt is_acq is_granted is_retry is_returning is_revoke] in *;
      destruct (str_eqb c c'), (str_eqb n c'), (srv.revoked l0); simpl in *; lia.
Qed.

Lemma deliver_reply s i c t ret s' :
  linv s -> l_msgs s !! i = Some (MAcqRep c t ret) ->
  deliver s (delete i (l_msgs s)) (MAcqRep c t ret) = Some s' -> linv s'.
Proof.
  intros I Hm Hs. simpl in Hs. destruct (l_thr s !! t) as [[c' []]|] eqn:Ht; try done.
  destruct (str_eqb c' c) eqn:Ec; [|done]. apply str_eqb_eq in Ec as ->. stepped Hs.
  taken Hm c. rewrite str_eqb_refl in *. cbn [andb Nat.b2n] in *.
  apply linv_call_end; auto; try lia. intros c' Hc'. by eapply same_delete.
Qed.

Lemma deliver_flush s i c s' :
  linv s -> l_msgs s !! i = Some (MFlush c) ->
  deliver s (delete i (l_msgs s)) (MFlush c) = Some s' -> linv s'.
Proof.
  intros I Hm Hs. simpl in Hs. stepped Hs. pose proof I as (Ic & Hsrv & F & Hn).
  split; [|split; [done|split; [done|]]].
  - intros c' Hc'. destruct (Ic c' Hc') as [H1 H2 H3 H3' H4 H5 H6 H7]. taken Hm c'.
    split; counters; rewrite ?info_same; try done;
      cbn [cnt is_acq is_granted is_retry is_returning is_revoke] in *; lia.
  - constructor; [exact (Forall_lookup_1 _ _ _ _ Hn Hm)|by auto].
Qed.

Lemma deliver_retry s i c s' :
  linv s -> l_msgs s !! i = Some (MRetry c) ->
  deliver s (delete i (l_msgs s)) (MRetry c) = Some s' -> linv s'.
Proof.
  intros I Hm Hs. simpl in Hs. destruct (l_clt s !! c) as [l|] eqn:El; [|done]. stepped Hs.
  eapply linv_record; [done| |by auto|].
  { intros c' Hc'. eapply same_delete; [done|]. simpl. congruence. }
  intros Hc. assert (info s c = l) as Ei by (unfold info; by rewrite El).
  destruct (proj1 I c Hc) as [H1 H2 H3 H3' H4 H5 H6 H7]. taken Hm c. rewrite str_eqb_refl in *.
  assert (token s c <= 1)%nat as Hle by (rewrite H1; by destruct (srv_holds s c); simpl; lia).
  unfold clt.retry_handler. split; settle; rewrite ?Ei in *; cbn [Nat.b2n] in *; try done;
    destruct (clt.owned l), (clt.acquiring l); simpl in *; lia.
Qed.

Lemma deliver_revoke s i c s' :
  linv s -> l_msgs s !! i = Some (MRevoke c) ->
  deliver s (delete i (l_msgs s)) (MRevoke c) = Some s' -> linv s'.
Proof.
  intros I Hm Hs. simpl in Hs. destruct (clt.revoke_handler (l_clt s !! c)) as [l give] eqn:Er.
  pose proof (Forall_lookup_1 _ _ _ _ (msgs_named s I) Hm) as Hc. unfold acq_name in Hc; simpl in Hc.
  stepped Hs. eapply linv_record; [done| |by case_match; auto|].
  { intros c' Hc'. assert (same_for (l_msgs s) (delete i (l_msgs s)) c')
      by (eapply same_delete; [done|simpl; congruence]).
    case_match; [apply same_cons; [simpl; congruence|]|]; done. }
  intros _. destruct (proj1 I c Hc) as [H1 H2 H3 H3' H4 H5 H6 H7]. taken Hm c.
  rewrite str_eqb_refl in *. cbn [Nat.b2n] in *.
  assert (srv_holds s c = true /\ cnt (is_returning c) (l_msgs s) = 0%nat
    /\ clt.revoked (info s c) = false) as (Eh & Eret & Erv).
  { unfold revocation in H2. destruct (srv_holds s c); simpl in H2;
      destruct (srv_revoked s), (clt.revoked (info s c)); simpl in H2; split_and!; try done; lia. }
  unfold clt.revoke_handler in Er. destruct (l_clt s !! c) as [l0|] eqn:El.
  - assert (info s c = l0) as Ei by (unfold info; by rewrite El).
    destruct ((clt.holder l0 =? clt.FREE) && (clt.awaiting_lock l0 =? 0) && negb (clt.acquiring l0))
      eqn:E; injection Er as <- <-.
    + apply andb_true_iff in E as [E Ea]. apply andb_true_iff in E as [Efr Ew].
      apply negb_true_iff in Ea. apply Z.eqb_eq in Efr, Ew.
      assert (clt.owned l0 = true) as Eo.
      { unfold token, request in *. rewrite Ei, Eh, Ea in *.
        destruct (clt.owned l0); [done|]. simpl in *. lia. }
      pose proof (waits_free_le c (l_thr s)) as Hle.
      split; settle; rewrite ?Ei, ?Eo, ?Ea, ?Erv in *; counted; try done; try lia.
    + split; settle; rewrite ?Ei, ?Erv in *; counted; try done; try lia.
  - assert (info s c = clt.new_lock) as Ei by (unfold info; by rewrite El).
    unfold token, request in *. rewrite Ei, Eh in *. simpl in *. lia.
Qed.

Lemma step_enforce s s' : linv s -> lstep s LEnforce = Some s' -> linv s'.
Proof.
  intros I Hs. simpl in Hs. destruct (l_srv s) as [l|] eqn:El; [|done].
  pose proof (proj1 (proj2 I)) as [Hrq Hok]. rewrite El in Hok. destruct Hok as [Hfree Hq].
  unfold srv.enforce in Hs.
  destruct (negb (Nat.eqb (length (srv.queue l)) 0) && negb (srv.revoked l)) eqn:E; stepped Hs.
  - apply andb_true_iff in E as [Eq Er]. apply negb_true_iff in Eq, Er.
    assert (srv.holder l <> srv.FREE) as Hf.
    { intros Ef. destruct (Hfree Ef) as [_ E0]. by rewrite E0 in Eq. }
    apply linv_server; [done| |by auto|].
    { split; simpl; [apply Forall_app; by split; [|repeat constructor]|]. by split. }
    intros c Hc. destruct (proj1 I c Hc) as [H1 H2 H3 H3' H4 H5 H6 H7].
    split; counters; rewrite ?El, ?Er in *; rewrite ?info_same;
      cbn [srv.holder srv.revoked srv.queue] in *; try done; rewrite ?cnt_app;
      cbn [cnt]; unfold is_name in *; destruct (str_eqb (srv.holder l) c); simpl in *; lia.
  - rewrite app_nil_r. apply linv_server; [done|by split|by auto|]. intros c Hc.
    destruct (proj1 I c Hc) as [H1 H2 H3 H3' H4 H5 H6 H7].
    split; counters; rewrite ?El in *; done.
Qed.

Lemma step_revoker s s' : linv s -> lstep s LRevoker = Some s' -> linv s'.
Proof.
  intros I Hs. simpl in Hs. destruct (l_rq s) as [|h rq] eqn:Eq; [done|]. injection Hs as <-.
  pose proof I as (Ic & [Hrq Hok] & F & Hn). rewrite Eq in Hrq. apply Forall_cons in Hrq as [Hh Hrq].
  split; [|split; [by split|split; [done|by constructor]]].
  intros c Hc. destruct (Ic c Hc) as [H1 H2 H3 H3' H4 H5 H6 H7].
  split; counters; rewrite ?Eq in *; rewrite ?info_same; try done;
    cbn [cnt is_acq is_granted is_retry is_returning is_revoke] in *; unfold is_name in *; cbn [Nat.b2n]; lia.
Qed.

Lemma lstep_inv s a s' : linv s -> lstep s a = Some s' -> linv s'.
Proof.
  intros I Hs. destruct a as [t|t|t|t ret|t|t|t|i| |].
  - by eapply step_enter.
  - by eapply step_begin.
  - by eapply step_call.
  - by eapply step_call_fails.
  - by eapply step_take.
  - by eapply step_wait.
  - by eapply step_release.
  - cbn [lstep] in Hs. destruct (l_msgs s !! i) as [[]|] eqn:Hm; [..|done];
      eauto using deliver_acq, deliver_reply, deliver_flush, deliver_rel, deliver_retry,
        deliver_revoke.
  - by eapply step_enforce.
  - by eapply step_revoker.
Qed.

Lemma linitial_inv s : linitial s -> linv s.
Proof.
  intros (E1 & E2 & E3 & E4 & F). split.
  - intros c Hc. assert (forall f, (forall c p, p = PIdle -> f (c, p) = false) ->
      cnt f (l_thr s) = 0%nat) as Hz.
    { intros f Hf. clear -F Hf. induction F as [|[c' p] l [_ Hp] _ IH]; [done|]. simpl in *.
      by rewrite (Hf c' p Hp). }
    assert (info s c = clt.new_lock) as Ei by (unfold info; by rewrite E3).
    split; unfold token, revocation, request, srv_holds, srv_queue; rewrite ?E1, ?E2, ?E4, ?Ei; try done.
    + rewrite Hz; [done|]. intros c' p ->. rewrite waits_pair. by rewrite andb_false_r.
    + rewrite Hz; [lia|]. intros c' p ->. rewrite waits_free_pair. by rewrite andb_false_r.
    + intros t. split.
      * intros Ht. pose proof (Forall_lookup_1 _ _ _ _ F Ht) as [_ H]. done.
      * intros (p & _ & E). simpl in E. unfold clt.FREE, self in E. lia.
  - unfold srv_ok, names_ok. rewrite E1, E2, E4. split_and!; try done.
    eapply Forall_impl; [exact F|]. by intros ? [? _].
Qed.

Lemma lreachable_inv s : lreachable s -> linv s.
Proof.
  intros (s0 & H0 & Hr). apply linitial_inv in H0. induction Hr as [|s1 s2 s3 [a Ha] _ IH]; [done|].
  apply IH. by eapply lstep_inv.
Qed.

(** A thread that holds the lock is the holder its client knows, and its client the one the
    server knows. *)
Lemma holds_owned s c t : linv s -> holds s c t ->
  clt.holder (info s c) = self t /\ clt.owned (info s c) = true /\ srv_holds s c = true.
Proof.
  intros I Ht. destruct (proj1 I c (name_of_thread _ _ _ _ I Ht)) as [H1 _ _ _ _ _ H6 H7].
  apply H7 in Ht as (_ & _ & E). assert (clt.owned (info s c) = true) as Ho.
  { apply H6. rewrite E. unfold self, clt.FREE. lia. }
  split_and!; try done. unfold token in H1. rewrite Ho in H1. by destruct (srv_holds s c).
Qed.
Lemma holds_exclusive s c t c' t' : linv s -> holds s c t -> holds s c' t' -> c = c' /\ t = t'.
Proof.
  intros I Ht Ht'. destruct (holds_owned _ _ _ I Ht) as (E & _ & Hs), (holds_owned _ _ _ I Ht') as (E' & _ & Hs').
  unfold srv_holds in *. destruct (l_srv s); [|done]. apply str_eqb_eq in Hs, Hs'.
  assert (c = c') as -> by congruence. split; [done|]. rewrite E in E'. unfold self in E'. lia.
Qed.

(** * Properties *)

(** C4 (mutual exclusion): in every interleaving of the threads of all clients, the
    server's two background threads and the delivery of calls, late, reordered or
    failing, at most one thread of one client holds the lock; the server names that
    client as the holder, and no client gives back a lock it does not own. *)
Theorem lock_mutual_exclusion s :
  lreachable s ->
  (forall c t c' t', holds s c t -> holds s c' t' -> c = c' /\ t = t')
  /\ (forall c t, holds s c t -> clt.owned (info s c) = true /\ srv_holds s c = true)
  /\ (forall c, MRel c ∈ l_msgs s -> srv_holds s c = true /\ clt.owned (info s c) = false).
Proof.
  intros Hr. pose proof (lreachable_inv s Hr) as I. split_and!.
  - intros c t c' t'. by apply holds_exclusive.
  - intros c t Ht. by destruct (holds_owned _ _ _ I Ht) as (_ & ? & ?).
  - intros c Hm. apply list_elem_of_lookup in Hm as [i Hm].
    pose proof (Forall_lookup_1 _ _ _ _ (msgs_named s I) Hm) as Hc.
    destruct (proj1 I c Hc) as [H1 _ _ _ _ _ _ _]. unfold token in H1.
    pose proof (cnt_pos (is_returning c) _ _ _ Hm (str_eqb_refl c)).
    destruct (srv_holds s c), (clt.owned (info s c)); simpl in H1; split; try done; lia.
Qed.

Module lock_example.
Definition A : cstring := cs "127.0.0.1:1000".
Definition B : cstring := cs "127.0.0.1:2000".
Definition s0 : lsys := LSys None [] ∅ [(A, PIdle); (A, PIdle); (B, PIdle)] [].
(** Thread 0 of A takes the lock; B asks for it and waits; the lock is revoked, given
    back by A and handed over to B. *)
Definition handover : list laction :=
  [LEnter 0; LBegin 0; LCall 0; LDeliver 0; LDeliver 0; LTake 0;
   LEnter 2; LBegin 2; LCall 2; LDeliver 0; LDeliver 0; LEnforce; LRevoker; LDeliver 0;
   LRelease 0; LDeliver 0; LDeliver 0; LDeliver 0; LTake 2]%nat.
Definition run (s : lsys) (l : list laction) : option lsys :=
  fold_left (fun s a => s ← s; lstep s a) l (Some s).

Lemma run_reachable s l s' : run s l = Some s' -> rtc (fun s s' => exists a, lstep s a = Some s') s s'.
Proof.
  revert s. induction l as [|a l IH]; intros s H; [by injection H as ->|].
  unfold run in H. simpl in H. destruct (lstep s a) as [s1|] eqn:E.
  - eapply rtc_l; [by exists a|]. by apply IH.
  - exfalso. clear -H. induction l; simpl in H; [done|auto].
Qed.

Definition handed : lsys := default s0 (run s0 handover).
Lemma handover_run : run s0 handover = Some handed.
Proof. vm_compute. reflexivity. Qed.
Lemma handed_reachable : lreachable handed.
Proof.
  exists s0. split; [|eapply run_reachable, handover_run]. split_and!; try done.
  repeat (constructor; [split; [by_computing|done]|]). constructor.
Qed.

Lemma lock_mutual_exclusion_witness :
  holds handed B 2 /\ ~ holds handed A 0 /\ srv_holds handed B = true.
Proof.
  destruct (lock_mutual_exclusion handed handed_reachable) as (Hex & Hown & _).
  assert (holds handed B 2) as Hb by (vm_compute; reflexivity).
  split; [done|]. split; [|apply (Hown B 2%nat Hb)].
  intros Ha. by destruct (Hex _ _ _ _ Ha Hb).
Defined.
End lock_example.
