(* ===== verification/Config.v ===== *)
(** Views: config.cc.

    A view is the list of the nodes of the system, and the value of a Paxos instance is
    a view printed as text.  The module proposes the next view when a node joins or
    stops answering, and follows the views Paxos decides. *)
From Stdlib Require Import ZArith Lia Ascii String.
From stdpp Require Import base gmap list strings.
From S2P Require Import Prelude TextIO Protocols PaxosLog Acceptor Proposer.
Local Open Scope Z_scope.

(** * Views as text *)

Fixpoint members_loop (fuel : nat) (ist : istream) (m : cstring) (view : list cstring)
  : outcome (list cstring) :=
  match fuel with
  | O => Fault Diverged
  | S fuel =>
      let '(ist, m) := read_word ist m in
      if i_ok ist then members_loop fuel ist m (view ++ [m]) else Ret view
  end.
(** Every turn of the loop reads at least one character. *)
Definition members (value : cstring) : outcome (list cstring) :=
  members_loop (S (length value)) (open_text value) [] [].

Fixpoint view_value (m : list cstring) : cstring :=
  match m with
  | [] => []
  | x :: m => x ++ [space] ++ view_value m
  end.

(** * State and operations *)

Record config := Config {
  cf_acc : acceptor; cf_pro : proposer; myvid : Z; cf_me : cstring; cf_vc : bool;
  mems : list cstring }.

Definition set_view (c : config) (a : acceptor) (vid : Z) (ms : list cstring) : config :=
  Config a (cf_pro c) vid (cf_me c) (cf_vc c) ms.

Definition get_view_wo (c : config) (instance : Z) : outcome (config * list cstring) :=
  let '(a, v) := value (cf_acc c) instance in
  ms ← members v;
  Ret (set_view c a (myvid c) (mems c), ms).

Definition reconstruct (c : config) : outcome config :=
  if instance_h (cf_acc c) >? 0 then
    let vid := instance_h (cf_acc c) in
    '(c, ms) ← get_view_wo c vid;
    Ret (set_view c (cf_acc c) vid ms)
  else Ret c.

(** The constructor, on the log [file] of a former life. *)
Definition config_new (first me : cstring) (vc : bool) (file : cstring) : outcome config :=
  a ← acceptor_new true (str_eqb me first) me me file;
  reconstruct (Config a (proposer_new me) 0 me vc []).

Definition config_restore (c : config) (s : cstring) : outcome config :=
  a ← acc_restore (cf_acc c) s;
  reconstruct (set_view c a (myvid c) (mems c)).

(** The upcall of the acceptor: the new state, the handles deleted, and the view number
    passed on to [commit_change]. *)
Definition paxos_commit (c : config) (instance : Z) (v : cstring)
  : outcome (config * list cstring * option Z) :=
  newmem ← members v;
  let gone := List.filter (fun m => negb (isamember m newmem) && negb (str_eqb (cf_me c) m)) (mems c) in
  Ret (set_view c (cf_acc c) instance newmem, gone, if cf_vc c then Some instance else None).

Definition ismember (c : config) (m : cstring) (vid : Z) : outcome (config * bool) :=
  '(c, v) ← get_view_wo c vid; Ret (c, isamember m v).

(** What [add] and [remove_wo] hand to the proposer: the instance, the nodes of the
    current view and the text of the next one.  [nextvid] is an [int]. *)
Definition add_proposal (c : config) (new_m : cstring) (vid : Z)
  : option (Z * list cstring * cstring) :=
  if negb (vid =? myvid c) then None
  else Some (s32 (myvid c + 1), mems c, view_value (mems c ++ [new_m])).
Definition remove_proposal (c : config) (m : cstring) : Z * list cstring * cstring :=
  (s32 (myvid c + 1), mems c,
   view_value (List.filter (fun x => negb (str_eqb x m)) (mems c))).

(** The two operations; [run] is [proposer::run] on the rest of the system. *)
Definition add {W} (run : Z -> list cstring -> cstring -> W -> W * bool) (c : config)
    (new_m : cstring) (vid : Z) (w : W) : W * bool :=
  match add_proposal c new_m vid with
  | None => (w, false)
  | Some (nextvid, curm, v) => run nextvid curm v w
  end.
Definition remove_wo {W} (run : Z -> list cstring -> cstring -> W -> W * bool) (c : config)
    (m : cstring) (w : W) : W * bool :=
  let '(nextvid, curm, v) := remove_proposal c m in run nextvid curm v w.

(** * Heartbeats *)

Inductive heartbeat_t := HOK | HVIEWERR | HFAILURE.
#[global] Instance heartbeat_eq_dec : EqDecision heartbeat_t.
Proof. solve_decision. Defined.

(** The handler of a heartbeat call: status and reply. *)
Definition heartbeat (c : config) (vid : Z) : outcome (Z * Z) :=
  let r := s32 (myvid c) in
  if vid =? myvid c then Ret (paxos_protocol.OK, r)
  else if isrunning (cf_pro c) then
    _ ← verify ((vid =? u32 (myvid c + 1)) || (u32 (vid + 1) =? myvid c));
    Ret (paxos_protocol.OK, r)
  else Ret (paxos_protocol.ERR, r).

(** [doheartbeat], given the status of the call ([timeout_failure] without a
    connection): the verdict, and whether the handle is deleted. *)
Definition doheartbeat (ret : Z) : heartbeat_t * bool :=
  if negb (ret =? paxos_protocol.OK) then
    if (ret =? rpc_const.atmostonce_failure) || (ret =? rpc_const.oldsrv_failure)
    then (HOK, true)
    else (if ret <? 0 then HFAILURE else HVIEWERR, false)
  else (HOK, false).

Definition smallest (me : cstring) (cmems : list cstring) : cstring :=
  fold_left (fun m x => if str_gtb m x then x else m) cmems me.

(** The first node of the list, other than this one, whose heartbeat fails. *)
Definition first_failing (me : cstring) (status : cstring -> Z) (cmems : list cstring)
  : option cstring :=
  List.find (fun x => negb (str_eqb x me) && negb (bool_decide ((doheartbeat (status x)).1 = HOK)))
    cmems.

(** One turn of [heartbeater], given the status of the call to each node, and the view
    number when the calls are done: the node to be removed. *)
Definition heartbeater_turn (c : config) (status : cstring -> Z) (vid_after : Z)
  : outcome (config * option cstring) :=
  let vid := myvid c in
  '(c, cmems) ← get_view_wo c vid;
  if negb (isamember (cf_me c) cmems) then Ret (c, None)
  else
    let m := smallest (cf_me c) cmems in
    let failed :=
      if str_eqb m (cf_me c) then first_failing (cf_me c) status cmems
      else if bool_decide ((doheartbeat (status m)).1 = HOK) then None else Some m in
    Ret (c, if vid =? vid_after then failed else None).

(** * Views read back *)

Lemma members_loop_value ms fuel m view :
  Forall is_word ms -> (length ms < fuel)%nat ->
  members_loop fuel (open_text (view_value ms)) m view = Ret (view ++ ms).
Proof.
  assert (forall ms fuel m view, Forall is_word ms -> (length ms < fuel)%nat ->
    members_loop fuel (open_text (space :: view_value ms)) m view = Ret (view ++ ms)) as Hsp.
  { clear. intros ms. induction ms as [|x ms IH]; intros [|fuel] m view Hw Hf; simpl in Hf; try lia.
    - simpl. by rewrite app_nil_r.
    - apply Forall_cons in Hw as [Hx Hw]. cbn [members_loop].
      rewrite read_word_space. cbn [view_value]. rewrite read_word_app by done. simpl i_ok. cbn iota.
      change (Istream ([space] ++ view_value ms) _ false) with (open_text (space :: view_value ms)).
      rewrite IH by (done || lia). by rewrite <- app_assoc. }
  intros Hw Hf. rewrite <- Hsp with (fuel := fuel) (m := m) by done. destruct fuel; [done|].
  cbn [members_loop]. by rewrite read_word_space.
Qed.

Lemma view_value_length ms : (length ms <= length (view_value ms))%nat.
Proof. induction ms as [|x ms IH]; simpl; [done|]. rewrite !length_app. simpl. lia. Qed.

Lemma members_value ms : Forall is_word ms -> members (view_value ms) = Ret ms.
Proof.
  intros H. unfold members. rewrite members_loop_value; [done|done|].
  pose proof (view_value_length ms). lia.
Qed.

Lemma members_ends v : is_ret (members v).
Proof.
  unfold members. assert ((i_len (open_text v) < S (length v))%nat) as H by (unfold i_len; simpl; lia).
  revert H. generalize (open_text v) as i, (@nil ascii) as m, (@nil cstring) as view.
  generalize (S (length v)) as fuel.
  induction fuel as [|fuel IH]; intros i m view H; [lia|]. cbn [members_loop].
  pose proof (read_word_consumes i m) as Hc. destruct (read_word i m) as [i' w]. cbn [fst] in Hc.
  destruct (i_ok i'); [|by eexists]. apply IH. specialize (Hc eq_refl). lia.
Qed.

Lemma word_no_newline w : is_word w -> newline ∉ w.
Proof.
  intros [_ H] Hin. eapply Forall_forall in H; [|exact Hin]. by simpl in H.
Qed.
Lemma view_value_line ms : Forall is_word ms -> is_line (view_value ms).
Proof.
  induction 1 as [|x ms Hx _ IH]; [apply not_elem_of_nil|]. unfold is_line in *. cbn [view_value].
  rewrite !not_elem_of_app, not_elem_of_cons. split_and!; [by apply word_no_newline|done| |done].
  apply not_elem_of_nil.
Qed.
Lemma view_value_nonempty ms : ms <> [] -> view_value ms <> [].
Proof. intros H E. destruct ms as [|x ms]; [done|]. by destruct x. Qed.

(** * The smallest node *)

Lemma smallest_spec me l :
  (smallest me l = me \/ smallest me l ∈ l)
  /\ forall x, x = me \/ x ∈ l -> str_ltb x (smallest me l) = false.
Proof.
  unfold smallest. revert me. induction l as [|y l IH]; intros me; simpl.
  - split; [by left|]. intros x [->|H]; [apply str_ltb_irrefl|by apply not_elem_of_nil in H].
  - destruct (IH (if str_gtb me y then y else me)) as [H1 H2]. unfold str_gtb in *.
    set (s := fold_left _ l _) in *. clearbody s. split.
    + destruct H1 as [->|H1]; [|right; by right]. destruct (str_ltb y me); [right; by left|by left].
    + assert (str_ltb (if str_ltb y me then y else me) s = false) as Hb by (apply H2; by left).
      intros x [->|[->|Hx]%elem_of_cons].
      * destruct (str_ltb y me) eqn:E; [|done]. destruct (str_ltb me s) eqn:F; [|done].
        by rewrite (str_ltb_trans _ _ _ E F) in Hb.
      * destruct (str_ltb y me) eqn:E; [done|]. destruct (str_ltb y s) eqn:F; [|done].
        destruct (str_ltb_total me s) as [G|[->|G]]; [congruence|congruence|].
        by rewrite (str_ltb_trans _ _ _ F G) in E.
      * apply H2. by right.
Qed.

(** * Properties *)

(** View texts: what [add] and [remove_wo] propose is the text of the current view
    with the node added or left out; it reads back as that view, and it is a nonempty
    line, as the agreement of Paxos and the log require of a value. *)
Theorem proposals_are_views c m :
  Forall is_word (mems c) -> is_word m ->
  (exists n v, add_proposal c m (myvid c) = Some (n, mems c, v)
     /\ members v = Ret (mems c ++ [m]) /\ v <> [] /\ is_line v)
  /\ (exists n v, remove_proposal c m = (n, mems c, v)
     /\ members v = Ret (List.filter (fun x => negb (str_eqb x m)) (mems c)) /\ is_line v
     /\ ((exists x, x ∈ mems c /\ x <> m) -> v <> [])).
Proof.
  intros Hw Hm. split.
  - unfold add_proposal. rewrite Z.eqb_refl. simpl. eexists _, _. split; [done|].
    assert (Forall is_word (mems c ++ [m])) by (apply Forall_app; split; [done|by apply Forall_singleton]).
    split_and!; [by apply members_value|apply view_value_nonempty|by apply view_value_line].
    by destruct (mems c).
  - unfold remove_proposal. eexists _, _. split; [done|].
    assert (Forall is_word (List.filter (fun x => negb (str_eqb x m)) (mems c))) as Hf.
    { apply Forall_forall. intros x Hx. rewrite list_elem_of_In, filter_In, <- list_elem_of_In in Hx.
      eapply Forall_forall in Hw; [exact Hw|apply Hx]. }
    split_and!; [by apply members_value|by apply view_value_line|].
    intros (x & Hx & Hne). apply view_value_nonempty. intros E.
    assert (In x (List.filter (fun x => negb (str_eqb x m)) (mems c))) as Hin; [|by rewrite E in Hin].
    apply filter_In. split; [by apply list_elem_of_In|]. by rewrite (proj2 (str_eqb_neq x m) Hne).
Qed.

(** Views follow Paxos: a node that is restarted from its log is back in the last
    view its acceptor had decided. *)
Theorem restart_recovers_view first me vc a ms :
  is_line me -> life true (str_eqb me first) me me a -> 0 < instance_h a ->
  members (value_of a (instance_h a)) = Ret ms ->
  exists c, config_new first me vc (logfile a) = Ret c
    /\ myvid c = instance_h a /\ mems c = ms /\ cf_acc c ≡ a.
Proof.
  intros Hl H Hpos Hms. destruct (life_sound _ _ _ _ _ Hl H) as (Ec & Em & Hf & H0 & es & Hd).
  destruct (acceptor_new_recovers a es (str_eqb me first) me) as (a' & E & Ha & _); [done| |].
  { intros Ef. specialize (Hf Ef). lia. }
  unfold config_new. rewrite Ec, Em in E. rewrite E. simpl. unfold reconstruct. cbn [cf_acc].
  pose proof Ha as (Hc & Hme & Hnh & Hna & Hva & Hi & Hv). rewrite Hi.
  assert ((instance_h a >? 0) = true) as -> by lia.
  unfold get_view_wo, value. cbn [cf_acc]. rewrite Hv, Hms. simpl. eexists. split; [done|].
  simpl. split_and!; try done. unfold equiv, acceptor_equiv. simpl. split_and!; try done.
  intros i. unfold value_of. simpl. destruct (decide (i = instance_h a)) as [->|];
    [by rewrite lookup_insert_eq|]. rewrite lookup_insert_ne by done. apply Hv.
Qed.

(** C24 (failure detection): a turn of the heartbeater asks for the removal only of
    another member of its view, one whose heartbeat failed; the node with the smallest
    name checks every other member, and the others check that one. *)
Theorem heartbeater_removes c status vid_after c' ms r :
  get_view_wo c (myvid c) = Ret (c', ms) ->
  heartbeater_turn c status vid_after = Ret (c', r) ->
  (forall m, r = Some m -> m ∈ ms /\ m <> cf_me c /\ (doheartbeat (status m)).1 <> HOK)
  /\ (vid_after = myvid c -> cf_me c ∈ ms -> r = None ->
      forall m, m ∈ ms -> m <> cf_me c ->
        (forall x, x ∈ ms -> str_ltb x (cf_me c) = false)
        \/ (forall x, x ∈ ms -> str_ltb x m = false) ->
        (doheartbeat (status m)).1 = HOK).
Proof.
  intros Hv Ht. unfold heartbeater_turn in Ht. rewrite Hv in Ht. simpl in Ht.
  assert (cf_me c' = cf_me c) as Eme.
  { unfold get_view_wo, value in Hv. inv_ret. by simplify_eq. }
  rewrite Eme in Ht. clear Eme. revert Ht. generalize (cf_me c) as me. intros me Ht.
  destruct (smallest_spec me ms) as [Hs1 Hs2].
  destruct (isamember me ms) eqn:Hmem; simpl in Ht; inv_ret; simplify_eq;
    [|split; [done|]; intros _ Hin _; apply isamember_elem in Hin; congruence].
  split.
  - intros m. destruct (myvid c =? vid_after); [|done]. destruct (str_eqb (smallest me ms) me) eqn:E.
    + intros Hf%find_some. destruct Hf as [Hin Hb]. apply andb_true_iff in Hb as [Hb1 Hb2].
      apply negb_true_iff in Hb1, Hb2. apply bool_decide_eq_false in Hb2.
      split_and!; [by apply list_elem_of_In|by apply str_eqb_neq|done].
    + case_bool_decide as Hb; [done|]. intros [= <-]. apply str_eqb_neq in E.
      split_and!; [|done|done]. by destruct Hs1.
  - intros -> Hin Hr m Hm Hne Hwho. rewrite Z.eqb_refl in Hr.
    destruct (str_eqb (smallest me ms) me) eqn:E.
    + eapply find_none in Hr; [|by apply list_elem_of_In, Hm]. simpl in Hr.
      rewrite (proj2 (str_eqb_neq m me) Hne) in Hr. simpl in Hr.
      by apply negb_false_iff, bool_decide_eq_true in Hr.
    + apply str_eqb_neq in E. case_bool_decide as Hb; [|done].
      assert (m = smallest me ms) as ->; [|done].
      assert (smallest me ms ∈ ms) as Hsm by (by destruct Hs1).
      destruct Hwho as [Hwho|Hwho].
      * exfalso. apply E. specialize (Hwho _ Hsm). specialize (Hs2 me (or_introl eq_refl)).
        destruct (str_ltb_total (smallest me ms) me) as [?|[?|?]]; congruence.
      * specialize (Hwho _ Hsm). specialize (Hs2 m (or_intror Hm)).
        destruct (str_ltb_total m (smallest me ms)) as [?|[?|?]]; congruence.
Qed.

(** Heartbeats that abort: while a node's proposer is running, a heartbeat from a
    node more than one view away makes it fail its assertion. *)
Theorem heartbeat_aborts c vid :
  is_u32 vid -> is_u32 (myvid c) -> isrunning (cf_pro c) = true ->
  vid <> myvid c -> vid <> u32 (myvid c + 1) -> u32 (vid + 1) <> myvid c ->
  heartbeat c vid = Fault AssertFail.
Proof.
  intros Hv Hm Hr H1 H2 H3. unfold heartbeat.
  apply Z.eqb_neq in H1, H2, H3. by rewrite H1, Hr, H2, H3.
Qed.

Module config_examples.
Definition me : cstring := cs "4001".
Definition view : list cstring := [me; cs "4002"; cs "4003"].
Definition acc : acceptor :=
  Acceptor true me (Prop_t 0 me) (Prop_t 0 me) [] 3 {[3 := view_value view]} [].
Definition node : config := Config acc (set_stable (proposer_new me) false) 3 me true view.

Lemma proposals_are_views_witness :
  exists n v, add_proposal node (cs "4004") 3 = Some (n, view, v)
    /\ members v = Ret (view ++ [cs "4004"]).
Proof.
  destruct (proposals_are_views node (cs "4004")) as [(n & v & H1 & H2 & _) _];
    [by_computing|by_computing|]. by exists n, v.
Defined.
Lemma restart_recovers_view_witness :
  exists c, config_new me me true (logfile (default (acceptor_init true me [])
      (match acceptor_new true true me me [] with Ret a => Some a | _ => None end))) = Ret c
    /\ myvid c = 1 /\ mems c = [me].
Proof.
  destruct (restart_recovers_view me me true
    (default (acceptor_init true me [])
      (match acceptor_new true true me me [] with Ret a => Some a | _ => None end)) [me])
    as (c & ? & Hi & ? & _).
  - by_computing.
  - by apply life_start.
  - by vm_compute.
  - by vm_compute.
  - exists c. split; [done|]. split; [rewrite Hi; by vm_compute|done].
Defined.
Lemma heartbeater_removes_witness :
  exists c', get_view_wo node 3 = Ret (c', view)
    /\ heartbeater_turn node (fun m => if str_eqb m (cs "4003") then -1 else 0) 3
       = Ret (c', Some (cs "4003"))
    /\ cs "4003" ∈ view.
Proof.
  destruct (get_view_wo node 3) as [[c' ms]|] eqn:E; [|by vm_compute in E].
  assert (ms = view) as ->.
  { apply (f_equal (fun o => match o with Ret (_, l) => l | _ => [] end)) in E. rewrite <- E.
    by vm_compute. }
  assert (heartbeater_turn node (fun m => if str_eqb m (cs "4003") then -1 else 0) 3
       = Ret (c', Some (cs "4003"))) as Ht.
  { unfold heartbeater_turn. change (myvid node) with 3. rewrite E. simpl.
    apply (f_equal (fun o => match o with Ret (c, _) => cf_me c | _ => [] end)) in E. simpl in E.
    rewrite <- E. by vm_compute. }
  exists c'. split; [done|]. split; [done|].
  by apply (heartbeater_removes node _ 3 c' view (Some (cs "4003")) E Ht).
Defined.
Lemma heartbeat_aborts_witness : heartbeat node 1 = Fault AssertFail.
Proof. apply heartbeat_aborts; by_computing || done. Defined.
End config_examples.
