(* ===== verification/Rsm.v ===== *)
(** The replicated state machine: rsm.cc, and its client rsm_client.cc.

    The module follows the views that [config] reports, chooses the primary of each, lets
    nodes join and brings a joining node up to date.  The parts that run under
    [rsm_mutex] are the definitions here; where the code gives the mutex up to make a
    call, the definition is split in two.  The replication of requests itself
    ([client_invoke], [invoke], the waiting in [sync_with_backups]) is not written in the
    sources: their bodies return at once, and so do the definitions. *)
From Stdlib Require Import ZArith Lia Ascii String.
From stdpp Require Import base gmap list strings.
From S2P Require Import Prelude TextIO Marshall Protocols PaxosLog Acceptor Proposer Config.
Local Open Scope Z_scope.

(** * State *)

(** [stf] is the object whose state is replicated, if there is one: the text that
    [marshal_state] returns and [unmarshal_state] sets. *)
Record rsm := Rsm {
  cfg : config; stf : option cstring; myvs : viewstamp; last_myvs : viewstamp;
  primary : cstring; insync : bool; inviewchange : bool; vid_commit : Z; vid_insync : Z;
  partitioned : bool; dopartition : bool; rs_break1 : bool; rs_break2 : bool }.

Definition set_cfg (r : rsm) (c : config) : rsm :=
  Rsm c (stf r) (myvs r) (last_myvs r) (primary r) (insync r) (inviewchange r) (vid_commit r)
    (vid_insync r) (partitioned r) (dopartition r) (rs_break1 r) (rs_break2 r).
Definition set_prim (r : rsm) (p : cstring) : rsm :=
  Rsm (cfg r) (stf r) (myvs r) (last_myvs r) p (insync r) (inviewchange r) (vid_commit r)
    (vid_insync r) (partitioned r) (dopartition r) (rs_break1 r) (rs_break2 r).
Definition set_commit (r : rsm) (vid : Z) : rsm :=
  Rsm (cfg r) (stf r) (myvs r) (last_myvs r) (primary r) (insync r) true vid
    (vid_insync r) (partitioned r) (dopartition r) (rs_break1 r) (rs_break2 r).
Definition set_insync (r : rsm) (b : bool) (vid : Z) : rsm :=
  Rsm (cfg r) (stf r) (myvs r) (last_myvs r) (primary r) b (inviewchange r) (vid_commit r)
    vid (partitioned r) (dopartition r) (rs_break1 r) (rs_break2 r).
Definition set_myvs (r : rsm) (vs : viewstamp) : rsm :=
  Rsm (cfg r) (stf r) vs (last_myvs r) (primary r) (insync r) false (vid_commit r)
    (vid_insync r) (partitioned r) (dopartition r) (rs_break1 r) (rs_break2 r).
Definition set_state (r : rsm) (st : option cstring) (last : viewstamp) : rsm :=
  Rsm (cfg r) st (myvs r) last (primary r) (insync r) (inviewchange r) (vid_commit r)
    (vid_insync r) (partitioned r) (dopartition r) (rs_break1 r) (rs_break2 r).
Definition set_test (r : rsm) (part dopart b1 b2 : bool) : rsm :=
  Rsm (cfg r) (stf r) (myvs r) (last_myvs r) (primary r) (insync r) (inviewchange r)
    (vid_commit r) (vid_insync r) part dopart b1 b2.

(** * The primary *)

Definition view_of (r : rsm) (vid : Z) : outcome (rsm * list cstring) :=
  '(c, v) ← get_view_wo (cfg r) vid; Ret (set_cfg r c, v).
Definition is_member (r : rsm) (m : cstring) (vid : Z) : outcome (rsm * bool) :=
  '(c, b) ← ismember (cfg r) m vid; Ret (set_cfg r c, b).
Definition myaddr (r : rsm) : cstring := cf_me (cfg r).

Definition set_primary (r : rsm) (vid : Z) : outcome rsm :=
  '(r, c) ← view_of r vid;
  '(r, p) ← view_of r (u32 (vid - 1));
  _ ← verify (negb (bool_decide (c = [])));
  if isamember (primary r) c then Ret r
  else
    _ ← verify (negb (bool_decide (p = [])));
    match List.find (fun x => isamember x c) p with
    | Some x => Ret (set_prim r x)
    | None => Fault AssertFail
    end.

Definition breakpoint2 (r : rsm) : outcome unit := if rs_break2 r then Fault Exited else Ret tt.
Definition breakpoint1 (r : rsm) : outcome unit := if rs_break1 r then Fault Exited else Ret tt.

Definition commit_change_wo (r : rsm) (vid : Z) : outcome rsm :=
  if vid <=? vid_commit r then Ret r
  else
    r ← set_primary (set_commit r vid) vid;
    '(r, b) ← is_member r (myaddr r) (vid_commit r);
    _ ← (if b : bool then breakpoint2 r else Ret tt);
    Ret r.

(** The constructor, on the log [file] of a former life. *)
Definition rsm_new (first me : cstring) (st : option cstring) (file : cstring) : outcome rsm :=
  c ← config_new first me true file;
  let last := Viewstamp 0 0 in
  let r := Rsm c st (Viewstamp 0 1) last first false true 0 0 false false false false in
  if str_eqb first me then commit_change_wo r 1 else Ret r.

Definition amiprimary (r : rsm) : bool := str_eqb (primary r) (myaddr r) && negb (inviewchange r).

(** * Joining *)

(** [joinreq], up to the call of [config::add] (with the view number it is given), and
    from its return; the reply holds the log. *)
Inductive joining := JoinDone (ret : Z) (log : cstring) | JoinAdd (vid_cache : Z).

Definition joinreq_begin (r : rsm) (m : cstring) : outcome (rsm * joining) :=
  '(r, b) ← is_member r m (vid_commit r);
  if b : bool then log ← acc_dump (cf_acc (cfg r)); Ret (r, JoinDone rsm_protocol.OK log)
  else if negb (str_eqb (myaddr r) (primary r)) then Ret (r, JoinDone rsm_protocol.BUSY [])
  else Ret (r, JoinAdd (vid_commit r)).

Definition joinreq_end (r : rsm) (m : cstring) : outcome (rsm * Z * cstring) :=
  '(r, b) ← is_member r m (myvid (cfg r));
  if b : bool then log ← acc_dump (cf_acc (cfg r)); Ret (r, rsm_protocol.OK, log)
  else Ret (r, rsm_protocol.BUSY, []).

(** [join], given the answer of the primary if it could be reached. *)
Definition join (r : rsm) (answer : option (Z * cstring)) : outcome (rsm * bool) :=
  match answer with
  | None => Ret (r, false)
  | Some (ret, log) =>
      if negb (ret =? rsm_protocol.OK) then Ret (r, false)
      else c ← config_restore (cfg r) log; Ret (set_cfg r c, true)
  end.

(** * State transfer *)

Definition transferreq (r : rsm) (last : viewstamp) (vid : Z) : Z * transferres :=
  if negb (insync r) || negb (vid =? vid_insync r)
  then (rsm_protocol.BUSY, TransferRes [] (Viewstamp 0 0))
  else (rsm_protocol.OK,
        TransferRes (match stf r with
                     | Some st => if vs_neqb last (last_myvs r) then st else []
                     | None => []
                     end) (last_myvs r)).

(** [statetransfer], given the answer if the node could be reached. *)
Definition statetransfer (r : rsm) (answer : option (Z * transferres)) : rsm * bool :=
  match answer with
  | None => (r, false)
  | Some (ret, t) =>
      if negb (ret =? rsm_protocol.OK) then (r, false)
      else
        let st := match stf r with
                  | Some old => if vs_neqb (last_myvs r) (tr_last t) then Some (tr_state t) else Some old
                  | None => None
                  end in
        (set_state r st (tr_last t), true)
  end.

(** The bodies that are not written yet. *)
Definition sync_with_backups (r : rsm) : rsm * bool :=
  let r := set_insync r true (vid_insync r) in
  (set_insync r false (vid_insync r), true).
Definition sync_with_primary (r : rsm) : rsm * bool := (r, true).
Definition client_invoke (r : rsm) (procno : Z) (req rep : cstring) : rsm * Z * cstring :=
  (r, rsm_client_protocol.OK, rep).
Definition invoke (r : rsm) (proc : Z) (vs : viewstamp) (req : cstring) : rsm * Z :=
  (r, rsm_protocol.OK).
Definition transferdonereq (r : rsm) (m : cstring) (vid : Z) : rsm * Z := (r, rsm_protocol.OK).

(** * The recovery thread *)

(** A turn of the inner loop, for a node that is not in the view it has committed. *)
Definition recovery_join (r : rsm) (answer : option (Z * cstring)) : outcome rsm :=
  '(r, joined) ← join r answer;
  if joined : bool then commit_change_wo r (myvid (cfg r)) else Ret r.

(** From the end of the inner loop to the synchronisation, in which [sync_with_backups]
    gives the mutex up once; [after] is the state when it has it again. *)
Definition recovery_sync (r : rsm) : rsm := set_insync r (insync r) (vid_commit r).
Definition recovery_done (after : rsm) : rsm :=
  let '(r, ok) := if str_eqb (primary after) (myaddr after)
                  then sync_with_backups after else sync_with_primary after in
  if negb (vid_insync r =? vid_commit r) then r
  else if ok then set_myvs r (Viewstamp (vid_commit r) 1) else r.

(** * Clients *)

Definition client_members (r : rsm) : outcome (rsm * list cstring) :=
  '(r, m) ← view_of r (vid_commit r); Ret (r, m ++ [primary r]).

Record rsm_client := RsmClient { cl_primary : cstring; known_mems : list cstring }.

(** [init_members], given the answer of the node it asks. *)
Definition init_members (c : rsm_client) (answer : option (Z * list cstring))
  : outcome (rsm_client * bool) :=
  match answer with
  | None => Ret (c, false)
  | Some (ret, view) =>
      if negb (ret =? rsm_protocol.OK) then Ret (c, false)
      else match last view with
           | None => Fault AssertFail
           | Some p => Ret (RsmClient p (removelast view), true)
           end
  end.

(** * Testing *)

Module rsm_test_protocol.
Definition OK : Z := 0.
Definition ERR : Z := 1.
End rsm_test_protocol.

Definition set_pro (c : config) (p : proposer) : config :=
  Config (cf_acc c) p (myvid c) (cf_me c) (cf_vc c) (mems c).

Definition breakpointreq (r : rsm) (b : Z) : rsm * Z :=
  if b =? 1
  then (set_test r (partitioned r) (dopartition r) true (rs_break2 r), rsm_test_protocol.OK)
  else if b =? 2
  then (set_test r (partitioned r) (dopartition r) (rs_break1 r) true, rsm_test_protocol.OK)
  else if (b =? 3) || (b =? 4)
  then (set_cfg r (set_pro (cfg r) (breakpoint (cf_pro (cfg r)) b)), rsm_test_protocol.OK)
  else (r, rsm_test_protocol.ERR).

(** The nodes whose handles are made reachable or unreachable. *)
Definition net_repair_wo (r : rsm) : outcome (rsm * list cstring) :=
  '(r, m) ← view_of r (vid_commit r);
  Ret (r, List.filter (fun x => negb (str_eqb x (myaddr r))) m).

Definition test_net_repairreq (r : rsm) (heal : bool) : outcome (rsm * list cstring * Z) :=
  if heal then
    '(r, nodes) ← net_repair_wo r;
    Ret (set_test r false (dopartition r) (rs_break1 r) (rs_break2 r), nodes, rsm_test_protocol.OK)
  else Ret (set_test r false true (rs_break1 r) (rs_break2 r), [], rsm_test_protocol.OK).

Definition partition1 (r : rsm) : outcome (rsm * list cstring) :=
  if dopartition r then
    '(r, nodes) ← net_repair_wo r;
    Ret (set_test r true false (rs_break1 r) (rs_break2 r), nodes)
  else Ret (r, []).

(** * Looking up views changes nothing that shows *)

(** Two nodes that agree on all views, however they came to know them. *)
Definition same_views (r r' : rsm) : Prop :=
  forall i, value_of (cf_acc (cfg r)) i = value_of (cf_acc (cfg r')) i.

Lemma value_of_read a i j : value_of (value a i).1 j = value_of a j.
Proof.
  unfold value. simpl. unfold value_of, set_values. simpl.
  destruct (decide (i = j)) as [->|]; [by rewrite lookup_insert_eq|by rewrite lookup_insert_ne].
Qed.

Lemma view_of_inv r vid r' v :
  view_of r vid = Ret (r', v) ->
  members (value_of (cf_acc (cfg r)) vid) = Ret v
  /\ r' = set_cfg r (set_view (cfg r) (value (cf_acc (cfg r)) vid).1 (myvid (cfg r)) (mems (cfg r))).
Proof. unfold view_of, get_view_wo. simpl. intros E. inv_ret. by simplify_eq. Qed.

Lemma view_of_same r vid r' v : view_of r vid = Ret (r', v) -> same_views r' r.
Proof. intros (_ & ->)%view_of_inv i. simpl. apply value_of_read. Qed.

Lemma view_of_ret r vid v :
  members (value_of (cf_acc (cfg r)) vid) = Ret v -> exists r', view_of r vid = Ret (r', v).
Proof. intros E. unfold view_of, get_view_wo. simpl. rewrite E. by eexists. Qed.

Lemma is_member_inv r m vid r' b :
  is_member r m vid = Ret (r', b) ->
  exists v, view_of r vid = Ret (r', v) /\ b = isamember m v.
Proof.
  unfold is_member, ismember, view_of. intros E.
  apply bind_ret_inv in E as ([c b'] & E1 & E). apply bind_ret_inv in E1 as ([c' v] & E1 & E2).
  simplify_eq. exists v. by rewrite E1.
Qed.

(** * The choice of the primary *)

Lemma find_first (c p : list cstring) x :
  List.find (fun x => isamember x c) p = Some x ->
  x ∈ c /\ exists before after, p = before ++ x :: after /\ Forall (fun y => y ∉ c) before.
Proof.
  induction p as [|y p IH]; simpl; [done|]. destruct (isamember y c) eqn:E.
  - intros [= ->]. split; [by apply isamember_elem|]. by exists [], p.
  - intros (Hx & b & a & -> & Hb)%IH. split; [done|]. exists (y :: b), a. split; [done|].
    constructor; [|done]. intros Hy%isamember_elem. congruence.
Qed.
Lemma find_none_members (c p : list cstring) :
  List.find (fun x => isamember x c) p = None <-> Forall (fun y => y ∉ c) p.
Proof.
  induction p as [|y p IH]; simpl; [done|]. rewrite Forall_cons. destruct (isamember y c) eqn:E.
  - split; [done|]. intros [Hy _]. by apply isamember_elem in E.
  - rewrite IH. split; [|by intros [_ ?]]. intros H. split; [|done]. intros Hy%isamember_elem. congruence.
Qed.

Section choice.
  Context (r : rsm) (vid : Z) (c p : list cstring).
  Hypothesis (Hc : members (value_of (cf_acc (cfg r)) vid) = Ret c).
  Hypothesis (Hp : members (value_of (cf_acc (cfg r)) (u32 (vid - 1))) = Ret p).

(** [set_primary], with the two views read. *)
Lemma set_primary_views :
  exists r1, primary r1 = primary r /\ same_views r1 r /\ vid_commit r1 = vid_commit r
    /\ set_primary r vid =
      if bool_decide (c = []) then Fault AssertFail
      else if isamember (primary r) c then Ret r1
      else match List.find (fun x => isamember x c) p with
           | Some x => Ret (set_prim r1 x)
           | None => Fault AssertFail
           end.
Proof.
  destruct (view_of_ret r vid c Hc) as [r1 E1]. pose proof (view_of_same _ _ _ _ E1) as S1.
  destruct (view_of_ret r1 (u32 (vid - 1)) p) as [r2 E2]; [by rewrite (S1 _)|].
  pose proof (view_of_same _ _ _ _ E2) as S2. exists r2.
  pose proof (view_of_inv _ _ _ _ E1) as [_ R1]. pose proof (view_of_inv _ _ _ _ E2) as [_ R2].
  assert (primary r2 = primary r) as Ep by (by rewrite R2, R1).
  split_and!; [done|intros i; by rewrite (S2 i)|by rewrite R2, R1|].
  unfold set_primary. rewrite E1. simpl. rewrite E2. simpl. rewrite Ep.
  destruct (bool_decide (c = [])); simpl; [done|]. destruct (isamember (primary r) c); [done|].
  by destruct p.
Qed.

(** The primary: the primary of a new view is one of its members: the old primary
    if it still is a member, and otherwise the first member of the previous view that
    is; the node aborts if there is none. *)
Theorem set_primary_chooses :
  (forall r', set_primary r vid = Ret r' ->
     primary r' ∈ c
     /\ (primary r ∈ c -> primary r' = primary r)
     /\ (~ (primary r ∈ c) -> exists before after, p = before ++ primary r' :: after
                                             /\ Forall (fun x => x ∉ c) before))
  /\ (set_primary r vid = Fault AssertFail <->
       c = [] \/ (~ (primary r ∈ c) /\ Forall (fun x => x ∉ c) p)).
Proof.
  destruct set_primary_views as (r1 & Ep & _ & _ & ->).
  destruct (bool_decide_reflect (c = [])) as [->|Hne]; [split; [done|]; split; [by left|done]|].
  destruct (isamember (primary r) c) eqn:Em.
  - apply isamember_elem in Em. split.
    + intros r' [= <-]. rewrite Ep. by split_and!.
    + split; [done|]. by intros [?|[? _]].
  - assert (primary r ∉ c) as Hn by (rewrite <- isamember_elem; congruence).
    destruct (List.find _ p) as [x|] eqn:Ef.
    + apply find_first in Ef as (Hx & Hsplit). split.
      * intros r' [= <-]. by split_and!.
      * split; [done|]. intros [?|[_ Hf]]; [done|]. destruct Hsplit as (b & a & -> & _).
        apply Forall_app in Hf as [_ Hf]. by apply Forall_cons in Hf as [? _].
    + apply find_none_members in Ef. split; [done|]. split; [by auto|done].
Qed.
End choice.

(** * Views committed one after the other *)

Fixpoint commit_all (r : rsm) (vids : list Z) : outcome rsm :=
  match vids with
  | [] => Ret r
  | vid :: vids => r ← commit_change_wo r vid; commit_all r vids
  end.

Lemma is_member_same r m vid r' b :
  is_member r m vid = Ret (r', b) ->
  same_views r' r /\ primary r' = primary r /\ vid_commit r' = vid_commit r.
Proof.
  intros (v & E & _)%is_member_inv. pose proof (view_of_same _ _ _ _ E) as S.
  apply view_of_inv in E as [_ ->]. done.
Qed.

Lemma set_primary_inv r vid r' :
  set_primary r vid = Ret r' ->
  exists c p, members (value_of (cf_acc (cfg r)) vid) = Ret c
    /\ members (value_of (cf_acc (cfg r)) (u32 (vid - 1))) = Ret p
    /\ same_views r' r /\ vid_commit r' = vid_commit r
    /\ primary r' = if isamember (primary r) c then primary r
                    else default (primary r) (List.find (fun x => isamember x c) p).
Proof.
  destruct (members_ends (value_of (cf_acc (cfg r)) vid)) as [c Hc].
  destruct (members_ends (value_of (cf_acc (cfg r)) (u32 (vid - 1)))) as [p Hp].
  destruct (set_primary_views r vid c p Hc Hp) as (r1 & Ep & S1 & V1 & ->). intros E.
  exists c, p. destruct (bool_decide (c = [])); [done|]. destruct (isamember (primary r) c);
    [by simplify_eq|]. destruct (List.find _ p); [|done]. by simplify_eq.
Qed.

Lemma commit_change_inv r vid r' :
  commit_change_wo r vid = Ret r' ->
  same_views r' r
  /\ (if vid <=? vid_commit r then r' = r
      else vid_commit r' = vid /\ exists r1, set_primary (set_commit r vid) vid = Ret r1
                                          /\ primary r' = primary r1).
Proof.
  unfold commit_change_wo. destruct (vid <=? vid_commit r); [intros [= <-]; by split|].
  intros E. apply bind_ret_inv in E as (r1 & E1 & E). apply bind_ret_inv in E as ([r2 b] & E2 & E).
  apply bind_ret_inv in E as (u & _ & E). simplify_eq.
  apply is_member_same in E2 as (S2 & P2 & V2).
  pose proof (set_primary_inv _ _ _ E1) as (c & p & _ & _ & S1 & V1 & _).
  split; [intros i; by rewrite (S2 i), (S1 i)|]. split; [by rewrite V2, V1|]. by exists r1.
Qed.

(** Agreement on the primary: nodes that agree on the views and on the primary of
    one of them, and are told of the same views from then on, agree on the primary. *)
Theorem primaries_agree vids r1 r2 r1' r2' :
  same_views r1 r2 -> primary r1 = primary r2 -> vid_commit r1 = vid_commit r2 ->
  commit_all r1 vids = Ret r1' -> commit_all r2 vids = Ret r2' ->
  primary r1' = primary r2' /\ vid_commit r1' = vid_commit r2'.
Proof.
  revert r1 r2. induction vids as [|vid vids IH]; simpl; intros r1 r2 Hs Hp Hv E1 E2; [by simplify_eq|].
  apply bind_ret_inv in E1 as (q1 & C1 & E1). apply bind_ret_inv in E2 as (q2 & C2 & E2).
  apply commit_change_inv in C1 as [S1 C1], C2 as [S2 C2]. rewrite Hv in C1.
  assert (same_views q1 q2) as Hq by (intros i; by rewrite (S1 i), (S2 i)).
  destruct (vid <=? vid_commit r2); [apply (IH q1 q2); congruence|].
  destruct C1 as (V1 & p1 & D1 & P1), C2 as (V2 & p2 & D2 & P2).
  apply (IH q1 q2); try done; [|congruence]. rewrite P1, P2.
  apply set_primary_inv in D1 as (c1 & o1 & Hc1 & Ho1 & _ & _ & ->).
  apply set_primary_inv in D2 as (c2 & o2 & Hc2 & Ho2 & _ & _ & ->). simpl in *.
  rewrite (Hs vid) in Hc1. rewrite (Hs _) in Ho1. rewrite Hp.
  assert (c1 = c2) as -> by congruence. by assert (o1 = o2) as -> by congruence.
Qed.

(** Clients find the primary: the answer to [members] tells a client the primary
    and the view of the node it asks. *)
Theorem client_finds_primary r r' l c :
  client_members r = Ret (r', l) ->
  exists v, members (value_of (cf_acc (cfg r)) (vid_commit r)) = Ret v
    /\ init_members c (Some (rsm_client_protocol.OK, l)) = Ret (RsmClient (primary r) v, true).
Proof.
  unfold client_members. intros E. apply bind_ret_inv in E as ([r1 v] & E1 & E).
  apply view_of_inv in E1 as [Hv ->]. simplify_eq/=. exists v. split; [done|].
  by rewrite last_snoc, removelast_last.
Qed.


Module rsm_examples.
Definition A : cstring := cs "4001".
Definition B : cstring := cs "4002".
Definition C : cstring := cs "4003".
(** A leaves in view 4 and comes back in view 5. *)
Definition views : gmap Z cstring :=
  {[ 1 := view_value [A]; 2 := view_value [A; B]; 3 := view_value [A; B; C];
     4 := view_value [B; C]; 5 := view_value [B; C; A] ]}.
Definition node (me : cstring) : rsm :=
  Rsm (Config (Acceptor true me (Prop_t 0 me) (Prop_t 0 me) [] 5 views []) (proposer_new me) 5 me true
         [B; C; A])
    None (Viewstamp 0 1) (Viewstamp 0 0) A false true 0 0 false false false false.
Definition committed (me : cstring) (vids : list Z) : rsm :=
  match commit_all (node me) vids with Ret r => r | _ => node me end.

Lemma set_primary_chooses_witness :
  exists r', set_primary (node B) 4 = Ret r' /\ primary r' ∈ [B; C].
Proof.
  assert (exists r', set_primary (node B) 4 = Ret r') as [r' E].
  { destruct (set_primary (node B) 4) eqn:E; [by eexists|].
    apply (f_equal (fun o => match o with Ret _ => true | _ => false end)) in E. by vm_compute in E. }
  exists r'. split; [exact E|].
  destruct (set_primary_chooses (node B) 4 [B; C] [A; B; C]) as [H _].
  - by vm_compute.
  - by vm_compute.
  - apply (H r' E).
Defined.

Lemma primaries_agree_witness :
  exists r1 r2, commit_all (node B) [1; 2; 3; 4; 5] = Ret r1 /\ commit_all (node C) [1; 2; 3; 4; 5] = Ret r2
    /\ primary r1 = primary r2.
Proof.
  destruct (commit_all (node B) [1; 2; 3; 4; 5]) as [r1|] eqn:E1; [|by vm_compute in E1].
  destruct (commit_all (node C) [1; 2; 3; 4; 5]) as [r2|] eqn:E2; [|by vm_compute in E2].
  exists r1, r2. split; [reflexivity|]. split; [reflexivity|].
  apply (primaries_agree [1; 2; 3; 4; 5] (node B) (node C) r1 r2).
  - intros i. reflexivity.
  - reflexivity.
  - reflexivity.
  - exact E1.
  - exact E2.
Defined.

(** Views that were missed: two nodes with the same views, of which one was told of
    every view as it was decided and the other joined at the last, may each take another
    node for the primary of that view. *)
Theorem missed_views_disagree :
  same_views (committed B [1; 2; 3; 4; 5]) (committed C [5])
  /\ vid_commit (committed B [1; 2; 3; 4; 5]) = 5 /\ vid_commit (committed C [5]) = 5
  /\ primary (committed B [1; 2; 3; 4; 5]) = B /\ primary (committed C [5]) = A.
Proof.
  split; [|by vm_compute].
  assert (forall me vids r, commit_all (node me) vids = Ret r -> same_views r (node me)) as Hs.
  { intros me vids. generalize (node me) as r0. induction vids as [|v vids IH]; simpl; intros r0 r E.
    - by simplify_eq.
    - apply bind_ret_inv in E as (r1 & E1 & E2). apply commit_change_inv in E1 as [S1 _].
      intros i. by rewrite (IH _ _ E2 i), (S1 i). }
  intros i. unfold committed.
  destruct (commit_all (node B) [1; 2; 3; 4; 5]) as [r1|] eqn:E1; [|by vm_compute in E1].
  destruct (commit_all (node C) [5]) as [r2|] eqn:E2; [|by vm_compute in E2].
  rewrite (Hs _ _ _ E1 i), (Hs _ _ _ E2 i). reflexivity.
Qed.

Lemma client_finds_primary_witness :
  exists r' l v, client_members (committed B [1; 2; 3; 4; 5]) = Ret (r', l)
    /\ init_members (RsmClient A []) (Some (rsm_client_protocol.OK, l)) = Ret (RsmClient B v, true).
Proof.
  destruct (client_members (committed B [1; 2; 3; 4; 5])) as [[r' l]|] eqn:E; [|by vm_compute in E].
  destruct (client_finds_primary _ _ _ (RsmClient A []) E) as (v & _ & H).
  exists r', l, v. split; [reflexivity|]. rewrite H. by vm_compute.
Defined.

(** The acceptor of [Acceptor.examples], of which 4002 asks to be a member. *)
Definition server : rsm :=
  set_cfg (node A) (Config (examples.after examples.requests) (proposer_new A) 2 A true []).
Definition joiner : rsm :=
  set_cfg (node B) (Config (acceptor_init true B []) (proposer_new B) 0 B true []).
End rsm_examples.
