(* ===== verification/RpcClient.v ===== *)
(** The client side of RPC: class [rpcc] of rpc/rpc.cc, and the time arithmetic of
    its deadlines.

    A client numbers its calls, keeps the pending ones, and tells the server with each
    request up to which number it needs no more replies.  [call1] is modelled in the
    pieces that run under the client's mutex, and its waiting loop round by round. *)
From Stdlib Require Import ZArith Lia Ascii String Sorting.Sorted.
From stdpp Require Import base gmap list strings sorting.
From S2P Require Import Prelude Marshall Protocols.
Local Open Scope Z_scope.

(** * Time *)

Record timespec := Timespec { tv_sec : Z; tv_nsec : Z }.

Definition cmp_timespec (a b : timespec) : Z :=
  if tv_sec a >? tv_sec b then 1
  else if tv_sec a <? tv_sec b then -1
  else if tv_nsec a >? tv_nsec b then 1
  else if tv_nsec a <? tv_nsec b then -1
  else 0.

(** The loop that carries nanoseconds into seconds. *)
Fixpoint carry (fuel : nat) (t : timespec) : outcome timespec :=
  match fuel with
  | O => Fault Diverged
  | S fuel =>
      if tv_nsec t >? 1000000000
      then carry fuel (Timespec (tv_sec t + 1) (tv_nsec t - 1000000000))
      else Ret t
  end.
(** Every turn takes a whole second off the nanoseconds. *)
Definition add_timespec (a : timespec) (b : Z) : outcome timespec :=
  let r := Timespec (tv_sec a + Z.quot b 1000) (tv_nsec a + Z.rem b 1000 * 1000000) in
  _ ← verify (0 <=? tv_nsec r);
  carry (S (Z.to_nat (tv_nsec r / 1000000000))) r.

Definition diff_timespec (end_ start : timespec) : outcome Z :=
  let diff := if tv_sec end_ >? tv_sec start then s32 ((tv_sec end_ - tv_sec start) * 1000) else 0 in
  _ ← verify (negb (diff =? 0) || (tv_sec end_ =? tv_sec start));
  Ret (if tv_nsec end_ >? tv_nsec start
       then s32 (diff + Z.quot (tv_nsec end_ - tv_nsec start) 1000000)
       else s32 (diff - Z.quot (tv_nsec start - tv_nsec end_) 1000000)).

(** The time in nanoseconds. *)
Definition nanos (t : timespec) : Z := tv_sec t * 1000000000 + tv_nsec t.
Definition clock_time (t : timespec) : Prop := 0 < tv_sec t /\ 0 <= tv_nsec t < 1000000000.

(** * Replies up to which the client is done: [xid_rep_window_] *)

(** The inner loop of [compress]: the front is popped while it is one below [*it].
    [pre] is what precedes [it]; once it is empty the front is [*it] itself. *)
Fixpoint pop_front_while (pre : list Z) (x : Z) : list Z :=
  match pre with
  | [] => []
  | p :: pre' => if u32 (p + 1) =? x then pop_front_while pre' x else pre
  end.
Fixpoint compress (pre rest : list Z) : list Z :=
  match rest with
  | [] => pre
  | x :: rest => compress (pop_front_while pre x ++ [x]) rest
  end.
(** Insertion before the first greater element, or at the end. *)
Fixpoint insert_xid (xid : Z) (l : list Z) : list Z :=
  match l with
  | [] => [xid]
  | x :: l' => if x >? xid then xid :: l else x :: insert_xid xid l'
  end.
Definition update_xid_rep (w : list Z) (xid : Z) : outcome (list Z) :=
  match w with
  | [] => Fault Undefined
  | front :: _ =>
      if xid <=? front then Ret w
      else match insert_xid xid w with
           | [] => Fault Undefined
           | x :: rest => Ret (compress [x] rest)
           end
  end.

(** * State *)

Record caller := Caller { ca_un : unmarshall; ca_intret : Z; ca_done : bool }.

(** A request kept to be sent again, by clients that test lossy networks. *)
Record request := Request { rd_buf : list ascii; rd_xid : Z }.
Definition request_none : request := Request [] (-1).
Definition isvalid (r : request) : bool := negb (rd_xid r =? -1).

Record rpcc := Rpcc {
  clt_nonce_ : Z; srv_nonce_ : Z; bind_done_ : bool; xid_ : Z; lossytest_ : Z;
  retrans_ : bool; reachable_ : bool; destroy_wait_ : bool;
  calls_ : gmap Z caller; xid_rep_window_ : list Z; dup_req_ : request; xid_rep_done_ : Z }.

(** The constructor; [nonce] is the random number, [lossy] the value of [RPC_LOSSY]. *)
Definition rpcc_new (retrans : bool) (nonce lossy : Z) : rpcc :=
  Rpcc (if retrans then u32 nonce else 0) 0 false 1 lossy retrans true false ∅ [0] request_none (-1).

Definition set_calls (c : rpcc) (calls : gmap Z caller) : rpcc :=
  Rpcc (clt_nonce_ c) (srv_nonce_ c) (bind_done_ c) (xid_ c) (lossytest_ c) (retrans_ c)
    (reachable_ c) (destroy_wait_ c) calls (xid_rep_window_ c) (dup_req_ c) (xid_rep_done_ c).
Definition set_xid (c : rpcc) (xid : Z) : rpcc :=
  Rpcc (clt_nonce_ c) (srv_nonce_ c) (bind_done_ c) xid (lossytest_ c) (retrans_ c)
    (reachable_ c) (destroy_wait_ c) (calls_ c) (xid_rep_window_ c) (dup_req_ c) (xid_rep_done_ c).
Definition set_window (c : rpcc) (w : list Z) : rpcc :=
  Rpcc (clt_nonce_ c) (srv_nonce_ c) (bind_done_ c) (xid_ c) (lossytest_ c) (retrans_ c)
    (reachable_ c) (destroy_wait_ c) (calls_ c) w (dup_req_ c) (xid_rep_done_ c).
Definition set_dup (c : rpcc) (d : request) (done : Z) : rpcc :=
  Rpcc (clt_nonce_ c) (srv_nonce_ c) (bind_done_ c) (xid_ c) (lossytest_ c) (retrans_ c)
    (reachable_ c) (destroy_wait_ c) (calls_ c) (xid_rep_window_ c) d done.
Definition set_bound (c : rpcc) (nonce : Z) : rpcc :=
  Rpcc (clt_nonce_ c) nonce true (xid_ c) (lossytest_ c) (retrans_ c)
    (reachable_ c) (destroy_wait_ c) (calls_ c) (xid_rep_window_ c) (dup_req_ c) (xid_rep_done_ c).
Definition set_destroy_wait (c : rpcc) : rpcc :=
  Rpcc (clt_nonce_ c) (srv_nonce_ c) (bind_done_ c) (xid_ c) (lossytest_ c) (retrans_ c)
    (reachable_ c) true (calls_ c) (xid_rep_window_ c) (dup_req_ c) (xid_rep_done_ c).

(** * [call1] *)

Inductive call_start :=
| Refused (code : Z)
| Started (c : rpcc) (xid : Z) (req : marshall) (xid_rep : Z).

(** The first critical section: the guards, a fresh number, the header. *)
Definition call1_begin `{Memory} (c : rpcc) (proc : Z) (req : marshall) : outcome call_start :=
  if (negb (proc =? rpc_const.bind) && negb (bind_done_ c))
     || ((proc =? rpc_const.bind) && bind_done_ c)
  then Ret (Refused rpc_const.bind_failure)
  else if destroy_wait_ c then Ret (Refused rpc_const.cancel_failure)
  else
    let xid := xid_ c in
    let c := set_xid c (u32 (xid + 1)) in
    let c := set_calls c (<[s32 xid := Caller unmarshall_empty 0 false]> (calls_ c)) in
    match xid_rep_window_ c with
    | [] => Fault Undefined
    | front :: _ =>
        let h := ReqHeader (s32 xid) (s32 proc) (clt_nonce_ c) (srv_nonce_ c) (s32 front) in
        Ret (Started c xid (pack_req_header req h) (s32 front))
    end.

(** What a transmission sends on a live channel: for a client that tests lossy
    networks perhaps an old request first, and the request. *)
Definition call1_transmit (c : rpcc) (req : list ascii) : rpcc * list (list ascii) :=
  if reachable_ c then
    if isvalid (dup_req_ c) && (xid_rep_done_ c >? rd_xid (dup_req_ c))
    then (set_dup c request_none (xid_rep_done_ c), [rd_buf (dup_req_ c); req])
    else (c, [req])
  else (c, []).

(** The waiting loop.  A round depends on whether there is a live channel, the clock,
    whether the caller is done when the round ends and whether the channel is dead. *)
Definition to_min : Z := 1000.
Definition to_max : Z := 120000.
Record waiting := Waiting { curr_to : Z; finaldeadline : timespec; transmit : bool }.
Record round := Round { r_now : timespec; r_done : bool; r_dead : bool }.

Definition wait_start (now : timespec) (to : Z) : outcome waiting :=
  final ← add_timespec now to; Ret (Waiting to_min final true).

(** One round: the loop ends, or goes on in a new state. *)
Definition call1_round (retrans : bool) (w : waiting) (e : round) : outcome (option waiting) :=
  if tv_sec (finaldeadline w) =? 0 then Ret None
  else
    next ← add_timespec (r_now e) (curr_to w);
    let final := if cmp_timespec next (finaldeadline w) >? 0
                 then Timespec 0 (tv_nsec (finaldeadline w)) else finaldeadline w in
    if r_done e then Ret None
    else Ret (Some (Waiting (s32 (Z.shiftl (curr_to w) 1)) final (retrans && r_dead e))).

Fixpoint call1_wait (retrans : bool) (w : waiting) (es : list round) : outcome (option waiting) :=
  match es with
  | [] => Ret (Some w)
  | e :: es =>
      r ← call1_round retrans w e;
      match r with None => Ret None | Some w => call1_wait retrans w es end
  end.

(** The last critical sections, and the status. *)
Definition call1_end (c : rpcc) (xid xid_rep : Z) (req : list ascii)
  : outcome (rpcc * Z * unmarshall) :=
  match calls_ c !! s32 xid with
  | None => Fault Undefined
  | Some ca =>
      let c := set_calls c (delete (s32 xid) (calls_ c)) in
      w ← update_xid_rep (xid_rep_window_ c) xid;
      let c := set_window c w in
      let c :=
        if ca_done ca && negb (lossytest_ c =? 0) then
          set_dup c (if isvalid (dup_req_ c) then dup_req_ c else Request req (s32 xid))
            (if xid_rep >? xid_rep_done_ c then xid_rep else xid_rep_done_ c)
        else c in
      Ret (c, if ca_done ca then ca_intret ca else rpc_const.timeout_failure, ca_un ca)
  end.

(** A message from the server. *)
Definition rpcc_got_pdu (c : rpcc) (b : list ascii) : outcome rpcc :=
  let '(rep, h) := unpack_reply_header (unmarshall_of_buf b) in
  if negb (u_ok rep) then Ret c
  else
    w ← update_xid_rep (xid_rep_window_ c) (u32 (rp_xid h));
    let c := set_window c w in
    match calls_ c !! rp_xid h with
    | None => Ret c
    | Some ca =>
        Ret (if ca_done ca then c
             else set_calls c (<[rp_xid h := Caller (take_in rep) (rp_ret h) true]> (calls_ c)))
    end.

(** [bind], after its call has returned [ret] and the nonce [r]. *)
Definition bind_end (c : rpcc) (ret r : Z) : rpcc :=
  if ret =? 0 then set_bound c (u32 r) else c.

(** [cancel], up to the point where it waits for the callers to leave. *)
Definition cancel_begin (c : rpcc) : rpcc :=
  let c := set_calls c ((fun ca => Caller (ca_un ca) rpc_const.cancel_failure true) <$> calls_ c) in
  if bool_decide (calls_ c = ∅) then c else set_destroy_wait c.

(** [call_m], given what [call1] returned. *)
Definition call_m {A} `{Marshal A} (intret : Z) (u : unmarshall) (r : A) : outcome (Z * A) :=
  if intret <? 0 then Ret (intret, r)
  else
    '(u, r) ← get u r;
    _ ← verify (okdone u);
    Ret (intret, r).

(** * Deadlines *)

Lemma carry_spec fuel t :
  0 <= tv_nsec t -> (Z.to_nat (tv_nsec t / 1000000000) < fuel)%nat ->
  exists r, carry fuel t = Ret r /\ nanos r = nanos t /\ 0 <= tv_nsec r <= 1000000000
    /\ tv_sec t <= tv_sec r /\ (tv_nsec t < 1000000000 -> r = t).
Proof.
  revert t. induction fuel as [|fuel IH]; intros t H0 Hf; [lia|]. cbn [carry].
  destruct (tv_nsec t >? 1000000000) eqn:E.
  - destruct (IH (Timespec (tv_sec t + 1) (tv_nsec t - 1000000000))) as (r & Er & Hn & Hr & Hs & _).
    + simpl. lia.
    + simpl. revert Hf. Z.to_euclidean_division_equations. lia.
    + exists r. split_and!; try lia; [done|rewrite Hn; unfold nanos; simpl; lia|simpl in Hs; lia].
  - exists t. split_and!; try done; lia.
Qed.

Lemma add_timespec_spec a b :
  0 <= tv_nsec a < 1000000000 -> 0 <= b ->
  exists r, add_timespec a b = Ret r /\ nanos r = nanos a + b * 1000000
    /\ 0 <= tv_nsec r <= 1000000000 /\ tv_sec a <= tv_sec r
    /\ (Z.rem b 1000 = 0 -> tv_nsec r = tv_nsec a).
Proof.
  intros Ha Hb. unfold add_timespec. pose proof (Z.quot_rem' b 1000) as Hq.
  pose proof (Z.rem_bound_pos b 1000 Hb ltac:(lia)) as Hr. cbn [tv_nsec].
  assert ((0 <=? tv_nsec a + Z.rem b 1000 * 1000000) = true) as -> by lia.
  cbn [verify mbind outcome_bind].
  destruct (carry_spec (S (Z.to_nat ((tv_nsec a + Z.rem b 1000 * 1000000) / 1000000000)))
      (Timespec (tv_sec a + Z.quot b 1000) (tv_nsec a + Z.rem b 1000 * 1000000)))
    as (r & E & Hn & Hnr & Hs & Hid); [simpl; lia|simpl; lia|].
  rewrite E.
  exists r. split_and!; try lia; [done| | |].
  - rewrite Hn. unfold nanos. simpl. lia.
  - simpl in Hs. lia.
  - intros E0. rewrite Hid; simpl; lia.
Qed.

Lemma cmp_timespec_gt a b :
  0 <= tv_nsec a < 1000000000 -> 0 <= tv_nsec b -> nanos b < nanos a -> cmp_timespec a b = 1.
Proof. unfold nanos, cmp_timespec. intros. repeat case_match; lia. Qed.

(** The clock: adding a timeout to a clock reading gives the reading that many
    milliseconds later; its nanoseconds may come out as a whole second, but not when
    the timeout is a number of seconds, as all timeouts of the program are. *)
Theorem add_timespec_adds a b :
  clock_time a -> 0 <= b ->
  exists r, add_timespec a b = Ret r /\ nanos r = nanos a + b * 1000000
    /\ 0 <= tv_nsec r <= 1000000000 /\ (Z.rem b 1000 = 0 -> clock_time r).
Proof.
  intros [Hs Ha] Hb. destruct (add_timespec_spec a b Ha Hb) as (r & E & Hn & Hr & Hsec & Hid).
  exists r. split_and!; try done; try lia. intros H. specialize (Hid H). unfold clock_time. lia.
Qed.
Lemma add_timespec_adds_witness :
  exists r, add_timespec (Timespec 1300000000 5) 120000 = Ret r
    /\ nanos r = nanos (Timespec 1300000000 5) + 120000 * 1000000.
Proof.
  destruct (add_timespec_adds (Timespec 1300000000 5) 120000) as (r & ? & ? & _);
    [unfold clock_time; simpl; lia|lia|by exists r].
Defined.

Section waiting.
  Context (retrans : bool) (start F : timespec).
  Hypothesis (Hstart : clock_time start).
  Hypothesis (HF : 0 <= tv_nsec F /\ nanos F <= nanos start + to_max * 1000000).

Definition later (e : round) : Prop := clock_time (r_now e) /\ nanos start <= nanos (r_now e).

(** [n] doublings of the timeout before it exceeds the longest timeout. *)
Lemma call1_wait_ends_from n w es :
  (n <= 7)%nat -> curr_to w = 1000 * 2 ^ (7 - Z.of_nat n) ->
  finaldeadline w = F \/ tv_sec (finaldeadline w) = 0 ->
  Forall later es -> (n + 2 <= length es)%nat ->
  call1_wait retrans w es = Ret None.
Proof.
  revert w es. induction n as [|n IH]; intros w es Hn Hc Hd Hl Hlen;
    (destruct es as [|e es]; simpl in Hlen; [lia|]);
    (apply Forall_cons in Hl as [[[He1 He2] He3] Hl]); cbn [call1_wait]; unfold call1_round;
    (destruct (tv_sec (finaldeadline w) =? 0) eqn:E0; [done|]);
    (destruct Hd as [Hd|Hd]; [|lia]); rewrite Hd.
  - destruct es as [|e' es]; simpl in Hlen; [lia|].
    change (1000 * 2 ^ (7 - Z.of_nat 0)) with 128000 in Hc. rewrite Hc.
    destruct (add_timespec_spec (r_now e) 128000 He2) as (r & -> & Hr & Hnr & _ & Hid); [lia|].
    specialize (Hid eq_refl). simpl.
    rewrite (cmp_timespec_gt r F) by (unfold to_max in *; lia). simpl. by destruct (r_done e).
  - assert (0 < 1000 * 2 ^ (7 - Z.of_nat (S n)) /\
      1000 * 2 ^ (7 - Z.of_nat n) = 2 * (1000 * 2 ^ (7 - Z.of_nat (S n))) /\
      1000 * 2 ^ (7 - Z.of_nat n) <= 128000) as (Hp & Hdbl & Hmax).
    { replace (7 - Z.of_nat n) with (Z.succ (7 - Z.of_nat (S n))) by lia.
      rewrite Z.pow_succ_r by lia. pose proof (Z.pow_pos_nonneg 2 (7 - Z.of_nat (S n))).
      pose proof (Z.pow_le_mono_r 2 (7 - Z.of_nat (S n)) 6). lia. }
    destruct (add_timespec_spec (r_now e) (curr_to w) He2) as (r & -> & _); [lia|]. simpl.
    destruct (r_done e); [done|]. simpl. apply IH; try done; try lia.
    + simpl. rewrite Z.shiftl_mul_pow2 by lia. rewrite s32_id; unfold is_s32; lia.
    + simpl. case_match; [by right|by left].
Qed.
End waiting.


(** * The window of replies *)

Definition xids_ok (l : list Z) : Prop := Forall (fun x => 0 <= x < 2 ^ 32 - 1) l.

(** A window whose front is not followed by its successor is left alone by the inner
    loop, or popped whole. *)
Lemma pop_front_spec p ps x :
  StronglySorted Z.le (p :: ps ++ [x]) -> (p + 1) ∉ ps -> xids_ok (p :: ps) ->
  pop_front_while (p :: ps) x ++ [x] = (if x =? p + 1 then [x] else p :: ps ++ [x])
  /\ (x = p + 1 -> Forall (fun q => p = q) ps).
Proof.
  intros Hs Hp Hk.
  assert (forall q, q ∈ ps -> p <= q <= x) as Hb.
  { apply StronglySorted_inv in Hs as [Hs Hf]. intros q Hq. split.
    - eapply Forall_forall in Hf; [exact Hf|]. apply elem_of_app. by left.
    - eapply StronglySorted_app_1_elem_of; [exact Hs|exact Hq|by apply list_elem_of_singleton]. }
  assert (x = p + 1 -> Forall (fun q => p = q) ps) as Heq.
  { intros ->. apply Forall_forall. intros q Hq. specialize (Hb q Hq).
    destruct (Z.eq_dec q (p + 1)) as [->|]; [done|lia]. }
  split; [|done]. pose proof Hk as Hk'. apply Forall_cons in Hk' as [Hpk _]. cbn [pop_front_while].
  rewrite u32_id by (unfold is_u32; lia). rewrite Z.eqb_sym. destruct (x =? p + 1) eqn:E; [|done].
  apply Z.eqb_eq in E as ->. specialize (Heq eq_refl). clear Hb Hp Hs Hk.
  induction Heq as [|q ps <- _ IH]; [done|]. cbn [pop_front_while].
  by rewrite u32_id, Z.eqb_refl by (unfold is_u32; lia).
Qed.

Lemma compress_spec p ps rest :
  StronglySorted Z.le (p :: ps ++ rest) -> (p + 1) ∉ ps -> xids_ok (p :: ps ++ rest) ->
  exists k l, compress (p :: ps) rest = k :: l /\ StronglySorted Z.le (k :: l) /\ ((k + 1) ∉ l)
    /\ p <= k /\ (forall x, (p <= x <= k \/ x ∈ l) <-> (x = p \/ x ∈ ps \/ x ∈ rest))
    /\ (forall x, x ∈ l -> x ∈ ps \/ x ∈ rest).
Proof.
  revert p ps. induction rest as [|x rest IH]; intros p ps Hs Hp Hk.
  - rewrite app_nil_r in Hs. exists p, ps. split_and!; try done; [|by left]. intros y.
    rewrite elem_of_nil. split; [intros [?|?]|intros [?|[?|?]]]; auto; [left|left|done]; lia.
  - cbn [compress]. rewrite (cons_middle x ps rest), (app_assoc ps [x] rest) in Hs, Hk.
    destruct (pop_front_spec p ps x) as [E He]; try done.
    { by eapply (StronglySorted_app_1_l _ (p :: ps ++ [x])). }
    { unfold xids_ok in *. rewrite !Forall_cons, !Forall_app in *. tauto. }
    rewrite E. destruct (x =? p + 1) eqn:Ex.
    + apply Z.eqb_eq in Ex. specialize (He Ex).
      destruct (IH x []) as (k & l & Ec & Hsl & Hkl & Hpk & Hiff & Hin).
      * rewrite <- (app_assoc ps [x] rest) in Hs. by apply (StronglySorted_app_1_r _ (p :: ps)) in Hs.
      * apply not_elem_of_nil.
      * unfold xids_ok in *. simpl. rewrite Forall_cons, !Forall_app, !Forall_cons in *. tauto.
      * exists k, l. split_and!; try done; [lia| |];
          [|intros y Hy; right; apply elem_of_cons; right; by destruct (Hin y Hy) as [?%elem_of_nil|]].
        intros y. specialize (Hiff y).
        rewrite elem_of_nil in Hiff. rewrite elem_of_cons.
        assert (y ∈ ps -> y = p) by (intros Hy; eapply Forall_forall in He; [symmetry; exact He|done]).
        destruct (Z.eq_dec y p) as [->|]; [intuition lia|].
        assert (p <= y <= k <-> x <= y <= k) as -> by lia. rewrite Hiff. intuition.
    + apply Z.eqb_neq in Ex. destruct (IH p (ps ++ [x])) as (k & l & Ec & Hsl & Hkl & Hpk & Hiff & Hin); try done.
      * rewrite elem_of_app, list_elem_of_singleton. intros [?|?]; [done|lia].
      * exists k, l. split_and!; try done.
        -- intros y. rewrite (Hiff y), elem_of_app, list_elem_of_singleton, elem_of_cons. tauto.
        -- intros y Hy. specialize (Hin y Hy).
           rewrite elem_of_app, list_elem_of_singleton in Hin. rewrite elem_of_cons. tauto.
Qed.

Lemma insert_xid_elem xid l y : y ∈ insert_xid xid l <-> y = xid \/ y ∈ l.
Proof.
  induction l as [|x l IH]; simpl; [by rewrite list_elem_of_singleton, elem_of_nil; intuition|].
  destruct (x >? xid); rewrite !elem_of_cons, ?IH; intuition.
Qed.
Lemma insert_xid_sorted xid l :
  StronglySorted Z.le l -> StronglySorted Z.le (insert_xid xid l).
Proof.
  induction 1 as [|x l Hs IH Hf]; simpl; [by repeat constructor|].
  destruct (x >? xid) eqn:E.
  - constructor; [by constructor|]. constructor; [lia|]. eapply Forall_impl; [exact Hf|]. simpl. lia.
  - constructor; [done|]. apply Forall_forall. intros y [->|Hy]%insert_xid_elem; [lia|].
    eapply Forall_forall in Hf; [exact Hf|done].
Qed.

(** The window stands for the set of the numbers reported so far. *)
Definition window_of (R : Z -> Prop) (w : list Z) : Prop :=
  exists k l, w = k :: l /\ StronglySorted Z.le w /\ 0 <= k /\ ((k + 1) ∉ l)
    /\ forall x, R x <-> 1 <= x <= k \/ x ∈ l.

Lemma window_of_init : window_of (fun _ => False) [0].
Proof.
  exists 0, []. split_and!; try done; [by repeat constructor|apply not_elem_of_nil|].
  intros x. rewrite elem_of_nil. lia.
Qed.
Lemma window_of_proper R R' w : (forall x, R x <-> R' x) -> window_of R w -> window_of R' w.
Proof.
  intros HR (k & l & ? & ? & ? & ? & H). exists k, l. split_and!; try done. intros x. by rewrite <- HR.
Qed.

Lemma update_xid_rep_window R w xid :
  window_of R w -> (forall x, R x \/ x = xid -> 1 <= x < 2 ^ 32 - 1) ->
  exists w', update_xid_rep w xid = Ret w' /\ window_of (fun x => R x \/ x = xid) w'.
Proof.
  intros (k & l & -> & Hs & Hk & Hnext & HR) Hok. unfold update_xid_rep.
  destruct (xid <=? k) eqn:E.
  - eexists. split; [done|]. exists k, l. split_and!; try done. intros x. rewrite HR.
    specialize (Hok xid (or_intror eq_refl)). intuition lia.
  - simpl. assert ((k >? xid) = false) as -> by lia.
    destruct (compress_spec k [] (insert_xid xid l)) as (k' & l' & Ec & Hs' & Hn' & Hkk & Hiff & Hin).
    + simpl. pose proof (insert_xid_sorted xid _ Hs) as Hi. simpl in Hi.
      by rewrite (proj2 (Z.gtb_ltb k xid) ltac:(lia)) in Hi || (replace (k >? xid) with false in Hi by lia).
    + apply not_elem_of_nil.
    + simpl. apply Forall_cons. split.
      * assert (k = 0 \/ R k) as [->|Hkr] by (rewrite HR; lia); [lia|]. specialize (Hok k (or_introl Hkr)). lia.
      * apply Forall_forall. intros x [->|Hx]%insert_xid_elem.
        -- specialize (Hok xid (or_intror eq_refl)). lia.
        -- assert (R x) as Hr by (rewrite HR; auto). specialize (Hok x (or_introl Hr)). lia.
    + eexists. split; [done|]. rewrite Ec. exists k', l'. split_and!; try done; [lia|].
      intros x. specialize (Hiff x). rewrite elem_of_nil, insert_xid_elem in Hiff. rewrite HR.
      assert (x ∈ l' -> 1 <= x) as Hl'.
      { intros Hx. specialize (Hin x Hx). rewrite elem_of_nil, insert_xid_elem in Hin.
        assert (R x \/ x = xid) as Hr by (rewrite HR; tauto). specialize (Hok x Hr). lia. }
      assert (x ∈ l -> 1 <= x) as Hl.
      { intros Hx. assert (R x) as Hr by (rewrite HR; auto). specialize (Hok x (or_introl Hr)). lia. }
      apply Z.leb_gt in E. split.
      * intros [[?|Hx]|Hx]; [left; lia| |]; [specialize (Hl Hx)|];
          (destruct (Z.le_gt_cases x k); [left; lia|]); (destruct (proj2 Hiff) as [?|?]; [auto|left; lia|auto]).
      * destruct (Z.le_gt_cases x k) as [|Hgt]; [intros [?|?%Hl']; left; left; lia|].
        intros H. destruct (proj1 Hiff) as [?|[?|[?|?]]]; [destruct H; [left; lia|auto]|lia|done|auto|auto].
Qed.

(** The numbers reported one after the other. *)
Fixpoint report_all (w : list Z) (xids : list Z) : outcome (list Z) :=
  match xids with
  | [] => Ret w
  | x :: xids => w ← update_xid_rep w x; report_all w xids
  end.

Lemma report_all_window R w xids :
  window_of R w -> (forall x, R x \/ x ∈ xids -> 1 <= x < 2 ^ 32 - 1) ->
  exists w', report_all w xids = Ret w' /\ window_of (fun x => R x \/ x ∈ xids) w'.
Proof.
  revert R w. induction xids as [|y xids IH]; intros R w Hw Hok; simpl.
  - eexists. split; [done|]. eapply window_of_proper; [|exact Hw]. intros x. rewrite elem_of_nil. tauto.
  - destruct (update_xid_rep_window R w y Hw) as (w1 & -> & Hw1).
    { intros x Hx. apply Hok. rewrite elem_of_cons. tauto. }
    simpl. destruct (IH _ w1 Hw1) as (w' & E & Hw').
    { intros x Hx. apply Hok. rewrite elem_of_cons. tauto. }
    exists w'. split; [done|]. eapply window_of_proper; [|exact Hw']. intros x. rewrite elem_of_cons. tauto.
Qed.

(** Acknowledgements: in whatever order the calls of a client end, and however
    often each is reported, the number it sends along with its requests is the last one
    before the first call that has not ended. *)
Theorem xid_rep_exact xids :
  Forall (fun x => 1 <= x < 2 ^ 32 - 1) xids ->
  exists k l, report_all [0] xids = Ret (k :: l) /\ 0 <= k
    /\ (forall x, 1 <= x <= k -> x ∈ xids) /\ ((k + 1) ∉ xids).
Proof.
  intros Hok. destruct (report_all_window _ [0] xids window_of_init) as (w & E & Hw).
  { intros x [[]|Hx]. eapply Forall_forall in Hok; [exact Hok|done]. }
  destruct Hw as (k & l & -> & _ & Hk & Hn & HR). exists k, l. split_and!; try done.
  - intros x Hx. by destruct (proj2 (HR x) (or_introl Hx)).
  - intros H. destruct (proj1 (HR (k + 1)) (or_intror H)); [lia|done].
Qed.
Lemma xid_rep_exact_witness :
  exists k l, report_all [0] [2; 4; 4; 1; 2] = Ret (k :: l) /\ ((k + 1) ∉ [2; 4; 4; 1; 2]).
Proof.
  destruct (xid_rep_exact [2; 4; 4; 1; 2]) as (k & l & ? & _ & _ & ?);
    [apply (bool_decide_unpack _); by vm_compute|by exists k, l].
Defined.
Example xid_rep_run : report_all [0] [2; 4; 4; 1; 2] = Ret [2; 4; 4].
Proof. reflexivity. Qed.
