(* ===== verification/RpcServer.v ===== *)
(** The server side of RPC: class [rpcs] of rpc/rpc.cc and the handlers of rpc/rpc.h.

    [dispatch] is modelled in the two parts that run before and after the handler, since
    the pool runs several requests at a time: [dispatch_begin] decides what becomes of a
    request, [dispatch_end] records and sends its reply.  A client is known by its nonce;
    the window of replies of a client keeps one entry per request seen and one per reply
    sent, in the order they were made. *)
From Stdlib Require Import ZArith Lia Ascii String.
From stdpp Require Import base gmap list strings.
From S2P Require Import Prelude Marshall Protocols.
Local Open Scope Z_scope.

(** * State *)

Inductive rpcstate_t := NEW | INPROGRESS | DONE (b : list ascii) | FORGOTTEN.

Record reply_t := Reply { re_xid : Z; cb_present : bool; re_buf : list ascii }.
Definition reply_new (xid : Z) : reply_t := Reply xid false [].

(** A connection: the object, and when it was made. *)
Record connection := Connection { cn_fd : Z; cn_sec : Z; cn_usec : Z }.
#[global] Instance connection_eq_dec : EqDecision connection.
Proof. solve_decision. Defined.

Definition compare (a b : connection) : Z :=
  if cn_sec a >? cn_sec b then 1
  else if cn_sec a <? cn_sec b then -1
  else if cn_usec a >? cn_usec b then 1
  else if cn_usec a <? cn_usec b then -1
  else 0.

Section server.
  Context {handler : Type}.

Record rpcs := Rpcs {
  nonce_ : Z; reply_window_ : gmap Z (list reply_t); conns_ : gmap Z connection;
  counting_ : Z; curr_counts_ : Z; counts_ : gmap Z Z; sv_reachable_ : bool;
  procs_ : gmap Z handler }.

Definition set_replies (s : rpcs) (w : gmap Z (list reply_t)) : rpcs :=
  Rpcs (nonce_ s) w (conns_ s) (counting_ s) (curr_counts_ s) (counts_ s) (sv_reachable_ s) (procs_ s).
Definition set_conns (s : rpcs) (c : gmap Z connection) : rpcs :=
  Rpcs (nonce_ s) (reply_window_ s) c (counting_ s) (curr_counts_ s) (counts_ s)
    (sv_reachable_ s) (procs_ s).
Definition set_counts (s : rpcs) (curr : Z) (counts : gmap Z Z) : rpcs :=
  Rpcs (nonce_ s) (reply_window_ s) (conns_ s) (counting_ s) curr counts (sv_reachable_ s) (procs_ s).
Definition set_procs (s : rpcs) (p : gmap Z handler) : rpcs :=
  Rpcs (nonce_ s) (reply_window_ s) (conns_ s) (counting_ s) (curr_counts_ s) (counts_ s)
    (sv_reachable_ s) p.

Definition reg1 (s : rpcs) (proc : Z) (h : handler) : outcome rpcs :=
  _ ← verify (bool_decide (procs_ s !! proc = None));
  Ret (set_procs s (<[proc := h]> (procs_ s))).

(** The constructor: [nonce] is the random number, [bind] the handler [rpcbind]. *)
Definition rpcs_new (nonce count : Z) (bind : handler) : outcome rpcs :=
  reg1 (Rpcs (u32 nonce) ∅ ∅ count count ∅ true ∅) rpc_const.bind bind.

Definition updatestat (s : rpcs) (proc : Z) : rpcs :=
  let counts := <[proc := default 0 (counts_ s !! proc) + 1]> (counts_ s) in
  let curr := curr_counts_ s - 1 in
  set_counts s (if curr =? 0 then counting_ s else curr) counts.

(** * The window of replies *)

(** The loop that computes [min_xid]: it sets it to the number of the request. *)
Definition min_xid (xid : Z) (w : list reply_t) (first : Z) : Z :=
  fold_left (fun m r => if re_xid r <? m then xid else m) w first.

(** The search: the first reply that is there ends it, an entry without one is noted. *)
Fixpoint find_reply (xid : Z) (w : list reply_t) (state : rpcstate_t) : rpcstate_t :=
  match w with
  | [] => state
  | r :: w =>
      if re_xid r =? xid
      then if cb_present r then DONE (re_buf r) else find_reply xid w INPROGRESS
      else find_reply xid w state
  end.

(** [checkduplicate_and_update] on the window of one client. *)
Definition check_window (w : list reply_t) (xid xid_rep : Z) : list reply_t * rpcstate_t :=
  match w with
  | [] => ([reply_new 0], NEW)
  | first :: _ =>
      if xid <? min_xid xid w (re_xid first) then (w, FORGOTTEN)
      else
        let w := List.filter (fun r => negb (re_xid r <? xid_rep)) w in
        match find_reply xid w NEW with
        | NEW => (w ++ [reply_new xid], NEW)
        | state => (w, state)
        end
  end.

Definition checkduplicate_and_update (s : rpcs) (clt_nonce xid xid_rep : Z)
  : outcome (rpcs * rpcstate_t) :=
  match reply_window_ s !! clt_nonce with
  | None => Fault Undefined
  | Some w =>
      let '(w, state) := check_window w xid xid_rep in
      Ret (set_replies s (<[clt_nonce := w]> (reply_window_ s)), state)
  end.

Definition add_reply (s : rpcs) (clt_nonce xid : Z) (b : list ascii) : outcome rpcs :=
  match reply_window_ s !! clt_nonce with
  | None => Fault Undefined
  | Some w => Ret (set_replies s (<[clt_nonce := w ++ [Reply xid true b]]> (reply_window_ s)))
  end.

Definition free_reply_window (s : rpcs) : rpcs := set_replies s ∅.

(** * [dispatch] *)

(** What becomes of a request: nothing, an answer on the connection, or a run of the
    handler on the rest of the message. *)
Inductive verdict :=
| Ignored
| Answered (c : connection) (b : list ascii)
| Running (f : handler) (h : req_header) (req : unmarshall).

Definition error_reply `{Memory} (h : req_header) (code : Z) : list ascii :=
  m_bytes (pack_reply_header marshall_new (ReplyHeader (rq_xid h) code)).

(** The latest connection of a client. *)
Definition save_connection (s : rpcs) (clt_nonce : Z) (c : connection) : rpcs :=
  match conns_ s !! clt_nonce with
  | None => set_conns s (<[clt_nonce := c]> (conns_ s))
  | Some c' => if compare c' c <? 0 then set_conns s (<[clt_nonce := c]> (conns_ s)) else s
  end.

Definition know_client (s : rpcs) (clt_nonce : Z) : rpcs :=
  match reply_window_ s !! clt_nonce with
  | None => set_replies s (<[clt_nonce := []]> (reply_window_ s))
  | Some _ => s
  end.

(** The part of [dispatch] after the header has been read. *)
Definition dispatch_header `{Memory} (s : rpcs) (c : connection) (h : req_header) (req : unmarshall)
  : outcome (rpcs * verdict) :=
  if negb (rq_srv_nonce h =? 0) && negb (rq_srv_nonce h =? nonce_ s)
  then Ret (s, Answered c (error_reply h rpc_const.oldsrv_failure))
  else
    match procs_ s !! rq_proc h with
    | None => Fault AssertFail
    | Some f =>
        '(s, stat) ←
          (if negb (rq_clt_nonce h =? 0) then
             let s := know_client s (rq_clt_nonce h) in
             let s := save_connection s (rq_clt_nonce h) c in
             checkduplicate_and_update s (rq_clt_nonce h) (u32 (rq_xid h)) (u32 (rq_xid_rep h))
           else Ret (s, NEW));
        match stat with
        | NEW =>
            Ret (if negb (counting_ s =? 0) then updatestat s (rq_proc h) else s, Running f h req)
        | INPROGRESS => Ret (s, Ignored)
        | DONE b => Ret (s, Answered c b)
        | FORGOTTEN => Ret (s, Answered c (error_reply h rpc_const.atmostonce_failure))
        end
    end.

Definition dispatch_begin `{Memory} (s : rpcs) (c : connection) (b : list ascii)
  : outcome (rpcs * verdict) :=
  let '(req, h) := unpack_req_header (unmarshall_of_buf b) in
  if negb (u_ok req) then Ret (s, Ignored) else dispatch_header s c h req.

(** After the handler has returned [ret] with its results in [rep]; [dead] tells whether
    the connection is dead by then.  The reply goes to the latest connection then; for a
    client without a nonce there is none, and the code follows a null pointer. *)
Definition dispatch_end `{Memory} (s : rpcs) (c : connection) (h : req_header) (ret : Z)
    (rep : marshall) (dead : bool) : outcome (rpcs * connection * list ascii) :=
  _ ← verify (negb (ret =? rpc_const.unmarshal_args_failure));
  _ ← verify (0 <=? ret);
  let b1 := m_bytes (pack_reply_header rep (ReplyHeader (rq_xid h) ret)) in
  s ← (if rq_clt_nonce h >? 0 then add_reply s (rq_clt_nonce h) (u32 (rq_xid h)) b1 else Ret s);
  if dead then
    match conns_ s !! rq_clt_nonce h with
    | None => Fault Undefined
    | Some c' => Ret (s, c', b1)
    end
  else Ret (s, c, b1).

End server.
Arguments rpcs : clear implicits.
Arguments verdict : clear implicits.

(** * Handlers: [rpcs::reg] *)

(** The handler made from a method of one argument: [meth] returns the status and the
    result, on the state of its object. *)
Definition handler1 {S A R} `{Marshal A, Marshal R, Memory} (meth : S -> A -> S * Z * R)
    (a0 : A) (s : S) (args : unmarshall) (ret : marshall) : outcome (S * Z * marshall) :=
  '(args, a1) ← get args a0;
  if negb (okdone args) then Ret (s, rpc_const.unmarshal_args_failure, ret)
  else let '(s, b, r) := meth s a1 in Ret (s, b, put ret r).

(** ... and of two. *)
Definition handler2 {S A B R} `{Marshal A, Marshal B, Marshal R, Memory}
    (meth : S -> A -> B -> S * Z * R) (a0 : A) (b0 : B)
    (s : S) (args : unmarshall) (ret : marshall) : outcome (S * Z * marshall) :=
  '(args, a1) ← get args a0;
  '(args, a2) ← get args b0;
  if negb (okdone args) then Ret (s, rpc_const.unmarshal_args_failure, ret)
  else let '(s, b, r) := meth s a1 a2 in Ret (s, b, put ret r).

(** [rpcbind]. *)
Definition rpcbind {handler} (s : rpcs handler) (a : Z) : Z * Z := (0, s32 (nonce_ s)).
