(* ===== verification/Rpc.v ===== *)
(** Remote calls end to end: a client ([RpcClient]), a server ([RpcServer]) and a network
    that may deliver a message late, again, or never.

    The claims are about what the window of replies is for: a request is executed at most
    once however often it arrives. *)
From Stdlib Require Import ZArith Lia Ascii String Sorting.Sorted.
From stdpp Require Import base gmap list numbers strings sorting.
From S2P Require Import Prelude Marshall Protocols RpcClient RpcServer.
Local Open Scope Z_scope.

(** * The system *)

Section system.
  Context {handler : Type} `{Memory}.

(** [sent] and [replies] hold every message ever sent, [running] the requests whose
    handler runs and [executed] the numbers of all requests whose handler was started. *)
Record net := Net {
  clt : rpcc; srv : rpcs handler; sent : list (list ascii); replies : list (list ascii);
  running : list (connection * req_header); executed : list Z }.

Inductive event :=
| Call (proc : Z) (req : marshall)
| Deliver (i : nat) (c : connection)
| Finish (j : nat) (ret : Z) (rep : marshall) (dead : bool)
| Receive (i : nat)
| Return (xid : Z)
| BindDone.

Definition deliver (s : net) (b : list ascii) (c : connection) : outcome net :=
  '(sv, v) ← dispatch_begin (srv s) c b;
  Ret match v with
      | Ignored => Net (clt s) sv (sent s) (replies s) (running s) (executed s)
      | Answered _ r => Net (clt s) sv (sent s) (replies s ++ [r]) (running s) (executed s)
      | Running _ h _ =>
          Net (clt s) sv (sent s) (replies s) (running s ++ [(c, h)]) (executed s ++ [u32 (rq_xid h)])
      end.

Definition finish (s : net) (j : nat) (c : connection) (h : req_header) (ret : Z)
    (rep : marshall) (dead : bool) : outcome net :=
  '(sv, _, b) ← dispatch_end (srv s) c h ret rep dead;
  Ret (Net (clt s) sv (sent s) (replies s ++ [b]) (delete j (running s)) (executed s)).

(** An event that names a message, a run or a call that is not there does nothing. *)
Definition step (s : net) (e : event) : outcome net :=
  match e with
  | Call proc req =>
      st ← call1_begin (clt s) proc req;
      Ret match st with
          | Refused _ => s
          | Started c _ req _ =>
              Net c (srv s) (sent s ++ [m_bytes req]) (replies s) (running s) (executed s)
          end
  | Deliver i c =>
      match sent s !! i with None => Ret s | Some b => deliver s b c end
  | Finish j ret rep dead =>
      match running s !! j with None => Ret s | Some (c, h) => finish s j c h ret rep dead end
  | Receive i =>
      match replies s !! i with
      | None => Ret s
      | Some b =>
          c ← rpcc_got_pdu (clt s) b;
          Ret (Net c (srv s) (sent s) (replies s) (running s) (executed s))
      end
  | Return xid =>
      match calls_ (clt s) !! s32 xid with
      | None => Ret s
      | Some _ =>
          '(c, _, _) ← call1_end (clt s) xid 0 [];
          Ret (Net c (srv s) (sent s) (replies s) (running s) (executed s))
      end
  | BindDone =>
      let '(ret, r) := rpcbind (srv s) 0 in
      Ret (Net (bind_end (clt s) ret r) (srv s) (sent s) (replies s) (running s) (executed s))
  end.

Fixpoint run (s : net) (es : list event) : outcome net :=
  match es with [] => Ret s | e :: es => s ← step s e; run s es end.

Definition net_init (nonce srv_nonce : Z) (procs : gmap Z handler) : net :=
  Net (rpcc_new true nonce 0) (Rpcs (u32 srv_nonce) ∅ ∅ 0 0 ∅ true procs) [] [] [] [].

(** The schedules of a client that makes one call at a time and waits for its reply, as
    long as the numbers fit an [int] and the very first request does not arrive again
    while the server is running it. *)
Definition careful (s : net) (e : event) : Prop :=
  match e with
  | Call proc req =>
      calls_ (clt s) = ∅ /\ m_wf req /\ Z.of_nat (m_ind req) < 2 ^ 31 /\ xid_ (clt s) < 2 ^ 31 - 1
  | Deliver _ _ => forall c h, (c, h) ∈ running s -> rq_xid h <> 1
  | Finish _ ret rep _ => is_s32 ret /\ m_wf rep /\ Z.of_nat (m_ind rep) < 2 ^ 31
  | Receive _ => True
  | Return xid => is_u32 xid /\ forall ca, calls_ (clt s) !! s32 xid = Some ca -> ca_done ca = true
  | BindDone => True
  end.

Inductive reach (s0 : net) : net -> Prop :=
| reach_start : reach s0 s0
| reach_step s e s' : reach s0 s -> careful s e -> step s e = Ret s' -> reach s0 s'.

(** * Messages *)

Definition request_num (b : list ascii) (h : req_header) : Prop :=
  exists u, unpack_req_header (unmarshall_of_buf b) = (u, h) /\ u_ok u = true.
Definition reply_num (b : list ascii) (y : Z) : Prop :=
  rp_xid (unpack_reply_header (unmarshall_of_buf b)).2 = y.

Lemma request_num_packed m h :
  m_wf m -> wf_req_header h -> Z.of_nat (m_ind m) < 2 ^ 31 ->
  request_num (m_bytes (pack_req_header m h)) h.
Proof.
  intros W Hh Hs. destruct (req_header_roundtrip m h W Hh Hs) as (u & E & Wu & _).
  exists u. split; [done|apply Wu].
Qed.
Lemma reply_num_packed m y ret :
  m_wf m -> is_s32 y -> is_s32 ret -> Z.of_nat (m_ind m) < 2 ^ 31 ->
  reply_num (m_bytes (pack_reply_header m (ReplyHeader y ret))) y.
Proof.
  intros W Hy Hr Hs. destruct (reply_header_roundtrip m (ReplyHeader y ret) W (conj Hy Hr) Hs)
    as (u & E & _). unfold reply_num. by rewrite E.
Qed.
Lemma error_reply_num h code :
  is_s32 (rq_xid h) -> is_s32 code -> reply_num (error_reply h code) (rq_xid h).
Proof.
  intros Hx Hc. apply reply_num_packed; [apply marshall_new_wf|done|done|done].
Qed.

(** * The window of replies of a client that makes one call at a time *)

Definition le_xid (a b : reply_t) : Prop := re_xid a <= re_xid b.

(** It has the numbers from [f] to [n], in order, and replies up to [fin]. *)
Definition win (w : list reply_t) (f n fin : Z) : Prop :=
  StronglySorted le_xid w /\ 0 <= f <= n
  /\ (forall x, x ∈ map re_xid w <-> f <= x <= n)
  /\ (forall r, r ∈ w -> cb_present r = true -> reply_num (re_buf r) (re_xid r) /\ 1 <= re_xid r <= fin).

Lemma elem_of_map_xid x w : x ∈ map re_xid w <-> exists r, r ∈ w /\ re_xid r = x.
Proof.
  rewrite list_elem_of_In, in_map_iff. split; intros (r & ? & ?); exists r;
    rewrite ?list_elem_of_In in *; auto.
Qed.
Lemma filter_sorted p w :
  StronglySorted le_xid w -> StronglySorted le_xid (List.filter p w).
Proof.
  induction 1 as [|r w Hs IH Hf]; simpl; [constructor|]. destruct (p r); [|done].
  constructor; [done|]. apply Forall_forall. intros q. rewrite list_elem_of_In, filter_In.
  intros [Hq _]. eapply Forall_forall in Hf; [exact Hf|by apply list_elem_of_In].
Qed.
Lemma snoc_sorted w r :
  StronglySorted le_xid w -> (forall q, q ∈ w -> re_xid q <= re_xid r) ->
  StronglySorted le_xid (w ++ [r]).
Proof.
  intros Hs Hr. apply StronglySorted_app. split_and!; [|done|by repeat constructor].
  intros a b Ha ->%list_elem_of_singleton. by apply Hr.
Qed.

Lemma min_xid_first x w m : (forall r, r ∈ w -> m <= re_xid r) -> min_xid x w m = m.
Proof.
  unfold min_xid. induction w as [|r w IH]; intros Hm; simpl; [done|].
  assert ((re_xid r <? m) = false) as -> by (apply Z.ltb_ge, Hm; by left).
  apply IH. intros q Hq. apply Hm. by right.
Qed.
Lemma find_reply_none x w st : x ∉ map re_xid w -> find_reply x w st = st.
Proof.
  induction w as [|r w IH]; simpl; [done|]. rewrite not_elem_of_cons. intros [Hne Hin].
  assert ((re_xid r =? x) = false) as -> by lia. by apply IH.
Qed.
Lemma find_reply_some x w st :
  find_reply x w st = st \/ find_reply x w st = INPROGRESS
  \/ exists r, r ∈ w /\ re_xid r = x /\ cb_present r = true /\ find_reply x w st = DONE (re_buf r).
Proof.
  revert st. induction w as [|r w IH]; intros st; simpl; [by left|].
  destruct (re_xid r =? x) eqn:E; [destruct (cb_present r) eqn:F|].
  - right; right. exists r. split_and!; try done; [by left|lia].
  - destruct (IH INPROGRESS) as [->|[->|(q & ? & ? & ? & ->)]]; [by auto..|].
    right; right. exists q. split_and!; try done. by right.
  - destruct (IH st) as [->|[->|(q & ? & ? & ? & ->)]]; [by auto..|].
    right; right. exists q. split_and!; try done. by right.
Qed.
Lemma find_reply_not_new x w : x ∈ map re_xid w -> find_reply x w NEW <> NEW.
Proof.
  assert (forall w, find_reply x w INPROGRESS <> NEW) as Hi.
  { intros w'. by destruct (find_reply_some x w' INPROGRESS) as [->|[->|(r & ? & ? & ? & ->)]]. }
  induction w as [|r w IH]; simpl; [by intros ?%elem_of_nil|]. intros [->|Hin]%elem_of_cons.
  - rewrite Z.eqb_refl. by destruct (cb_present r).
  - destruct (re_xid r =? x); [destruct (cb_present r); [done|apply Hi]|by apply IH].
Qed.

Lemma win_head w f n fin : win w f n fin -> exists r w', w = r :: w' /\ re_xid r = f
  /\ (forall q, q ∈ w -> f <= re_xid q).
Proof.
  intros (Hs & Hf & Hin & _).
  assert (forall q, q ∈ w -> f <= re_xid q) as Hge.
  { intros q Hq. apply (proj1 (Hin (re_xid q))). apply elem_of_map_xid. eauto. }
  destruct (proj1 (elem_of_map_xid f w) (proj2 (Hin f) ltac:(lia))) as (r & Hr & Ef).
  destruct w as [|q w]; [by apply elem_of_nil in Hr|]. exists q, w. split_and!; try done.
  apply StronglySorted_inv in Hs as [_ Hall]. pose proof (Hge q (list_elem_of_here _ _)).
  apply elem_of_cons in Hr as [->|Hr]; [done|].
  eapply Forall_forall in Hall; [|exact Hr]. unfold le_xid in Hall. lia.
Qed.

(** Dropping what the client is done with. *)
Lemma win_filter w f n fin r :
  win w f n fin -> r <= n ->
  win (List.filter (fun q => negb (re_xid q <? r)) w) (Z.max f r) n fin.
Proof.
  intros (Hs & Hf & Hin & Hrep) Hr. split_and!; [by apply filter_sorted|lia|lia| |].
  - intros x. rewrite elem_of_map_xid. split.
    + intros (q & Hq & <-). rewrite list_elem_of_In, filter_In, <- list_elem_of_In in Hq.
      destruct Hq as [Hq Hb]. assert (f <= re_xid q <= n) by (apply Hin, elem_of_map_xid; eauto). lia.
    + intros Hx. assert (f <= x <= n) as Hx' by lia. apply Hin, elem_of_map_xid in Hx' as (q & Hq & <-).
      exists q. split; [|done]. rewrite list_elem_of_In, filter_In, <- list_elem_of_In. split; [done|lia].
  - intros q Hq. rewrite list_elem_of_In, filter_In, <- list_elem_of_In in Hq. apply Hrep, Hq.
Qed.
Lemma win_snoc w f n fin r n' fin' :
  win w f n fin -> re_xid r = n' -> n <= n' <= n + 1 -> fin <= fin' ->
  (cb_present r = true -> reply_num (re_buf r) (re_xid r) /\ 1 <= re_xid r <= fin') ->
  win (w ++ [r]) f n' fin'.
Proof.
  intros (Hs & Hf & Hin & Hrep) Er Hn Hfin Hr. split_and!; [|lia|lia| |].
  - apply snoc_sorted; [done|]. intros q Hq.
    assert (f <= re_xid q <= n) by (apply Hin, elem_of_map_xid; eauto). lia.
  - intros x. rewrite map_app, elem_of_app, Hin. simpl. rewrite list_elem_of_singleton. lia.
  - intros q [Hq| ->%list_elem_of_singleton]%elem_of_app; [|done]. intros Hb.
    destruct (Hrep q Hq Hb). split; [done|lia].
Qed.

(** What becomes of a request numbered [x] that acknowledges the ones before it. *)
Lemma check_window_spec w f n fin x :
  win w f n fin -> n - 1 <= fin <= n -> 1 <= x <= n + 1 -> (x = n + 1 -> fin = n) ->
  let '(w', st) := check_window w x (x - 1) in
  match st with
  | NEW => x = n + 1 /\ exists f', win w' f' (n + 1) fin
  | INPROGRESS => exists f', win w' f' n fin
  | DONE b => reply_num b x /\ x <= fin /\ exists f', win w' f' n fin
  | FORGOTTEN => x <= fin /\ exists f', win w' f' n fin
  end.
Proof.
  intros Hw Hfin Hx Hnew.
  assert (check_window w x (x - 1) =
    if x <? f then (w, FORGOTTEN)
    else let w1 := List.filter (fun q => negb (re_xid q <? x - 1)) w in
         match find_reply x w1 NEW with NEW => (w1 ++ [reply_new x], NEW) | st => (w1, st) end) as ->.
  { destruct (win_head _ _ _ _ Hw) as (r & w' & -> & Er & Hge). unfold check_window.
    by rewrite Er, min_xid_first. }
  destruct (x <? f) eqn:Hlt; [split; [destruct Hw as (_ & ? & _); lia|eauto]|].
  pose proof (win_filter _ _ _ _ (x - 1) Hw ltac:(lia)) as Hw1. cbv zeta.
  revert Hw1. generalize (List.filter (fun q => negb (re_xid q <? x - 1)) w) as w1.
  intros w1 Hw1. clear Hw.
  destruct (decide (x = n + 1)) as [->|Hne].
  - rewrite find_reply_none.
    + split; [done|]. exists (Z.max f (n + 1 - 1)).
      eapply win_snoc; [exact Hw1|done|lia|lia|done].
    + destruct Hw1 as (_ & _ & Hin & _). rewrite Hin. lia.
  - assert (x ∈ map re_xid w1) as Hx1 by (destruct Hw1 as (_ & _ & Hin & _); apply Hin; lia).
    pose proof (find_reply_not_new x w1 Hx1) as Hn.
    destruct (find_reply_some x w1 NEW) as [?|[->|(q & Hq & <- & Hb & ->)]]; [done|eauto|].
    destruct Hw1 as (Hs & Hf & Hin & Hrep). destruct (Hrep q Hq Hb) as [? ?].
    split_and!; [done|lia|]. by eexists.
Qed.

(** * The invariant of careful schedules *)

(** [n] requests have been executed, [fin] of them are finished and the client has the
    replies of [rep]. *)
Record inv (N S : Z) (s : net) (n fin rep : Z) : Prop := Inv {
  i_xid : 1 <= xid_ (clt s) < 2 ^ 31;
  i_executed : executed s = seqZ 1 n /\ 0 <= n < xid_ (clt s);
  i_running : running s = [] /\ fin = n
    \/ exists c h, running s = [(c, h)] /\ rq_xid h = n /\ rq_clt_nonce h = N /\ 1 <= n /\ fin = n - 1;
  i_rep : window_of (fun x => 1 <= x <= rep) (xid_rep_window_ (clt s)) /\ 0 <= rep <= fin;
  i_calls : calls_ (clt s) = ∅ /\ rep = xid_ (clt s) - 1
    \/ exists ca, calls_ (clt s) = {[xid_ (clt s) - 1 := ca]} /\ 2 <= xid_ (clt s)
         /\ rep = if ca_done ca then xid_ (clt s) - 1 else xid_ (clt s) - 2;
  i_nonces : clt_nonce_ (clt s) = N /\ nonce_ (srv s) = S
    /\ (srv_nonce_ (clt s) = 0 \/ srv_nonce_ (clt s) = S);
  i_sent : forall b, b ∈ sent s -> exists h, request_num b h /\ 1 <= rq_xid h < xid_ (clt s)
    /\ rq_xid_rep h = rq_xid h - 1 /\ rq_clt_nonce h = N
    /\ (rq_srv_nonce h = 0 \/ rq_srv_nonce h = S);
  i_replies : forall b, b ∈ replies s -> exists y, reply_num b y /\ 1 <= y <= fin;
  i_window : match reply_window_ (srv s) !! N with
             | None => n = 0
             | Some w => (n = 1 /\ fin = 0 /\ w = [reply_new 0]) \/ (1 <= n /\ exists f, win w f n fin)
             end }.

Context (N S : Z) (HN : is_u32 N) (HN0 : N <> 0) (HS : is_u32 S).

Lemma rep_bounds s n fin rep : inv N S s n fin rep -> xid_ (clt s) - 2 <= rep <= xid_ (clt s) - 1.
Proof. intros I. destruct (i_calls _ _ _ _ _ _ I) as [[_ ->]|(ca & _ & _ & ->)]; [lia|]. case_match; lia. Qed.
Lemma fin_bounds s n fin rep : inv N S s n fin rep -> n - 1 <= fin <= n.
Proof. intros I. destruct (i_running _ _ _ _ _ _ I) as [[_ ->]|(c & h & _ & _ & _ & _ & ->)]; lia. Qed.

Lemma window_upto c w : 0 <= c -> window_of (fun x => 1 <= x <= c) w -> exists l, w = c :: l.
Proof.
  intros Hc (k & l & -> & _ & Hk & Hn & HR). exists l. f_equal.
  destruct (Z.lt_total k c) as [?|[?|?]]; [|done|].
  - destruct (proj1 (HR (k + 1)) ltac:(lia)); [lia|done].
  - pose proof (proj2 (HR k) ltac:(lia)). lia.
Qed.
Lemma update_upto c w y :
  0 <= c < 2 ^ 31 -> 1 <= y <= c + 1 -> window_of (fun x => 1 <= x <= c) w ->
  exists w', update_xid_rep w y = Ret w' /\ window_of (fun x => 1 <= x <= Z.max c y) w'.
Proof.
  intros Hc Hy Hw. destruct (update_xid_rep_window _ w y Hw) as (w' & E & Hw'); [lia|].
  exists w'. split; [done|]. eapply window_of_proper; [|exact Hw']. simpl. lia.
Qed.

Lemma inv_init procs :
  inv N S (net_init N S procs) 0 0 0.
Proof.
  split; simpl; rewrite ?u32_id by done; try done.
  - by left.
  - split; [|lia]. eapply window_of_proper; [|exact window_of_init]. simpl. lia.
  - by left.
  - by auto.
  - by intros b ?%elem_of_nil.
  - by intros b ?%elem_of_nil.
Qed.

(** The client starts a call. *)
Lemma call1_begin_inv c proc req st front l :
  xid_rep_window_ c = front :: l -> call1_begin c proc req = Ret st ->
  (exists code, st = Refused code)
  \/ st = Started (set_calls (set_xid c (u32 (xid_ c + 1)))
                   (<[s32 (xid_ c) := Caller unmarshall_empty 0 false]> (calls_ c))) (xid_ c)
           (pack_req_header req
              (ReqHeader (s32 (xid_ c)) (s32 proc) (clt_nonce_ c) (srv_nonce_ c) (s32 front)))
           (s32 front).
Proof.
  intros Hw E. unfold call1_begin in E. simpl in E. rewrite Hw in E.
  repeat case_match; inv_ret; [left; by eexists..|by right].
Qed.

Lemma inv_begin_call s proc req s' n fin rep :
  inv N S s n fin rep -> careful s (Call proc req) -> step s (Call proc req) = Ret s' ->
  inv N S s' n fin rep.
Proof.
  intros I (Hcalls & Wr & Hsz & Hx) E. pose proof I as [I1 I2 I3 I4 I5 I6 I7 I8 I9].
  destruct I5 as [[_ Hrep]|(ca & Hca & _)]; [|by rewrite Hcalls in Hca].
  destruct (window_upto rep (xid_rep_window_ (clt s))) as [l Hl]; [lia|apply I4|].
  simpl in E. apply bind_ret_inv in E as (st & Est & E).
  destruct (call1_begin_inv _ _ _ _ _ _ Hl Est) as [[code ->]| ->]; inv_ret; [exact I|].
  assert (is_s32 (xid_ (clt s))) as Hxs by (unfold is_s32; lia).
  split; simpl; rewrite ?(s32_id (xid_ (clt s))), ?(u32_id (xid_ (clt s) + 1)) by (done || unfold is_u32; lia);
    try done; try lia.
  - destruct I2. split; [done|lia].
  - right. eexists. rewrite Hcalls, insert_empty.
    replace (xid_ (clt s) + 1 - 1) with (xid_ (clt s)) by lia. split_and!; [done|lia|simpl; lia].
  - intros b [Hb| ->%list_elem_of_singleton]%elem_of_app.
    + destruct (I7 b Hb) as (h & ? & ? & ?). exists h. split_and!; try done; lia.
    + destruct I6 as (Hcn & Hsn & Hsv). eexists. split.
      { apply request_num_packed; [done| |done]. split_and!; simpl; width_lia. }
      simpl. rewrite s32_id by (unfold is_s32; lia). split_and!; try done; lia.
Qed.

(** A reply reaches the client. *)
Lemma inv_receive s i s' n fin rep :
  inv N S s n fin rep -> step s (Receive i) = Ret s' -> exists rep', inv N S s' n fin rep'.
Proof.
  intros I E. pose proof (rep_bounds _ _ _ _ I) as Hrb. pose proof (fin_bounds _ _ _ _ I) as Hfin.
  destruct I as [I1 I2 I3 I4 I5 I6 I7 I8 I9]. simpl in E.
  destruct (replies s !! i) as [b|] eqn:Hi; [|inv_ret; exists rep; by split].
  destruct (I8 b) as (y & Hy & Hyf); [by eapply list_elem_of_lookup_2|].
  unfold rpcc_got_pdu in E. unfold reply_num in Hy.
  destruct (unpack_reply_header (unmarshall_of_buf b)) as [u h]. simpl in Hy. subst y.
  destruct (u_ok u); simpl in E; [|inv_ret; exists rep; by split].
  rewrite u32_id in E by width_lia.
  destruct (update_upto rep (xid_rep_window_ (clt s)) (rp_xid h)) as (w & Ew & Hw);
    [lia|lia|apply I4|]. rewrite Ew in E. simpl in E.
  destruct I5 as [[Hc Hr]|(ca & Hc & Hx2 & Hr)]; rewrite Hc in E.
  - rewrite lookup_empty in E. exists rep. replace (Z.max rep (rp_xid h)) with rep in Hw by lia. inv_ret.
    split; simpl; try done; [split; [done|apply I4]|by left].
  - destruct (Z.eq_dec (rp_xid h) (xid_ (clt s) - 1)) as [Ex|Ex].
    + rewrite Ex, lookup_singleton_eq in E. exists (xid_ (clt s) - 1).
      replace (Z.max rep (rp_xid h)) with (xid_ (clt s) - 1) in Hw by lia. inv_ret.
      destruct (ca_done ca) eqn:Hd; split; simpl; try done; try (split; [done|lia]);
        right; [exists ca; by rewrite Hd|eexists; by rewrite insert_singleton_eq].
    + rewrite lookup_singleton_ne in E by done. exists rep.
      replace (Z.max rep (rp_xid h)) with rep in Hw by (destruct (ca_done ca); lia). inv_ret.
      split; simpl; try done; [split; [done|apply I4]|right; by exists ca].
Qed.

(** A call that has its reply returns. *)
Lemma inv_return s xid s' n fin rep :
  inv N S s n fin rep -> careful s (Return xid) -> step s (Return xid) = Ret s' ->
  inv N S s' n fin rep.
Proof.
  intros I [Hx Hd] E. pose proof I as [I1 I2 I3 I4 I5 I6 I7 I8 I9]. simpl in E, Hd.
  destruct I5 as [[Hc Hr]|(ca & Hc & Hx2 & Hr)]; rewrite Hc in E, Hd.
  - rewrite lookup_empty in E. inv_ret. exact I.
  - destruct (Z.eq_dec (xid_ (clt s) - 1) (s32 xid)) as [Ex|Ex];
      [|rewrite lookup_singleton_ne in E by done; inv_ret; exact I].
    assert (xid = xid_ (clt s) - 1) as -> by (unfold s32, is_u32 in *; Z.to_euclidean_division_equations; lia).
    rewrite <- Ex, lookup_singleton_eq in E, Hd. specialize (Hd ca eq_refl). rewrite Hd in Hr.
    unfold call1_end in E. rewrite <- Ex, Hc, lookup_singleton_eq in E. simpl in E.
    destruct (update_upto rep (xid_rep_window_ (clt s)) (xid_ (clt s) - 1)) as (w & Ew & Hw);
      [lia|lia|apply I4|]. rewrite Ew in E. simpl in E. inv_ret.
    replace (Z.max _ _) with (xid_ (clt s) - 1) in Hw by lia.
    rewrite delete_singleton_eq.
    destruct (ca_done ca && _); (split; simpl; [done|done|done|split; [done|lia]|by left|done..]).
Qed.

Lemma inv_bind s s' n fin rep :
  inv N S s n fin rep -> step s BindDone = Ret s' -> inv N S s' n fin rep.
Proof.
  intros [I1 I2 I3 I4 I5 I6 I7 I8 I9] E. simpl in E. inv_ret. split; simpl; try done.
  destruct I6 as (? & Hs & ?). split_and!; try done. right. rewrite Hs. width_lia.
Qed.

(** A handler ends. *)
Lemma dispatch_end_inv (sv : rpcs handler) c h ret rep dead sv' c' b :
  rq_clt_nonce h = N -> dispatch_end sv c h ret rep dead = Ret (sv', c', b) ->
  b = m_bytes (pack_reply_header rep (ReplyHeader (rq_xid h) ret))
  /\ exists w, reply_window_ sv !! N = Some w
     /\ sv' = set_replies sv (<[N := w ++ [Reply (u32 (rq_xid h)) true b]]> (reply_window_ sv)).
Proof.
  intros Hn E. unfold dispatch_end, add_reply in E. rewrite Hn in E.
  assert ((N >? 0) = true) as Hpos by (unfold is_u32 in HN; lia). rewrite Hpos in E.
  inv_ret. destruct (reply_window_ sv !! N) as [w|] eqn:Hw; [|done]. inv_ret.
  split; [|exists w]; repeat case_match; by simplify_eq.
Qed.

Lemma win_base : win [reply_new 0] 0 0 0.
Proof.
  split_and!; try lia; [by repeat constructor| |].
  - intros x. simpl. rewrite list_elem_of_singleton. lia.
  - by intros r ->%list_elem_of_singleton.
Qed.

Lemma inv_finish s j ret rp dead s' n fin rep :
  inv N S s n fin rep -> careful s (Finish j ret rp dead) -> step s (Finish j ret rp dead) = Ret s' ->
  exists fin', inv N S s' n fin' rep.
Proof.
  intros I (Hret & Wr & Hsz) E. pose proof (fin_bounds _ _ _ _ I) as Hfin.
  pose proof I as [I1 I2 I3 I4 I5 I6 I7 I8 I9]. simpl in E.
  destruct (running s !! j) as [[c h]|] eqn:Hj; [|inv_ret; by exists fin].
  destruct I3 as [[Hr _]|(c1 & h1 & Hr & Hxn & Hcn & Hn1 & Hf)]; [by rewrite Hr in Hj|].
  rewrite Hr in Hj. destruct j as [|j]; [|done].
  injection Hj as <- <-. subst n. unfold finish in E.
  apply bind_ret_inv in E as ([[sv c'] b] & Ed & E). injection E as <-.
  destruct (dispatch_end_inv _ _ _ _ _ _ _ _ _ Hcn Ed) as (Hb & w & Hw & ->).
  assert (reply_num b (rq_xid h1)) as Hbn.
  { rewrite Hb. apply reply_num_packed; try done. unfold is_s32. lia. }
  exists (rq_xid h1). rewrite Hw in I9. split; simpl; try done.
  - left. by rewrite Hr.
  - split; [apply I4|lia].
  - intros b' [Hb'| ->%list_elem_of_singleton]%elem_of_app; [|exists (rq_xid h1); split; [done|lia]].
    destruct (I8 b' Hb') as (y & ? & ?). exists y. split; [done|lia].
  - rewrite lookup_insert_eq, u32_id by (unfold is_u32; lia). right. split; [lia|].
    destruct I9 as [(H1 & H2 & ->)|(_ & f & Hwin)].
    + exists 0. eapply win_snoc; [apply win_base|done|lia|lia|done].
    + exists f. eapply win_snoc; [exact Hwin|done|lia|lia|]. intros _. split; [done|simpl; lia].
Qed.

(** A request reaches the server. *)
Lemma dispatch_header_inv (sv : rpcs handler) c h req sv' v :
  rq_clt_nonce h = N -> rq_srv_nonce h = 0 \/ rq_srv_nonce h = nonce_ sv ->
  dispatch_header sv c h req = Ret (sv', v) ->
  let '(w, st) := check_window (default [] (reply_window_ sv !! N)) (u32 (rq_xid h)) (u32 (rq_xid_rep h)) in
  reply_window_ sv' !! N = Some w /\ nonce_ sv' = nonce_ sv
  /\ match st with
     | NEW => exists f, v = Running f h req
     | INPROGRESS => v = Ignored
     | DONE b => v = Answered c b
     | FORGOTTEN => v = Answered c (error_reply h rpc_const.atmostonce_failure)
     end.
Proof.
  intros Hn Hs E. unfold dispatch_header in E. rewrite Hn in E.
  assert (negb (N =? 0) = true) as HNb by lia.
  assert (negb (rq_srv_nonce h =? 0) && negb (rq_srv_nonce h =? nonce_ sv) = false) as Hsb by lia.
  rewrite Hsb, HNb in E. destruct (procs_ sv !! rq_proc h); [|done].
  set (s1 := save_connection (know_client sv N) N c) in E.
  assert (nonce_ s1 = nonce_ sv /\ reply_window_ s1 !! N = Some (default [] (reply_window_ sv !! N)))
    as [H1 H2].
  { unfold s1, save_connection, know_client. destruct (reply_window_ sv !! N) eqn:F; simpl;
      repeat case_match; simpl; rewrite ?lookup_insert_eq; done. }
  unfold checkduplicate_and_update in E. rewrite H2 in E. clearbody s1.
  destruct (check_window _ _ _) as [w st]. simpl in E.
  destruct st; inv_ret; simplify_eq; try (case_match; simplify_eq/=);
    simpl; rewrite lookup_insert_eq; split_and!; eauto.
Qed.

(** The invariant after a request has been executed, or not. *)
Lemma inv_executed s sv c h w n rep :
  inv N S s n n rep -> running s = [] -> rq_xid h = n + 1 -> rq_clt_nonce h = N ->
  n + 1 < xid_ (clt s) -> nonce_ sv = nonce_ (srv s) -> reply_window_ sv !! N = Some w ->
  (n = 0 /\ w = [reply_new 0] \/ exists f, win w f (n + 1) n) ->
  inv N S (Net (clt s) sv (sent s) (replies s) (running s ++ [(c, h)])
             (executed s ++ [u32 (rq_xid h)])) (n + 1) n rep.
Proof.
  intros I Hr Hx Hcn Hlt Hno Hw Hwin. pose proof I as [I1 I2 I3 I4 I5 I6 I7 I8 I9].
  split; simpl; try done.
  - rewrite Hx, u32_id by (unfold is_u32; lia). destruct I2 as [-> ?]. split; [|lia].
    rewrite (seqZ_app 1 n 1) by lia. by rewrite (Z.add_comm 1 n).
  - right. exists c, h. rewrite Hr. split_and!; try done; lia.
  - by rewrite Hno.
  - rewrite Hw. destruct Hwin as [[-> ->]|[f Hf]]; [by left|right]. split; [lia|by exists f].
Qed.
Lemma inv_answered s sv rs w f n fin rep :
  inv N S s n fin rep -> nonce_ sv = nonce_ (srv s) -> reply_window_ sv !! N = Some w ->
  1 <= n -> win w f n fin -> (forall b, b ∈ rs -> exists y, reply_num b y /\ 1 <= y <= fin) ->
  inv N S (Net (clt s) sv (sent s) (replies s ++ rs) (running s) (executed s)) n fin rep.
Proof.
  intros [I1 I2 I3 I4 I5 I6 I7 I8 I9] Hno Hw Hn Hwin Hrs. split; simpl; try done.
  - by rewrite Hno.
  - intros b [Hb|Hb]%elem_of_app; auto.
  - rewrite Hw. right. split; [done|by exists f].
Qed.

Lemma inv_deliver s i c s' n fin rep :
  inv N S s n fin rep -> careful s (Deliver i c) -> step s (Deliver i c) = Ret s' ->
  exists n' fin', inv N S s' n' fin' rep.
Proof.
  intros I Hcar E. pose proof (rep_bounds _ _ _ _ I) as Hrb. pose proof (fin_bounds _ _ _ _ I) as Hfin.
  pose proof (i_rep _ _ _ _ _ _ I) as [_ Hrep]. pose proof (i_executed _ _ _ _ _ _ I) as [_ Hn].
  simpl in E. destruct (sent s !! i) as [b|] eqn:Hi; [|injection E as <-; by eauto].
  destruct (i_sent _ _ _ _ _ _ I b) as (h & (u & Hu & Hok) & Hx & Hxr & Hcn & Hsn);
    [by eapply list_elem_of_lookup_2|].
  unfold deliver, dispatch_begin in E. rewrite Hu, Hok in E. simpl in E.
  apply bind_ret_inv in E as ([sv v] & Ed & E). injection E as <-.
  apply dispatch_header_inv in Ed; [|done|].
  2:{ destruct (i_nonces _ _ _ _ _ _ I) as (_ & -> & _). done. }
  rewrite Hxr, !u32_id in Ed by (pose proof (i_xid _ _ _ _ _ _ I); unfold is_u32; lia).
  pose proof (i_window _ _ _ _ _ _ I) as Hw. pose proof (i_running _ _ _ _ _ _ I) as Hrun.
  destruct (reply_window_ (srv s) !! N) as [w|] eqn:Ew; simpl in Ed.
  - destruct Hw as [(-> & -> & ->)|(Hn1 & f & Hw)].
    { exfalso. destruct Hrun as [[_ ?]|(c1 & h1 & Hr & Hx1 & _)]; [lia|].
      apply (Hcar c1 h1); [rewrite Hr; by apply list_elem_of_singleton|done]. }
    pose proof (check_window_spec w f n fin (rq_xid h) Hw Hfin ltac:(lia) ltac:(lia)) as Hspec.
    destruct (check_window w (rq_xid h) (rq_xid h - 1)) as [w' st]. destruct Ed as (Hw' & Hno & Hv).
    destruct st as [| |b'|].
    + destruct Hspec as (Hxn & f' & Hf'). destruct Hv as [g ->]. exists (n + 1), n.
      assert (fin = n) as -> by lia. destruct Hrun as [[Hr _]|(? & ? & _ & _ & _ & _ & ?)]; [|lia].
      eapply inv_executed; try done; [lia|eauto].
    + destruct Hspec as (f' & Hf'). rewrite Hv. exists n, fin. rewrite <- (app_nil_r (replies s)).
      eapply inv_answered; try done. by intros b' ?%elem_of_nil.
    + destruct Hspec as (Hb' & Hle & f' & Hf'). rewrite Hv. exists n, fin.
      eapply inv_answered; try done. intros ? ->%list_elem_of_singleton.
      exists (rq_xid h). split; [done|lia].
    + destruct Hspec as (Hle & f' & Hf'). rewrite Hv. exists n, fin.
      eapply inv_answered; try done. intros ? ->%list_elem_of_singleton.
      exists (rq_xid h). split; [apply error_reply_num; [|done]; unfold is_s32|lia].
      pose proof (i_xid _ _ _ _ _ _ I). lia.
  - destruct Ed as (Hw' & Hno & g & ->). exists 1, 0. subst n.
    assert (fin = 0) as -> by lia. destruct Hrun as [[Hr _]|(? & ? & _ & _ & _ & ? & _)]; [|lia].
    eapply (inv_executed s sv c h _ 0); try done; [lia|lia|]. by left.
Qed.

Lemma inv_reach procs s :
  reach (net_init N S procs) s -> exists n fin rep, inv N S s n fin rep.
Proof.
  induction 1 as [|s e s' _ (n & fin & rep & I) Hc E]; [by eexists _, _, _; apply inv_init|].
  destruct e.
  - eexists _, _, _. by eapply inv_begin_call.
  - destruct (inv_deliver _ _ _ _ _ _ _ I Hc E) as (? & ? & ?); eauto.
  - destruct (inv_finish _ _ _ _ _ _ _ _ _ I Hc E) as (? & ?); eauto.
  - destruct (inv_receive _ _ _ _ _ _ I E) as (? & ?); eauto.
  - eexists _, _, _. by eapply inv_return.
  - eexists _, _, _. by eapply inv_bind.
Qed.
End system.
Arguments net : clear implicits.

(** * Properties *)

(** C6 (exactly once): of a client that uses at-most-once calls, makes one call at a time
    (fewer than 2^31, of messages below 2^31 bytes) and does not give up on a call, and whose
    first request is not delivered again while it runs ([careful]), the server executes the requests in the order they were made,
    each at most once, however often they are delivered; and every call that has returned
    was executed.  Without the provisos requests are executed twice
    ([rpc_schedules.first_request_twice], [rpc_schedules.late_reply_reexecutes]). *)
Theorem requests_execute_once {handler} `{Memory} (procs : gmap Z handler) N S s :
  is_u32 N -> N <> 0 -> is_u32 S ->
  reach (net_init N S procs) s ->
  exists n, executed s = seqZ 1 n /\ NoDup (executed s)
    /\ xid_ (clt s) - 2 <= n <= xid_ (clt s) - 1
    /\ (calls_ (clt s) = ∅ -> n = xid_ (clt s) - 1).
Proof.
  intros HN HN0 HS Hr. destruct (inv_reach N S HN HN0 HS procs s Hr) as (n & fin & rep & I).
  pose proof (rep_bounds N S _ _ _ _ I). pose proof (fin_bounds N S _ _ _ _ I).
  pose proof (i_executed _ _ _ _ _ _ I) as [He Hn]. pose proof (i_rep _ _ _ _ _ _ I) as [_ ?].
  exists n. rewrite He. split_and!; [done|apply NoDup_seqZ|lia|lia|].
  intros Hc. destruct (i_calls _ _ _ _ _ _ I) as [[_ ?]|(ca & Hca & _)]; [lia|].
  rewrite Hca in Hc. by apply map_non_empty_singleton in Hc.
Qed.

(** * One call, from the arguments of the client to its results *)

Lemma unpack_reply_header_ind u : u_ind (unpack_reply_header u).1 = RPC_HEADER_SZ.
Proof.
  unfold unpack_reply_header. destruct (unpack _) as [u1 x]. by destruct (unpack u1) as [u2 y].
Qed.
Lemma take_in_header b u h :
  unpack_reply_header b = (u, h) -> u_wf u -> take_in u = u.
Proof.
  intros E (_ & Hi & _ & Hok). pose proof (unpack_reply_header_ind b) as Hind. rewrite E in Hind.
  cbn [fst] in Hind. unfold take_in. destruct u as [buf sz ind ok]. cbn [u_buf u_sz u_ind u_ok] in *.
  subst ind ok. f_equal. by apply Nat.leb_le.
Qed.

Section one_call.
  Context {T A R : Type} `{Marshal A, Marshal R, Memory}.
  Context (meth : T -> A -> T * Z * R) (st st' : T) (x a0 : A) (b : Z) (r r0 : R).
  Context (h : req_header) (c : rpcc) (w : list Z) (ca : caller).

(** Remote calls: a request whose argument is [x], dispatched to the handler of
    the method [meth], runs [meth] on [x]; its reply, when it reaches the client while
    the call is pending, makes the call return the status and the result of [meth]. *)
Theorem call_runs_method :
  meth st x = (st', b, r) -> 0 <= b -> is_s32 b -> sendable x -> sendable r -> wf_req_header h ->
  Z.of_nat (m_ind (put marshall_new x)) < 2 ^ 31 -> Z.of_nat (m_ind (put marshall_new r)) < 2 ^ 31 ->
  update_xid_rep (xid_rep_window_ c) (u32 (rq_xid h)) = Ret w ->
  calls_ c !! rq_xid h = Some ca -> ca_done ca = false ->
  exists args rep ca' c',
    unpack_req_header (unmarshall_of_buf (m_bytes (pack_req_header (put marshall_new x) h))) = (args, h)
    /\ handler1 meth a0 st args marshall_new = Ret (st', b, rep)
    /\ rpcc_got_pdu c (m_bytes (pack_reply_header rep (ReplyHeader (rq_xid h) b))) = Ret c'
    /\ calls_ c' !! rq_xid h = Some ca' /\ ca_done ca' = true
    /\ call_m (ca_intret ca') (ca_un ca') r0 = Ret (b, r).
Proof.
  intros Hm Hb Hbs Hx Hr Hh Hsx Hsr Hw Hca Hd.
  destruct (put_new x) as [Wx Ex]. destruct (put_new r) as [Wr Er].
  destruct (req_header_roundtrip _ h Wx Hh Hsx) as (args & Ea & Wa & La). rewrite Ex in La.
  destruct (get_rest x a0 args Wa Hx La) as (args' & Eg & Hok).
  destruct (reply_header_roundtrip _ (ReplyHeader (rq_xid h) b) Wr (conj (proj1 Hh) Hbs) Hsr)
    as (u & Eu & Wu & Lu). rewrite Er in Lu.
  destruct (get_rest r r0 u Wu Hr Lu) as (u' & Eg' & Hok').
  exists args, (put marshall_new r), (Caller u b true).
  eexists. split_and!; [done| | | |done|].
  - unfold handler1. rewrite Eg. simpl. by rewrite Hok, Hm.
  - unfold rpcc_got_pdu. rewrite Eu. destruct Wu as (_ & _ & _ & Hu). rewrite Hu. simpl.
    rewrite Hw. simpl. rewrite Hca, Hd. done.
  - simpl. rewrite lookup_insert_eq. by rewrite (take_in_header _ _ _ Eu Wu).
  - unfold call_m. simpl. assert ((b <? 0) = false) as -> by lia. rewrite Eg'. simpl. by rewrite Hok'.
Qed.
End one_call.

(** * Schedules *)

#[global] Instance m_wf_dec m : Decision (m_wf m).
Proof. unfold m_wf. apply _. Defined.
#[global] Instance is_s32_dec z : Decision (is_s32 z).
Proof. unfold is_s32. apply _. Defined.

Module rpc_schedules.
#[local] Instance zeroed : Memory := char_of_Z 0.

(** [careful], computed. *)
Definition carefulb {handler} (s : net handler) (e : event) : bool :=
  match e with
  | Call proc req =>
      bool_decide (calls_ (clt s) = ∅) && bool_decide (m_wf req /\ Z.of_nat (m_ind req) < 2 ^ 31)
      && bool_decide (xid_ (clt s) < 2 ^ 31 - 1)
  | Deliver _ _ => forallb (fun '(c, h) => negb (rq_xid h =? 1)) (running s)
  | Finish _ ret rep _ => bool_decide (is_s32 ret) && bool_decide (m_wf rep /\ Z.of_nat (m_ind rep) < 2 ^ 31)
  | Return xid =>
      bool_decide (is_u32 xid) && match calls_ (clt s) !! s32 xid with None => true | Some ca => ca_done ca end
  | _ => true
  end.
Lemma carefulb_careful {handler} (s : net handler) e : carefulb s e = true -> careful s e.
Proof.
  destruct e as [proc req|i c|j ret rep dead|i|xid|]; simpl; rewrite ?andb_true_iff; try done.
  - intros [[H1%bool_decide_eq_true [H2 H3]%bool_decide_eq_true] H4%bool_decide_eq_true]. done.
  - intros Hf c' h Hin. rewrite forallb_forall in Hf. apply list_elem_of_In, Hf in Hin. lia.
  - intros [H1%bool_decide_eq_true [H2 H3]%bool_decide_eq_true]. done.
  - intros [H1%bool_decide_eq_true H2]. split; [done|]. intros ca Hca. by rewrite Hca in H2.
Qed.
Fixpoint run_careful {handler} (s : net handler) (es : list event) : outcome (net handler) :=
  match es with
  | [] => Ret s
  | e :: es => if carefulb s e then s ← step s e; run_careful s es else Fault Undefined
  end.
Lemma run_careful_reach {handler} (s0 s s' : net handler) es :
  reach s0 s -> run_careful s es = Ret s' -> reach s0 s'.
Proof.
  revert s. induction es as [|e es IH]; simpl; intros s Hr E; [by inv_ret|].
  destruct (carefulb s e) eqn:Hc; [|done]. apply bind_ret_inv in E as (s1 & E1 & E).
  eapply IH; [|exact E]. eapply reach_step; [exact Hr|by apply carefulb_careful|exact E1].
Qed.

(** A server with the procedure [0x7001], and a client. *)
Definition procs : gmap Z unit := {[ rpc_const.bind := tt; 0x7001 := tt ]}.
Definition start : net unit := net_init 77 99 procs.
Definition conn : connection := Connection 5 0 0.
Definition args : marshall := put (Marshal := marshal_int) marshall_new 42.
Definition done_with (j : nat) : event := Finish j 0 args false.
(** A whole call whose request is message [i] and whose reply is message [r]. *)
Definition whole (proc : Z) (i r : nat) (xid : Z) : list event :=
  [Call proc args; Deliver i conn; done_with 0; Receive r; Return xid].
Definition bound : list event := whole rpc_const.bind 0 0 1 ++ [BindDone].

(** The calls 1 and 2, with every request delivered again. *)
Definition calm : list event :=
  bound ++ [Deliver 0 conn] ++ whole 0x7001 1 2 2 ++ [Deliver 1 conn; Deliver 0 conn; Receive 3].

Lemma requests_execute_once_witness :
  exists s n, run_careful start calm = Ret s /\ executed s = seqZ 1 n /\ NoDup (executed s).
Proof.
  destruct (run_careful start calm) as [s|] eqn:E; [|by vm_compute in E]. exists s.
  destruct (requests_execute_once procs 77 99 s) as (n & H1 & H2 & _).
  - by_computing.
  - clear E. lia.
  - by_computing.
  - eapply run_careful_reach; [apply reach_start|exact E].
  - exists n. exact (conj eq_refl (conj H1 H2)).
Defined.

(** The first request: while the first request of a client runs, the server does
    not know it: a second copy of it is executed too. *)
Theorem first_request_twice :
  exists s, run start [Call rpc_const.bind args; Deliver 0 conn; Deliver 0 conn] = Ret s
    /\ executed s = [1; 1].
Proof. eexists. split; vm_compute; reflexivity. Qed.

Definition given_up : list event :=
  bound ++ whole 0x7001 1 1 2
  ++ [Call 0x7001 args; Deliver 2 conn; Return 3]
  ++ [Call 0x7001 args; Deliver 3 conn; done_with 1; Receive 2; Return 4]
  ++ [Call 0x7001 args; Deliver 4 conn; done_with 0; Deliver 1 conn].
(** C40 (late replies): when a client gives up on a call and goes on, and the server
    finishes that call late, an old request that arrives again is executed again. *)
Theorem late_reply_reexecutes :
  exists s, run start given_up = Ret s /\ executed s = [1; 2; 3; 4; 5; 2].
Proof. eexists. split; vm_compute; reflexivity. Qed.

(** A method that adds one to its argument, called by a client whose first call is
    pending. *)
Definition succ_method (calls x : Z) : Z * Z * Z := (calls + 1, 0, x + 1).
Definition pending_client : rpcc :=
  set_xid (set_calls (rpcc_new true 77 0) {[1 := Caller unmarshall_empty 0 false]}) 2.
Lemma call_runs_method_witness :
  exists args rep,
    unpack_req_header (unmarshall_of_buf (m_bytes (pack_req_header
       (put (Marshal := marshal_int) marshall_new 41) (ReqHeader 1 0x7001 77 0 0))))
      = (args, ReqHeader 1 0x7001 77 0 0)
    /\ handler1 (H := marshal_int) (H0 := marshal_int) succ_method 0 5 args marshall_new = Ret (6, 0, rep).
Proof.
  destruct (call_runs_method (H := marshal_int) (H0 := marshal_int) succ_method 5 6 41 0 0 42 0
    (ReqHeader 1 0x7001 77 0 0) pending_client [1] (Caller unmarshall_empty 0 false))
    as (args & rep & _ & _ & Ha & Hh & _).
  - reflexivity.
  - lia.
  - by_computing.
  - by_computing.
  - by_computing.
  - by vm_compute.
  - by vm_compute.
  - by vm_compute.
  - by vm_compute.
  - by vm_compute.
  - reflexivity.
  - exists args, rep. exact (conj Ha Hh).
Defined.
End rpc_schedules.
