(* ===== verification/Conns.v ===== *)
(** Who holds a [connection], and when it is deleted: the reference counts of
    rpc/connection.cc as [rpcc] (get_refconn, call1 and the destructor) and [rpcs]
    (tcpsconn, got_pdu and dispatch of rpc/rpc.cc) use them.

    The connections are on a heap, as addresses, so that the use of a deleted one shows as a
    fault.  [polled] are the connections the poll manager may still call back: a
    connection enters it when it is made, and leaves it when its last callback is taken
    away or when [block_remove_fd] returns (which [PollMgr.removed_fd_silent] is about).
    The threads inside [call1] or [dispatch] are a list of what their variable [ch] or [c]
    holds and of how far they are in [send]. *)
From Stdlib Require Import ZArith Lia Ascii String.
From stdpp Require Import base gmap list strings.
From S2P Require Import Prelude Marshall PollMgr RpcServer Transport.
Local Open Scope Z_scope.

(** * Connections on a heap *)

(** Where a thread is in [send]: not in it; counted among the [waiters_]; waiting on
    [send_complete_]; in [block_remove_fd] after a failed write. *)
Inductive phase := Outside | Entered | Sending | Removing.

(** A thread that holds a connection; on the server, also the nonce of the client whose
    request it works on, once the connection was saved. *)
Record thread := Thread { t_ch : option positive; t_phase : phase; t_clt : Z }.

Record objs := Objs {
  heap : gmap positive connection; polled : gset positive; next : positive;
  threads : list thread }.
Definition objs_new : objs := Objs ∅ ∅ 1 [].

Definition deref (o : objs) (a : positive) : outcome connection :=
  match heap o !! a with Some c => Ret c | None => Fault Undefined end.
Definition store (o : objs) (a : positive) (c : connection) : objs :=
  Objs (<[a := c]> (heap o)) (polled o) (next o) (threads o).
Definition set_threads (o : objs) (ts : list thread) : objs :=
  Objs (heap o) (polled o) (next o) ts.
Definition set_polled (o : objs) (p : gset positive) : objs :=
  Objs (heap o) p (next o) (threads o).

(** What a method asked of the poll manager; the end of [block_remove_fd] is a step of its
    own. *)
Definition apply_req (a : positive) (p : gset positive) (r : chan_req) : gset positive :=
  match r with
  | AddCallback _ => {[a]} ∪ p
  | DelCallback CB_RDWR => p ∖ {[a]}
  | _ => p
  end.
Definition apply_reqs (a : positive) (o : objs) (rs : list chan_req) : objs :=
  set_polled o (fold_left (apply_req a) rs (polled o)).

(** [new connection(...)], [incref] and [decref] through a pointer. *)
Definition o_new (o : objs) (fd : Z) : objs * positive :=
  let a := next o in
  let '(c, reqs) := connection_new fd in
  (apply_reqs a (Objs (<[a := c]> (heap o)) (polled o) (Pos.succ a) (threads o)) reqs, a).
Definition o_incref (o : objs) (a : positive) : outcome objs :=
  c ← deref o a; Ret (store o a (incref c)).
Definition o_decref (o : objs) (a : positive) : outcome objs :=
  c ← deref o a;
  oc ← decref c;
  match oc with
  | Some c => Ret (store o a c)
  | None => Ret (Objs (delete a (heap o)) (polled o) (next o) (threads o))
  end.
(** [closeconn], up to the return of [block_remove_fd]. *)
Definition o_closeconn (o : objs) (a : positive) : outcome objs :=
  c ← deref o a;
  let '(c, reqs) := closeconn c in
  let o := store o a c in
  Ret (match reqs with [] => o | _ => set_polled o (polled o ∖ {[a]}) end).

(** ** [send], by the thread [i] *)

Definition thr_enter (o : objs) (i : nat) : outcome objs :=
  match threads o !! i with
  | Some (Thread (Some a) Outside n) =>
      c ← deref o a;
      Ret (set_threads (store o a (send_enter c)) (<[i := Thread (Some a) Entered n]> (threads o)))
  | _ => Ret o
  end.

Definition phase_after (st : send_state) : phase :=
  match st with SendReturned _ => Outside | SendFailed => Removing | SendWaiting => Sending end.

Definition thr_start (o : objs) (i : nat) (b : list ascii) (r : write_result) : outcome objs :=
  match threads o !! i with
  | Some (Thread (Some a) Entered n) =>
      c ← deref o a;
      if send_blocked c then Ret o
      else
        '(c, _, reqs, st) ← send_start c b (Z.of_nat (length b)) r;
        Ret (set_threads (apply_reqs a (store o a c) reqs)
               (<[i := Thread (Some a) (phase_after st) n]> (threads o)))
  | _ => Ret o
  end.

(** The wait on [send_complete_] ends, or [block_remove_fd] returns. *)
Definition thr_finish (o : objs) (i : nat) : outcome objs :=
  match threads o !! i with
  | Some (Thread (Some a) Sending n) =>
      c ← deref o a;
      if send_incomplete c then Ret o
      else Ret (set_threads (store o a (send_finish c).1)
                  (<[i := Thread (Some a) Outside n]> (threads o)))
  | Some (Thread (Some a) Removing n) =>
      c ← deref o a;
      Ret (set_threads (set_polled (store o a (send_finish c).1) (polled o ∖ {[a]}))
             (<[i := Thread (Some a) Outside n]> (threads o)))
  | _ => Ret o
  end.

(** ** The poll thread *)

Definition cb_write (o : objs) (a : positive) (r : write_result) : outcome objs :=
  if bool_decide (a ∈ polled o) then
    c ← deref o a;
    '(c, _, reqs, _) ← write_cb c r;
    Ret (apply_reqs a (store o a c) reqs)
  else Ret o.

Definition cb_read `{Memory} (o : objs) (a : positive) (k1 k2 : nat) (stale acc : bool) (s : sock)
    : outcome (objs * option (list ascii)) :=
  if bool_decide (a ∈ polled o) then
    c ← deref o a;
    '(c, _, reqs, op) ← read_cb c k1 k2 stale acc s;
    Ret (apply_reqs a (store o a c) reqs, op)
  else Ret (o, None).

(** * References *)

Definition holds (a : positive) (t : thread) : nat := if decide (t_ch t = Some a) then 1 else 0.
Definition held (a : positive) (ts : list thread) : nat := sum_list_with (holds a) ts.

(** Some thread on [a] is inside [send] with its buffer; is taking the callbacks away. *)
Definition sending (a : positive) (ts : list thread) : Prop :=
  exists t, t ∈ ts /\ t_ch t = Some a /\ (t_phase t = Sending \/ t_phase t = Removing).
Definition removing (a : positive) (ts : list thread) : Prop :=
  exists t, t ∈ ts /\ t_ch t = Some a /\ t_phase t = Removing.

(** [e a] is the number of references to [a] that are not held by threads, and [root a] says
    that [a] is where it is until it is dead. *)
Record oinv (root : positive -> Prop) (e : positive -> nat) (o : objs) : Prop := OInv {
  i_count : forall a c, heap o !! a = Some c ->
    refno_ c = Z.of_nat (e a + held a (threads o)) /\ (0 < e a + held a (threads o))%nat;
  i_live : forall a, (0 < e a + held a (threads o))%nat -> is_Some (heap o !! a);
  i_next : forall a, is_Some (heap o !! a) -> (a < next o)%positive;
  i_root : forall a c, heap o !! a = Some c -> dead_ c = false -> root a;
  i_refs : forall a, root a -> (0 < e a)%nat;
  i_poll : forall a, a ∈ polled o -> exists c, heap o !! a = Some c /\
    (dead_ c = true -> removing a (threads o));
  i_buf : forall a c, heap o !! a = Some c -> buf (wpdu_ c) <> None -> sending a (threads o)
}.

Lemma held_elem a ts t : t ∈ ts -> t_ch t = Some a -> (0 < held a ts)%nat.
Proof.
  intros Hin Ht. apply list_elem_of_lookup in Hin as [i Hi].
  pose proof (sum_list_delete (holds a) ts i t Hi) as Hd. unfold held.
  unfold holds at 2 in Hd. rewrite decide_True in Hd by done. lia.
Qed.
Lemma removing_sending a ts : removing a ts -> sending a ts.
Proof. intros (t & ? & ? & ?). exists t. eauto. Qed.
Lemma sending_held a ts : sending a ts -> (0 < held a ts)%nat.
Proof. intros (t & ? & ? & _). by eapply held_elem. Qed.

(** Threads are replaced: those inside [send] stay, but for ones on [x]. *)
Definition keeps_but (x : option positive) (ts ts' : list thread) : Prop :=
  forall t a, t ∈ ts -> t_ch t = Some a -> Some a <> x ->
    (t_phase t = Sending \/ t_phase t = Removing) -> t ∈ ts'.
Lemma keeps_sending x ts ts' a :
  keeps_but x ts ts' -> Some a <> x -> sending a ts -> sending a ts'.
Proof. intros Hk Hx (t & Ht & Ha & Hp). exists t. split; [by eapply Hk|done]. Qed.
Lemma keeps_removing x ts ts' a :
  keeps_but x ts ts' -> Some a <> x -> removing a ts -> removing a ts'.
Proof. intros Hk Hx (t & Ht & Ha & Hp). exists t. split; [eapply Hk; eauto|done]. Qed.
Lemma keeps_refl x ts : keeps_but x ts ts.
Proof. intros t a Ht _ _ _. exact Ht. Qed.
Lemma keeps_insert x ts i t t' :
  ts !! i = Some t -> (t_ch t = x \/ (t_phase t <> Sending /\ t_phase t <> Removing)) ->
  keeps_but x ts (<[i := t']> ts).
Proof.
  intros Hi Hx u a Hu Ha Hne Hp. apply list_elem_of_lookup in Hu as [j Hj].
  destruct (decide (i = j)) as [->|Hij].
  - rewrite Hi in Hj. injection Hj as <-. destruct Hx as [Hx|[? ?]]; [congruence|tauto].
  - apply list_elem_of_lookup. exists j. by rewrite list_lookup_insert_ne.
Qed.
Lemma keeps_delete x ts i t :
  ts !! i = Some t -> t_phase t <> Sending /\ t_phase t <> Removing ->
  keeps_but x ts (delete i ts).
Proof.
  intros Hi Hx u a Hu Ha Hne Hp. rewrite (delete_Permutation ts i t Hi) in Hu.
  apply elem_of_cons in Hu as [->|Hu]; [tauto|done].
Qed.
Lemma keeps_app x ts t : keeps_but x ts (ts ++ [t]).
Proof. intros u a Hu _ _ _. apply elem_of_app. by left. Qed.

Lemma held_insert a ts i t t' :
  ts !! i = Some t -> (held a (<[i := t']> ts) + holds a t = held a ts + holds a t')%nat.
Proof. apply sum_list_insert. Qed.
Lemma held_delete a ts i t :
  ts !! i = Some t -> (held a (delete i ts) + holds a t = held a ts)%nat.
Proof. apply sum_list_delete. Qed.
Lemma held_app a ts t : held a (ts ++ [t]) = (held a ts + holds a t)%nat.
Proof. unfold held. rewrite sum_list_with_app. simpl. lia. Qed.

Section changes.
  Context {root root' : positive -> Prop} {e e' : positive -> nat}.
  Context (o : objs) (ts' : list thread) (p' : gset positive) (a : positive).

(** Only what concerns [a] changes. *)
Record frame_but : Prop := FrameBut {
  f_refs : forall b, b <> a -> (e' b + held b ts' = e b + held b (threads o))%nat;
  f_keeps : keeps_but (Some a) (threads o) ts';
  f_polled : forall b, b <> a -> b ∈ p' -> b ∈ polled o;
  f_root : forall b, b <> a -> root b -> root' b;
  f_root_refs : forall b, root' b -> (0 < e' b)%nat }.

(** The connection is updated in place. *)
Lemma oinv_store c c' :
  oinv root e o -> heap o !! a = Some c -> frame_but ->
  refno_ c' = Z.of_nat (e' a + held a ts') -> (0 < e' a + held a ts')%nat ->
  (dead_ c' = false -> root' a) ->
  (a ∈ p' -> dead_ c' = true -> removing a ts') ->
  (buf (wpdu_ c') <> None -> sending a ts') ->
  oinv root' e' (Objs (<[a := c']> (heap o)) p' (next o) ts').
Proof using Type.
  intros [Ic Il In Ir If Ip Ib] Ha [Fr Fk Fp Fo Fq] Hc Hpos Hd Hp Hb. split; simpl.
  - intros b d. destruct (decide (a = b)) as [<-|Hne].
    + rewrite lookup_insert_eq. by intros [= <-].
    + rewrite lookup_insert_ne, Fr by done. apply Ic.
  - intros b. destruct (decide (a = b)) as [<-|Hne]; [by rewrite lookup_insert_eq|].
    rewrite lookup_insert_ne, Fr by done. apply Il.
  - intros b. destruct (decide (a = b)) as [<-|Hne]; [intros _; apply In; by rewrite Ha|].
    rewrite lookup_insert_ne by done. apply In.
  - intros b d. destruct (decide (a = b)) as [<-|Hne].
    + rewrite lookup_insert_eq. by intros [= <-].
    + rewrite lookup_insert_ne by done. intros Hx Hy. apply Fo; [done|]. by eapply Ir.
  - exact Fq.
  - intros b Hb'. destruct (decide (a = b)) as [<-|Hne].
    + rewrite lookup_insert_eq. eauto.
    + rewrite lookup_insert_ne by done. destruct (Ip b) as (d & Hx & Hy); [auto|].
      exists d. split; [done|]. intros Hz. eapply keeps_removing; eauto. congruence.
  - intros b d. destruct (decide (a = b)) as [<-|Hne].
    + rewrite lookup_insert_eq. by intros [= <-].
    + rewrite lookup_insert_ne by done. intros Hx Hy. eapply keeps_sending; eauto. congruence.
Qed.

(** It is deleted. *)
Lemma oinv_free :
  oinv root e o -> frame_but -> (e' a + held a ts' = 0)%nat -> (a ∉ p') ->
  oinv root' e' (Objs (delete a (heap o)) p' (next o) ts').
Proof using Type.
  intros [Ic Il In Ir If Ip Ib] [Fr Fk Fp Fo Fq] Hz Hp.
  assert (forall b d, delete a (heap o) !! b = Some d -> b <> a /\ heap o !! b = Some d) as Hdel.
  { intros b d [? ?]%lookup_delete_Some. done. }
  split; simpl.
  - intros b d [Hne Hb]%Hdel. rewrite Fr by done. by apply Ic.
  - intros b Hb. destruct (decide (b = a)) as [->|Hne]; [lia|].
    rewrite lookup_delete_ne by done. apply Il. by rewrite <- Fr.
  - intros b [d [_ Hb]%Hdel]. apply In. by rewrite Hb.
  - intros b d [Hne Hb]%Hdel Hd. apply Fo; [done|]. by eapply Ir.
  - exact Fq.
  - intros b Hb. assert (b <> a) as Hne by congruence. rewrite lookup_delete_ne by done.
    destruct (Ip b) as (d & Hx & Hy); [auto|].
    exists d. split; [done|]. intros Hw. eapply keeps_removing; eauto. congruence.
  - intros b d [Hne Hb]%Hdel Hbuf. eapply keeps_sending; eauto. congruence.
Qed.
End changes.

(** The common ways to be one: the threads change on [a] alone. *)
Lemma frame_same root e o a : oinv root e o ->
  frame_but (root := root) (root' := root) (e := e) (e' := e) o (threads o) (polled o) a.
Proof. intros I. split; auto using keeps_refl. apply (i_refs _ _ _ I). Qed.

Lemma holds_ne a b t : t_ch t = Some a -> b <> a -> holds b t = 0%nat.
Proof. intros Ht Hne. unfold holds. rewrite decide_False by congruence. done. Qed.
Lemma holds_eq a t : t_ch t = Some a -> holds a t = 1%nat.
Proof. intros Ht. unfold holds. by rewrite decide_True. Qed.
Lemma holds_none b t : t_ch t = None -> holds b t = 0%nat.
Proof. intros Ht. unfold holds. by rewrite decide_False by congruence. Qed.

(** A reference is given up: by a thread, or one of the others.  A connection that may still
    be the root of something keeps a reference. *)
Lemma oinv_decref root root' e e' o ts' a :
  oinv root e o -> is_Some (heap o !! a) ->
  frame_but (root := root) (root' := root') (e := e) (e' := e') o ts' (polled o) a ->
  keeps_but None (threads o) ts' ->
  S (e' a + held a ts') = (e a + held a (threads o))%nat ->
  (forall c, heap o !! a = Some c -> dead_ c = false -> root' a) ->
  exists o', o_decref (set_threads o ts') a = Ret o' /\ oinv root' e' o' /\ threads o' = ts' /\
    next o' = next o /\ (forall b, is_Some (heap o' !! b) -> is_Some (heap o !! b)) /\
    (forall b, b <> a -> heap o' !! b = heap o !! b) /\
    (forall c', heap o' !! a = Some c' -> exists c, heap o !! a = Some c /\ fd_ c' = fd_ c /\ dead_ c' = dead_ c).
Proof.
  intros I [c Ha] F K Hr Hroot. pose proof (i_count _ _ _ I a c Ha) as [Hc Hpos].
  unfold o_decref, deref. simpl. rewrite Ha. simpl. unfold decref. simpl.
  rewrite (proj2 (Z.leb_le 0 _)) by lia. simpl.
  destruct ((refno_ c - 1 =? 0) && dead_ c) eqn:Hz.
  - apply andb_true_iff in Hz as [Hz Hd]. apply Z.eqb_eq in Hz.
    assert ((e' a + held a ts' = 0)%nat) as H0 by lia.
    assert (~ sending a ts') as Hns by (intros ?%sending_held; lia).
    assert (buf (wpdu_ c) = None) as Hb.
    { destruct (buf (wpdu_ c)) eqn:Hb; [|done]. exfalso. apply Hns.
      eapply keeps_sending; [exact K|done|]. apply (i_buf _ _ _ I a c Ha). by rewrite Hb. }
    assert (a ∉ polled o) as Hnp.
    { intros Hin. destruct (i_poll _ _ _ I a Hin) as (d & Hda & Hrem). rewrite Ha in Hda.
      injection Hda as <-. apply Hns, removing_sending. eapply keeps_removing; [exact K|done|auto]. }
    unfold connection_delete. simpl. rewrite Hd, Hb. simpl.
    eexists. split; [done|]. split; [by eapply (oinv_free (e := e) (root := root) o ts' (polled o) a)|].
    split; [done|]. split; [done|]. simpl. split; [|split].
    + intros b [d [_ ?]%lookup_delete_Some]. by rewrite H.
    + intros b Hne. by rewrite lookup_delete_ne.
    + intros c'. by rewrite lookup_delete_eq.
  - assert ((0 < e' a + held a ts')%nat) as H0.
    { destruct (dead_ c) eqn:Hd.
      - rewrite andb_true_r in Hz. apply Z.eqb_neq in Hz. lia.
      - pose proof (f_root_refs _ _ _ _ F a (Hroot c Ha Hd)). lia. }
    eexists. split; [done|]. split.
    { eapply (oinv_store (e := e) (root := root) o ts' (polled o) a c); eauto; simpl.
      - lia.
      - intros Hin Hd. destruct (i_poll _ _ _ I a Hin) as (d & Hda & Hrem). rewrite Ha in Hda.
        injection Hda as <-. eapply keeps_removing; [exact K|done|auto].
      - intros Hb. eapply keeps_sending; [exact K|done|]. by apply (i_buf _ _ _ I a c Ha). }
    split; [done|]. split; [done|]. simpl. split; [|split].
    + intros b. destruct (decide (a = b)) as [<-|Hne]; [by rewrite Ha|]. by rewrite lookup_insert_ne.
    + intros b Hne. by rewrite lookup_insert_ne.
    + intros c'. rewrite lookup_insert_eq. intros [= <-]. eauto.
Qed.

(** A reference is taken. *)
Lemma oinv_incref root root' e e' o ts' a :
  oinv root e o -> is_Some (heap o !! a) ->
  frame_but (root := root) (root' := root') (e := e) (e' := e') o ts' (polled o) a ->
  keeps_but None (threads o) ts' ->
  (e' a + held a ts')%nat = S (e a + held a (threads o)) ->
  (root a -> root' a) ->
  exists o', o_incref (set_threads o ts') a = Ret o' /\ oinv root' e' o' /\ threads o' = ts' /\
    (forall b, is_Some (heap o' !! b) <-> is_Some (heap o !! b)).
Proof.
  intros I [c Ha] F K Hr Hroot. pose proof (i_count _ _ _ I a c Ha) as [Hc Hpos].
  unfold o_incref, deref. simpl. rewrite Ha. simpl. eexists. split; [done|]. split.
  { eapply (oinv_store (e := e) (root := root) o ts' (polled o) a c); eauto; simpl.
    - lia.
    - lia.
    - intros Hd. apply Hroot. by apply (i_root _ _ _ I a c).
    - intros Hin Hd. destruct (i_poll _ _ _ I a Hin) as (d & Hda & Hrem). rewrite Ha in Hda.
      injection Hda as <-. eapply keeps_removing; [exact K|done|auto].
    - intros Hb. eapply keeps_sending; [exact K|done|]. by apply (i_buf _ _ _ I a c Ha). }
  split; [done|]. intros b. simpl. destruct (decide (a = b)) as [<-|Hne].
  - by rewrite lookup_insert_eq, Ha.
  - by rewrite lookup_insert_ne.
Qed.

(** A new connection, with the one reference of whoever made it. *)
Lemma oinv_new root root' e e' o fd :
  oinv root e o -> e' (next o) = 1%nat -> (forall b, b <> next o -> e' b = e b) ->
  (forall b, b <> next o -> root b -> root' b) -> root' (next o) ->
  (forall b, root' b -> (0 < e' b)%nat) ->
  oinv root' e' (o_new o fd).1 /\ held (next o) (threads o) = 0%nat.
Proof.
  intros I He1 He Hr Hr1 Hrp. pose proof I as [Ic Il In Ir If Ip Ib].
  assert (heap o !! next o = None) as Hn.
  { destruct (heap o !! next o) eqn:E; [|done]. specialize (In (next o) ltac:(by rewrite E)). lia. }
  assert (held (next o) (threads o) = 0%nat /\ e (next o) = 0%nat) as [Hh He0].
  { assert (~ (0 < e (next o) + held (next o) (threads o))%nat); [|lia].
    intros Hx%Il. rewrite Hn in Hx. by destruct Hx. }
  split; [|done]. split; simpl.
  - intros b c. destruct (decide (next o = b)) as [<-|Hne].
    + rewrite lookup_insert_eq. intros [= <-]. simpl. lia.
    + rewrite lookup_insert_ne, He by done. apply Ic.
  - intros b. destruct (decide (next o = b)) as [<-|Hne]; [by rewrite lookup_insert_eq|].
    rewrite lookup_insert_ne, He by done. apply Il.
  - intros b. destruct (decide (next o = b)) as [<-|Hne]; [lia|].
    rewrite lookup_insert_ne by done. intros Hb%In. lia.
  - intros b c. destruct (decide (next o = b)) as [<-|Hne]; [done|].
    rewrite lookup_insert_ne by done. intros Hb Hd. apply Hr; [done|]. by eapply Ir.
  - exact Hrp.
  - intros b [->%elem_of_singleton|Hb]%elem_of_union.
    + rewrite lookup_insert_eq. eexists. split; [done|]. done.
    + destruct (Ip b Hb) as (c & Hc & Hd). assert (next o <> b) by congruence.
      rewrite lookup_insert_ne by done. eauto.
  - intros b c. destruct (decide (next o = b)) as [<-|Hne].
    + rewrite lookup_insert_eq. by intros [= <-].
    + rewrite lookup_insert_ne by done. apply Ib.
Qed.

(** ** What the methods leave alone *)

Lemma writepdu_kept c r c' out ok :
  writepdu c r = Ret (c', out, ok) ->
  refno_ c' = refno_ c /\ fd_ c' = fd_ c /\ dead_ c' = dead_ c /\
  (buf (wpdu_ c') <> None -> buf (wpdu_ c) <> None).
Proof.
  unfold writepdu. intros E. inv_ret. destruct (solong (wpdu_ c) =? sz (wpdu_ c)).
  { by injection E as <- _ _. }
  destruct (buf (wpdu_ c)) eqn:Hb; [|done]. destruct (_ || _); [done|].
  destruct r as [n|[]]; injection E as <- _ _; simpl; done.
Qed.

Lemma write_cb_kept c r c' out reqs sig :
  write_cb c r = Ret (c', out, reqs, sig) ->
  refno_ c' = refno_ c /\ fd_ c' = fd_ c /\ (buf (wpdu_ c') <> None -> buf (wpdu_ c) <> None) /\
  ((dead_ c' = dead_ c /\ (reqs = [] \/ reqs = [DelCallback CB_WRONLY])) \/
   (dead_ c' = true /\ reqs = [DelCallback CB_RDWR])).
Proof.
  unfold write_cb. intros E. inv_ret. destruct (sz (wpdu_ c) =? 0).
  { injection E as <- _ <- _. repeat split; auto. }
  apply bind_ret_inv in E as ([[c1 o1] ok] & Hw & E). apply writepdu_kept in Hw as (? & ? & ? & ?).
  destruct ok; simpl in E.
  - inv_ret. destruct (_ <? _); injection E as <- _ <- _; do 3 (split; [done|]); auto.
  - injection E as <- _ <- _. do 3 (split; [done|]). by right.
Qed.

Lemma hand_over_kept c acc :
  refno_ (hand_over c acc).1 = refno_ c /\ fd_ (hand_over c acc).1 = fd_ c /\
  wpdu_ (hand_over c acc).1 = wpdu_ c /\ dead_ (hand_over c acc).1 = dead_ c.
Proof. unfold hand_over. destruct (complete_pdu c); [|done]. by destruct acc. Qed.

Lemma readpdu_kept `{Memory} c k1 k2 stale s c' s' ok :
  readpdu c k1 k2 stale s = Ret (c', s', ok) ->
  refno_ c' = refno_ c /\ fd_ c' = fd_ c /\ wpdu_ c' = wpdu_ c /\ dead_ c' = dead_ c.
Proof.
  assert (forall c s c' s' ok, read_body c k2 stale s = Ret (c', s', ok) ->
    refno_ c' = refno_ c /\ fd_ c' = fd_ c /\ wpdu_ c' = wpdu_ c /\ dead_ c' = dead_ c) as Hbody.
  { clear. intros c s c' s' ok E. unfold read_body in E.
    destruct (sys_read _ _ s) as [r s1]. destruct r as [[|x l]|[]].
    - by destruct stale; injection E as <- _ _.
    - destruct (buf (rpdu_ c)); [|done]. destruct (_ <? _); [done|]. by injection E as <- _ _.
    - by injection E as <- _ _.
    - by injection E as <- _ _. }
  unfold readpdu. intros E. destruct (sz (rpdu_ c) =? 0); [|by eapply Hbody].
  apply bind_ret_inv in E as ([oc s1] & Hs & E). destruct oc as [c1|]; [|by injection E as <- _ _].
  apply Hbody in E as (-> & -> & -> & ->). unfold read_size in Hs.
  destruct (sys_read k1 4 s) as [r s2]. destruct r as [l|ea]; [|inv_ret; done].
  destruct (negb _); [done|]. destruct (_ <? _); [done|]. inv_ret.
  destruct (_ <? 4); [done|]. by injection Hs as <- _.
Qed.

Lemma read_cb_kept `{Memory} c k1 k2 stale acc s c' s' reqs op :
  read_cb c k1 k2 stale acc s = Ret (c', s', reqs, op) ->
  refno_ c' = refno_ c /\ fd_ c' = fd_ c /\ wpdu_ c' = wpdu_ c /\
  ((dead_ c' = dead_ c /\ reqs = []) \/ (dead_ c' = true /\ reqs = [DelCallback CB_RDWR])).
Proof.
  unfold read_cb. intros E. destruct (dead_ c) eqn:Hd; [injection E as <- _ <- _; eauto 8|].
  apply bind_ret_inv in E as ([[c1 s1] ok] & Hr & E).
  assert (refno_ c1 = refno_ c /\ fd_ c1 = fd_ c /\ wpdu_ c1 = wpdu_ c /\ dead_ c1 = dead_ c)
    as (H1 & H2 & H3 & H4).
  { destruct (match buf (rpdu_ c) with None => _ | Some _ => _ end).
    - by eapply readpdu_kept.
    - by injection Hr as <- _ _. }
  destruct ok; simpl in E.
  - pose proof (hand_over_kept c1 acc) as Hh. destruct (hand_over c1 acc) as [c2 op2].
    injection E as <- _ <- _. simpl in Hh. destruct Hh as (? & ? & ? & ?).
    do 3 (split; [congruence|]). left. split; congruence.
  - pose proof (hand_over_kept (set_dead c1) acc) as Hh.
    destruct (hand_over (set_dead c1) acc) as [c2 op2].
    injection E as <- _ <- _. simpl in Hh. destruct Hh as (? & ? & ? & ?).
    do 3 (split; [congruence|]). by right.
Qed.

Lemma send_start_kept c b r :
  sendable b -> exists c' out reqs st,
    send_start c b (Z.of_nat (length b)) r = Ret (c', out, reqs, st) /\
    refno_ c' = refno_ c /\ fd_ c' = fd_ c /\
    match st with
    | SendReturned _ => dead_ c' = dead_ c /\ reqs = [] /\
        (buf (wpdu_ c') <> None -> buf (wpdu_ c) <> None)
    | SendFailed => dead_ c' = true /\ reqs = [BlockRemoveFd]
    | SendWaiting => dead_ c' = false /\ dead_ c = false /\ reqs = [AddCallback CB_WRONLY]
    end.
Proof.
  intros Hs. unfold send_start. simpl. destruct (dead_ c) eqn:Hd.
  { eexists _, _, _, _. split; [done|]. simpl. done. }
  destruct (writepdu_ok (set_wpdu (set_waiters c (waiters_ c - 1))
      (Charbuf (Some b) (Z.of_nat (length b)) 0)) b b 0 r)
    as (c' & out & ok & E & Hd' & _); [done|done|lia|by right|].
  rewrite E. cbn [mbind outcome_bind]. apply writepdu_kept in E as (Hr & Hf & _ & _).
  simpl in *. destruct ok; simpl.
  - destruct (_ =? _); eexists _, _, _, _; (split; [reflexivity|]); simpl; repeat split; try congruence.
  - eexists _, _, _, _. split; [reflexivity|]. simpl. done.
Qed.

(** ** What [send] and the callbacks do to the references: nothing *)

Definition tag (t : thread) : option positive * Z := (t_ch t, t_clt t).
Definition calm (o o' : objs) : Prop :=
  map tag (threads o') = map tag (threads o) /\
  forall a, fd_ <$> heap o' !! a = fd_ <$> heap o !! a.

Lemma calm_refl o : calm o o.
Proof. done. Qed.
Lemma calm_store o a c c' p ts :
  heap o !! a = Some c -> fd_ c' = fd_ c -> map tag ts = map tag (threads o) ->
  calm o (Objs (<[a := c']> (heap o)) p (next o) ts).
Proof.
  intros Ha Hf Ht. split; [done|]. intros b. simpl. destruct (decide (a = b)) as [<-|Hne].
  - rewrite lookup_insert_eq, Ha. simpl. by rewrite Hf.
  - by rewrite lookup_insert_ne.
Qed.
Lemma map_tag_insert ts i t t' : ts !! i = Some t -> tag t' = tag t -> map tag (<[i := t']> ts) = map tag ts.
Proof.
  intros Hi Ht. change (tag <$> <[i := t']> ts = tag <$> ts). rewrite list_fmap_insert, Ht.
  apply list_insert_id. by rewrite list_lookup_fmap, Hi.
Qed.

Section quiet_steps.
  Context {root : positive -> Prop} {e : positive -> nat} (o : objs) (I : oinv root e o).

(** A thread that moves on in [send]. *)
Lemma frame_phase i a ph ph' n p' :
  threads o !! i = Some (Thread (Some a) ph n) -> (forall b, b <> a -> b ∈ p' -> b ∈ polled o) ->
  frame_but (root := root) (root' := root) (e := e) (e' := e) o
    (<[i := Thread (Some a) ph' n]> (threads o)) p' a.
Proof using I.
  intros Hi Hp. split; auto.
  - intros b _. pose proof (held_insert b _ _ _ (Thread (Some a) ph' n) Hi) as Hh.
    unfold holds in Hh. simpl in Hh. lia.
  - eapply keeps_insert; [done|]. by left.
  - apply (i_refs _ _ _ I).
Qed.

Lemma held_phase i a ph ph' n b :
  threads o !! i = Some (Thread (Some a) ph n) ->
  held b (<[i := Thread (Some a) ph' n]> (threads o)) = held b (threads o).
Proof using Type.
  intros Hi. pose proof (held_insert b _ _ _ (Thread (Some a) ph' n) Hi) as Hh.
  unfold holds in Hh. simpl in Hh. lia.
Qed.

Lemma thread_live i t a : threads o !! i = Some t -> t_ch t = Some a -> exists c, heap o !! a = Some c.
Proof using I.
  intros Hi Ht. apply (i_live _ _ _ I). assert (0 < held a (threads o))%nat; [|lia].
  eapply held_elem; [|done]. by eapply list_elem_of_lookup_2.
Qed.

(** The thread and its connection are updated; the three conditions are what the invariant
    says of the connection. *)
Lemma phase_step i a ph ph' n c c' p' :
  threads o !! i = Some (Thread (Some a) ph n) -> heap o !! a = Some c ->
  refno_ c' = refno_ c -> fd_ c' = fd_ c ->
  (forall b, b <> a -> b ∈ p' -> b ∈ polled o) ->
  (dead_ c' = false -> dead_ c = false) ->
  (a ∈ p' -> dead_ c' = true -> removing a (<[i := Thread (Some a) ph' n]> (threads o))) ->
  (buf (wpdu_ c') <> None -> sending a (<[i := Thread (Some a) ph' n]> (threads o))) ->
  let o' := Objs (<[a := c']> (heap o)) p' (next o) (<[i := Thread (Some a) ph' n]> (threads o)) in
  oinv root e o' /\ calm o o'.
Proof using I.
  intros Hi Ha Hr Hf Hp Hd Hrem Hsend. pose proof (i_count _ _ _ I a c Ha) as [Hc Hpos]. split.
  - eapply (oinv_store (e := e) (root := root) o _ _ a c); eauto using frame_phase.
    + by rewrite Hr, Hc, (held_phase i a ph).
    + by rewrite (held_phase i a ph).
    + intros Hx. apply (i_root _ _ _ I a c); auto.
  - eapply calm_store; [done..|]. by eapply map_tag_insert.
Qed.

Lemma moved_on i a ph ph' n b : threads o !! i = Some (Thread (Some a) ph n) ->
  ph <> Sending -> ph <> Removing ->
  (sending b (threads o) -> sending b (<[i := Thread (Some a) ph' n]> (threads o))) /\
  (removing b (threads o) -> removing b (<[i := Thread (Some a) ph' n]> (threads o))).
Proof using Type.
  intros Hi H1 H2. assert (keeps_but None (threads o) (<[i := Thread (Some a) ph' n]> (threads o)))
    by (eapply keeps_insert; [done|by right]).
  split; [eapply keeps_sending|eapply keeps_removing]; done.
Qed.

Lemma thr_enter_ok i : exists o', thr_enter o i = Ret o' /\ oinv root e o' /\ calm o o'.
Proof using I.
  unfold thr_enter. destruct (threads o !! i) as [[[a|] [] n]|] eqn:Hi; eauto using calm_refl.
  destruct (thread_live i _ a Hi eq_refl) as [c Ha]. unfold deref. rewrite Ha. simpl.
  eexists. split; [done|]. destruct (moved_on i a Outside Entered n a Hi) as [Hs Hr]; [done..|].
  eapply phase_step; eauto; simpl.
  - intros Hin Hd. apply Hr. destruct (i_poll _ _ _ I a Hin) as (d & Hda & Hrem). apply Hrem. congruence.
  - intros Hb. apply Hs. by apply (i_buf _ _ _ I a c).
Qed.

Lemma thr_start_ok i b r : sendable b ->
  exists o', thr_start o i b r = Ret o' /\ oinv root e o' /\ calm o o'.
Proof using I.
  intros Hsb. unfold thr_start. destruct (threads o !! i) as [[[a|] [] n]|] eqn:Hi; eauto using calm_refl.
  destruct (thread_live i _ a Hi eq_refl) as [c Ha]. unfold deref. rewrite Ha. simpl.
  destruct (send_blocked c) eqn:Hbl; [eauto using calm_refl|].
  destruct (send_start_kept c b r Hsb) as (c' & out & reqs & st & E & Hrf & Hfd & Hst).
  rewrite E. simpl. eexists. split; [done|].
  destruct (moved_on i a Entered (phase_after st) n a Hi) as [Hs Hr]; [done..|].
  assert (In' : Thread (Some a) (phase_after st) n ∈ <[i := Thread (Some a) (phase_after st) n]> (threads o)).
  { eapply list_elem_of_lookup_2. apply list_lookup_insert_eq. by eapply lookup_lt_Some. }
  destruct st as [ret| |]; simpl in *.
  - destruct Hst as (Hd & -> & Hb). eapply phase_step; eauto; simpl.
    + intros Hin Hdd. apply Hr. destruct (i_poll _ _ _ I a Hin) as (d & Hda & Hrem). apply Hrem. congruence.
    + intros Hx. apply Hs. apply (i_buf _ _ _ I a c); auto.
  - destruct Hst as (Hd & ->). eapply phase_step; eauto; simpl; [congruence|..].
    + intros _ _. eexists. split; [exact In'|done].
    + intros _. eexists. split; [exact In'|]. simpl. auto.
  - destruct Hst as (Hd & Hd' & ->). eapply phase_step; eauto; simpl; [set_solver|congruence|..].
    intros _. eexists. split; [exact In'|]. simpl. auto.
Qed.

Lemma thr_finish_ok i : exists o', thr_finish o i = Ret o' /\ oinv root e o' /\ calm o o'.
Proof using I.
  unfold thr_finish. destruct (threads o !! i) as [[[a|] [] n]|] eqn:Hi; eauto using calm_refl.
  - destruct (thread_live i _ a Hi eq_refl) as [c Ha]. unfold deref. rewrite Ha. simpl.
    destruct (send_incomplete c) eqn:Hin; [eauto using calm_refl|].
    eexists. split; [done|]. eapply phase_step; eauto; simpl; [|done].
    intros Hp Hd. destruct (i_poll _ _ _ I a Hp) as (d & Hda & Hrem). rewrite Ha in Hda.
    injection Hda as <-. destruct (Hrem Hd) as (t & Ht & Htc & Htp). exists t. split; [|done].
    apply list_elem_of_lookup in Ht as [j Hj]. apply list_elem_of_lookup. exists j.
    rewrite list_lookup_insert_ne; [done|]. intros <-. rewrite Hi in Hj. by injection Hj as <-.
  - destruct (thread_live i _ a Hi eq_refl) as [c Ha]. unfold deref. rewrite Ha. simpl.
    eexists. split; [done|]. eapply phase_step; eauto; simpl; [set_solver..|done].
Qed.

(** A callback, or [closeconn]: no thread moves. *)
Lemma poll_step_ok a c c' p' :
  heap o !! a = Some c -> refno_ c' = refno_ c -> fd_ c' = fd_ c ->
  (buf (wpdu_ c') <> None -> buf (wpdu_ c) <> None) -> p' ⊆ polled o ->
  (dead_ c' = dead_ c \/ dead_ c' = true /\ a ∉ p') ->
  let o' := Objs (<[a := c']> (heap o)) p' (next o) (threads o) in oinv root e o' /\ calm o o'.
Proof using I.
  intros Ha Hr Hf Hb Hp Hd. pose proof (i_count _ _ _ I a c Ha) as [Hc Hpos]. split.
  - eapply (oinv_store (e := e) (root := root) o _ _ a c); eauto; simpl.
    + split; auto using keeps_refl. apply (i_refs _ _ _ I).
    + congruence.
    + intros Hx. apply (i_root _ _ _ I a c); [done|]. destruct Hd as [?|[? _]]; congruence.
    + intros Hin Hdd. destruct Hd as [Hd|[_ Hd]]; [|done].
      destruct (i_poll _ _ _ I a (Hp a Hin)) as (d & Hda & Hrem). apply Hrem. congruence.
    + intros Hx. apply (i_buf _ _ _ I a c); auto.
  - by eapply calm_store.
Qed.

Lemma cb_write_ok a r o' : cb_write o a r = Ret o' -> oinv root e o' /\ calm o o'.
Proof using I.
  unfold cb_write. case_bool_decide as Hp; [|intros [= <-]; auto using calm_refl].
  unfold deref. destruct (heap o !! a) as [c|] eqn:Ha; [|done]. simpl. intros E.
  apply bind_ret_inv in E as ([[[c' out] reqs] sg] & Hw & [= <-]).
  apply write_cb_kept in Hw as (? & ? & ? & [[? [->| ->]]|[? ->]]); simpl;
    eapply poll_step_ok; eauto; set_solver.
Qed.

Lemma cb_read_ok `{Memory} a k1 k2 stale acc s o' op :
  cb_read o a k1 k2 stale acc s = Ret (o', op) -> oinv root e o' /\ calm o o' /\ (op <> None -> a ∈ polled o).
Proof using I.
  unfold cb_read. case_bool_decide as Hp; [|intros [= <- <-]; split_and!; auto using calm_refl; done].
  unfold deref. destruct (heap o !! a) as [c|] eqn:Ha; [|done]. simpl. intros E.
  apply bind_ret_inv in E as ([[[c' s'] reqs] op'] & Hw & [= <- <-]).
  enough (oinv root e (apply_reqs a (store o a c') reqs) /\ calm o (apply_reqs a (store o a c') reqs)) by tauto.
  apply read_cb_kept in Hw as (? & ? & Hwp & [[? ->]|[? ->]]); simpl;
    eapply poll_step_ok; eauto; rewrite ?Hwp; set_solver.
Qed.

Lemma closeconn_ok a : is_Some (heap o !! a) ->
  exists o', o_closeconn o a = Ret o' /\ oinv root e o' /\ calm o o' /\ threads o' = threads o /\
    (forall c, heap o' !! a = Some c -> dead_ c = true) /\
    (forall b, b <> a -> heap o' !! b = heap o !! b).
Proof using I.
  intros [c Ha]. unfold o_closeconn, deref. rewrite Ha. simpl. unfold closeconn.
  destruct (dead_ c) eqn:Hd; eexists; (split; [done|]);
    match goal with |- ?A /\ ?B /\ ?C => enough ((A /\ B) /\ C) by tauto end; split.
  - eapply poll_step_ok; eauto.
  - split; [done|]. split; [intros c'|intros b Hne]; simpl; rewrite ?lookup_insert_eq, ?lookup_insert_ne by done; congruence.
  - eapply poll_step_ok; eauto; simpl; set_solver.
  - split; [done|]. split; [intros c'|intros b Hne]; simpl; rewrite ?lookup_insert_ne by done; [|done].
    rewrite lookup_insert_eq. by intros [= <-].
Qed.
End quiet_steps.

(** ** Threads that take and give up references *)

Lemma set_threads_id o : set_threads o (threads o) = o.
Proof. by destruct o. Qed.
Lemma o_decref_set o ts a o' :
  o_decref (set_threads o ts) a = Ret o' -> o_decref o a = Ret (set_threads o' (threads o)).
Proof.
  unfold o_decref, deref. simpl. destruct (heap o !! a) as [c|]; [|done]. simpl.
  destruct (decref c) as [[c'|]|]; simpl; [by intros [= <-]..|done].
Qed.
Lemma o_incref_set o ts a o' :
  o_incref (set_threads o ts) a = Ret o' -> o_incref o a = Ret (set_threads o' (threads o)).
Proof.
  unfold o_incref, deref. simpl. destruct (heap o !! a) as [c|]; [|done]. by intros [= <-].
Qed.

Definition at_rest (t : thread) : Prop := t_phase t <> Sending /\ t_phase t <> Removing.

Lemma frame_thread root e o i t t' a :
  oinv root e o -> threads o !! i = Some t -> at_rest t ->
  (forall b, b <> a -> holds b t' = holds b t) ->
  frame_but (root := root) (root' := root) (e := e) (e' := e) o (<[i := t']> (threads o)) (polled o) a /\
  keeps_but None (threads o) (<[i := t']> (threads o)).
Proof.
  intros I Hi Hr Hh. assert (forall x, keeps_but x (threads o) (<[i := t']> (threads o))) as K.
  { intros x. eapply keeps_insert; [done|by right]. }
  split; [|done]. split; auto; [|apply (i_refs _ _ _ I)].
  intros b Hb. pose proof (held_insert b _ _ _ t' Hi). rewrite Hh in * by done. lia.
Qed.

(** What is on the heap was there, with the same descriptor. *)
Definition fds_sub (o o' : objs) : Prop :=
  forall b c, heap o' !! b = Some c -> exists d, heap o !! b = Some d /\ fd_ c = fd_ d.
Lemma fds_sub_refl o : fds_sub o o.
Proof. intros b c Hb. eauto. Qed.
Lemma fds_sub_trans o1 o2 o3 : fds_sub o1 o2 -> fds_sub o2 o3 -> fds_sub o1 o3.
Proof.
  intros H1 H2 b c Hb. destruct (H2 b c Hb) as (d & Hd & Hf). destruct (H1 b d Hd) as (d' & ? & ?).
  exists d'. split; congruence.
Qed.
Lemma fds_sub_eq o o' : (forall b, fd_ <$> heap o' !! b = fd_ <$> heap o !! b) -> fds_sub o o'.
Proof.
  intros H b c Hb. specialize (H b). rewrite Hb in H. destruct (heap o !! b) as [d|]; [|done].
  injection H as H. eauto.
Qed.

(** Threads come, go or are retagged, and references change hands between them and the others. *)
Lemma oinv_threads root e e' o ts' :
  oinv root e o -> (forall b, (e' b + held b ts' = e b + held b (threads o))%nat) ->
  keeps_but None (threads o) ts' -> (forall b, root b -> (0 < e' b)%nat) ->
  oinv root e' (set_threads o ts').
Proof.
  intros [Ic Il In Ir If Ip Ib] Hh K Hr. split; simpl; try done.
  - intros b c. rewrite Hh. apply Ic.
  - intros b. rewrite Hh. apply Il.
  - intros b Hb. destruct (Ip b Hb) as (c & Hc & Hd). exists c. split; [done|]. intros Hx.
    eapply keeps_removing; eauto.
  - intros b c Hb Hx. eapply keeps_sending; eauto.
Qed.
Lemma oinv_ext root root' e e' o :
  oinv root e o -> (forall a, root a <-> root' a) -> (forall a, e' a = e a) -> oinv root' e' o.
Proof.
  intros [Ic Il In Ir If Ip Ib] Hr He. split; try done.
  - intros a c. rewrite He. apply Ic.
  - intros a. rewrite He. apply Il.
  - intros a c Ha Hd. rewrite <- Hr. by eapply Ir.
  - intros a. rewrite <- Hr, He. apply If.
Qed.

(** A thread drops its reference, and is left with none. *)
Lemma thread_drops root e o i a n :
  oinv root e o -> threads o !! i = Some (Thread (Some a) Outside n) ->
  exists o', o_decref o a = Ret o' /\ threads o' = threads o /\ next o' = next o /\
    fds_sub o o' /\
    oinv root e (set_threads o' (<[i := Thread None Outside n]> (threads o))).
Proof.
  intros I Hi. destruct (thread_live o I i _ a Hi eq_refl) as [c Ha].
  destruct (frame_thread root e o i _ (Thread None Outside n) a I Hi) as [F K]; [by split| |].
  { intros b Hb. by rewrite (holds_ne a b (Thread (Some a) _ _) eq_refl Hb). }
  destruct (oinv_decref root root e e o _ a I ltac:(by rewrite Ha) F K) as (o' & E & I' & Ht & Hn & _ & Hne & Heq).
  - pose proof (held_insert a _ _ _ (Thread None Outside n) Hi) as Hh.
    rewrite (holds_eq a (Thread (Some a) Outside n) eq_refl) in Hh. change (holds a (Thread None Outside n)) with 0%nat in Hh. lia.
  - intros d. rewrite Ha. intros [= <-]. by apply (i_root _ _ _ I).
  - apply o_decref_set in E. eexists. split; [exact E|]. split; [done|]. split; [done|]. simpl. split.
    + intros b d Hd. destruct (decide (b = a)) as [->|Hb].
      * destruct (Heq d Hd) as (d' & ? & ? & _). eauto.
      * rewrite Hne in Hd by done. eauto.
    + replace (set_threads _ _) with o'; [done|]. destruct o'; simpl in *; by subst.
Qed.

(** A thread without a reference takes one of a connection that is there. *)
Lemma thread_takes root e o i a n :
  oinv root e o -> threads o !! i = Some (Thread None Outside n) -> is_Some (heap o !! a) ->
  exists o', o_incref o a = Ret o' /\ threads o' = threads o /\ next o' = next o /\
    (forall b, fd_ <$> heap o' !! b = fd_ <$> heap o !! b) /\
    oinv root e (set_threads o' (<[i := Thread (Some a) Outside n]> (threads o))).
Proof.
  intros I Hi Ha.
  destruct (frame_thread root e o i _ (Thread (Some a) Outside n) a I Hi) as [F K]; [by split| |].
  { intros b Hb. by rewrite (holds_ne a b (Thread (Some a) _ _) eq_refl Hb). }
  destruct (oinv_incref root root e e o _ a I Ha F K) as (o' & E & I' & Ht & _).
  - pose proof (held_insert a _ _ _ (Thread (Some a) Outside n) Hi) as Hh.
    rewrite (holds_eq a (Thread (Some a) Outside n) eq_refl) in Hh. change (holds a (Thread None Outside n)) with 0%nat in Hh. lia.
  - done.
  - pose proof (o_incref_set _ _ _ _ E) as E'. eexists. split; [exact E'|]. split; [done|].
    unfold o_incref, deref in E. simpl in E. destruct Ha as [c Ha]. rewrite Ha in E. injection E as <-.
    split; [done|]. split; [|exact I']. intros b. simpl. destruct (decide (a = b)) as [<-|Hb].
    + by rewrite lookup_insert_eq, Ha.
    + by rewrite lookup_insert_ne.
Qed.

(** It changes its reference for one of a connection with another owner. *)
Lemma thread_switches root e o i ch a n :
  oinv root e o -> threads o !! i = Some (Thread ch Outside n) -> (0 < e a)%nat ->
  exists o1 o2, (match ch with Some b => o_decref o b | None => Ret o end) = Ret o1 /\
    o_incref o1 a = Ret o2 /\ threads o2 = threads o /\ fds_sub o o2 /\
    oinv root e (set_threads o2 (<[i := Thread (Some a) Outside n]> (threads o))).
Proof.
  intros I Hi He.
  assert (forall o, oinv root e o -> threads o !! i = Some (Thread None Outside n) ->
    exists o', o_incref o a = Ret o' /\ threads o' = threads o /\ fds_sub o o' /\
      oinv root e (set_threads o' (<[i := Thread (Some a) Outside n]> (threads o)))) as Htake.
  { clear -He. intros o I Hi. assert (is_Some (heap o !! a)) as Ha by (apply (i_live _ _ _ I); lia).
    destruct (thread_takes _ _ o i a n I Hi Ha) as (o' & ? & ? & _ & Hfd & ?).
    eauto 8 using fds_sub_eq. }
  destruct ch as [b|].
  - destruct (thread_drops _ _ o i b n I Hi) as (o1 & E1 & Ht1 & _ & Hs1 & I2).
    destruct (Htake _ I2) as (o2 & E2 & Ht2 & Hs2 & I3).
    { simpl. apply list_lookup_insert_eq. by eapply lookup_lt_Some. }
    apply o_incref_set in E2. eexists _, _. split; [done|]. split; [exact E2|].
    simpl in *. rewrite list_insert_insert_eq in I3. split; [done|]. split; [|done].
    eapply fds_sub_trans; [exact Hs1|exact Hs2].
  - destruct (Htake o I Hi) as (o2 & ? & ? & ? & ?). eauto 8.
Qed.

Lemma delete_inserted {A} (l : list A) i x : delete i (<[i := x]> l) = delete i l.
Proof. revert i. induction l as [|y l IH]; intros [|i]; simpl; f_equal; auto. Qed.

(** The thread is gone, after a last [decref] if it held something. *)
Definition thr_end (o : objs) (i : nat) : outcome objs :=
  match threads o !! i with
  | Some (Thread ch Outside _) =>
      o ← (match ch with Some a => o_decref o a | None => Ret o end);
      Ret (set_threads o (delete i (threads o)))
  | _ => Ret o
  end.

Lemma thr_end_ok root e o i :
  oinv root e o -> exists o', thr_end o i = Ret o' /\ oinv root e o' /\
    (forall t, t ∈ threads o' -> t ∈ threads o) /\
    fds_sub o o'.
Proof.
  intros I. unfold thr_end. destruct (threads o !! i) as [[ch [] n]|] eqn:Hi; eauto 8 using fds_sub_refl.
  assert (forall o, oinv root e o -> threads o !! i = Some (Thread None Outside n) ->
    oinv root e (set_threads o (delete i (threads o)))) as Hgone.
  { clear. intros o I Hi. apply (oinv_threads root e); [done| |by eapply keeps_delete|apply (i_refs _ _ _ I)].
    intros b. pose proof (held_delete b _ _ _ Hi) as H. rewrite (holds_none b) in H by done. lia. }
  assert (forall t, t ∈ delete i (threads o) -> t ∈ threads o) as Hsub.
  { intros t Ht. rewrite (delete_Permutation _ _ _ Hi). by right. }
  destruct ch as [a|]; simpl.
  - destruct (thread_drops root e o i a n I Hi) as (o1 & E & Ht & _ & Hfd & I1). rewrite E. simpl.
    eexists. split; [done|]. simpl. rewrite Ht. split; [|done].
    specialize (Hgone _ I1). simpl in Hgone. rewrite delete_inserted in Hgone. apply Hgone.
    apply list_lookup_insert_eq. by eapply lookup_lt_Some.
  - eexists. split; [done|]. simpl. split; [auto|]. split; [done|]. by apply fds_sub_eq.
Qed.

(** * The client *)

Record rpcc_conns := RpccConns { co : objs; chan_ : option positive }.
Definition rpcc_conns_new : rpcc_conns := RpccConns objs_new None.

(** [conn]: the descriptor of the socket, if [connect] succeeds. *)
Definition connect_to_dst (o : objs) (conn : option Z) : objs * option positive :=
  match conn with
  | Some fd => let '(o, a) := o_new o fd in (o, Some a)
  | None => (o, None)
  end.

(** [get_refconn], as far as it renews [chan_] ... *)
Definition renew_chan (k : rpcc_conns) (conn : option Z) : outcome (objs * option positive) :=
  match chan_ k with
  | None => Ret (connect_to_dst (co k) conn)
  | Some a =>
      c ← deref (co k) a;
      if isdead c then o ← o_decref (co k) a; Ret (connect_to_dst o conn)
      else Ret (co k, Some a)
  end.
(** ... and all of it, called by thread [i] with its variable [ch]. *)
Definition get_refconn (k : rpcc_conns) (i : nat) (conn : option Z) : outcome rpcc_conns :=
  match threads (co k) !! i with
  | Some (Thread ch Outside n) =>
      '(o, chan) ← renew_chan k conn;
      match chan with
      | None => Ret (RpccConns o None)
      | Some a =>
          o ← (match ch with Some b => o_decref o b | None => Ret o end);
          o ← o_incref o a;
          Ret (RpccConns (set_threads o (<[i := Thread (Some a) Outside n]> (threads o))) (Some a))
      end
  | _ => Ret k
  end.

(** The destructor, which nobody may call while a thread is inside. *)
Definition rpcc_delete (k : rpcc_conns) : outcome rpcc_conns :=
  match chan_ k with
  | None => Ret k
  | Some a => o ← o_closeconn (co k) a; o ← o_decref o a; Ret (RpccConns o None)
  end.

Inductive clt_act :=
| CallBegin                                                   (* call1: ch = NULL *)
| GetRefconn (i : nat) (conn : option Z)
| SendEnter (i : nat)
| SendStart (i : nat) (b : list ascii) (r : write_result)
| SendFinish (i : nat)
| CallEnd (i : nat)                                           (* the end of call1 *)
| WriteCb (a : positive) (r : write_result)
| ReadCb (a : positive) (k1 k2 : nat) (stale : bool) (s : sock)   (* got_pdu takes the PDU *)
| Destroy.

Definition on_objs (k : rpcc_conns) (f : objs -> outcome objs) : outcome rpcc_conns :=
  o ← f (co k); Ret (RpccConns o (chan_ k)).

Definition clt_step `{Memory} (k : rpcc_conns) (act : clt_act) : outcome rpcc_conns :=
  match act with
  | CallBegin => on_objs k (fun o => Ret (set_threads o (threads o ++ [Thread None Outside 0])))
  | GetRefconn i conn => get_refconn k i conn
  | SendEnter i => on_objs k (fun o => thr_enter o i)
  | SendStart i b r =>
      if bool_decide (sendable b) then on_objs k (fun o => thr_start o i b r) else Ret k
  | SendFinish i => on_objs k (fun o => thr_finish o i)
  | CallEnd i => on_objs k (fun o => thr_end o i)
  | WriteCb a r => on_objs k (fun o => cb_write o a r)
  | ReadCb a k1 k2 stale s =>
      on_objs k (fun o => '(o, _) ← cb_read o a k1 k2 stale true s; Ret o)
  | Destroy => match threads (co k) with [] => rpcc_delete k | _ => Ret k end
  end.
Fixpoint clt_run `{Memory} (k : rpcc_conns) (acts : list clt_act) : outcome rpcc_conns :=
  match acts with [] => Ret k | x :: acts => k ← clt_step k x; clt_run k acts end.

(** What a thread of the program does, as against the poll thread. *)
Definition by_thread (act : clt_act) : bool :=
  match act with WriteCb _ _ | ReadCb _ _ _ _ _ => false | _ => true end.

Definition chan_is (chan : option positive) (a : positive) : Prop := chan = Some a.
Definition chan_refs (chan : option positive) (a : positive) : nat :=
  if decide (chan = Some a) then 1 else 0.
Definition cinv (o : objs) (chan : option positive) : Prop := oinv (chan_is chan) (chan_refs chan) o.

Lemma chan_refs_pos chan b : chan_is chan b -> (0 < chan_refs chan b)%nat.
Proof. unfold chan_is, chan_refs. intros ->. rewrite decide_True by done. lia. Qed.
Lemma chan_refs_ne chan a b : chan = Some a -> b <> a -> chan_refs chan b = 0%nat.
Proof. intros -> Hne. unfold chan_refs. rewrite decide_False by congruence. done. Qed.
Lemma chan_refs_eq a : chan_refs (Some a) a = 1%nat.
Proof. unfold chan_refs. by rewrite decide_True. Qed.

Lemma objs_new_inv : cinv objs_new None.
Proof.
  split; simpl; try done.
  - intros a Ha. exfalso. vm_compute in Ha. lia.
  - intros a [? Ha]. by rewrite lookup_empty in Ha.
Qed.

(** The reference of [chan_] is given up once the connection is dead. *)
Lemma chan_drops o a :
  cinv o (Some a) -> (forall c, heap o !! a = Some c -> dead_ c = true) ->
  exists o', o_decref o a = Ret o' /\ cinv o' None /\ threads o' = threads o.
Proof.
  intros I Hd. assert (is_Some (heap o !! a)) as Ha.
  { apply (i_live _ _ _ I). rewrite chan_refs_eq. lia. }
  destruct (oinv_decref (chan_is (Some a)) (chan_is None) (chan_refs (Some a)) (chan_refs None) o (threads o) a I Ha)
    as (o' & E & I' & Ht & _).
  - split; simpl; try done.
    + intros b Hb. by rewrite (chan_refs_ne (Some a) a b).
    + apply keeps_refl.
    + unfold chan_is. congruence.
  - apply keeps_refl.
  - by rewrite chan_refs_eq.
  - intros c Hc Hf. rewrite (Hd c Hc) in Hf. done.
  - rewrite set_threads_id in E. eauto.
Qed.

Lemma connect_ok o conn :
  cinv o None -> let '(o', chan) := connect_to_dst o conn in
    cinv o' chan /\ threads o' = threads o.
Proof.
  intros I. destruct conn as [fd|]; simpl; [|done]. split; [|done].
  apply (oinv_new (chan_is None) (chan_is (Some (next o))) (chan_refs None) (chan_refs (Some (next o))) o fd I).
  - apply chan_refs_eq.
  - intros b Hb. by rewrite (chan_refs_ne (Some (next o)) (next o) b).
  - done.
  - done.
  - apply chan_refs_pos.
Qed.

Lemma renew_ok k conn :
  cinv (co k) (chan_ k) -> exists o chan, renew_chan k conn = Ret (o, chan) /\
    cinv o chan /\ threads o = threads (co k).
Proof.
  intros I. unfold renew_chan. destruct (chan_ k) as [a|].
  - assert (is_Some (heap (co k) !! a)) as [c Ha].
    { apply (i_live _ _ _ I). rewrite chan_refs_eq. lia. }
    unfold deref. rewrite Ha. simpl. unfold isdead. destruct (dead_ c) eqn:Hd; [|eauto].
    destruct (chan_drops (co k) a I) as (o & E & I' & Ht); [congruence|]. rewrite E. simpl.
    pose proof (connect_ok o conn I') as Hc. destruct (connect_to_dst o conn) as [o2 chan].
    destruct Hc as [? Ht2]. eexists _, _. split; [done|]. split; congruence.
  - pose proof (connect_ok (co k) conn I) as Hc. destruct (connect_to_dst (co k) conn). eauto.
Qed.

Lemma get_refconn_ok k i conn :
  cinv (co k) (chan_ k) -> exists k', get_refconn k i conn = Ret k' /\ cinv (co k') (chan_ k').
Proof.
  intros I. unfold get_refconn. destruct (threads (co k) !! i) as [[ch [] n]|] eqn:Hi; eauto.
  destruct (renew_ok k conn I) as (o & chan & E & I1 & Ht). rewrite E. simpl. rewrite <- Ht in Hi.
  destruct chan as [a|]; [|eauto].
  destruct (thread_switches _ _ o i ch a n I1 Hi) as (o1 & o2 & E1 & E2 & Ht2 & _ & I3).
  { rewrite chan_refs_eq. lia. }
  rewrite E1. simpl. rewrite E2. simpl. eexists. split; [done|]. simpl. by rewrite Ht2.
Qed.

Lemma call_begin_ok root e o n :
  oinv root e o -> oinv root e (set_threads o (threads o ++ [Thread None Outside n])).
Proof.
  intros I. apply (oinv_threads root e); [done| |apply keeps_app|apply (i_refs _ _ _ I)].
  intros b. rewrite held_app, holds_none by done. lia.
Qed.
Lemma rpcc_delete_ok k :
  cinv (co k) (chan_ k) -> exists k', rpcc_delete k = Ret k' /\ cinv (co k') (chan_ k') /\
    chan_ k' = None /\ threads (co k') = threads (co k).
Proof.
  intros I. unfold rpcc_delete. destruct (chan_ k) as [a|] eqn:Hk; [|rewrite <- Hk in I; eauto].
  assert (is_Some (heap (co k) !! a)) as Ha.
  { apply (i_live _ _ _ I). rewrite chan_refs_eq. lia. }
  destruct (closeconn_ok (co k) I a Ha) as (o & E & I1 & _ & Ht & Hd & _). rewrite E. simpl.
  destruct (chan_drops o a I1 Hd) as (o2 & E2 & I2 & Ht2). rewrite E2. simpl.
  eexists. split; [done|]. split; [done|]. split; [done|]. simpl. congruence.
Qed.

Lemma clt_step_thread `{Memory} k act :
  cinv (co k) (chan_ k) -> by_thread act = true ->
  exists k', clt_step k act = Ret k' /\ cinv (co k') (chan_ k').
Proof.
  intros I Hb. destruct act; try discriminate Hb; simpl; unfold on_objs.
  - eexists. split; [done|]. by apply call_begin_ok.
  - by apply get_refconn_ok.
  - destruct (thr_enter_ok (co k) I i) as (o & E & I' & _). rewrite E. eauto.
  - case_bool_decide as Hs; [|eauto].
    destruct (thr_start_ok (co k) I i b r Hs) as (o & E & I' & _). rewrite E. eauto.
  - destruct (thr_finish_ok (co k) I i) as (o & E & I' & _). rewrite E. eauto.
  - destruct (thr_end_ok _ _ (co k) i I) as (o & E & I' & _). rewrite E. eauto.
  - destruct (threads (co k)); [|eauto]. destruct (rpcc_delete_ok k I) as (k' & E & I' & _). eauto.
Qed.

Lemma clt_step_inv `{Memory} k act k' :
  cinv (co k) (chan_ k) -> clt_step k act = Ret k' -> cinv (co k') (chan_ k').
Proof.
  intros I E. destruct (by_thread act) eqn:Hb.
  { destruct (clt_step_thread k act I Hb) as (k1 & E1 & I1). congruence. }
  destruct act; try discriminate Hb; simpl in E; unfold on_objs in E.
  - apply bind_ret_inv in E as (o & E & [= <-]). by apply (cb_write_ok (co k) I) in E as [? _].
  - apply bind_ret_inv in E as (o & E & [= <-]). apply bind_ret_inv in E as ([o1 op] & E & [= <-]).
    by apply (cb_read_ok (co k) I) in E as [? _].
Qed.

Lemma clt_run_inv `{Memory} acts : forall k k',
  cinv (co k) (chan_ k) -> clt_run k acts = Ret k' -> cinv (co k') (chan_ k').
Proof.
  induction acts as [|x acts IH]; simpl; intros k k' I E; [by injection E as <-|].
  apply bind_ret_inv in E as (k1 & E1 & E). eauto using clt_step_inv.
Qed.

(** C15 (client connections): whatever the calls of a client, the poll thread and the network do,
    the count of a connection is the number of call threads that hold it, plus one if it is the
    client's current one; the connections on the heap are exactly those with a reference, so
    that none leaks and no thread or callback uses a deleted one; no assertion of [decref] or of
    the destructor of [connection] fails in a thread; and after the destructor of the client no
    connection is left. *)
Theorem client_connections_counted `{Memory} acts k :
  clt_run rpcc_conns_new acts = Ret k ->
  (forall a, heap (co k) !! a = None <-> (chan_refs (chan_ k) a + held a (threads (co k)) = 0)%nat) /\
  (forall a c, heap (co k) !! a = Some c ->
     refno_ c = Z.of_nat (chan_refs (chan_ k) a + held a (threads (co k)))) /\
  (forall a, a ∈ polled (co k) -> is_Some (heap (co k) !! a)) /\
  (forall act, by_thread act = true -> exists k', clt_step k act = Ret k') /\
  (threads (co k) = [] -> exists k', clt_step k Destroy = Ret k' /\ heap (co k') = ∅).
Proof.
  intros E. apply clt_run_inv in E; [|apply objs_new_inv]. split_and!.
  - intros a. split.
    + intros Hn. destruct (decide (0 < chan_refs (chan_ k) a + held a (threads (co k)))%nat) as [Hp|]; [|lia].
      apply (i_live _ _ _ E) in Hp as [? ?]. congruence.
    + intros Hz. destruct (heap (co k) !! a) as [c|] eqn:Hc; [|done].
      apply (i_count _ _ _ E) in Hc. lia.
  - intros a c Hc. by apply (i_count _ _ _ E) in Hc as [? _].
  - intros a Ha. destruct (i_poll _ _ _ E a Ha) as (c & Hc & _). by rewrite Hc.
  - intros act Hb. destruct (clt_step_thread k act E Hb) as (k' & ? & _). eauto.
  - intros Ht. simpl. rewrite Ht. destruct (rpcc_delete_ok k E) as (k' & E' & I' & Hc & Ht').
    exists k'. split; [done|]. apply map_empty. intros a.
    destruct (heap (co k') !! a) as [c|] eqn:Ha; [|done]. apply (i_count _ _ _ I') in Ha as [_ Hpos].
    rewrite Hc, Ht', Ht in Hpos. unfold chan_refs in Hpos. rewrite decide_False in Hpos by done.
    simpl in Hpos. lia.
Qed.

(** * The server *)

(** The connections that were accepted ([tcpsconn::conns_], by descriptor), the latest one of
    each client ([rpcs::conns_], by nonce), and, for the proofs, the references [dispatch] did
    not give back.  A job in the queue of the pool or on one of its threads is a thread; one whose
    record was deleted under it holds nothing. *)
Record rpcs_conns := RpcsConns {
  so : objs; listener : gmap Z positive; saved : gmap Z positive; leaked : list positive }.
Definition rpcs_conns_new : rpcs_conns := RpcsConns objs_new ∅ ∅ [].

(** The loop of [process_accept]. *)
Fixpoint collect (l : list (Z * positive)) (o : objs) (m : gmap Z positive)
    : outcome (objs * gmap Z positive) :=
  match l with
  | [] => Ret (o, m)
  | (fd, a) :: l =>
      c ← deref o a;
      if isdead c && (ref c =? 1) then o ← o_decref o a; collect l o (delete fd m)
      else collect l o m
  end.

(** A descriptor is free once the destructor of its connection has closed it. *)
Definition fd_free (o : objs) (fd : Z) : Prop := map_Forall (fun _ c => fd_ c <> fd) (heap o).
#[global] Instance fd_free_dec o fd : Decision (fd_free o fd).
Proof. unfold fd_free. apply _. Defined.

Definition srv_accept (s : rpcs_conns) (s1 : Z) : outcome rpcs_conns :=
  if (s1 <? 0) || negb (bool_decide (fd_free (so s) s1)) then Ret s
  else
    let '(o, a) := o_new (so s) s1 in
    '(o, m) ← collect (map_to_list (listener s)) o (listener s);
    Ret (RpcsConns o (<[s1 := a]> m) (saved s) (leaked s)).

(** [tcpsconn::~tcpsconn]. *)
Fixpoint close_conns (l : list (Z * positive)) (o : objs) : outcome objs :=
  match l with
  | [] => Ret o
  | (_, a) :: l => o ← o_closeconn o a; o ← o_decref o a; close_conns l o
  end.
Definition stop_listener (s : rpcs_conns) : outcome rpcs_conns :=
  o ← close_conns (map_to_list (listener s)) (so s); Ret (RpcsConns o ∅ (saved s) (leaked s)).

(** [read_cb] with [rpcs::got_pdu]: [reach] and [reach'] are what the two reads of [reachable_]
    give, [room] is whether the queue takes the job.  A job that is not taken gives its reference
    back at once; one that is taken, but finds the server unreachable by then, does so as well and
    its record is deleted, although it is in the queue. *)
Definition srv_read `{Memory} (s : rpcs_conns) (a : positive) (k1 k2 : nat) (stale reach room reach' : bool)
    (sk : sock) : outcome rpcs_conns :=
  '(o, op) ← cb_read (so s) a k1 k2 stale (if reach then room else true) sk;
  match op with
  | Some _ =>
      if reach then
        o ← o_incref o a;
        if reach' then
          Ret (RpcsConns (set_threads o (threads o ++ [Thread (Some a) Outside 0])) (listener s) (saved s) (leaked s))
        else
          o ← o_decref o a;
          Ret (RpcsConns (set_threads o (threads o ++ [Thread None Outside 0])) (listener s) (saved s) (leaked s))
      else Ret (RpcsConns o (listener s) (saved s) (leaked s))
  | None => Ret (RpcsConns o (listener s) (saved s) (leaked s))
  end.

(** [dispatch], for an old instance of the server: it returns without a [decref]. *)
Definition old_instance (s : rpcs_conns) (i : nat) : outcome rpcs_conns :=
  match threads (so s) !! i with
  | Some (Thread (Some a) Outside _) =>
      Ret (RpcsConns (set_threads (so s) (delete i (threads (so s)))) (listener s) (saved s) (a :: leaked s))
  | _ => Ret s
  end.

Section dispatch.
  (** [create_time_] of the connections. *)
  Context (created : positive -> Z * Z).

Definition older (b a : positive) : bool :=
  RpcServer.compare (RpcServer.Connection 0 (created b).1 (created b).2)
                    (RpcServer.Connection 0 (created a).1 (created a).2) <? 0.

(** ... where it saves the latest connection of client [n] ... *)
Definition save_conn (s : rpcs_conns) (i : nat) (n : Z) : outcome rpcs_conns :=
  match threads (so s) !! i with
  | Some (Thread (Some a) Outside _) =>
      if n =? 0 then Ret s
      else
        '(o, sv) ←
          (match saved s !! n with
           | None => o ← o_incref (so s) a; Ret (o, <[n := a]> (saved s))
           | Some b =>
               if older b a then
                 o ← o_decref (so s) b; o ← o_incref o a; Ret (o, <[n := a]> (saved s))
               else Ret (so s, saved s)
           end);
        Ret (RpcsConns (set_threads o (<[i := Thread (Some a) Outside n]> (threads o)))
               (listener s) sv (leaked s))
  | _ => Ret s
  end.

(** ... and where it takes that one for the reply if its own is dead; a client without a nonce
    has none, and the null pointer is followed. *)
Definition latest_conn (s : rpcs_conns) (i : nat) : outcome rpcs_conns :=
  match threads (so s) !! i with
  | Some (Thread (Some a) Outside n) =>
      c ← deref (so s) a;
      if isdead c && negb (bool_decide (saved s !! n = Some a)) then
        o ← o_decref (so s) a;
        match saved s !! n with
        | None => Fault Undefined
        | Some b =>
            o ← o_incref o b;
            Ret (RpcsConns (set_threads o (<[i := Thread (Some b) Outside n]> (threads o)))
                   (listener s) (saved s) (leaked s))
        end
      else Ret s
  | _ => Ret s
  end.

Inductive srv_act :=
| Accept (s1 : Z)
| SrvWriteCb (a : positive) (r : write_result)
| SrvReadCb (a : positive) (k1 k2 : nat) (stale reach room reach' : bool) (sk : sock)
| SaveConn (i : nat) (n : Z)
| LatestConn (i : nat)
| SrvEnter (i : nat)
| SrvStart (i : nat) (b : list ascii) (r : write_result)
| SrvFinish (i : nat)
| JobEnd (i : nat)
| OldInstance (i : nat)
| StopListener.

Definition on_srv (s : rpcs_conns) (f : objs -> outcome objs) : outcome rpcs_conns :=
  o ← f (so s); Ret (RpcsConns o (listener s) (saved s) (leaked s)).

(** A worker has taken a job whose record was deleted. *)
Definition job_of (act : srv_act) : option nat :=
  match act with
  | SaveConn i _ | LatestConn i | SrvEnter i | SrvStart i _ _ | SrvFinish i | JobEnd i | OldInstance i => Some i
  | _ => None
  end.
Definition on_deleted (s : rpcs_conns) (act : srv_act) : bool :=
  match i ← job_of act; threads (so s) !! i with Some (Thread None _ _) => true | _ => false end.

Definition srv_step `{Memory} (s : rpcs_conns) (act : srv_act) : outcome rpcs_conns :=
  if on_deleted s act then Fault Undefined
  else match act with
  | Accept s1 => srv_accept s s1
  | SrvWriteCb a r => on_srv s (fun o => cb_write o a r)
  | SrvReadCb a k1 k2 stale reach room reach' sk => srv_read s a k1 k2 stale reach room reach' sk
  | SaveConn i n => save_conn s i n
  | LatestConn i => latest_conn s i
  | SrvEnter i => on_srv s (fun o => thr_enter o i)
  | SrvStart i b r => if bool_decide (sendable b) then on_srv s (fun o => thr_start o i b r) else Ret s
  | SrvFinish i => on_srv s (fun o => thr_finish o i)
  | JobEnd i => on_srv s (fun o => thr_end o i)
  | OldInstance i => old_instance s i
  | StopListener => stop_listener s
  end.
Fixpoint srv_run `{Memory} (s : rpcs_conns) (acts : list srv_act) : outcome rpcs_conns :=
  match acts with [] => Ret s | x :: acts => s ← srv_step s x; srv_run s acts end.
End dispatch.

(** [reachable_] does not become false inside [got_pdu]. *)
Definition steady (act : srv_act) : bool :=
  match act with SrvReadCb _ _ _ _ reach room reach' _ => implb (reach && room) reach' | _ => true end.

(** What does not run on the poll thread, nor on a deleted record; [latest_conn] only for a client
    with a nonce. *)
Definition safe_act (s : rpcs_conns) (act : srv_act) : bool :=
  negb (on_deleted s act) &&
  match act with
  | SrvWriteCb _ _ | SrvReadCb _ _ _ _ _ _ _ _ => false
  | LatestConn i =>
      match threads (so s) !! i with Some t => negb (t_clt t =? 0) | None => true end
  | _ => true
  end.

(** ** Counting in maps *)

Definition one (b a : positive) : nat := if decide (b = a) then 1 else 0.
Definition mcount (a : positive) (m : gmap Z positive) : nat := size (filter (fun kv => kv.2 = a) m).
Definition lcount (a : positive) (l : list positive) : nat := sum_list_with (fun b => one b a) l.

Lemma one_eq a : one a a = 1%nat.
Proof. unfold one. by rewrite decide_True. Qed.
Lemma one_ne a b : b <> a -> one b a = 0%nat.
Proof. intros. unfold one. by rewrite decide_False. Qed.
Lemma mcount_insert a m k b : m !! k = None -> mcount a (<[k := b]> m) = (one b a + mcount a m)%nat.
Proof.
  intros Hk. unfold mcount, one. case_decide as Hd.
  - rewrite map_filter_insert_True by done. rewrite map_size_insert_None; [done|].
    apply map_lookup_filter_None. by left.
  - rewrite map_filter_insert_False, delete_id by done. done.
Qed.
Lemma mcount_delete a m k b : m !! k = Some b -> mcount a m = (one b a + mcount a (delete k m))%nat.
Proof.
  intros Hk. rewrite <- (mcount_insert a (delete k m) k b) by apply lookup_delete_eq.
  by rewrite insert_delete_id.
Qed.
Lemma mcount_empty a : mcount a ∅ = 0%nat.
Proof. unfold mcount. by rewrite map_filter_empty, map_size_empty. Qed.
Lemma mcount_lookup a m k : m !! k = Some a -> (0 < mcount a m)%nat.
Proof. intros Hk. rewrite (mcount_delete a m k a Hk), one_eq. lia. Qed.

Definition listens (m : gmap Z positive) (a : positive) : Prop := exists fd, m !! fd = Some a.
Definition srv_refs (m sv : gmap Z positive) (lk : list positive) (a : positive) : nat :=
  mcount a m + (mcount a sv + lcount a lk).

Record sinv (s : rpcs_conns) : Prop := SInv {
  s_objs : oinv (listens (listener s)) (srv_refs (listener s) (saved s) (leaked s)) (so s);
  s_fds : forall fd a, listener s !! fd = Some a -> exists c, heap (so s) !! a = Some c /\ fd_ c = fd;
  s_clts : forall t, t ∈ threads (so s) -> t_clt t <> 0 -> is_Some (saved s !! t_clt t) }.

(** ** The accepting thread *)

Section accepting.
(** Other references than the listener's, and what else is alive. *)
  Context (x : positive -> nat) (rx : positive -> Prop) (Hrx : forall a, rx a -> (0 < x a)%nat).

Definition lroot (m : gmap Z positive) (a : positive) : Prop := listens m a \/ rx a.
Definition lrefs (m : gmap Z positive) (a : positive) : nat := mcount a m + x a.
Definition fds_ok (o : objs) (m : gmap Z positive) : Prop :=
  forall fd a, m !! fd = Some a -> exists c, heap o !! a = Some c /\ fd_ c = fd.

Lemma lroot_refs m a : lroot m a -> (0 < lrefs m a)%nat.
Proof using Hrx.
  unfold lrefs. intros [[fd Hfd]|Hr]; [apply mcount_lookup in Hfd|apply Hrx in Hr]; lia.
Qed.

(** The listener gives up a dead connection. *)
Lemma listener_drops o m fd a :
  oinv (lroot m) (lrefs m) o -> m !! fd = Some a ->
  (forall c, heap o !! a = Some c -> dead_ c = true) ->
  exists o', o_decref o a = Ret o' /\ oinv (lroot (delete fd m)) (lrefs (delete fd m)) o' /\
    threads o' = threads o /\ (forall b, b <> a -> heap o' !! b = heap o !! b) /\
    (forall c, heap o !! a = Some c -> refno_ c = 1 -> heap o' !! a = None).
Proof using Hrx.
  intros I Hm Hd. pose proof (mcount_delete a m fd a Hm) as Hmc. rewrite one_eq in Hmc.
  assert (is_Some (heap o !! a)) as Ha by (apply (i_live _ _ _ I); unfold lrefs; lia).
  destruct (oinv_decref (lroot m) (lroot (delete fd m)) (lrefs m) (lrefs (delete fd m)) o (threads o) a I Ha)
    as (o' & E & I' & Ht & _ & _ & Hne & _).
  - split; simpl; try done.
    + intros b Hb. unfold lrefs. rewrite (mcount_delete b m fd a Hm), one_ne by done. lia.
    + apply keeps_refl.
    + intros b Hb [[fd' Hfd']|Hr]; [left|by right]. exists fd'.
      rewrite lookup_delete_ne by congruence. done.
    + apply lroot_refs.
  - apply keeps_refl.
  - unfold lrefs. lia.
  - intros c Hc Hf. rewrite (Hd c Hc) in Hf. done.
  - rewrite set_threads_id in E. exists o'. split; [done|]. split; [done|]. split; [done|].
    split; [done|]. intros c Hc Hr1. destruct (heap o' !! a) as [c'|] eqn:Hc'; [|done].
    apply (i_count _ _ _ I') in Hc' as [_ Hpos]. apply (i_count _ _ _ I) in Hc as [Hc _].
    rewrite Ht in Hpos. unfold lrefs in *. lia.
Qed.

(** The list is a part of the map. *)
Definition part_of (l : list (Z * positive)) (m : gmap Z positive) : Prop :=
  NoDup l.*1 /\ forall fd a, (fd, a) ∈ l -> m !! fd = Some a.

Lemma part_of_cons l m fd a : part_of ((fd, a) :: l) m ->
  m !! fd = Some a /\ part_of l m /\ part_of l (delete fd m) /\ fd ∉ l.*1.
Proof using Type.
  intros [Hn Hl]. apply NoDup_cons in Hn as [Hx Hn]. split_and!; [|split; [done|]|split; [done|]|done].
  - apply Hl. by left.
  - intros fd' a' Hin. apply Hl. by right.
  - intros fd' a' Hin. rewrite lookup_delete_ne; [apply Hl; by right|]. intros <-. apply Hx.
    apply list_elem_of_fmap. by exists (fd, a').
Qed.
Lemma part_of_all m : part_of (map_to_list m) m.
Proof using Type.
  split; [apply NoDup_fst_map_to_list|]. intros fd a. apply elem_of_map_to_list.
Qed.
(** Distinct descriptors, distinct connections. *)
Lemma fds_inj o m fd fd' a : fds_ok o m -> m !! fd = Some a -> m !! fd' = Some a -> fd = fd'.
Proof using Type.
  intros Hf H1 H2. apply Hf in H1 as (c & Hc & <-). apply Hf in H2 as (c' & Hc' & <-). congruence.
Qed.

Lemma collect_ok l : forall o m,
  oinv (lroot m) (lrefs m) o -> part_of l m -> fds_ok o m ->
  exists o' m', collect l o m = Ret (o', m') /\ oinv (lroot m') (lrefs m') o' /\ fds_ok o' m' /\
    threads o' = threads o /\ (forall fd, m !! fd = None -> m' !! fd = None) /\
    (forall fd a c, (fd, a) ∈ l -> heap o !! a = Some c -> dead_ c = true -> refno_ c = 1 ->
       heap o' !! a = None) /\
    (forall b, (forall fd, (fd, b) ∉ l) -> heap o' !! b = heap o !! b).
Proof using Hrx.
  induction l as [|[fd a] l IH]; intros o m I Hl Hf; simpl.
  { exists o, m. split_and!; try done. intros fd a c Hin. by apply elem_of_nil in Hin. }
  destruct (part_of_cons _ _ _ _ Hl) as (Hm & Hl1 & Hl2 & Hx).
  destruct (Hf fd a Hm) as (c & Ha & Hfd). unfold deref. rewrite Ha. simpl.
  assert (forall fd', (fd', a) ∉ l) as Hal.
  { intros fd' Hin. assert (fd' = fd) as ->; [|apply Hx, list_elem_of_fmap; by exists (fd, a)].
    eapply (fds_inj o m); [done|apply Hl1; done|done]. }
  destruct (isdead c && (ref c =? 1)) eqn:Hg.
  - apply andb_true_iff in Hg as [Hd Hr]. apply Z.eqb_eq in Hr.
    destruct (listener_drops o m fd a I Hm) as (o1 & E & I1 & Ht1 & Hne & Hfree).
    { intros c'. rewrite Ha. by intros [= <-]. }
    rewrite E. simpl. destruct (IH o1 (delete fd m) I1 Hl2) as (o' & m' & E' & I' & Hf' & Ht' & Hm' & Hdel & Hk).
    { intros fd' b [Hfd' Hb]%lookup_delete_Some. destruct (Hf fd' b Hb) as (d & Hd' & ?).
      exists d. split; [|done]. rewrite Hne; [done|]. intros ->. apply Hfd'. by eapply (fds_inj o m). }
    exists o', m'. split_and!; try done.
    + congruence.
    + intros fd' Hn. apply Hm'. by apply lookup_delete_None; right.
    + intros fd' b d [[= -> ->]|Hin]%elem_of_cons Hb Hdd Hrr.
      * rewrite Hk by done. by eapply Hfree.
      * eapply Hdel; eauto. rewrite Hne; [done|]. intros ->. by eapply Hal.
    + intros b Hb. rewrite Hk by (intros fd' Hin; apply (Hb fd'); by right).
      apply Hne. intros ->. apply (Hb fd). by left.
  - destruct (IH o m I Hl1 Hf) as (o' & m' & E' & I' & Hf' & Ht' & Hm' & Hdel & Hk).
    exists o', m'. split_and!; try done.
    + intros fd' b d [[= -> ->]|Hin]%elem_of_cons Hb Hdd Hrr; [|by eapply Hdel].
      rewrite Ha in Hb. injection Hb as <-. unfold isdead, ref in Hg. rewrite Hdd, Hrr in Hg. done.
    + intros b Hb. apply Hk. intros fd' Hin. apply (Hb fd'). by right.
Qed.

Lemma close_conns_ok l : forall o m,
  oinv (lroot m) (lrefs m) o -> part_of l m -> m = list_to_map l ->
  exists o', close_conns l o = Ret o' /\ oinv (lroot ∅) (lrefs ∅) o' /\ map tag (threads o') = map tag (threads o).
Proof using Hrx.
  induction l as [|[fd a] l IH]; intros o m I Hl Hm; simpl; [subst m; eauto|].
  destruct (part_of_cons _ _ _ _ Hl) as (Hma & _ & Hl2 & Hx).
  assert (is_Some (heap o !! a)) as Ha.
  { apply (i_live _ _ _ I). pose proof (mcount_lookup a m fd Hma). unfold lrefs. lia. }
  destruct (closeconn_ok o I a Ha) as (o1 & E1 & I1 & _ & Ht1 & Hd1 & _). rewrite E1. simpl.
  destruct (listener_drops o1 m fd a I1 Hma Hd1) as (o2 & E2 & I2 & Ht2 & _). rewrite E2. simpl.
  destruct (IH o2 (delete fd m) I2 Hl2) as (o3 & E3 & I3 & Ht3).
  { subst m. simpl. apply delete_insert_id. by apply not_elem_of_list_to_map_1. }
  exists o3. split; [done|]. split; [done|]. congruence.
Qed.
End accepting.

(** ** The steps of the server *)

Lemma calm_fds o o' : calm o o' -> fds_sub o o'.
Proof. intros [_ H]. by apply fds_sub_eq. Qed.
Lemma calm_clts o o' (sv : gmap Z positive) : map tag (threads o') = map tag (threads o) ->
  (forall t, t ∈ threads o -> t_clt t <> 0 -> is_Some (sv !! t_clt t)) ->
  (forall t, t ∈ threads o' -> t_clt t <> 0 -> is_Some (sv !! t_clt t)).
Proof.
  intros H Hc t Ht. assert (tag t ∈ tag <$> threads o) as Hin.
  { change (tag <$> threads o) with (map tag (threads o)). rewrite <- H.
    change (map tag (threads o')) with (tag <$> threads o'). apply list_elem_of_fmap. eauto. }
  apply list_elem_of_fmap in Hin as (t0 & Heq & Ht0). injection Heq as _ ->. by apply Hc.
Qed.

Lemma sinv_keep s o' sv' lk' :
  sinv s -> oinv (listens (listener s)) (srv_refs (listener s) sv' lk') o' -> fds_sub (so s) o' ->
  (forall t, t ∈ threads o' -> t_clt t <> 0 -> is_Some (sv' !! t_clt t)) ->
  sinv (RpcsConns o' (listener s) sv' lk').
Proof.
  intros [I Hf Hc] I' Hs Hc'. split; simpl; [done| |done].
  intros fd a Hl. destruct (Hf fd a Hl) as (d & Hd & Hdf).
  assert (is_Some (heap o' !! a)) as [c Ha].
  { apply (i_live _ _ _ I'). pose proof (mcount_lookup _ _ _ Hl). unfold srv_refs. lia. }
  exists c. split; [done|]. destruct (Hs a c Ha) as (d' & ? & ->). congruence.
Qed.

Lemma calm_step s o' :
  sinv s -> oinv (listens (listener s)) (srv_refs (listener s) (saved s) (leaked s)) o' ->
  calm (so s) o' -> sinv (RpcsConns o' (listener s) (saved s) (leaked s)).
Proof.
  intros S I' Hc. apply sinv_keep; auto using calm_fds. eapply calm_clts; [apply Hc|apply (s_clts _ S)].
Qed.

Lemma listens_refs m sv lk b : listens m b -> (0 < srv_refs m sv lk b)%nat.
Proof. intros [fd H]. apply mcount_lookup in H. unfold srv_refs. lia. Qed.

(** A new job holds the connection its request came on. *)
Lemma job_starts root e o a n :
  oinv root e o -> is_Some (heap o !! a) ->
  exists o', o_incref o a = Ret o' /\ threads o' = threads o /\ fds_sub o o' /\
    oinv root e (set_threads o' (threads o ++ [Thread (Some a) Outside n])).
Proof.
  intros I Ha. set (o1 := set_threads o (threads o ++ [Thread None Outside n])).
  assert (oinv root e o1) as I1 by (by apply call_begin_ok).
  destruct (thread_takes root e o1 (length (threads o)) a n I1) as (o' & E & Ht & _ & Hf & I').
  - apply list_lookup_middle. done.
  - exact Ha.
  - apply o_incref_set in E. eexists. split; [exact E|]. split; [done|].
    split; [by apply fds_sub_eq|]. simpl in *. rewrite insert_app_r_alt in I' by lia.
    by rewrite Nat.sub_diag in I'.
Qed.

(** A reference that is taken and given back at once. *)
Lemma incref_decref root e o a o1 :
  oinv root e o -> is_Some (heap o !! a) -> o_incref o a = Ret o1 -> o_decref o1 a = Ret o.
Proof.
  intros I [c Hc] E. unfold o_incref, deref in E. rewrite Hc in E. injection E as <-.
  destruct (i_count _ _ _ I _ _ Hc) as [Hr Hp].
  unfold o_decref, deref. simpl. rewrite lookup_insert_eq. simpl. unfold decref. simpl.
  replace (refno_ c + 1 - 1) with (refno_ c) by lia.
  rewrite (proj2 (Z.leb_le 0 (refno_ c))), (proj2 (Z.eqb_neq (refno_ c) 0)) by lia. simpl.
  unfold store. simpl. rewrite insert_insert_eq. f_equal. destruct o, c. simpl in *.
  by rewrite insert_id.
Qed.

Lemma srv_read_ok `{Memory} s a k1 k2 stale reach room reach' sk s' :
  sinv s -> srv_read s a k1 k2 stale reach room reach' sk = Ret s' -> sinv s'.
Proof.
  intros S E. apply bind_ret_inv in E as ([o op] & Hcb & E).
  destruct (cb_read_ok (so s) (s_objs _ S) a k1 k2 stale _ sk o op Hcb) as (I1 & Hcalm & Hp).
  pose proof (calm_step s o S I1 Hcalm) as S1.
  destruct op as [p|]; [|by injection E as <-]. destruct reach; [|by injection E as <-].
  apply bind_ret_inv in E as (o2 & E2 & E).
  assert (is_Some (heap o !! a)) as Ha.
  { destruct (i_poll _ _ _ (s_objs _ S) a (Hp ltac:(done))) as (c & Hc & _). destruct Hcalm as [_ Hfd].
    specialize (Hfd a). rewrite Hc in Hfd. destruct (heap o !! a); done. }
  destruct reach'.
  2: { rewrite (incref_decref _ _ _ _ _ I1 Ha E2) in E. injection E as <-.
       apply (sinv_keep (RpcsConns o (listener s) (saved s) (leaked s))); simpl; [done| |by apply fds_sub_eq|].
       - by apply call_begin_ok.
       - intros t [Ht| ->%list_elem_of_singleton]%elem_of_app; [|done]. by apply (s_clts _ S1). }
  injection E as <-.
  destruct (job_starts _ _ o a 0 I1 Ha) as (o3 & E3 & Ht3 & Hs3 & I3). rewrite E2 in E3. injection E3 as ->.
  rewrite Ht3. apply (sinv_keep (RpcsConns o (listener s) (saved s) (leaked s))); simpl; auto.
  intros t [Ht| ->%list_elem_of_singleton]%elem_of_app; [|done]. by apply (s_clts _ S1).
Qed.

Lemma old_instance_ok s i : sinv s -> exists s', old_instance s i = Ret s' /\ sinv s'.
Proof.
  intros S. unfold old_instance. destruct (threads (so s) !! i) as [[[a|] [] n]|] eqn:Hi; eauto.
  eexists. split; [done|]. apply sinv_keep; [done| |by apply fds_sub_eq|].
  - apply (oinv_threads _ (srv_refs (listener s) (saved s) (leaked s))); [apply S| |by eapply keeps_delete|].
    + intros b. pose proof (held_delete b _ _ _ Hi) as Hh. unfold srv_refs. simpl. unfold holds, one in *.
      simpl in Hh. repeat case_decide; simplify_eq; lia.
    + intros b. apply listens_refs.
  - simpl. intros t Ht. apply (s_clts _ S). rewrite (delete_Permutation _ _ _ Hi). by right.
Qed.

Lemma elem_insert {A} (l : list A) i x t : t ∈ <[i := x]> l -> t ∈ l \/ t = x.
Proof.
  intros [j Hj]%list_elem_of_lookup. destruct (decide (i = j)) as [<-|Hne].
  - apply list_lookup_insert_Some in Hj as [(_ & -> & _)|(Hne & _)]; [by right|done].
  - rewrite list_lookup_insert_ne in Hj by done. left. by eapply list_elem_of_lookup_2.
Qed.

Section saving.
  Context (m : gmap Z positive) (lk : list positive).

Lemma saved_takes sv o n a :
  oinv (listens m) (srv_refs m sv lk) o -> sv !! n = None -> is_Some (heap o !! a) ->
  exists o', o_incref o a = Ret o' /\ threads o' = threads o /\ fds_sub o o' /\
    oinv (listens m) (srv_refs m (<[n := a]> sv) lk) o'.
Proof using Type.
  intros I Hn Ha.
  destruct (oinv_incref (listens m) (listens m) _ (srv_refs m (<[n := a]> sv) lk) o (threads o) a I Ha)
    as (o' & E & I' & Ht & _).
  - split; auto using keeps_refl; [|apply listens_refs].
    intros b Hb. unfold srv_refs. rewrite mcount_insert, one_ne by done. lia.
  - apply keeps_refl.
  - unfold srv_refs. rewrite mcount_insert, one_eq by done. lia.
  - done.
  - rewrite set_threads_id in E. exists o'. split_and!; try done. apply fds_sub_eq. intros b.
    destruct Ha as [c Ha]. unfold o_incref, deref in E. rewrite Ha in E. injection E as <-. simpl.
    destruct (decide (a = b)) as [<-|Hne]; [by rewrite lookup_insert_eq, Ha|by rewrite lookup_insert_ne].
Qed.

Lemma saved_drops sv o n b :
  oinv (listens m) (srv_refs m sv lk) o -> sv !! n = Some b ->
  exists o', o_decref o b = Ret o' /\ threads o' = threads o /\ fds_sub o o' /\
    oinv (listens m) (srv_refs m (delete n sv) lk) o'.
Proof using Type.
  intros I Hn. pose proof (mcount_delete b sv n b Hn) as Hmc. rewrite one_eq in Hmc.
  assert (is_Some (heap o !! b)) as Hb by (apply (i_live _ _ _ I); unfold srv_refs; lia).
  destruct (oinv_decref (listens m) (listens m) _ (srv_refs m (delete n sv) lk) o (threads o) b I Hb)
    as (o' & E & I' & Ht & _ & _ & Hne & Heq).
  - split; auto using keeps_refl; [|apply listens_refs].
    intros a Ha. unfold srv_refs. rewrite (mcount_delete a sv n b Hn), one_ne by done. lia.
  - apply keeps_refl.
  - unfold srv_refs. lia.
  - intros c Hc Hd. by eapply (i_root _ _ _ I).
  - rewrite set_threads_id in E. exists o'. split_and!; try done. intros a c Hc.
    destruct (decide (a = b)) as [->|Ha].
    + destruct (Heq c Hc) as (d & ? & ? & _). eauto.
    + rewrite Hne in Hc by done. eauto.
Qed.
End saving.

Lemma save_conn_ok created s i n : sinv s -> exists s', save_conn created s i n = Ret s' /\ sinv s'.
Proof.
  intros S. unfold save_conn. destruct (threads (so s) !! i) as [[[a|] [] n0]|] eqn:Hi; eauto.
  destruct (Z.eqb_spec n 0) as [|Hn0]; [eauto|].
  assert (forall o sv, oinv (listens (listener s)) (srv_refs (listener s) sv (leaked s)) o ->
    threads o = threads (so s) -> fds_sub (so s) o -> is_Some (sv !! n) ->
    (forall k, is_Some (saved s !! k) -> is_Some (sv !! k)) ->
    sinv (RpcsConns (set_threads o (<[i := Thread (Some a) Outside n]> (threads o))) (listener s) sv (leaked s)))
    as Hend.
  { intros o sv I Ht Hfd Hsv Hk. rewrite Ht. apply sinv_keep; [done| |done|].
    - rewrite <- Ht in Hi. apply (oinv_threads _ (srv_refs (listener s) sv (leaked s))); [done|..].
      + intros b. pose proof (held_insert b _ _ _ (Thread (Some a) Outside n) Hi) as Hh.
        unfold holds in Hh. simpl in Hh. rewrite <- Ht. lia.
      + rewrite <- Ht. eapply keeps_insert; [done|by right].
      + intros b. apply listens_refs.
    - simpl. intros t [Ht'| ->]%elem_insert; [|done]. intros Hc. apply Hk. by apply (s_clts _ S). }
  assert (forall o, oinv (listens (listener s)) (srv_refs (listener s) (delete n (saved s)) (leaked s)) o ->
    threads o = threads (so s) -> fds_sub (so s) o -> exists o', o_incref o a = Ret o' /\
    sinv (RpcsConns (set_threads o' (<[i := Thread (Some a) Outside n]> (threads o'))) (listener s)
            (<[n := a]> (saved s)) (leaked s))) as Hput.
  { intros o I Ht Hs. rewrite <- Ht in Hi. destruct (thread_live o I i _ a Hi eq_refl) as [c Ha].
    destruct (saved_takes _ _ _ o n a I) as (o' & E & Ht' & Hs' & I'); [apply lookup_delete_eq|by rewrite Ha|].
    rewrite insert_delete_eq in I'. exists o'. split; [done|]. apply Hend; [done|congruence| |by rewrite lookup_insert_eq|].
    - by eapply fds_sub_trans.
    - intros k Hk. destruct (decide (n = k)) as [<-|]; [by rewrite lookup_insert_eq|by rewrite lookup_insert_ne]. }
  destruct (saved s !! n) as [b|] eqn:Hb.
  - destruct (older created b a); simpl; [|eexists; split; [done|]; apply Hend; auto using fds_sub_refl; apply S].
    destruct (saved_drops _ _ _ _ n b (s_objs _ S) Hb) as (o & E & Ht & Hs & I). rewrite E. simpl.
    destruct (Hput o I Ht Hs) as (o' & E' & S'). rewrite E'. simpl. eauto.
  - destruct (Hput (so s)) as (o' & E' & S'); [by rewrite delete_id by done; apply S|done|by apply fds_sub_eq|].
    rewrite E'. simpl. eauto.
Qed.

Lemma latest_conn_saved s i a n b :
  sinv s -> threads (so s) !! i = Some (Thread (Some a) Outside n) -> saved s !! n = Some b ->
  exists s', latest_conn s i = Ret s' /\ sinv s'.
Proof.
  intros S Hi Hb. unfold latest_conn. rewrite Hi.
  destruct (thread_live (so s) (s_objs _ S) i _ a Hi eq_refl) as [c Ha]. unfold deref. rewrite Ha. simpl.
  destruct (isdead c && _); [|eauto]. rewrite Hb.
  destruct (thread_switches _ _ (so s) i (Some a) b n (s_objs _ S) Hi) as (o1 & o2 & E1 & E2 & Ht2 & Hs2 & I3).
  { pose proof (mcount_lookup _ _ _ Hb). unfold srv_refs. lia. }
  rewrite E1. simpl. rewrite E2. simpl. eexists. split; [done|]. rewrite Ht2. apply sinv_keep; auto.
  simpl. intros t [Ht'| ->]%elem_insert; [by apply (s_clts _ S)|]. simpl. rewrite Hb. eauto.
Qed.

Lemma latest_conn_ok s i :
  sinv s -> safe_act s (LatestConn i) = true -> exists s', latest_conn s i = Ret s' /\ sinv s'.
Proof.
  intros S Hsafe. apply andb_true_iff in Hsafe as [_ Hsafe].
  destruct (threads (so s) !! i) as [[[a|] [] n]|] eqn:Hi;
    try (unfold latest_conn; rewrite Hi; eauto; fail). simpl in Hsafe.
  destruct (s_clts _ S _ (list_elem_of_lookup_2 _ _ _ Hi)) as [b Hb].
  { simpl. intros ->. done. }
  by eapply latest_conn_saved.
Qed.

(** The listener's dead connections that nobody else holds. *)
Definition collectable (s : rpcs_conns) (a : positive) : Prop :=
  listens (listener s) a /\ exists c, heap (so s) !! a = Some c /\ dead_ c = true /\ refno_ c = 1.

Lemma next_unused root e o : oinv root e o -> heap o !! next o = None /\ e (next o) = 0%nat.
Proof.
  intros I. destruct (heap o !! next o) eqn:E.
  { pose proof (i_next _ _ _ I (next o) ltac:(by rewrite E)). lia. }
  split; [done|]. destruct (decide (e (next o) = 0%nat)) as [|Hne]; [done|].
  destruct (i_live _ _ _ I (next o) ltac:(lia)). congruence.
Qed.

Lemma srv_accept_ok s s1 : sinv s -> exists s', srv_accept s s1 = Ret s' /\ sinv s' /\
  (0 <= s1 -> fd_free (so s) s1 -> forall a, collectable s a -> heap (so s') !! a = None).
Proof.
  intros S. unfold srv_accept. destruct ((s1 <? 0) || _) eqn:Hg.
  { exists s. split; [done|]. split; [done|]. intros Hpos Hfree.
    rewrite (bool_decide_eq_true_2 _ Hfree) in Hg. simpl in Hg. lia. }
  apply orb_false_iff in Hg as [_ Hfree]. apply negb_false_iff, bool_decide_eq_true in Hfree.
  destruct S as [I Hf Hc]. destruct (o_new (so s) s1) as [o a] eqn:En.
  pose proof En as Ea. injection Ea as Eo Ea. subst a.
  destruct (next_unused _ _ _ I) as [Hnh Hn0].
  set (x := fun a => (mcount a (saved s) + lcount a (leaked s) + one (next (so s)) a)%nat).
  set (rx := fun a => a = next (so s)).
  assert (Hrx : forall a, rx a -> (0 < x a)%nat).
  { intros a ->. unfold x. rewrite one_eq. lia. }
  destruct (oinv_new _ (lroot rx (listener s)) _ (lrefs x (listener s)) (so s) s1 I) as [I1 _].
  { unfold lrefs, x. rewrite one_eq. unfold srv_refs in Hn0. lia. }
  { intros b Hb. unfold lrefs, x, srv_refs. rewrite (one_ne b) by done. lia. }
  { intros b _ Hb. by left. }
  { by right. }
  { apply lroot_refs, Hrx. }
  rewrite En in I1. simpl in I1.
  assert (Hh : forall b, b <> next (so s) -> heap o !! b = heap (so s) !! b).
  { intros b Hb. rewrite <- Eo. simpl. by rewrite lookup_insert_ne. }
  assert (Hln : forall fd, listener s !! fd <> Some (next (so s))).
  { intros fd Hfd. destruct (Hf fd _ Hfd) as (c & ? & _). congruence. }
  destruct (collect_ok x rx Hrx (map_to_list (listener s)) o (listener s) I1 (part_of_all _))
    as (o' & m' & E & I' & Hf' & Ht' & Hm' & Hdel & Hk).
  { intros fd b Hb. rewrite Hh; [by apply Hf|]. intros ->. by eapply Hln. }
  rewrite E. simpl. eexists. split; [done|].
  assert (Hl1 : m' !! s1 = None).
  { apply Hm'. destruct (listener s !! s1) as [b|] eqn:Hb; [|done]. destruct (Hf s1 b Hb) as (c & Hcb & Hfd).
    by destruct (Hfree b c Hcb). }
  split.
  - split; simpl.
    + eapply oinv_ext; [exact I'|..].
      * intros a. unfold lroot, listens, rx. split.
        -- intros [[fd Hfd]| ->]; [exists fd; rewrite lookup_insert_ne by congruence; done|].
           exists s1. by rewrite lookup_insert_eq.
        -- intros [fd Hfd]. apply lookup_insert_Some in Hfd as [[_ <-]|[_ Hfd]]; eauto.
      * intros a. unfold srv_refs, lrefs, x. rewrite mcount_insert by done. lia.
    + intros fd a [[<- <-]|[_ Ha]]%lookup_insert_Some; [|by apply Hf'].
      exists (connection_new s1).1. split; [|done]. rewrite Hk.
      * rewrite <- Eo. simpl. by rewrite lookup_insert_eq.
      * intros fd Hin%elem_of_map_to_list. by eapply Hln.
    + intros t. rewrite Ht', <- Eo. apply Hc.
  - intros _ _ a ([fd Hfd] & c & Ha & Hd & Hr). simpl. eapply Hdel; eauto.
    + by apply elem_of_map_to_list.
    + rewrite Hh; [done|]. intros ->. by eapply Hln.
Qed.

Lemma stop_listener_ok s : sinv s -> exists s', stop_listener s = Ret s' /\ sinv s'.
Proof.
  intros [I Hf Hc]. unfold stop_listener.
  set (x := fun a => (mcount a (saved s) + lcount a (leaked s))%nat).
  destruct (close_conns_ok x (fun _ => False) ltac:(done) (map_to_list (listener s)) (so s) (listener s))
    as (o & E & I' & Ht).
  - eapply oinv_ext; [exact I|..]; [|done]. intros a. unfold lroot. tauto.
  - apply part_of_all.
  - by rewrite list_to_map_to_list.
  - rewrite E. simpl. eexists. split; [done|]. split; simpl.
    + eapply oinv_ext; [exact I'|..]; [|done]. intros a. unfold lroot. tauto.
    + intros fd a. by rewrite lookup_empty.
    + by eapply calm_clts.
Qed.

Section server_run.
  Context `{Memory} (created : positive -> Z * Z).

Lemma srv_step_safe s act :
  sinv s -> safe_act s act = true -> exists s', srv_step created s act = Ret s' /\ sinv s'.
Proof using Type.
  intros S Hsafe. pose proof (s_objs _ S) as I. pose proof Hsafe as [Hd Hs]%andb_true_iff.
  unfold srv_step. rewrite (proj1 (negb_true_iff _) Hd).
  destruct act as [s1| | |i n|i|i|i b r|i|i|i|]; try discriminate Hs; simpl; unfold on_srv.
  - destruct (srv_accept_ok s s1 S) as (s' & ? & ? & _). eauto.
  - by apply save_conn_ok.
  - by apply latest_conn_ok.
  - destruct (thr_enter_ok _ I i) as (o & E & I' & Hc). rewrite E. simpl. eauto using calm_step.
  - case_bool_decide as Hb; [|eauto].
    destruct (thr_start_ok _ I i b r Hb) as (o & E & I' & Hc). rewrite E. simpl. eauto using calm_step.
  - destruct (thr_finish_ok _ I i) as (o & E & I' & Hc). rewrite E. simpl. eauto using calm_step.
  - destruct (thr_end_ok _ _ _ i I) as (o & E & I' & Ht & Hf). rewrite E. simpl. eexists. split; [done|].
    apply sinv_keep; auto. intros t Hin. apply (s_clts _ S). auto.
  - by apply old_instance_ok.
  - by apply stop_listener_ok.
Qed.

Lemma srv_step_inv s act s' : sinv s -> srv_step created s act = Ret s' -> sinv s'.
Proof using Type.
  intros S E. destruct (safe_act s act) eqn:Hs.
  { destruct (srv_step_safe s act S Hs) as (s1 & ? & ?). congruence. }
  unfold safe_act in Hs. unfold srv_step in E. destruct (on_deleted s act) eqn:Hd; [done|].
  destruct act; try discriminate Hs; simpl in E.
  - unfold on_srv in E. apply bind_ret_inv in E as (o & E & [= <-]).
    apply (cb_write_ok _ (s_objs _ S)) in E as [? ?]. by apply calm_step.
  - by eapply srv_read_ok.
  - (* a client without a nonce *)
    destruct (threads (so s) !! i) as [[[a|] [] n]|] eqn:Hi;
      try (unfold latest_conn in E; rewrite Hi in E; by injection E as <-).
    destruct (saved s !! n) as [b|] eqn:Hb.
    + destruct (latest_conn_saved s i a n b S Hi Hb) as (s1 & ? & ?). congruence.
    + unfold latest_conn in E. rewrite Hi, Hb in E.
      apply bind_ret_inv in E as (c & _ & E). destruct (isdead c && _); [|by injection E as <-].
      apply bind_ret_inv in E as (o & _ & E). done.
Qed.

Lemma srv_run_inv acts : forall s s', sinv s -> srv_run created s acts = Ret s' -> sinv s'.
Proof using Type.
  induction acts as [|x acts IH]; simpl; intros s s' S E; [by injection E as <-|].
  apply bind_ret_inv in E as (s1 & E1 & E). eauto using srv_step_inv.
Qed.
End server_run.

Lemma rpcs_conns_new_inv : sinv rpcs_conns_new.
Proof.
  split; simpl.
  - eapply oinv_ext; [exact objs_new_inv|..].
    + intros a. unfold chan_is, listens. split; [done|]. intros [fd Hfd]. by rewrite lookup_empty in Hfd.
    + intros a. unfold srv_refs. by rewrite !mcount_empty.
  - intros fd a. by rewrite lookup_empty.
  - intros t Ht. by apply elem_of_nil in Ht.
Qed.

(** ** Jobs whose record is deleted *)

Definition on_record (t : thread) : Prop := t_ch t <> None.

Lemma o_incref_threads o a o' : o_incref o a = Ret o' -> threads o' = threads o.
Proof. intros E. apply bind_ret_inv in E as (c & _ & [= <-]). done. Qed.
Lemma o_decref_threads o a o' : o_decref o a = Ret o' -> threads o' = threads o.
Proof.
  intros E. apply bind_ret_inv in E as (c & _ & E). apply bind_ret_inv in E as ([c'|] & _ & [= <-]); done.
Qed.
Lemma o_closeconn_threads o a o' : o_closeconn o a = Ret o' -> threads o' = threads o.
Proof.
  intros E. apply bind_ret_inv in E as (c & _ & E). unfold closeconn in E.
  destruct (dead_ c); injection E as <-; done.
Qed.
Lemma collect_threads l : forall o m o' m', collect l o m = Ret (o', m') -> threads o' = threads o.
Proof.
  induction l as [|[fd a] l IH]; simpl; intros o m o' m' E; [by injection E as <- <-|].
  apply bind_ret_inv in E as (c & _ & E). destruct (isdead c && _); [|by eapply IH].
  apply bind_ret_inv in E as (o1 & E1 & E). rewrite (IH _ _ _ _ E). by eapply o_decref_threads.
Qed.
Lemma close_conns_threads l : forall o o', close_conns l o = Ret o' -> threads o' = threads o.
Proof.
  induction l as [|[fd a] l IH]; simpl; intros o o' E; [by injection E as <-|].
  apply bind_ret_inv in E as (o1 & E1 & E). apply bind_ret_inv in E as (o2 & E2 & E).
  rewrite (IH _ _ E), (o_decref_threads _ _ _ E2). by eapply o_closeconn_threads.
Qed.

(** A PDU that is not accepted is not handed over. *)
Lemma cb_read_refused `{Memory} o a k1 k2 stale sk o' op :
  cb_read o a k1 k2 stale false sk = Ret (o', op) -> op = None.
Proof.
  unfold cb_read. case_bool_decide; [|by intros [= _ <-]]. intros E.
  apply bind_ret_inv in E as (c & _ & E). apply bind_ret_inv in E as ([[[c1 s1] reqs] op1] & E1 & [= _ <-]).
  unfold read_cb in E1. destruct (dead_ c); [by injection E1 as _ _ _ <-|].
  apply bind_ret_inv in E1 as ([[c2 s2] succ] & _ & E1). unfold hand_over in E1.
  destruct succ, (complete_pdu _); by injection E1 as _ _ _ <-.
Qed.
Lemma tags_record ts ts' : map tag ts' = map tag ts -> Forall on_record ts -> Forall on_record ts'.
Proof.
  intros E Hs. assert (forall l, Forall on_record l <-> Forall (fun x => x.1 <> None) (map tag l)) as Hm.
  { intros l. by rewrite Forall_map. }
  apply Hm. rewrite E. by apply Hm.
Qed.
Lemma insert_record ts i a ph n :
  Forall on_record ts -> Forall on_record (<[i := Thread (Some a) ph n]> ts).
Proof. intros Hs. by apply Forall_insert. Qed.

(** None is deleted as long as [reachable_] is steady. *)
Lemma steady_step `{Memory} created s act s' :
  steady act = true -> srv_step created s act = Ret s' -> sinv s ->
  Forall on_record (threads (so s)) -> Forall on_record (threads (so s')).
Proof.
  intros Hst E S Hs. pose proof (s_objs _ S) as I.
  unfold srv_step in E. destruct (on_deleted s act); [done|].
  destruct act as [s1|a r|a k1 k2 stale reach room reach' sk|i n|i|i|i b r|i|i|i|].
  - unfold srv_accept in E. destruct (_ || _); [by injection E as <-|].
    apply bind_ret_inv in E as ([o m] & Ec & [= <-]). simpl. by rewrite (collect_threads _ _ _ _ _ Ec).
  - apply bind_ret_inv in E as (o & E & [= <-]). apply (cb_write_ok _ I) in E as [_ [Ht _]].
    by eapply tags_record.
  - apply bind_ret_inv in E as ([o op] & Hcb & E). destruct (cb_read_ok _ I _ _ _ _ _ _ _ _ Hcb) as (_ & [Ht _] & _).
    apply (tags_record _ _ Ht) in Hs. destruct op as [p|]; [|by injection E as <-].
    destruct reach; [|by injection E as <-]. apply bind_ret_inv in E as (o1 & E1 & E).
    assert (reach' = true) as ->.
    { simpl in Hst. destruct room; [done|]. by apply cb_read_refused in Hcb. }
    injection E as <-. simpl. rewrite (o_incref_threads _ _ _ E1). apply Forall_app. split; [done|].
    by repeat constructor.
  - unfold save_conn in E. destruct (threads (so s) !! i) as [[[a|] [] n0]|]; try (by injection E as <-).
    destruct (n =? 0); [by injection E as <-|]. apply bind_ret_inv in E as ([o sv] & E1 & [= <-]). simpl.
    apply insert_record. destruct (saved s !! n) as [b|]; [destruct (older created b a)|].
    + apply bind_ret_inv in E1 as (o1 & Ed & E1). apply bind_ret_inv in E1 as (o2 & Ei & [= <- <-]).
      by rewrite (o_incref_threads _ _ _ Ei), (o_decref_threads _ _ _ Ed).
    + by injection E1 as <- <-.
    + apply bind_ret_inv in E1 as (o2 & Ei & [= <- <-]). by rewrite (o_incref_threads _ _ _ Ei).
  - unfold latest_conn in E. destruct (threads (so s) !! i) as [[[a|] [] n0]|]; try (by injection E as <-).
    apply bind_ret_inv in E as (c & _ & E). destruct (isdead c && _); [|by injection E as <-].
    apply bind_ret_inv in E as (o & Ed & E). destruct (saved s !! n0); [|done].
    apply bind_ret_inv in E as (o1 & Ei & [= <-]). simpl. apply insert_record.
    by rewrite (o_incref_threads _ _ _ Ei), (o_decref_threads _ _ _ Ed).
  - apply bind_ret_inv in E as (o & E & [= <-]). destruct (thr_enter_ok _ I i) as (o' & E' & _ & Ht & _).
    rewrite E in E'. injection E' as <-. by eapply tags_record.
  - case_bool_decide as Hb; [|by injection E as <-]. apply bind_ret_inv in E as (o & E & [= <-]).
    destruct (thr_start_ok _ I i b r Hb) as (o' & E' & _ & Ht & _).
    rewrite E in E'. injection E' as <-. by eapply tags_record.
  - apply bind_ret_inv in E as (o & E & [= <-]). destruct (thr_finish_ok _ I i) as (o' & E' & _ & Ht & _).
    rewrite E in E'. injection E' as <-. by eapply tags_record.
  - apply bind_ret_inv in E as (o & E & [= <-]). destruct (thr_end_ok _ _ _ i I) as (o' & E' & _ & Ht & _).
    rewrite E in E'. injection E' as <-. simpl. apply Forall_forall. intros t Hin.
    by apply (proj1 (Forall_forall _ _) Hs), Ht.
  - unfold old_instance in E. destruct (threads (so s) !! i) as [[[a|] [] n0]|]; injection E as <-; try done.
    simpl. by apply Forall_delete.
  - apply bind_ret_inv in E as (o & E & [= <-]). simpl. by rewrite (close_conns_threads _ _ _ E).
Qed.

Lemma steady_run `{Memory} created acts : forall s s',
  Forall (fun act => steady act = true) acts -> sinv s -> Forall on_record (threads (so s)) ->
  srv_run created s acts = Ret s' -> Forall on_record (threads (so s')).
Proof.
  induction acts as [|x acts IH]; simpl; intros s s' Hst S Hs E; [by injection E as <-|].
  apply Forall_cons in Hst as [Hx Hst]. apply bind_ret_inv in E as (s1 & E1 & E).
  eapply IH; [exact Hst| | |exact E]; [by eapply srv_step_inv|by eapply steady_step].
Qed.
Lemma on_record_all s act : Forall on_record (threads (so s)) -> on_deleted s act = false.
Proof.
  intros Hs. unfold on_deleted. destruct (job_of act) as [i|]; [|done]. simpl.
  destruct (threads (so s) !! i) as [[[a|] ph n]|] eqn:Hi; try done.
  by destruct (Forall_lookup_1 _ _ _ _ Hs Hi).
Qed.


(** A connection on which a request for an old instance came is never deleted again, whether it
    is dead or not. *)
Lemma leaked_grows `{Memory} created acts : forall s s' a,
  srv_run created s acts = Ret s' -> a ∈ leaked s -> a ∈ leaked s'.
Proof.
  induction acts as [|x acts IH]; simpl; intros s s' a E Ha; [by injection E as <-|].
  apply bind_ret_inv in E as (s1 & E1 & E). eapply IH; [exact E|]. clear IH E.
  unfold srv_step in E1. destruct (on_deleted s x); [done|].
  destruct x; simpl in E1; unfold srv_accept, on_srv, srv_read, old_instance, stop_listener, save_conn, latest_conn in E1;
    repeat first
      [ apply bind_ret_inv in E1 as ([? ?] & ? & E1)
      | apply bind_ret_inv in E1 as (? & ? & E1)
      | progress simplify_eq/=
      | match type of E1 with context [match ?y with _ => _ end] => destruct y end ]; try done; by right.
Qed.
Lemma leaked_forever `{Memory} created acts s s' a :
  sinv s -> a ∈ leaked s -> srv_run created s acts = Ret s' -> is_Some (heap (so s') !! a).
Proof.
  intros S Ha E. pose proof (leaked_grows created acts s s' a E Ha) as Ha'.
  apply srv_run_inv in E; [|done]. apply (i_live _ _ _ (s_objs _ E)).
  assert (forall l, a ∈ l -> (0 < lcount a l)%nat) as Hpos.
  { clear. intros l. induction 1; simpl; rewrite ?one_eq; lia. }
  specialize (Hpos _ Ha'). unfold srv_refs. lia.
Qed.

(** * A client and a server at work *)

Module conns_example.
#[local] Instance zeroed : Memory := char_of_Z 0.
Definition result {A} (d : A) (c : outcome A) : A := match c with Ret a => a | Fault _ => d end.

(** The first connection fails under a call, and another call makes a second one. *)
Definition two_calls : list clt_act :=
  [CallBegin; GetRefconn 0 (Some 7); SendEnter 0; SendStart 0 hello (WriteErr false); SendFinish 0;
   CallBegin; GetRefconn 1 (Some 8)].
Definition after_two : rpcc_conns := result rpcc_conns_new (clt_run rpcc_conns_new two_calls).

Lemma client_connections_counted_witness :
  (exists c, heap (co after_two) !! 1%positive = Some c /\ dead_ c = true /\ refno_ c = 1) /\
  chan_ after_two = Some 2%positive /\
  (exists k', clt_step after_two (CallEnd 0) = Ret k' /\ heap (co k') !! 1%positive = None).
Proof.
  assert (E : clt_run rpcc_conns_new two_calls = Ret after_two) by (vm_compute; reflexivity).
  destruct (client_connections_counted two_calls after_two E) as (_ & Hc & _ & Hs & _).
  split; [|split; [vm_compute; reflexivity|]].
  - destruct (heap (co after_two) !! 1%positive) as [c|] eqn:Ha; [|vm_compute in Ha; discriminate Ha].
    exists c. split; [reflexivity|]. split; [vm_compute in Ha; injection Ha as <-; reflexivity|].
    rewrite (Hc 1%positive c Ha). vm_compute. reflexivity.
  - destruct (Hs (CallEnd 0) eq_refl) as [k' Ek]. exists k'. split; [exact Ek|].
    vm_compute in Ek. injection Ek as <-. vm_compute. reflexivity.
Defined.

(** A request arrives on a connection that is saved as its client's, then dies. *)
Definition pdu : sock := Sock (frame hello) false false.
Definition born (a : positive) : Z * Z := (Zpos a, 0).
Definition request_and_end : list srv_act :=
  [Accept 5; SrvReadCb 1 4 99 false true true true pdu; SaveConn 0 77;
   SrvReadCb 1 4 99 false true true true (Sock [] true false); Accept 6;
   SrvReadCb 2 4 99 false true true true pdu; SaveConn 1 77; JobEnd 0; JobEnd 0].
Definition after_end : rpcs_conns := result rpcs_conns_new (srv_run born rpcs_conns_new request_and_end).


(** The server is made unreachable while a request is put into the queue: the worker that takes it
    uses a record that was freed. *)
Example deleted_job_runs :
  srv_run born rpcs_conns_new
    [Accept 5; SrvReadCb 1 4 99 false true true false pdu; SaveConn 0 77] = Fault Undefined.
Proof. vm_compute. reflexivity. Qed.

(** A client without a nonce whose connection dies before its reply is sent: the code follows
    the null pointer it finds in [conns_]. *)
Example null_connection :
  srv_run born rpcs_conns_new
    [Accept 5; SrvReadCb 1 4 99 false true true true pdu;
     SrvReadCb 1 4 99 false true true true (Sock [] true false); LatestConn 0] = Fault Undefined.
Proof. vm_compute. reflexivity. Qed.
End conns_example.
