(* ===== verification/Stubs.v ===== *)
(** The stubs of the RPC layer: the overloads of [rpcc::call] and [rpcs::reg] of rpc/rpc.h for
    up to seven arguments, those of [rsm_client::call] and [rsm::reg] of rsm_client.h and rsm.h
    for up to five with [rsm::execute], and the operators of rpc/marshall.h for maps.

    An overload's body is a definition of its own.  The insertion and extraction of several
    arguments one after the other are those of a tuple ([marshal_pair]), so that the stub of
    [n] arguments is proved to be the stub of one, at the type of [n]-tuples, and what
    [Rpc] proves of calls with one argument holds of all. *)
From Stdlib Require Import ZArith Lia Ascii String.
From stdpp Require Import base gmap list strings.
From S2P Require Import Prelude TextIO Marshall Protocols PaxosLog Acceptor Proposer Config Rsm.
From S2P Require Import RpcClient RpcServer.
Local Open Scope Z_scope.

(** * Tuples *)

#[global, program] Instance marshal_pair {A B} `{MA : Marshal A, MB : Marshal B}
    : Marshal (A * B) := {|
  put _ m x := put (put m x.1) x.2;
  get u old := '(u, a) ← get u old.1; '(u, b) ← get u old.2; Ret (u, (a, b));
  enc x := enc x.1 ++ enc x.2;
  sendable x := sendable x.1 /\ sendable x.2 |}.
Next Obligation.
  intros A B MA MB Mem m [a b] Hm. simpl. apply appends_put.
  by apply (appends_put m m []), appends_refl.
Qed.
Next Obligation.
  intros A B MA MB u [a b] [oa ob] r W [Ha Hb] L. simpl in *. rewrite <- app_assoc in L.
  destruct (get_enc u a oa _ W Ha L) as (-> & W1 & L1). simpl.
  destruct (get_enc _ b ob _ W1 Hb L1) as (-> & W2 & L2). simpl.
  rewrite u_adv_adv in *. by rewrite length_app.
Qed.

(** * [rpcc::call]

    The request each overload builds; the rest is [call_m]. *)

Section calls.
  Context `{Memory} {A1 A2 A3 A4 A5 A6 A7 : Type}.
  Context `{Marshal A1, Marshal A2, Marshal A3, Marshal A4, Marshal A5, Marshal A6, Marshal A7}.

Definition call0 : marshall := marshall_new.
Definition call1_args (a1 : A1) : marshall :=
  let m := marshall_new in
  put m a1.
Definition call2 (a1 : A1) (a2 : A2) : marshall :=
  let m := marshall_new in
  let m := put m a1 in
  put m a2.
Definition call3 (a1 : A1) (a2 : A2) (a3 : A3) : marshall :=
  let m := marshall_new in
  let m := put m a1 in
  let m := put m a2 in
  put m a3.
Definition call4 (a1 : A1) (a2 : A2) (a3 : A3) (a4 : A4) : marshall :=
  let m := marshall_new in
  let m := put m a1 in
  let m := put m a2 in
  let m := put m a3 in
  put m a4.
Definition call5 (a1 : A1) (a2 : A2) (a3 : A3) (a4 : A4) (a5 : A5) : marshall :=
  let m := marshall_new in
  let m := put m a1 in
  let m := put m a2 in
  let m := put m a3 in
  let m := put m a4 in
  put m a5.
Definition call6 (a1 : A1) (a2 : A2) (a3 : A3) (a4 : A4) (a5 : A5) (a6 : A6) : marshall :=
  let m := marshall_new in
  let m := put m a1 in
  let m := put m a2 in
  let m := put m a3 in
  let m := put m a4 in
  let m := put m a5 in
  put m a6.
Definition call7 (a1 : A1) (a2 : A2) (a3 : A3) (a4 : A4) (a5 : A5) (a6 : A6) (a7 : A7)
    : marshall :=
  let m := marshall_new in
  let m := put m a1 in
  let m := put m a2 in
  let m := put m a3 in
  let m := put m a4 in
  let m := put m a5 in
  let m := put m a6 in
  put m a7.
End calls.

(** * [rpcs::reg]

    The handler each overload makes of a method; the arguments' variables start out as
    [o1], [o2], ...  [handler1] and [handler2] are in [RpcServer]. *)

Section handlers.
  Context `{Memory} {S R A1 A2 A3 A4 A5 A6 A7 : Type}.
  Context `{Marshal R, Marshal A1, Marshal A2, Marshal A3, Marshal A4, Marshal A5, Marshal A6,
    Marshal A7}.

Definition handler3 (meth : S -> A1 -> A2 -> A3 -> S * Z * R) (o1 : A1) (o2 : A2) (o3 : A3)
    (s : S) (args : unmarshall) (ret : marshall) : outcome (S * Z * marshall) :=
  '(args, a1) ← get args o1;
  '(args, a2) ← get args o2;
  '(args, a3) ← get args o3;
  if negb (okdone args) then Ret (s, rpc_const.unmarshal_args_failure, ret)
  else let '(s, b, r) := meth s a1 a2 a3 in Ret (s, b, put ret r).

Definition handler4 (meth : S -> A1 -> A2 -> A3 -> A4 -> S * Z * R)
    (o1 : A1) (o2 : A2) (o3 : A3) (o4 : A4)
    (s : S) (args : unmarshall) (ret : marshall) : outcome (S * Z * marshall) :=
  '(args, a1) ← get args o1;
  '(args, a2) ← get args o2;
  '(args, a3) ← get args o3;
  '(args, a4) ← get args o4;
  if negb (okdone args) then Ret (s, rpc_const.unmarshal_args_failure, ret)
  else let '(s, b, r) := meth s a1 a2 a3 a4 in Ret (s, b, put ret r).

Definition handler5 (meth : S -> A1 -> A2 -> A3 -> A4 -> A5 -> S * Z * R)
    (o1 : A1) (o2 : A2) (o3 : A3) (o4 : A4) (o5 : A5)
    (s : S) (args : unmarshall) (ret : marshall) : outcome (S * Z * marshall) :=
  '(args, a1) ← get args o1;
  '(args, a2) ← get args o2;
  '(args, a3) ← get args o3;
  '(args, a4) ← get args o4;
  '(args, a5) ← get args o5;
  if negb (okdone args) then Ret (s, rpc_const.unmarshal_args_failure, ret)
  else let '(s, b, r) := meth s a1 a2 a3 a4 a5 in Ret (s, b, put ret r).

Definition handler6 (meth : S -> A1 -> A2 -> A3 -> A4 -> A5 -> A6 -> S * Z * R)
    (o1 : A1) (o2 : A2) (o3 : A3) (o4 : A4) (o5 : A5) (o6 : A6)
    (s : S) (args : unmarshall) (ret : marshall) : outcome (S * Z * marshall) :=
  '(args, a1) ← get args o1;
  '(args, a2) ← get args o2;
  '(args, a3) ← get args o3;
  '(args, a4) ← get args o4;
  '(args, a5) ← get args o5;
  '(args, a6) ← get args o6;
  if negb (okdone args) then Ret (s, rpc_const.unmarshal_args_failure, ret)
  else let '(s, b, r) := meth s a1 a2 a3 a4 a5 a6 in Ret (s, b, put ret r).

Definition handler7 (meth : S -> A1 -> A2 -> A3 -> A4 -> A5 -> A6 -> A7 -> S * Z * R)
    (o1 : A1) (o2 : A2) (o3 : A3) (o4 : A4) (o5 : A5) (o6 : A6) (o7 : A7)
    (s : S) (args : unmarshall) (ret : marshall) : outcome (S * Z * marshall) :=
  '(args, a1) ← get args o1;
  '(args, a2) ← get args o2;
  '(args, a3) ← get args o3;
  '(args, a4) ← get args o4;
  '(args, a5) ← get args o5;
  '(args, a6) ← get args o6;
  '(args, a7) ← get args o7;
  if negb (okdone args) then Ret (s, rpc_const.unmarshal_args_failure, ret)
  else let '(s, b, r) := meth s a1 a2 a3 a4 a5 a6 a7 in Ret (s, b, put ret r).
End handlers.

(** * [rsm_client::call] and [rsm::reg]

    The requests of the client's overloads are those of [rpcc::call].  A handler of the
    replicated state machine asserts that its arguments were all there. *)

Section rsm_handlers.
  Context `{Memory} {S R A1 A2 A3 A4 A5 : Type}.
  Context `{Marshal R, Marshal A1, Marshal A2, Marshal A3, Marshal A4, Marshal A5}.

Definition rsm_handler1 (meth : S -> A1 -> S * Z * R) (o1 : A1)
    (s : S) (args : unmarshall) (ret : marshall) : outcome (S * Z * marshall) :=
  '(args, a1) ← get args o1;
  _ ← verify (okdone args);
  let '(s, b, r) := meth s a1 in Ret (s, b, put ret r).

Definition rsm_handler2 (meth : S -> A1 -> A2 -> S * Z * R) (o1 : A1) (o2 : A2)
    (s : S) (args : unmarshall) (ret : marshall) : outcome (S * Z * marshall) :=
  '(args, a1) ← get args o1;
  '(args, a2) ← get args o2;
  _ ← verify (okdone args);
  let '(s, b, r) := meth s a1 a2 in Ret (s, b, put ret r).

Definition rsm_handler3 (meth : S -> A1 -> A2 -> A3 -> S * Z * R) (o1 : A1) (o2 : A2) (o3 : A3)
    (s : S) (args : unmarshall) (ret : marshall) : outcome (S * Z * marshall) :=
  '(args, a1) ← get args o1;
  '(args, a2) ← get args o2;
  '(args, a3) ← get args o3;
  _ ← verify (okdone args);
  let '(s, b, r) := meth s a1 a2 a3 in Ret (s, b, put ret r).

Definition rsm_handler4 (meth : S -> A1 -> A2 -> A3 -> A4 -> S * Z * R)
    (o1 : A1) (o2 : A2) (o3 : A3) (o4 : A4)
    (s : S) (args : unmarshall) (ret : marshall) : outcome (S * Z * marshall) :=
  '(args, a1) ← get args o1;
  '(args, a2) ← get args o2;
  '(args, a3) ← get args o3;
  '(args, a4) ← get args o4;
  _ ← verify (okdone args);
  let '(s, b, r) := meth s a1 a2 a3 a4 in Ret (s, b, put ret r).

Definition rsm_handler5 (meth : S -> A1 -> A2 -> A3 -> A4 -> A5 -> S * Z * R)
    (o1 : A1) (o2 : A2) (o3 : A3) (o4 : A4) (o5 : A5)
    (s : S) (args : unmarshall) (ret : marshall) : outcome (S * Z * marshall) :=
  '(args, a1) ← get args o1;
  '(args, a2) ← get args o2;
  '(args, a3) ← get args o3;
  '(args, a4) ← get args o4;
  '(args, a5) ← get args o5;
  _ ← verify (okdone args);
  let '(s, b, r) := meth s a1 a2 a3 a4 a5 in Ret (s, b, put ret r).
End rsm_handlers.

(** A handler, whatever method it was made of, on the object's state. *)
Definition rsm_fn (S : Type) : Type := S -> unmarshall -> marshall -> outcome (S * Z * marshall).

(** [rsm::reg1]: a later registration replaces an earlier one. *)
Definition rsm_reg1 {S} (procs : gmap Z (rsm_fn S)) (proc : Z) (h : rsm_fn S)
    : gmap Z (rsm_fn S) := <[proc := h]> procs.

(** [rsm::execute]: the reply is the status and the marshalled result as a string. *)
Definition execute `{Memory} {S} (procs : gmap Z (rsm_fn S)) (procno : Z) (req : cstring) (s : S)
    : outcome (S * cstring) :=
  match procs !! procno with
  | None => Fault AssertFail
  | Some h =>
      let args := take_content req in
      '(s, ret, rep) ← h s args marshall_new;
      let rep1 := put_int marshall_new ret in
      let rep1 := put_string rep1 (get_content rep) in
      Ret (s, get_content rep1)
  end.

(** [rsm_client::call_m], given what [invoke] returned. *)
Definition rsm_call_m `{Memory} {R} `{Marshal R} (intret : Z) (rep : cstring) (r : R)
    : outcome (Z * R) :=
  _ ← verify (intret =? rsm_client_protocol.OK);
  let u := take_content rep in
  let '(u, intret) := get_int u in
  if intret <? 0 then Ret (intret, r)
  else
    '(u, res) ← get_string u [];
    _ ← verify (okdone u);
    let u1 := take_content res in
    '(u1, r) ← get u1 r;
    _ ← verify (okdone u1);
    Ret (intret, r).

(** The client's overloads; [inv] is [invoke] of the procedure called. *)
Section rsm_calls.
  Context `{Memory} {R A1 A2 A3 A4 A5 : Type}.
  Context `{Marshal R, Marshal A1, Marshal A2, Marshal A3, Marshal A4, Marshal A5}.
  Context (inv : cstring -> outcome (Z * cstring)).

Definition rsm_call1 (a1 : A1) (r : R) : outcome (Z * R) :=
  let m := marshall_new in
  let m := put m a1 in
  '(intret, rep) ← inv (get_content m); rsm_call_m intret rep r.
Definition rsm_call2 (a1 : A1) (a2 : A2) (r : R) : outcome (Z * R) :=
  let m := marshall_new in
  let m := put m a1 in
  let m := put m a2 in
  '(intret, rep) ← inv (get_content m); rsm_call_m intret rep r.
Definition rsm_call3 (a1 : A1) (a2 : A2) (a3 : A3) (r : R) : outcome (Z * R) :=
  let m := marshall_new in
  let m := put m a1 in
  let m := put m a2 in
  let m := put m a3 in
  '(intret, rep) ← inv (get_content m); rsm_call_m intret rep r.
Definition rsm_call4 (a1 : A1) (a2 : A2) (a3 : A3) (a4 : A4) (r : R) : outcome (Z * R) :=
  let m := marshall_new in
  let m := put m a1 in
  let m := put m a2 in
  let m := put m a3 in
  let m := put m a4 in
  '(intret, rep) ← inv (get_content m); rsm_call_m intret rep r.
Definition rsm_call5 (a1 : A1) (a2 : A2) (a3 : A3) (a4 : A4) (a5 : A5) (r : R)
    : outcome (Z * R) :=
  let m := marshall_new in
  let m := put m a1 in
  let m := put m a2 in
  let m := put m a3 in
  let m := put m a4 in
  let m := put m a5 in
  '(intret, rep) ← inv (get_content m); rsm_call_m intret rep r.
End rsm_calls.

(** * [rsm_client::invoke]

    What happens in a turn of the loop: the primary cannot be bound; or it answers, and
    [init_members] gets its answer should it be asked. *)
Inductive attempt :=
| NoBind
| PrimaryAnswers (ret : Z) (rep : cstring) (members : option (Z * list cstring)).

(** The body of [primary_failure] is not written. *)
Definition primary_failure (c : rsm_client) : rsm_client := c.

Fixpoint rsm_invoke (ts : list attempt) (c : rsm_client) : outcome (rsm_client * Z * cstring) :=
  match ts with
  | [] => Fault Diverged
  | NoBind :: ts' => rsm_invoke ts' (primary_failure c)
  | PrimaryAnswers ret rep members :: ts' =>
      if ret =? rsm_client_protocol.OK then Ret (c, ret, rep)
      else if ret =? rsm_client_protocol.BUSY then rsm_invoke ts' c
      else if ret =? rsm_client_protocol.NOTPRIMARY then
        '(c, ok) ← init_members c members;
        rsm_invoke ts' (if (ok : bool) then c else primary_failure c)
      else rsm_invoke ts' (primary_failure c)
  end.

(** * Maps *)

Section maps.
  Context `{MA : Marshal A, MB : Marshal B} (ltb : A -> A -> bool).

(** A [std::map] is the list of its entries in the order of their keys; [d[a] = b]. *)
Fixpoint map_assign (d : list (A * B)) (a : A) (b : B) : list (A * B) :=
  match d with
  | [] => [(a, b)]
  | (x, y) :: d' =>
      if ltb a x then (a, b) :: d
      else if ltb x a then (x, y) :: map_assign d' a b
      else (x, b) :: d'
  end.

Definition put_map `{Memory} (m : marshall) (d : list (A * B)) : marshall :=
  fold_left (fun m e => put (put m e.1) e.2) d (put_uint m (u32 (Z.of_nat (length d)))).

(** The loop, with the fresh variables [a0] and [b0]. *)
Fixpoint get_entries (a0 : A) (b0 : B) (n : nat) (u : unmarshall) (d : list (A * B))
    : outcome (unmarshall * list (A * B)) :=
  match n with
  | O => Ret (u, d)
  | S n' =>
      '(u, a) ← get u a0;
      '(u, b) ← get u b0;
      get_entries a0 b0 n' u (map_assign d a b)
  end.

Definition get_map (a0 : A) (b0 : B) (u : unmarshall) (_ : list (A * B))
    : outcome (unmarshall * list (A * B)) :=
  let '(u, n) := get_uint u in get_entries a0 b0 (Z.to_nat n) u [].

Definition map_ok (d : list (A * B)) : Prop := Sorted.StronglySorted (fun x y => ltb x.1 y.1 = true) d.
Definition enc_entries (d : list (A * B)) : list ascii := concat (map enc d).

Context (ltb_asym : forall x y, ltb x y = true -> ltb y x = false).

Lemma map_assign_last d a b :
  Forall (fun e => ltb e.1 a = true) d -> map_assign d a b = d ++ [(a, b)].
Proof.
  induction 1 as [|[x y] d Hx _ IH]; simpl in *; [done|]. by rewrite (ltb_asym _ _ Hx), Hx, IH.
Qed.

Lemma put_map_appends `{Memory} m d :
  m_wf m -> appends m (put_map m d) (enc_uint (u32 (Z.of_nat (length d))) ++ enc_entries d).
Proof.
  intros Hm. unfold put_map.
  assert (Hall : forall l m1 a, appends m m1 a ->
    appends m (fold_left (fun m e => put (put m e.1) e.2) l m1) (a ++ enc_entries l)).
  { induction l as [|e l IH]; intros m1 a Ha; simpl; [by rewrite app_nil_r|].
    unfold enc_entries in *. simpl. rewrite app_assoc. apply IH.
    rewrite app_assoc. by do 2 apply appends_put. }
  apply Hall. by apply (appends_uint m m []), appends_refl.
Qed.

Lemma get_entries_enc a0 b0 d : forall u done r,
  u_wf u -> Forall sendable d -> u_left u = enc_entries d ++ r -> map_ok (done ++ d) ->
  exists u', get_entries a0 b0 (length d) u done = Ret (u', done ++ d) /\ u_wf u' /\ u_left u' = r.
Proof.
  induction d as [|[a b] d IH]; intros u dn r W Hs L Hok; simpl.
  - exists u. by rewrite app_nil_r.
  - apply Forall_cons in Hs as [[Ha Hb] Hs]. unfold enc_entries in L. simpl in L.
    rewrite <- !app_assoc in L.
    destruct (get_enc u a a0 _ W Ha L) as (-> & W1 & L1). simpl.
    destruct (get_enc _ b b0 _ W1 Hb L1) as (-> & W2 & L2). simpl.
    rewrite map_assign_last.
    + replace (dn ++ (a, b) :: d) with ((dn ++ [(a, b)]) ++ d) in * by by rewrite <- app_assoc.
      by apply (IH _ _ r).
    + clear -Hok. unfold map_ok in Hok. induction dn as [|e dn IH]; [done|].
      simpl in Hok. inversion Hok as [|? ? Hsub Hall]; subst. constructor; [|by apply IH].
      apply Forall_app in Hall as [_ Hall]. by apply Forall_cons in Hall as [? _].
Qed.

(** Maps on the wire: a map whose entries are in the order of their keys, inserted into a
    message, is extracted as the same map, whatever the variable held, with nothing lost or
    reordered and what follows left to read. *)
Theorem map_roundtrip `{Memory} a0 b0 d old u r :
  u_wf u -> Forall sendable d -> map_ok d -> is_u32 (Z.of_nat (length d)) ->
  u_left u = get_content (put_map marshall_new d) ++ r ->
  exists u', get_map a0 b0 u old = Ret (u', d) /\ u_wf u' /\ u_left u' = r.
Proof.
  intros W Hs Hok Hd L. destruct marshall_new_wf as [Wn En].
  destruct (put_map_appends marshall_new d Wn) as [_ Ec]. rewrite En in Ec.
  rewrite Ec, u32_id, <- app_assoc in L by done. simpl app in L.
  unfold get_map. destruct (get_uint_enc u _ _ W Hd L) as (-> & W1 & L1).
  rewrite Nat2Z.id. by apply (get_entries_enc a0 b0 d _ [] r).
Qed.
End maps.

(** * Every stub is the stub of one argument at a tuple *)

(** Both sides extract the same values in the same order. *)
Ltac same_extractions :=
  intros; unfold handler1, handler2, handler3, handler4, handler5, handler6, handler7,
    rsm_handler1, rsm_handler2, rsm_handler3, rsm_handler4, rsm_handler5; simpl;
  repeat match goal with
  | |- context [get ?u ?o] => destruct (get u o) as [[? ?]|?]; simpl
  end; reflexivity.

Section unary.
  Context `{Memory} {S R A1 A2 A3 A4 A5 A6 A7 : Type}.
  Context `{Marshal R, Marshal A1, Marshal A2, Marshal A3, Marshal A4, Marshal A5, Marshal A6,
    Marshal A7}.

Definition tuple2 {T} (f : A1 -> A2 -> T) : A1 * A2 -> T := fun '(a1, a2) => f a1 a2.
Definition tuple3 {T} (f : A1 -> A2 -> A3 -> T) : A1 * A2 * A3 -> T :=
  fun '(a1, a2, a3) => f a1 a2 a3.
Definition tuple4 {T} (f : A1 -> A2 -> A3 -> A4 -> T) : A1 * A2 * A3 * A4 -> T :=
  fun '(a1, a2, a3, a4) => f a1 a2 a3 a4.
Definition tuple5 {T} (f : A1 -> A2 -> A3 -> A4 -> A5 -> T) : A1 * A2 * A3 * A4 * A5 -> T :=
  fun '(a1, a2, a3, a4, a5) => f a1 a2 a3 a4 a5.
Definition tuple6 {T} (f : A1 -> A2 -> A3 -> A4 -> A5 -> A6 -> T)
    : A1 * A2 * A3 * A4 * A5 * A6 -> T :=
  fun '(a1, a2, a3, a4, a5, a6) => f a1 a2 a3 a4 a5 a6.
Definition tuple7 {T} (f : A1 -> A2 -> A3 -> A4 -> A5 -> A6 -> A7 -> T)
    : A1 * A2 * A3 * A4 * A5 * A6 * A7 -> T :=
  fun '(a1, a2, a3, a4, a5, a6, a7) => f a1 a2 a3 a4 a5 a6 a7.

(** Stubs of any arity: the request that [rpcc::call] builds from two to seven arguments
    is the one it builds from their tuple, and the handler that [rpcs::reg] makes of a method
    with as many arguments is the one it makes of the method on tuples; likewise for the
    handlers of [rsm::reg] up to five.  So the arguments travel in order and none is lost. *)
Theorem stubs_are_unary (a1 : A1) (a2 : A2) (a3 : A3) (a4 : A4) (a5 : A5) (a6 : A6) (a7 : A7)
    (s : S) (args : unmarshall) (ret : marshall) :
  (call2 a1 a2 = call1_args (a1, a2) /\
   call3 a1 a2 a3 = call1_args (a1, a2, a3) /\
   call4 a1 a2 a3 a4 = call1_args (a1, a2, a3, a4) /\
   call5 a1 a2 a3 a4 a5 = call1_args (a1, a2, a3, a4, a5) /\
   call6 a1 a2 a3 a4 a5 a6 = call1_args (a1, a2, a3, a4, a5, a6) /\
   call7 a1 a2 a3 a4 a5 a6 a7 = call1_args (a1, a2, a3, a4, a5, a6, a7)) /\
  ((forall meth : S -> A1 -> A2 -> S * Z * R,
      handler2 meth a1 a2 s args ret = handler1 (fun s => tuple2 (meth s)) (a1, a2) s args ret) /\
   (forall meth : S -> A1 -> A2 -> A3 -> S * Z * R,
      handler3 meth a1 a2 a3 s args ret =
      handler1 (fun s => tuple3 (meth s)) (a1, a2, a3) s args ret) /\
   (forall meth : S -> A1 -> A2 -> A3 -> A4 -> S * Z * R,
      handler4 meth a1 a2 a3 a4 s args ret =
      handler1 (fun s => tuple4 (meth s)) (a1, a2, a3, a4) s args ret) /\
   (forall meth : S -> A1 -> A2 -> A3 -> A4 -> A5 -> S * Z * R,
      handler5 meth a1 a2 a3 a4 a5 s args ret =
      handler1 (fun s => tuple5 (meth s)) (a1, a2, a3, a4, a5) s args ret) /\
   (forall meth : S -> A1 -> A2 -> A3 -> A4 -> A5 -> A6 -> S * Z * R,
      handler6 meth a1 a2 a3 a4 a5 a6 s args ret =
      handler1 (fun s => tuple6 (meth s)) (a1, a2, a3, a4, a5, a6) s args ret) /\
   (forall meth : S -> A1 -> A2 -> A3 -> A4 -> A5 -> A6 -> A7 -> S * Z * R,
      handler7 meth a1 a2 a3 a4 a5 a6 a7 s args ret =
      handler1 (fun s => tuple7 (meth s)) (a1, a2, a3, a4, a5, a6, a7) s args ret)) /\
  ((forall meth : S -> A1 -> A2 -> S * Z * R,
      rsm_handler2 meth a1 a2 s args ret =
      rsm_handler1 (fun s => tuple2 (meth s)) (a1, a2) s args ret) /\
   (forall meth : S -> A1 -> A2 -> A3 -> S * Z * R,
      rsm_handler3 meth a1 a2 a3 s args ret =
      rsm_handler1 (fun s => tuple3 (meth s)) (a1, a2, a3) s args ret) /\
   (forall meth : S -> A1 -> A2 -> A3 -> A4 -> S * Z * R,
      rsm_handler4 meth a1 a2 a3 a4 s args ret =
      rsm_handler1 (fun s => tuple4 (meth s)) (a1, a2, a3, a4) s args ret) /\
   (forall meth : S -> A1 -> A2 -> A3 -> A4 -> A5 -> S * Z * R,
      rsm_handler5 meth a1 a2 a3 a4 a5 s args ret =
      rsm_handler1 (fun s => tuple5 (meth s)) (a1, a2, a3, a4, a5) s args ret)).
Proof. split_and!; first [reflexivity | same_extractions]. Qed.
End unary.

(** * A call through the replicated state machine *)

(** A string as a message of its own. *)
Lemma take_content_wf `{Memory} s :
  Z.of_nat (length s) + 24 < 2 ^ 31 -> u_wf (take_content s) /\ u_left (take_content s) = s.
Proof.
  intros Hs. unfold u_wf, u_left, take_content. cbn [u_buf u_sz u_ind u_ok].
  change RPC_HEADER_SZ with 24%nat. rewrite length_app, length_replicate.
  split; [repeat split; lia|]. done.
Qed.

Section rsm_call.
  Context `{Memory} {S R A : Type} `{Marshal R, Marshal A}.

(** What [execute] answers for a status and a result. *)
Lemma execute_reply ret (x : R) :
  get_content (put_string (put_int marshall_new ret) (get_content (put marshall_new x)))
  = enc_uint (u32 ret) ++ enc (enc x).
Proof.
  destruct marshall_new_wf as [W E]. destruct (put_new x) as [_ ->].
  pose proof (appends_uint marshall_new marshall_new [] (u32 ret) (appends_refl _ W)) as Ha.
  destruct (appends_string _ _ _ (enc x) Ha) as [_ Hc]. rewrite E in Hc. exact Hc.
Qed.

(** A call through the state machine: the argument a client passes to [rsm_client::call]
    reaches the method registered for the procedure at a replica that executes the request,
    and when [invoke] returns the replica's reply, the client has the status and the result of
    the method. *)
Theorem rsm_call_executes (procs : gmap Z (rsm_fn S)) proc (meth : S -> A -> S * Z * R)
    o1 r0 x b y s s' :
  procs !! proc = Some (rsm_handler1 meth o1) -> meth s x = (s', b, y) ->
  sendable x -> sendable y -> 0 <= b -> is_s32 b ->
  Z.of_nat (length (enc x)) + 24 < 2 ^ 31 -> Z.of_nat (length (enc y)) + 32 < 2 ^ 31 ->
  rsm_call1 (fun req => '(s1, rep) ← execute procs proc req s; Ret (rsm_client_protocol.OK, rep))
    x r0 = Ret (b, y) /\
  exists rep, execute procs proc (get_content (call1_args x)) s = Ret (s', rep).
Proof.
  intros Hp Hm Hx Hy Hb Hbs Hlx Hly.
  assert (Hex : execute procs proc (get_content (call1_args x)) s =
    Ret (s', enc_uint (u32 b) ++ enc (enc y))).
  { unfold execute, call1_args. rewrite Hp. destruct (put_new x) as [_ ->].
    destruct (take_content_wf (enc x) Hlx) as [W L].
    unfold rsm_handler1. destruct (get_rest x o1 _ W Hx L) as (u' & -> & Hok). simpl.
    rewrite Hok, Hm. simpl. by rewrite execute_reply. }
  split; [|eauto].
  unfold rsm_call1. change (put marshall_new x) with (call1_args x). rewrite Hex.
  set (rep := enc_uint (u32 b) ++ enc (enc y)).
  unfold rsm_call_m. cbn [mbind outcome_bind verify Z.eqb rsm_client_protocol.OK].
  assert (Hrep : Z.of_nat (length rep) + 24 < 2 ^ 31).
  { unfold rep. change (length _) with (4 + (4 + length (enc y)))%nat. lia. }
  destruct (take_content_wf rep Hrep) as [W L]. unfold get_int.
  destruct (get_uint_enc (take_content rep) (u32 b) (enc (enc y)) W (u32_range b) L)
    as (-> & W1 & L1).
  rewrite s32_u32, s32_id by done. rewrite (proj2 (Z.ltb_ge b 0)) by lia.
  destruct (get_rest (A := cstring) (enc y) [] _ W1) as (u2 & E2 & Hok2); [exact I|exact L1|].
  change (get_string (u_adv (take_content rep) 4) []) with
    (get (A := cstring) (u_adv (take_content rep) 4) []). rewrite E2. simpl.
  rewrite Hok2. simpl.
  destruct (take_content_wf (enc y)) as [W3 L3]; [lia|].
  destruct (get_rest y r0 _ W3 Hy L3) as (u4 & -> & Hok4). simpl. by rewrite Hok4.
Qed.

(** The server's [client_invoke] is not written and answers [OK] with an empty string: every
    call a client makes through it fails the assertion on the reply. *)
Lemma rsm_call_aborts (r : rsm) proc (x : A) (r0 : R) :
  rsm_call1 (fun req => let '(_, st, rep) := client_invoke r proc req [] in Ret (st, rep)) x r0
  = Fault AssertFail.
Proof. reflexivity. Qed.
End rsm_call.

(** A client whose primary does not answer, or answers with an error, asks the same primary
    again and again: [primary_failure] does not choose another member. *)
Definition hopeless (t : attempt) : Prop :=
  match t with
  | NoBind => True
  | PrimaryAnswers ret _ _ => ret <> rsm_client_protocol.OK /\ ret <> rsm_client_protocol.NOTPRIMARY
  end.
Lemma invoke_never_switches ts c :
  Forall hopeless ts -> rsm_invoke ts c = Fault Diverged /\ primary_failure c = c.
Proof.
  intros Hts. split; [|done]. induction Hts as [|t ts Ht _ IH]; simpl; [done|].
  destruct t as [|ret rep ms]; simpl in *; [done|]. destruct Ht as [H1 H2].
  rewrite (proj2 (Z.eqb_neq _ _) H1), (proj2 (Z.eqb_neq _ _) H2).
  by destruct (ret =? rsm_client_protocol.BUSY).
Qed.

Module stubs_example.
#[local] Instance zeroed : Memory := char_of_Z 0.
#[local] Existing Instance marshal_int.

Definition ports : list (Z * cstring) := [(1, cs "one"); (7, cs "seven")].

Lemma map_roundtrip_witness :
  exists u', get_map Z.ltb 0 [] (take_content (get_content (put_map marshall_new ports))) [] =
    Ret (u', ports).
Proof.
  assert (Hl : Z.of_nat (length (get_content (put_map marshall_new ports))) + 24 < 2 ^ 31)
    by (vm_compute; reflexivity).
  destruct (take_content_wf _ Hl) as [W L].
  destruct (map_roundtrip Z.ltb (fun x y => ltac:(lia)) 0 [] ports []
    (take_content (get_content (put_map marshall_new ports))) []) as (u' & E & _).
  - exact W.
  - repeat constructor; unfold is_s32; simpl; lia.
  - repeat constructor.
  - unfold is_u32. simpl. lia.
  - rewrite app_nil_r. exact L.
  - exists u'. exact E.
Defined.

(** A register whose [add] returns the new value. *)
Definition add_method (s : Z) (x : Z) : Z * Z * Z := (s + x, 0, s + x).
Definition add_procs : gmap Z (rsm_fn Z) := rsm_reg1 ∅ 9 (rsm_handler1 add_method 0).

Lemma rsm_call_executes_witness :
  rsm_call1 (fun req => '(s1, rep) ← execute add_procs 9 req 40; Ret (rsm_client_protocol.OK, rep))
    2 0 = Ret (0, 42).
Proof.
  apply (rsm_call_executes add_procs 9 add_method 0 0 2 0 42 40 42);
    [reflexivity|reflexivity|unfold sendable; simpl; unfold is_s32; lia..| | |];
    first [lia | unfold is_s32; lia | vm_compute; reflexivity].
Defined.
End stubs_example.
