(* ===== verification/LockRsm.v ===== *)
(** The replicated lock service: lock_server_cache_rsm.cc and lock_client_cache_rsm.cc, whose
    methods the program leaves unwritten, and the lock server process of lock_smain.cc, which
    runs them.

    The methods are modelled as they stand: [acquire] and [release] answer OK at once, the
    state that is transferred is empty.  [smain_server] is the server main() sets up, and
    [serve] takes one request through the two halves of [dispatch] and its handler. *)
From Stdlib Require Import ZArith Lia Ascii String.
From stdpp Require Import base gmap list strings.
From S2P Require Import Prelude TextIO Marshall Protocols RpcServer Stubs.
Local Open Scope Z_scope.

Module lock_server_cache_rsm.
(** [nacquire] is never set; [rsm], where it is stored, is not used. *)
Record server := Server { nacquire : Z }.

(** The variable for the result, [r], is not assigned. *)
Definition acquire (r : Z) (s : server) (lid : Z) (id : cstring) (xid : Z) : server * Z * Z :=
  (s, lock_protocol.OK, r).
Definition release (r : Z) (s : server) (lid : Z) (id : cstring) (xid : Z) : server * Z * Z :=
  (s, lock_protocol.OK, r).
Definition stat (s : server) (lid : Z) : server * Z * Z := (s, lock_protocol.OK, nacquire s).
Definition marshal_state (s : server) : cstring := [].
Definition unmarshal_state (s : server) (state : cstring) : server := s.
End lock_server_cache_rsm.

Module lock_client_cache_rsm.
(** [rand_n] is the value of [rand]. *)
Definition rlock_port (rand_n : Z) : Z := Z.lor (Z.rem rand_n 32000) (Z.shiftl 1 10).
Definition client_id (rand_n : Z) : cstring := cs "127.0.0.1:" ++ print_dec (rlock_port rand_n).
Definition acquire (lid : Z) : Z := lock_protocol.OK.
Definition release (lid : Z) : Z := lock_protocol.OK.
Definition revoke_handler (lid xid : Z) : Z := 0.
Definition retry_handler (lid xid : Z) : Z := 0.
End lock_client_cache_rsm.

(** The port a client listens on is neither privileged nor out of range. *)
Lemma rlock_port_range n : 0 <= n -> 1024 <= lock_client_cache_rsm.rlock_port n < 2 ^ 15.
Proof.
  intros Hn. unfold lock_client_cache_rsm.rlock_port. change (Z.shiftl 1 10) with 1024.
  pose proof (Z.rem_bound_pos n 32000 Hn ltac:(lia)) as Hr. set (x := Z.rem n 32000) in *.
  assert (Z.log2 (Z.lor x 1024) = Z.max (Z.log2 x) 10) as Hl by (rewrite Z.log2_lor by lia; done).
  assert (Z.log2 x <= 14) by (apply (Z.log2_le_mono x 31999); lia).
  assert (0 < Z.lor x 1024) as Hpos.
  { destruct (Z.lt_trichotomy (Z.lor x 1024) 0) as [Hlt|[Hz|]]; [|by apply Z.lor_eq_0_iff in Hz as [_ ?]|done].
    apply Z.lor_neg in Hlt. lia. }
  destruct (Z.log2_spec _ Hpos) as [Hlo Hhi]. rewrite Hl in *. split.
  - apply (Z.le_trans _ (2 ^ Z.max (Z.log2 x) 10)); [|done]. apply (Z.pow_le_mono_r 2 10); lia.
  - apply (Z.lt_le_trans _ _ _ Hhi). apply Z.pow_le_mono_r; lia.
Qed.

(** * The process of lock_smain.cc *)

(** The numbers of the procedures. *)
Definition proc_acquire : Z := 0x7001.
Definition proc_release : Z := 0x7002.
Definition proc_stat : Z := 0x7003.

Section process.
  Context `{Memory}.
  Import lock_server_cache_rsm.

Definition lock_fn : Type := server -> unmarshall -> marshall -> outcome (server * Z * marshall).

(** The handlers [reg] makes: arguments [lockid_t], [std::string] and [xid_t], result [int].
    [o1], [o2] and [r] are what is in the variables that are not initialized. *)
Definition handle_acquire (o1 o2 r : Z) : lock_fn :=
  handler3 (H0 := marshal_int) (H1 := marshal_ull) (H3 := marshal_ull) (acquire r) o1 [] o2.
Definition handle_release (o1 o2 r : Z) : lock_fn :=
  handler3 (H0 := marshal_int) (H1 := marshal_ull) (H3 := marshal_ull) (release r) o1 [] o2.
Definition handle_stat (o1 : Z) : lock_fn :=
  handler1 (H := marshal_ull) (H0 := marshal_int) stat o1.

Definition smain_server (nonce o1 o2 r : Z) (bind : lock_fn) : outcome (rpcs lock_fn) :=
  s ← rpcs_new nonce 0 bind;
  s ← reg1 s proc_acquire (handle_acquire o1 o2 r);
  s ← reg1 s proc_release (handle_release o1 o2 r);
  reg1 s proc_stat (handle_stat o1).

(** One request, alone: what is sent, if anything. *)
Definition serve (s : rpcs lock_fn) (obj : server) (c : connection) (b : list ascii) (dead : bool)
    : outcome (rpcs lock_fn * server * option (connection * list ascii)) :=
  '(s, v) ← dispatch_begin s c b;
  match v with
  | Ignored => Ret (s, obj, None)
  | Answered c b => Ret (s, obj, Some (c, b))
  | Running f h req =>
      '(obj, ret, rep) ← f obj req marshall_new;
      '(s, c, b) ← dispatch_end s c h ret rep dead;
      Ret (s, obj, Some (c, b))
  end.
End process.

(** * Requests of the wrong arity *)

Lemma u_rawbyte_end u : (u_sz u <= u_ind u)%nat ->
  u_rawbyte u = (Unmarshall (u_buf u) (u_sz u) (u_ind u) false, 0).
Proof. intros Hle. unfold u_rawbyte. by rewrite (proj2 (Nat.leb_le _ _) Hle). Qed.

(** Extracting a number from an empty rest fails. *)
Lemma get_ull_end u : u_wf u -> u_left u = [] -> u_ok (get_ull u).1 = false.
Proof.
  intros (Hl & _) L. assert (u_sz u <= u_ind u)%nat as Hle.
  { unfold u_left in L. apply (f_equal length) in L. rewrite length_drop in L. simpl in L. lia. }
  unfold get_ull, get_uint. rewrite u_rawbyte_end by done. simpl.
  repeat (rewrite u_rawbyte_end by (simpl; done); simpl). done.
Qed.

Section arity.
  Context `{Memory}.

(** A handler of three arguments, the last a number, does not run on a request with two. *)
Lemma handler3_short {S R A1 A2} `{MR : Marshal R, M1 : Marshal A1, M2 : Marshal A2}
    (meth : S -> A1 -> A2 -> Z -> S * Z * R) (a1 : A1) (a2 : A2) o1 o2 o3 s u ret :
  u_wf u -> sendable a1 -> sendable a2 -> u_left u = enc a1 ++ enc a2 ->
  handler3 (H3 := marshal_ull) meth o1 o2 o3 s u ret = Ret (s, rpc_const.unmarshal_args_failure, ret).
Proof.
  intros W S1 S2 L. unfold handler3.
  destruct (get_enc u a1 o1 (enc a2) W S1 L) as (-> & W1 & L1). simpl.
  rewrite <- (app_nil_r (enc a2)) in L1.
  destruct (get_enc _ a2 o2 [] W1 S2 L1) as (-> & W2 & L2).
  cbn [mbind outcome_bind get marshal_ull].
  pose proof (get_ull_end _ W2 L2) as Hok. destruct (get_ull _) as [u3 x]. simpl in Hok.
  cbn [mbind outcome_bind]. unfold okdone. by rewrite Hok.
Qed.

(** What the server main() sets up knows: a request for [acquire] goes to its handler. *)
Lemma smain_procs nonce o1 o2 r bind :
  exists s, smain_server nonce o1 o2 r bind = Ret s /\ nonce_ s = u32 nonce /\
    reply_window_ s = ∅ /\ counting_ s = 0 /\ procs_ s !! proc_acquire = Some (handle_acquire o1 o2 r).
Proof.
  unfold smain_server, rpcs_new, reg1. simpl.
  repeat (rewrite bool_decide_eq_true_2 by (rewrite ?lookup_insert_ne by done; apply lookup_empty); simpl).
  eexists. split; [done|]. simpl. by split_and!.
Qed.

(** The first request of a client is new. *)
Lemma first_is_new (s : rpcs lock_fn) c h (f : lock_fn) u :
  reply_window_ s = ∅ -> counting_ s = 0 ->
  exists s1,
    ('(s, stat) ← checkduplicate_and_update (save_connection (know_client s (rq_clt_nonce h)) (rq_clt_nonce h) c)
        (rq_clt_nonce h) (u32 (rq_xid h)) (u32 (rq_xid_rep h));
     match stat with
     | NEW => Ret (if negb (counting_ s =? 0) then updatestat s (rq_proc h) else s, Running f h u)
     | INPROGRESS => Ret (s, Ignored)
     | DONE b => Ret (s, Answered c b)
     | FORGOTTEN => Ret (s, Answered c (error_reply h rpc_const.atmostonce_failure))
     end) = Ret (s1, Running f h u).
Proof.
  intros Hw Hc. unfold know_client. rewrite Hw, lookup_empty. unfold checkduplicate_and_update, save_connection.
  simpl. destruct (conns_ s !! _) as [c'|]; [destruct (compare c' c <? 0)|];
    simpl; rewrite lookup_insert_eq; simpl; eauto.
Qed.

(** C28 (the lock server aborts): the lock server process registers methods of three arguments,
    while the clients of the file system, [lock_client_cache], send two: the first request of
    any of them for a lock, on a fresh server, fails the assertion on the arguments in
    [dispatch], and the process aborts. *)
Theorem lock_server_aborts nonce o1 o2 r bind obj c (lid : Z) (id : cstring) h dead s :
  smain_server nonce o1 o2 r bind = Ret s ->
  is_u64 lid -> sendable id -> wf_req_header h -> rq_proc h = proc_acquire ->
  (rq_srv_nonce h = 0 \/ rq_srv_nonce h = u32 nonce) ->
  Z.of_nat (m_ind (call2 (H0 := marshal_ull) lid id)) < 2 ^ 31 ->
  serve s obj c (m_bytes (pack_req_header (call2 (H0 := marshal_ull) lid id) h)) dead = Fault AssertFail.
Proof.
  intros Es Hlid Hid Hh Hp Hn Hsz. destruct (smain_procs nonce o1 o2 r bind) as (s' & E & Hno & Hw & Hcn & Hpr).
  rewrite Es in E. injection E as <-.
  destruct marshall_new_wf as [W0 E0].
  destruct (put_appends (Marshal := marshal_ull) marshall_new lid W0) as [W1 E1].
  destruct (put_appends (put (Marshal := marshal_ull) marshall_new lid) id W1) as [W2 E2].
  destruct (req_header_roundtrip _ h W2 Hh Hsz) as (u & Eu & Wu & Lu).
  rewrite E2, E1, E0, app_nil_l in Lu.
  assert (exists s1, dispatch_header s c h u = Ret (s1, Running (handle_acquire o1 o2 r) h u)) as [s1 Ed].
  { unfold dispatch_header. rewrite Hno, Hp, Hpr.
    replace (negb (rq_srv_nonce h =? 0) && negb (rq_srv_nonce h =? u32 nonce)) with false by (destruct Hn; lia).
    destruct (rq_clt_nonce h =? 0); [simpl; rewrite Hcn; eauto|].
    destruct (first_is_new s c h (handle_acquire o1 o2 r) u Hw Hcn) as [s1 E1']. exists s1. by rewrite <- Hp. }
  unfold serve, dispatch_begin. change (call2 lid id) with (put (put (Marshal := marshal_ull) marshall_new lid) id).
  rewrite Eu. destruct Wu as (? & ? & ? & Hok) eqn:HWu. rewrite Hok. simpl. clear HWu. rewrite Ed. simpl.
  unfold handle_acquire. rewrite (handler3_short _ lid id) by done. done.
Qed.
End arity.

(** * A client asks for a lock *)

Module lock_rsm_example.
#[local] Instance zeroed : Memory := char_of_Z 0.
Definition no_bind : lock_fn := fun s _ ret => Ret (s, 0, ret).
Definition first_acquire : req_header := ReqHeader 2 proc_acquire 77 5 1.
Definition the_server : outcome (rpcs lock_fn) := smain_server 5 0 0 0 no_bind.

Lemma lock_server_aborts_witness :
  exists s, the_server = Ret s /\
    serve s (lock_server_cache_rsm.Server 0) (Connection 7 1 0)
      (m_bytes (pack_req_header (call2 (H0 := marshal_ull) 1 (cs "127.0.0.1:4000")) first_acquire)) false
    = Fault AssertFail.
Proof.
  destruct (smain_procs 5 0 0 0 no_bind) as (s & E & _). exists s. split; [exact E|].
  apply (lock_server_aborts 5 0 0 0 no_bind _ _ 1 (cs "127.0.0.1:4000") first_acquire false s E);
    [unfold is_u64; lia|vm_compute; reflexivity|vm_compute; repeat split; congruence|reflexivity|right; reflexivity|vm_compute; reflexivity].
Defined.
End lock_rsm_example.
