(* ===== verification/Handle.v ===== *)
(** The cache of connections: handle.cc.

    A [handle] object holds a reference to the [hinfo] record of a node, made on first
    use and shared by all handles of the node; the manager frees it when the node has been
    given up and the last handle is gone.  The records are on a heap, as addresses, so
    that the use of a freed one shows as a fault. *)
From Stdlib Require Import ZArith Lia Ascii String.
From stdpp Require Import base gmap list strings.
From S2P Require Import Prelude.
Local Open Scope Z_scope.

Section handles.
  Context {rpcc : Type}.

Record hinfo := Hinfo { h_cl : option rpcc; refcnt : Z; h_del : bool; h_m : cstring }.

(** The manager, the heap and the next free address; a handle is the address it holds,
    or none. *)
Record handle_mgr := HandleMgr { hmap : gmap cstring positive; heap : gmap positive hinfo;
                                 next : positive }.
Definition mgr_new : handle_mgr := HandleMgr ∅ ∅ 1.

Definition deref (s : handle_mgr) (a : positive) : outcome hinfo :=
  match heap s !! a with Some h => Ret h | None => Fault Undefined end.
Definition store (s : handle_mgr) (a : positive) (h : hinfo) : handle_mgr :=
  HandleMgr (hmap s) (<[a := h]> (heap s)) (next s).

Definition get_handle (s : handle_mgr) (m : cstring) : outcome (handle_mgr * option positive) :=
  match hmap s !! m with
  | None =>
      let a := next s in
      Ret (HandleMgr (<[m := a]> (hmap s)) (<[a := Hinfo None 1 false m]> (heap s)) (Pos.succ a), Some a)
  | Some a =>
      h ← deref s a;
      if negb (h_del h)
      then Ret (store s a (Hinfo (h_cl h) (refcnt h + 1) (h_del h) (h_m h)), Some a)
      else Ret (s, None)
  end.

(** The second component tells which client is cancelled and deleted. *)
Definition delete_handle_wo (s : handle_mgr) (m : cstring) : outcome (handle_mgr * option rpcc) :=
  match hmap s !! m with
  | None => Ret (s, None)
  | Some a =>
      h ← deref s a;
      if refcnt h =? 0
      then Ret (HandleMgr (delete m (hmap s)) (delete a (heap s)) (next s), h_cl h)
      else Ret (store s a (Hinfo (h_cl h) (refcnt h) true (h_m h)), None)
  end.
Definition delete_handle (s : handle_mgr) (m : cstring) := delete_handle_wo s m.

Definition done_handle (s : handle_mgr) (a : positive) : outcome (handle_mgr * option rpcc) :=
  h ← deref s a;
  let h := Hinfo (h_cl h) (refcnt h - 1) (h_del h) (h_m h) in
  let s := store s a h in
  if (refcnt h =? 0) && h_del h then delete_handle_wo s (h_m h) else Ret (s, None).

(** [handle::handle] and [handle::~handle]. *)
Definition handle_ctor (s : handle_mgr) (m : cstring) := get_handle s m.
Definition handle_dtor (s : handle_mgr) (h : option positive) : outcome (handle_mgr * option rpcc) :=
  match h with Some a => done_handle s a | None => Ret (s, None) end.

(** [handle::safebind]; [bind] is the client it makes if the bind of it succeeds. *)
Definition safebind (s : handle_mgr) (h : option positive) (bind : option rpcc)
  : outcome (handle_mgr * option rpcc) :=
  match h with
  | None => Ret (s, None)
  | Some a =>
      h ← deref s a;
      if h_del h then Ret (s, None)
      else match h_cl h with
           | Some cl => Ret (s, Some cl)
           | None =>
               match bind with
               | None => Ret (store s a (Hinfo None (refcnt h) true (h_m h)), None)
               | Some cl => Ret (store s a (Hinfo (Some cl) (refcnt h) (h_del h) (h_m h)), Some cl)
               end
           end
  end.

(** * Programs that use handles *)

(** The live handles are a list of what they hold. *)
Record world := World { manager : handle_mgr; handles : list (option positive) }.
Inductive use :=
| Open (m : cstring)
| Close (i : nat)
| Bind (i : nat) (bind : option rpcc)
| Forget (m : cstring).

Definition use_step (w : world) (u : use) : outcome world :=
  match u with
  | Open m => '(s, h) ← handle_ctor (manager w) m; Ret (World s (handles w ++ [h]))
  | Close i =>
      match handles w !! i with
      | None => Ret w
      | Some h => '(s, _) ← handle_dtor (manager w) h; Ret (World s (delete i (handles w)))
      end
  | Bind i b =>
      match handles w !! i with
      | None => Ret w
      | Some h => '(s, _) ← safebind (manager w) h b; Ret (World s (handles w))
      end
  | Forget m => '(s, _) ← delete_handle (manager w) m; Ret (World s (handles w))
  end.
Fixpoint use_all (w : world) (us : list use) : outcome world :=
  match us with [] => Ret w | u :: us => w ← use_step w u; use_all w us end.

(** * The reference counts *)

Definition count (a : positive) (hs : list (option positive)) : Z :=
  Z.of_nat (length (List.filter (fun h => bool_decide (h = Some a)) hs)).

(** A record is on the heap exactly as long as it is in the map, under its name, and
    its count is the number of handles that hold it; handles hold such records only. *)
Record inv (w : world) : Prop := Inv {
  i_map : forall m a, hmap (manager w) !! m = Some a <->
            exists h, heap (manager w) !! a = Some h /\ h_m h = m;
  i_count : forall a h, heap (manager w) !! a = Some h -> refcnt h = count a (handles w);
  i_held : forall a, Some a ∈ handles w -> is_Some (heap (manager w) !! a);
  i_next : forall a, is_Some (heap (manager w) !! a) -> (a < next (manager w))%positive }.

Lemma count_app a hs hs' : count a (hs ++ hs') = count a hs + count a hs'.
Proof. unfold count. rewrite List.filter_app, length_app. lia. Qed.
Lemma count_one a h : count a [h] = if bool_decide (h = Some a) then 1 else 0.
Proof. unfold count. simpl. by case_bool_decide. Qed.
Lemma count_delete a hs i h : hs !! i = Some h -> count a (delete i hs) = count a hs - count a [h].
Proof.
  intros E. pose proof (take_drop_middle hs i h E) as Hs. rewrite delete_take_drop.
  rewrite <- Hs at 3. rewrite (cons_middle h), !count_app. lia.
Qed.
Lemma count_elem a hs : 0 < count a hs <-> Some a ∈ hs.
Proof.
  induction hs as [|h hs IH]; [by rewrite elem_of_nil; unfold count; simpl|].
  change (h :: hs) with ([h] ++ hs). rewrite count_app, count_one, elem_of_app, list_elem_of_singleton.
  assert (0 <= count a hs) by (unfold count; lia). case_bool_decide; [|intuition congruence || lia].
  split; [by left|lia].
Qed.

(** Changing a record, but not its name, and the handles. *)
Lemma inv_store w a h h' hs :
  inv w -> heap (manager w) !! a = Some h -> h_m h' = h_m h ->
  refcnt h' = count a hs -> (forall b, b <> a -> count b hs = count b (handles w)) ->
  (forall b, Some b ∈ hs -> Some b ∈ handles w \/ b = a) ->
  inv (World (store (manager w) a h') hs).
Proof.
  intros [I1 I2 I3 I4] Ha Hm Hr Hc Hin. split; simpl.
  - intros m b. rewrite I1. destruct (decide (a = b)) as [<-|Hne].
    + rewrite lookup_insert_eq, Ha. split; intros (k & [= <-] & <-); eauto.
    + by rewrite lookup_insert_ne by done.
  - intros b k. destruct (decide (a = b)) as [<-|Hne].
    + rewrite lookup_insert_eq. by intros [= <-].
    + rewrite lookup_insert_ne by done. intros Hk. rewrite Hc by done. by apply I2.
  - intros b Hb. destruct (decide (a = b)) as [<-|Hne]; [by rewrite lookup_insert_eq|].
    rewrite lookup_insert_ne by done. destruct (Hin b Hb) as [?|?]; [by apply I3|done].
  - intros b. destruct (decide (a = b)) as [<-|Hne]; [intros _; apply I4; by rewrite Ha|].
    rewrite lookup_insert_ne by done. apply I4.
Qed.

Lemma inv_get w m a : inv w -> hmap (manager w) !! m = Some a ->
  exists h, heap (manager w) !! a = Some h /\ h_m h = m.
Proof. intros I. apply (i_map _ I). Qed.

Lemma inv_delete w m :
  inv w -> exists s r, delete_handle_wo (manager w) m = Ret (s, r) /\ inv (World s (handles w)).
Proof.
  intros I. unfold delete_handle_wo. destruct (hmap (manager w) !! m) as [a|] eqn:E.
  2:{ eexists _, _. split; [done|]. by destruct w. }
  destruct (inv_get w m a I E) as (h & Ha & Hm). unfold deref. rewrite Ha. simpl.
  pose proof (i_count _ I a h Ha) as Hc. destruct (refcnt h =? 0) eqn:Hr.
  - eexists _, _. split; [done|]. pose proof I as [I1 I2 I3 I4]. split; simpl.
    + intros m' b. destruct (decide (m = m')) as [<-|Hne].
      * rewrite lookup_delete_eq. split; [done|]. intros (k & Hk & Hkm). destruct (decide (a = b)) as [<-|Hab].
        -- by rewrite lookup_delete_eq in Hk.
        -- rewrite lookup_delete_ne in Hk by done. assert (hmap (manager w) !! m = Some b) by (apply I1; eauto).
           congruence.
      * rewrite lookup_delete_ne by done. rewrite I1. destruct (decide (a = b)) as [<-|Hab].
        -- rewrite lookup_delete_eq, Ha. split; intros (k & [= <-] & ?); congruence.
        -- by rewrite lookup_delete_ne by done.
    + intros b k. destruct (decide (a = b)) as [<-|Hab]; [by rewrite lookup_delete_eq|].
      rewrite lookup_delete_ne by done. apply I2.
    + intros b Hb. destruct (decide (a = b)) as [<-|Hab].
      * apply count_elem in Hb. lia.
      * rewrite lookup_delete_ne by done. by apply I3.
    + intros b. destruct (decide (a = b)) as [<-|Hab]; [rewrite lookup_delete_eq; by intros []|].
      rewrite lookup_delete_ne by done. apply I4.
  - eexists _, _. split; [done|]. eapply inv_store; try done. by left.
Qed.

Lemma inv_open w m :
  inv w -> exists s h, handle_ctor (manager w) m = Ret (s, h) /\ inv (World s (handles w ++ [h])).
Proof.
  intros I. unfold handle_ctor, get_handle. destruct (hmap (manager w) !! m) as [a|] eqn:E.
  - destruct (inv_get w m a I E) as (h & Ha & Hm). unfold deref. rewrite Ha. simpl.
    pose proof (i_count _ I a h Ha) as Hc. destruct (h_del h); simpl; eexists _, _; (split; [done|]).
    + destruct I as [I1 I2 I3 I4]. split; simpl; try done.
      * intros b k Hk. rewrite count_app, count_one, bool_decide_eq_false_2 by done.
        rewrite (I2 b k Hk). lia.
      * intros b [?|?%list_elem_of_singleton]%elem_of_app; [auto|done].
    + eapply inv_store; try done; simpl.
      * by rewrite count_app, count_one, bool_decide_eq_true_2, Hc.
      * intros b Hb. rewrite count_app, count_one, bool_decide_eq_false_2 by congruence. lia.
      * intros b [?|[= <-]%list_elem_of_singleton]%elem_of_app; auto.
  - eexists _, _. split; [done|]. pose proof I as [I1 I2 I3 I4].
    assert (heap (manager w) !! next (manager w) = None) as Hn.
    { destruct (heap (manager w) !! next (manager w)) eqn:F; [|done].
      specialize (I4 (next (manager w)) ltac:(by rewrite F)). lia. }
    assert (count (next (manager w)) (handles w) = 0) as Hz.
    { assert (~ 0 < count (next (manager w)) (handles w)) as Hz; [|unfold count in *; lia].
      rewrite count_elem. intros [h Hh]%I3. congruence. }
    split; simpl.
    + intros m' b. destruct (decide (m = m')) as [<-|Hne].
      * rewrite lookup_insert_eq. destruct (decide (next (manager w) = b)) as [<-|Hb].
        -- rewrite lookup_insert_eq. clear. naive_solver.
        -- rewrite lookup_insert_ne by done. split; [congruence|]. intros Hk.
           assert (hmap (manager w) !! m = Some b) by (by apply I1). congruence.
      * rewrite lookup_insert_ne, I1 by done. destruct (decide (next (manager w) = b)) as [<-|Hb].
        -- rewrite lookup_insert_eq, Hn. split; intros (k & [= <-] & ?); simpl in *; congruence.
        -- by rewrite lookup_insert_ne by done.
    + intros b k. rewrite count_app, count_one. destruct (decide (next (manager w) = b)) as [<-|Hb].
      * rewrite lookup_insert_eq, bool_decide_eq_true_2 by done. intros [= <-]. simpl. lia.
      * rewrite lookup_insert_ne by done. intros Hk. rewrite bool_decide_eq_false_2 by congruence.
        rewrite (I2 b k Hk). lia.
    + intros b [Hb|[= ->]%list_elem_of_singleton]%elem_of_app; [|by rewrite lookup_insert_eq].
      destruct (decide (next (manager w) = b)) as [<-|]; [by rewrite lookup_insert_eq|].
      rewrite lookup_insert_ne by done. by apply I3.
    + intros b. destruct (decide (next (manager w) = b)) as [<-|]; [lia|].
      rewrite lookup_insert_ne by done. intros Hb%I4. lia.
Qed.

(** A record that has been given up is held by some handle; but for the one at [b]. *)
Definition given_up_held (w : world) (b : option positive) : Prop :=
  forall a h, heap (manager w) !! a = Some h -> h_del h = true -> Some a <> b -> 0 < count a (handles w).

Lemma delete_given_up w m b s r :
  inv w -> given_up_held w b -> (forall a, b = Some a -> hmap (manager w) !! m = Some a) ->
  delete_handle_wo (manager w) m = Ret (s, r) -> given_up_held (World s (handles w)) None.
Proof.
  intros I Hg Hb E. unfold delete_handle_wo, deref in E.
  destruct (hmap (manager w) !! m) as [a|] eqn:Em.
  2:{ injection E as <- _. intros a h Ha Hd _. apply (Hg a h Ha Hd). intros <-. by specialize (Hb a eq_refl). }
  destruct (inv_get w m a I Em) as (h & Ha & _). rewrite Ha in E. simpl in E.
  pose proof (i_count _ I a h Ha) as Hc. assert (forall c, b = Some c -> c = a) as Hba.
  { intros c Hc'. specialize (Hb c Hc'). congruence. }
  destruct (refcnt h =? 0) eqn:Hr; injection E as <- _; intros c k Hk Hd _; simpl in *;
    destruct (decide (a = c)) as [<-|Hne].
  - by rewrite lookup_delete_eq in Hk.
  - rewrite lookup_delete_ne in Hk by done. apply (Hg c k Hk Hd). intros <-. by specialize (Hba c eq_refl).
  - assert (0 <= count a (handles w)) by (unfold count; lia). lia.
  - rewrite lookup_insert_ne in Hk by done. apply (Hg c k Hk Hd). intros <-. by specialize (Hba c eq_refl).
Qed.

Definition good (w : world) : Prop := inv w /\ given_up_held w None.

Lemma good_open w m :
  good w -> exists s h, handle_ctor (manager w) m = Ret (s, h) /\ good (World s (handles w ++ [h])).
Proof.
  intros [I Hg]. destruct (inv_open w m I) as (s & h & E & I'). exists s, h. split; [done|]. split; [done|].
  intros a k Hk Hd _. simpl. rewrite count_app. assert (0 <= count a [h]) by (unfold count; lia).
  enough (0 < count a (handles w)) by lia. unfold handle_ctor, get_handle in E.
  destruct (hmap (manager w) !! m) as [b|] eqn:Em.
  - destruct (inv_get w m b I Em) as (k0 & Hb & _). unfold deref in E. rewrite Hb in E. simpl in E.
    destruct (h_del k0) eqn:Hd0; simpl in E; injection E as <- _; [by eapply Hg|].
    simpl in Hk. destruct (decide (b = a)) as [<-|Hne].
    + rewrite lookup_insert_eq in Hk. injection Hk as <-. done.
    + rewrite lookup_insert_ne in Hk by done. by eapply Hg.
  - injection E as <- _. simpl in Hk. destruct (decide (next (manager w) = a)) as [<-|Hne].
    + rewrite lookup_insert_eq in Hk. injection Hk as <-. done.
    + rewrite lookup_insert_ne in Hk by done. by eapply Hg.
Qed.

(** A handle is gone: first the count, then perhaps the record. *)
Lemma good_close w i h :
  good w -> handles w !! i = Some h ->
  exists s r, handle_dtor (manager w) h = Ret (s, r) /\ good (World s (delete i (handles w))).
Proof.
  intros [I Hg] Hi. unfold handle_dtor. destruct h as [a|].
  - destruct (i_held _ I a) as [h Ha]; [by eapply list_elem_of_lookup_2|].
    unfold done_handle, deref. rewrite Ha. simpl. set (h' := Hinfo _ _ _ _).
    pose proof (i_count _ I a h Ha) as Hc.
    assert (forall b, count b (delete i (handles w)) = count b (handles w) - if bool_decide (a = b) then 1 else 0)
      as Hd.
    { intros b. rewrite (count_delete b _ _ _ Hi), count_one. f_equal. do 2 case_bool_decide; congruence. }
    assert (inv (World (store (manager w) a h') (delete i (handles w)))) as I'.
    { eapply inv_store; try done; simpl.
      - rewrite Hd, bool_decide_eq_true_2 by done. lia.
      - intros b Hb. rewrite Hd, bool_decide_eq_false_2 by done. lia.
      - intros b Hb. left. apply count_elem. apply count_elem in Hb. rewrite Hd in Hb. case_bool_decide; lia. }
    assert (given_up_held (World (store (manager w) a h') (delete i (handles w))) (Some a)) as Hg'.
    { intros b k Hk Hdel Hne. simpl in *. rewrite lookup_insert_ne in Hk by congruence.
      rewrite Hd, bool_decide_eq_false_2 by congruence. specialize (Hg b k Hk Hdel ltac:(done)). lia. }
    destruct ((refcnt h - 1 =? 0) && h_del h) eqn:Hz.
    + destruct (inv_delete _ (h_m h) I') as (s & r & E & I''). exists s, r. split; [done|]. split; [done|].
      apply (delete_given_up _ (h_m h) (Some a) s r I' Hg'); [|exact E]. intros b [= <-]. apply (i_map _ I').
      exists h'. simpl. by rewrite lookup_insert_eq.
    + eexists _, _. split; [done|]. split; [done|]. intros b k Hk Hdel _.
      destruct (decide (a = b)) as [<-|Hne]; [|eapply Hg'; [exact Hk|done|congruence]].
      simpl in *. rewrite lookup_insert_eq in Hk. injection Hk as <-. simpl in Hdel. rewrite Hdel in Hz.
      rewrite Hd, bool_decide_eq_true_2 by done. specialize (Hg a h Ha Hdel ltac:(done)). lia.
  - eexists _, _. split; [done|]. split.
    + destruct I as [I1 I2 I3 I4]. split; simpl; try done.
      * intros a h Ha. rewrite (count_delete a _ _ _ Hi), count_one, bool_decide_eq_false_2 by done.
        rewrite (I2 a h Ha). lia.
      * intros a Ha. apply I3, count_elem. apply count_elem in Ha.
        rewrite (count_delete a _ _ _ Hi), count_one in Ha. case_bool_decide; lia.
    + intros a h Ha Hd _. simpl. rewrite (count_delete a _ _ _ Hi), count_one, bool_decide_eq_false_2 by done.
      specialize (Hg a h Ha Hd ltac:(done)). lia.
Qed.

Lemma good_bind w i h b :
  good w -> handles w !! i = Some h ->
  exists s r, safebind (manager w) h b = Ret (s, r) /\ good (World s (handles w)).
Proof.
  intros [I Hg] Hi. unfold safebind. destruct h as [a|]; [|eexists _, _; split; [done|by destruct w]].
  assert (Some a ∈ handles w) as Hin by (by eapply list_elem_of_lookup_2).
  destruct (i_held _ I a Hin) as [h Ha]. unfold deref. rewrite Ha. simpl.
  assert (forall h', h_m h' = h_m h -> refcnt h' = refcnt h -> good (World (store (manager w) a h') (handles w)))
    as Hst.
  { intros h' Hm Hr. split.
    - eapply inv_store; try done; [rewrite Hr; by apply (i_count _ I)|by left].
    - intros c k Hk Hd _. simpl in *. destruct (decide (a = c)) as [<-|Hne]; [by apply count_elem|].
      rewrite lookup_insert_ne in Hk by done. by eapply Hg. }
  destruct (h_del h) eqn:Hd; [eexists _, _; split; [done|by destruct w]|].
  destruct (h_cl h) eqn:Hcl; [eexists _, _; split; [done|by destruct w]|].
  destruct b; eexists _, _; (split; [done|by apply Hst]).
Qed.

Lemma good_step w u : good w -> exists w', use_step w u = Ret w' /\ good w'.
Proof.
  intros G. destruct u as [m|i|i b|m]; simpl.
  - destruct (good_open w m G) as (s & h & -> & ?). by eexists.
  - destruct (handles w !! i) as [h|] eqn:E; [|by eexists].
    destruct (good_close w i h G E) as (s & r & -> & ?). by eexists.
  - destruct (handles w !! i) as [h|] eqn:E; [|by eexists].
    destruct (good_bind w i h b G E) as (s & r & -> & ?). by eexists.
  - destruct G as [I Hg]. destruct (inv_delete w m I) as (s & r & E & I'). unfold delete_handle.
    rewrite E. simpl. eexists. split; [done|]. split; [done|].
    by eapply delete_given_up; [exact I|exact Hg| |exact E].
Qed.

(** C18 (handles): however a program opens, binds and closes handles and gives nodes up,
    no freed record is used: every handle holds a record of the heap, whose count is the
    number of handles that hold it, and a node that was given up is still there only as
    long as some handle holds it. *)
Theorem handles_are_counted us :
  exists w, use_all (World mgr_new []) us = Ret w
    /\ (forall a, Some a ∈ handles w -> is_Some (heap (manager w) !! a))
    /\ (forall a h, heap (manager w) !! a = Some h ->
         refcnt h = count a (handles w) /\ (h_del h = true -> 0 < refcnt h)).
Proof.
  assert (good (World mgr_new [])) as G.
  { split; [split; simpl|]; try done.
    - intros m a. rewrite !lookup_empty. split; [done|]. by intros (h & ? & _).
    - by intros a ?%elem_of_nil.
    - intros a. rewrite lookup_empty. by intros []. }
  revert G. generalize (World mgr_new []) as w. induction us as [|u us IH]; simpl; intros w G.
  - exists w. split; [done|]. destruct G as [I Hg]. split; [apply (i_held _ I)|]. intros a h Ha.
    pose proof (i_count _ I a h Ha) as Hc. split; [done|]. intros Hd. rewrite Hc. by eapply Hg.
  - destruct (good_step w u G) as (w' & -> & G'). by apply IH.
Qed.
End handles.
Arguments world : clear implicits.
Arguments use : clear implicits.

(** Bound handles: after a first [safebind] that succeeded, a later one on the same
    handle returns nothing once the node has been given up meanwhile. *)
Theorem bound_handle_lost :
  let cid := cs "4001" in
  exists h s1 s2 s3,
    handle_ctor mgr_new cid = Ret (s1, h) /\ safebind s1 h (Some tt) = Ret (s2, Some tt)
    /\ delete_handle s2 cid = Ret (s3, None)
    /\ forall b, safebind s3 h b = Ret (s3, None).
Proof. eexists _, _, _, _. split_and!; by vm_compute. Qed.
