(* ===== verification/LockServer.v ===== *)
(** The lock server without caching: lock_server.cc, and the client stubs lock_client.cc.

    The server gives a lock to one client at a time; an [acquire] of a lock that is held
    waits on a condition variable, so a thread here tries, and tries again after each
    wake-up. *)
From Stdlib Require Import ZArith Lia.
From stdpp Require Import base gmap list.
From S2P Require Import Prelude Protocols.
Local Open Scope Z_scope.

Definition UNLOCKED : Z := 999999999.
Record lock_info := LockInfo { acquire_count : Z; li_clt : Z }.
Record lock_server := LockServer { nacquire : Z; lock_list : gmap Z lock_info }.
Definition lock_server_new : lock_server := LockServer 0 ∅.

Definition stat (s : lock_server) (clt lid : Z) : Z * Z := (lock_protocol.OK, nacquire s).

(** A try of [acquire]: the new state and the status, or the wait goes on. *)
Definition acquire_try (s : lock_server) (clt lid : Z) : option (lock_server * Z) :=
  match lock_list s !! lid with
  | None =>
      Some (LockServer (nacquire s) (<[lid := LockInfo 1 clt]> (lock_list s)), lock_protocol.OK)
  | Some l =>
      if negb (li_clt l =? UNLOCKED) then None
      else Some (LockServer (nacquire s)
                   (<[lid := LockInfo (s32 (acquire_count l + 1)) clt]> (lock_list s)), lock_protocol.OK)
  end.

(** A release of a lock the server has never heard of follows an end iterator. *)
Definition release (s : lock_server) (clt lid : Z) : outcome (lock_server * Z) :=
  match lock_list s !! lid with
  | None => Fault Undefined
  | Some l =>
      if li_clt l =? clt
      then Ret (LockServer (nacquire s) (<[lid := LockInfo (acquire_count l) UNLOCKED]> (lock_list s)),
                lock_protocol.OK)
      else Ret (s, lock_protocol.IOERR)
  end.

(** The stubs: [lock_client::acquire] and [release] return the reply variable, which the
    handlers never set, and not the status. *)
Definition stub_acquire (ret r : Z) : outcome Z :=
  _ ← verify ((ret =? lock_protocol.OK) || (ret =? lock_protocol.RETRY)); Ret r.
Definition stub_release (ret r : Z) : outcome Z :=
  _ ← verify (ret =? lock_protocol.OK); Ret r.
Definition stub_stat (ret r : Z) : outcome Z :=
  _ ← verify (ret =? lock_protocol.OK); Ret r.

(** * Sequences of requests *)

Inductive lock_req := Acquire (clt lid : Z) | Release (clt lid : Z).
Inductive granted := Granted (clt lid : Z) | Waits | Released (clt lid : Z) | NotOwner.

#[global] Instance granted_eq_dec : EqDecision granted.
Proof. solve_decision. Defined.

Definition serve (s : lock_server) (q : lock_req) : outcome (lock_server * granted) :=
  match q with
  | Acquire clt lid =>
      Ret match acquire_try s clt lid with
          | Some (s, _) => (s, Granted clt lid)
          | None => (s, Waits)
          end
  | Release clt lid =>
      '(s, ret) ← release s clt lid;
      Ret (s, if ret =? lock_protocol.OK then Released clt lid else NotOwner)
  end.
Fixpoint serve_all (s : lock_server) (qs : list lock_req) : outcome (lock_server * list granted) :=
  match qs with
  | [] => Ret (s, [])
  | q :: qs =>
      '(s, g) ← serve s q;
      '(s, gs) ← serve_all s qs;
      Ret (s, g :: gs)
  end.

(** * The holder of a lock *)

Definition holder (s : lock_server) (lid : Z) : option Z :=
  match lock_list s !! lid with
  | Some l => if li_clt l =? UNLOCKED then None else Some (li_clt l)
  | None => None
  end.

(** What a request does, seen through the holders alone. *)
Lemma serve_holder s q s' g :
  serve s q = Ret (s', g) ->
  match q with
  | Acquire clt lid =>
      match holder s lid with
      | None => g = Granted clt lid /\ holder s' lid = (if clt =? UNLOCKED then None else Some clt)
      | Some _ => g = Waits /\ s' = s
      end
  | Release clt lid =>
      (g = Released clt lid /\ holder s' lid = None
         /\ (holder s lid = Some clt \/ holder s lid = None))
      \/ (g = NotOwner /\ s' = s)
  end
  /\ forall lid', lid' <> match q with Acquire _ lid | Release _ lid => lid end ->
       holder s' lid' = holder s lid'.
Proof.
  intros E. destruct q as [clt lid|clt lid]; simpl in E.
  - unfold acquire_try in E. unfold holder at 1.
    destruct (lock_list s !! lid) as [l|] eqn:El.
    + destruct (li_clt l =? UNLOCKED) eqn:Eu; simpl in E; inv_ret; simplify_eq/=.
      * split; [split; [done|]; unfold holder; simpl; by rewrite lookup_insert_eq|].
        intros lid' Hne. unfold holder. simpl. by rewrite lookup_insert_ne.
      * done.
    + inv_ret. simplify_eq/=.
      split; [split; [done|]; unfold holder; simpl; by rewrite lookup_insert_eq|].
      intros lid' Hne. unfold holder. simpl. by rewrite lookup_insert_ne.
  - apply bind_ret_inv in E as ([s1 ret] & E1 & E). unfold release in E1.
    destruct (lock_list s !! lid) as [l|] eqn:El; [|done].
    destruct (li_clt l =? clt) eqn:Ec; simplify_eq/=.
    + split.
      * left. split; [done|]. unfold holder; simpl. rewrite lookup_insert_eq, El. simpl. split; [done|].
        apply Z.eqb_eq in Ec as ->. destruct (clt =? UNLOCKED); auto.
      * intros lid' Hne. unfold holder. simpl. by rewrite lookup_insert_ne.
    + split; [by right|done].
Qed.

(** One holder: once a lock has been granted to a client, it is granted to nobody
    until that client has released it. *)
Theorem held_until_released s clt lid s1 qs s' gs :
  clt <> UNLOCKED -> serve s (Acquire clt lid) = Ret (s1, Granted clt lid) ->
  serve_all s1 qs = Ret (s', gs) -> Released clt lid ∉ gs ->
  holder s' lid = Some clt /\ forall clt', Granted clt' lid ∉ gs.
Proof.
  intros Hne E. apply serve_holder in E as [E _].
  destruct (holder s lid); [by destruct E|]. destruct E as [_ Hh]. apply Z.eqb_neq in Hne. rewrite Hne in Hh. apply Z.eqb_neq in Hne.
  revert s1 gs Hh.
  induction qs as [|q qs IH]; simpl; intros s1 gs Hh E Hr.
  - simplify_eq. split; [done|]. intros ? ?%elem_of_nil. done.
  - apply bind_ret_inv in E as ([s2 g] & E1 & E). apply bind_ret_inv in E as ([s3 gs'] & E2 & E).
    simplify_eq. apply not_elem_of_cons in Hr as [Hg Hr]. apply serve_holder in E1 as [E1 Ho].
    assert (holder s2 lid = Some clt /\ forall clt', g <> Granted clt' lid) as [Hh2 Hg2].
    { destruct q as [c l|c l]; destruct (decide (l = lid)) as [->|Hl].
      - rewrite Hh in E1. destruct E1 as [-> ->]. done.
      - rewrite (Ho lid) by done. split; [done|]. intros c' ->. destruct (holder s1 l); by destruct E1 as [[=] _].
      - rewrite Hh in E1. destruct E1 as [(-> & _ & [[= ->]|?])|[-> ->]]; done.
      - rewrite (Ho lid) by done. split; [done|]. intros c' ->. by destruct E1 as [([=] & _)|([=] & _)]. }
    destruct (IH s2 gs' Hh2 E2 Hr) as [Hs Hall]. split; [done|]. intros c'.
    rewrite not_elem_of_cons. split; [|done]. intros Ec. by apply (Hg2 c').
Qed.
Lemma held_until_released_witness :
  exists s1 s' gs, serve lock_server_new (Acquire 7 1) = Ret (s1, Granted 7 1)
    /\ serve_all s1 [Acquire 8 1; Release 8 1; Acquire 8 2] = Ret (s', gs) /\ holder s' 1 = Some 7.
Proof.
  destruct (serve_all (LockServer 0 {[1 := LockInfo 1 7]}) [Acquire 8 1; Release 8 1; Acquire 8 2])
    as [[s' gs]|] eqn:E; [|by vm_compute in E].
  exists (LockServer 0 {[1 := LockInfo 1 7]}), s', gs. split; [done|]. split; [done|].
  apply (held_until_released lock_server_new 7 1 (LockServer 0 {[1 := LockInfo 1 7]})
    [Acquire 8 1; Release 8 1; Acquire 8 2] s' gs); [done|done|exact E|].
  apply (f_equal (fun o => match o with Ret (_, l) => l | _ => [] end)) in E. rewrite <- E.
  apply (bool_decide_unpack _). by vm_compute.
Defined.
