(* ===== verification/Handover.v ===== *)
(** How a cached lock changes hands: one round of the caching lock service of [Lock].

    [acquire_run] lets one thread call [acquire] and runs whatever is due, messages first, until
    the thread has the lock: the calls, the enforcer and revoker of the server, the revocation,
    the flush of the extent and the release by the client that had the lock, and the retry.  The
    theorem is that this ends, within twelve steps, with the lock in the hands of the thread, and
    that the client that had it has flushed its copy before. *)
From Stdlib Require Import ZArith Lia Ascii String.
From stdpp Require Import base gmap list strings relations.
From S2P Require Import Prelude Protocols Lock.
Local Open Scope Z_scope.

(** What runs next, when thread [t] is the only one that wants the lock. *)
Definition next_action (t : nat) (s : lsys) : option laction :=
  match l_msgs s, l_rq s with
  | _ :: _, _ => Some (LDeliver 0)
  | [], _ :: _ => Some LRevoker
  | [], [] =>
      match l_thr s !! t with
      | Some (_, PIdle) => Some (LEnter t)
      | Some (_, PStart) => Some (LBegin t)
      | Some (_, PCall) => Some (LCall t)
      | Some (c, POwned) => Some (if clt.owned (info s c) then LTake t else LEnforce)
      | Some (_, PWait) => Some (LWait t)
      | _ => None
      end
  end.

(** The client whose [dorelease] runs in a step. *)
Definition flushed (s : lsys) (a : laction) : list cstring :=
  match a with
  | LDeliver i => match l_msgs s !! i with Some (MFlush c) => [c] | _ => [] end
  | _ => []
  end.

Definition has_it (t : nat) (s : lsys) : bool :=
  match l_thr s !! t with Some (_, PHold) => true | _ => false end.

Fixpoint acquire_run (fuel : nat) (t : nat) (s : lsys) : option (lsys * list cstring) :=
  if has_it t s then Some (s, [])
  else
    match fuel with
    | O => None
    | S fuel =>
        a ← next_action t s;
        s' ← lstep s a;
        '(s'', fl) ← acquire_run fuel t s';
        Some (s'', flushed s a ++ fl)
    end.

(** Between uses: no call under way, no thread at the lock, and client [o] has it cached. *)
Definition idle_info (o : option cstring) (c : cstring) : clt.lock_info :=
  clt.Lock false (bool_decide (o = Some c)) false 0 clt.FREE.
Record settled (o : option cstring) (s : lsys) : Prop := {
  set_rq : l_rq s = [];
  set_messages : l_msgs s = [];
  set_thr : Forall (fun th => th.1 <> srv.FREE /\ th.2 = PIdle) (l_thr s);
  set_server : match o with
            | None => l_srv s = None \/ l_srv s = Some (srv.LockInfo srv.FREE false [])
            | Some c => l_srv s = Some (srv.LockInfo c false []) /\ c <> srv.FREE
            end;
  set_clt : forall c, info s c = idle_info o c }.

(** Thread [t] of client [c] has it, and nobody else is at it: what is left when it gives the
    lock up. *)
Definition holding (t : nat) (c : cstring) (s : lsys) : Prop :=
  l_thr s !! t = Some (c, PHold) /\
  info s c = clt.Lock false true false 0 (self t) /\
  settled (Some c) (set_pc (set_info s c (idle_info (Some c) c)) t c PIdle).

Definition lock0 (thr : list cstring) : lsys :=
  LSys None [] ∅ ((fun c => (c, PIdle)) <$> thr) [].

Lemma settled_initial names : Forall (fun c => c <> srv.FREE) names -> settled None (lock0 names).
Proof.
  intros Hn. split; try done; [|by left]. simpl. apply Forall_fmap.
  eapply Forall_impl; [exact Hn|]. by simpl.
Qed.

Lemma idle_info_own c : idle_info (Some c) c = clt.Lock false true false 0 clt.FREE.
Proof. unfold idle_info. by rewrite bool_decide_true. Qed.
Lemma idle_info_other o c : o <> Some c -> idle_info o c = clt.new_lock.
Proof. intros. unfold idle_info. by rewrite bool_decide_false. Qed.

(** A release leaves the lock with the client. *)
Lemma release_settles t c s :
  holding t c s ->
  exists s', lstep s (LRelease t) = Some s' /\ settled (Some c) s' /\ l_thr s' = <[t := (c, PIdle)]> (l_thr s).
Proof.
  intros (Ht & Hi & Hs). unfold lstep. rewrite Ht, Hi. simpl.
  rewrite idle_info_own in Hs. eexists. split; [done|]. by destruct s.
Qed.

Lemma run_step fuel t s a s' s'' fl fl' :
  has_it t s = false -> next_action t s = Some a -> lstep s a = Some s' ->
  fl' = flushed s a ++ fl -> acquire_run fuel t s' = Some (s'', fl) ->
  acquire_run (S fuel) t s = Some (s'', fl').
Proof. intros H1 H2 H3 -> H4. simpl. rewrite H1, H2. simpl. rewrite H3. simpl. by rewrite H4. Qed.
Lemma run_end fuel t s : has_it t s = true -> acquire_run fuel t s = Some (s, []).
Proof. intros H. destruct fuel; simpl; by rewrite H. Qed.

Section round.
  Variables (t : nat) (c : cstring) (thr : list (cstring * pc)) (clts : gmap cstring clt.lock_info).
  Hypothesis Ht : thr !! t = Some (c, PIdle).

Lemma thr_at p : <[t := (c, p)]> thr !! t = Some (c, p).
Proof. apply list_lookup_insert_eq. by eapply lookup_lt_Some. Qed.

Ltac look :=
  unfold has_it, next_action, lstep, deliver, info, set_pc, set_info, set_msgs, set_srv, flushed,
    clt.acquire_begin, clt.acquire_lock_begin, clt.await_owned, clt.take_it, clt.retry_handler,
    clt.acquire_lock_end, clt.find_or_new;
  repeat (cbn; rewrite ?thr_at, ?lookup_insert_eq, ?list_insert_insert_eq, ?insert_insert_eq, ?Ht).
Ltac run_next := eapply run_step; [by look|by look|look; reflexivity|by look|].

Ltac run_last := rewrite run_end by (by look); reflexivity.

(** What every round ends with. *)
Definition got (clts : gmap cstring clt.lock_info) (sv : option srv.cached_lock_info) : lsys :=
  LSys sv [] (<[c := clt.Lock false true false 0 (self t)]> clts) (<[t := (c, PHold)]> thr) [].

(** The client has the lock cached. *)
Lemma run_cached sv :
  clts !! c = Some (clt.Lock false true false 0 clt.FREE) ->
  acquire_run 12 t (LSys sv [] clts thr []) = Some (got clts sv, []).
Proof.
  intros Hl. eapply run_step; [by look|by look|look; rewrite Hl; reflexivity|by look|].
  do 2 run_next. run_last.
Qed.

(** Nobody has it: the call to the server gets it. *)
Lemma run_free sv :
  default clt.new_lock (clts !! c) = clt.new_lock ->
  sv = None \/ sv = Some (srv.LockInfo srv.FREE false []) ->
  acquire_run 12 t (LSys sv [] clts thr []) = Some (got clts (Some (srv.LockInfo c false [])), []).
Proof.
  intros Hl Hsv. eapply run_step; [by look|by look|look; rewrite Hl; reflexivity|by look|].
  do 2 run_next.
  eapply run_step; [by look|by look| |by look|].
  { instantiate (1 := LSys (Some (srv.LockInfo c false [])) []
      (<[c := clt.Lock true false false 1 clt.FREE]> clts) (<[t := (c, PReply)]> thr)
      [MAcqRep c t lock_protocol.OK]). by destruct Hsv as [->| ->]; look. }
  eapply run_step; [by look|by look|look; rewrite str_eqb_refl; look; reflexivity|by look|].
  run_next. run_last.
Qed.

(** Client [j] has it cached: it is asked for it, flushes its copy and gives it up. *)
Lemma run_revoke j :
  default clt.new_lock (clts !! c) = clt.new_lock -> j <> c -> j <> srv.FREE ->
  clts !! j = Some (clt.Lock false true false 0 clt.FREE) ->
  acquire_run 12 t (LSys (Some (srv.LockInfo j false [])) [] clts thr []) =
    Some (got (<[j := clt.new_lock]> clts) (Some (srv.LockInfo c false [])), [j]).
Proof.
  intros Hl Hj Hf Ho. eapply run_step; [by look|by look|look; rewrite Hl; reflexivity|by look|].
  do 2 run_next. eapply run_step; [by look|by look| |by look|].
  { look. unfold srv.acquire. cbn. rewrite (str_eqb_ne j) by done. reflexivity. }
  eapply run_step; [by look|by look|look; rewrite str_eqb_refl; look; reflexivity|by look|].
  do 2 run_next. eapply run_step; [by look|by look| |by look|].
  { look. rewrite lookup_insert_ne, Ho by done. cbn. rewrite insert_insert_ne by done. reflexivity. }
  do 4 run_next. run_last.
Qed.
End round.

(** A state in which a thread has the lock is one that settles when it gives the lock up. *)
Lemma got_holding t c thr clts :
  thr !! t = Some (c, PIdle) -> Forall (fun th => th.1 <> srv.FREE /\ th.2 = PIdle) thr ->
  (forall c', c' <> c -> default clt.new_lock (clts !! c') = clt.new_lock) ->
  holding t c (got t c thr clts (Some (srv.LockInfo c false []))).
Proof.
  intros Ht Hthr Hclt. assert (Hc : c <> srv.FREE).
  { eapply Forall_lookup_1 in Hthr; [|exact Ht]. by destruct Hthr. }
  split; [by apply list_lookup_insert_eq; eapply lookup_lt_Some|].
  split; [unfold info, got; cbn; by rewrite lookup_insert_eq|].
  split; cbn; try done.
  - rewrite list_insert_insert_eq. by apply Forall_insert.
  - intros c'. unfold info. cbn. rewrite insert_insert_eq.
    destruct (decide (c' = c)) as [->|Hne]; [by rewrite lookup_insert_eq|].
    rewrite lookup_insert_ne, idle_info_other by congruence. by apply Hclt.
Qed.

(** Every step of the round is a step of the lock service. *)
Lemma run_steps fuel t s s' fl :
  acquire_run fuel t s = Some (s', fl) -> rtc (fun s s' => exists a, lstep s a = Some s') s s'.
Proof.
  revert s fl. induction fuel as [|fuel IH]; intros s fl E; simpl in E;
    destruct (has_it t s); try (injection E as <- <-; apply rtc_refl); [done|].
  destruct (next_action t s) as [a|]; [|done]. simpl in E.
  destruct (lstep s a) as [s1|] eqn:E1; [|done]. simpl in E.
  destruct (acquire_run fuel t s1) as [[s2 fl2]|] eqn:E2; [|done]. simpl in E.
  injection E as <- <-. eapply rtc_l; [by exists a|by eapply IH].
Qed.

(** Whose copy is flushed when client [c] gets the lock. *)
Definition gives_up (o : option cstring) (c : cstring) : list cstring :=
  match o with Some j => if str_eqb j c then [] else [j] | None => [] end.

Lemma acquire_hands_over o t c s :
  settled o s -> l_thr s !! t = Some (c, PIdle) ->
  exists s', acquire_run 12 t s = Some (s', gives_up o c) /\ holding t c s' /\
    l_thr s' = <[t := (c, PHold)]> (l_thr s).
Proof.
  destruct s as [sv rq clts thr ms]. intros [Hrq Hms Hthr Hsv Hclt] Ht. simpl in *. subst rq ms.
  unfold info in Hclt. cbn in Hclt.
  assert (Hother : forall c', Some c' <> o -> default clt.new_lock (clts !! c') = clt.new_lock).
  { intros c' Hc'. pose proof (Hclt c') as H. by rewrite idle_info_other in H by congruence. }
  assert (Hown : forall j, o = Some j -> clts !! j = Some (clt.Lock false true false 0 clt.FREE)).
  { intros j ->. pose proof (Hclt j) as H. rewrite idle_info_own in H. unfold clt.find_or_new in H.
    destruct (clts !! j); simpl in H; [by rewrite H|done]. }
  destruct o as [j|]; simpl.
  - destruct Hsv as [-> Hj]. destruct (str_eqb j c) eqn:E.
    + apply str_eqb_eq in E as ->. eexists. split; [by apply run_cached; [|apply Hown]|].
      split; [|done]. apply got_holding; [done|done|]. intros. apply Hother. congruence.
    + apply str_eqb_neq in E. eexists.
      split; [apply run_revoke; [done|apply Hother; congruence|done|done|by apply Hown]|].
      split; [|done]. apply got_holding; [done|done|]. intros c' Hc'.
      destruct (decide (c' = j)) as [->|]; [by rewrite lookup_insert_eq|].
      rewrite lookup_insert_ne by done. apply Hother. congruence.
  - eexists. split; [by apply run_free; [|apply Hother|]|]. split; [|done].
    apply got_holding; [done|done|]. intros. by apply Hother.
Qed.

(** C34 (a cached lock is handed over): when no call about a lock is under way, a thread that
    asks for it gets it within twelve steps of the service, whoever has it cached: the client
    itself, another one, which flushes its copy of the extent and gives the lock back first, or
    nobody; after the release the lock is cached by the client and the next one can have it. *)
Theorem lock_handover o t c s :
  settled o s -> l_thr s !! t = Some (c, PIdle) ->
  exists s' s'', acquire_run 12 t s = Some (s', gives_up o c) /\ holds s' c t /\
    rtc (fun s s' => exists a, lstep s a = Some s') s s' /\
    lstep s' (LRelease t) = Some s'' /\ settled (Some c) s'' /\ l_thr s'' = l_thr s.
Proof.
  intros Hs Ht. destruct (acquire_hands_over o t c s Hs Ht) as (s' & E & Hh & Hthr).
  destruct (release_settles t c s' Hh) as (s'' & E' & Hs' & Hthr').
  exists s', s''. split; [done|]. split; [by destruct Hh|]. split; [by eapply run_steps|].
  split; [done|]. split; [done|]. rewrite Hthr', Hthr, list_insert_insert_eq.
  by apply list_insert_id.
Qed.

Definition three : list cstring := [cs "a:1"; cs "b:2"; cs "c:3"].
Lemma three_ok : Forall (fun c => c <> srv.FREE) three.
Proof. by_computing. Qed.
(** The first client takes the lock and gives it up, and the second one gets it. *)
Lemma lock_handover_witness :
  exists s1 s2 s3, acquire_run 12 0 (lock0 three) = Some (s1, []) /\
    lstep s1 (LRelease 0) = Some s2 /\ acquire_run 12 1 s2 = Some (s3, [cs "a:1"]) /\
    holds s3 (cs "b:2") 1.
Proof.
  destruct (lock_handover None 0 (cs "a:1") (lock0 three) (settled_initial _ three_ok) eq_refl)
    as (s1 & s2 & E1 & _ & _ & E2 & Hs2 & Ht2).
  destruct (lock_handover _ 1 (cs "b:2") s2 Hs2) as (s3 & _ & E3 & Hh & _); [by rewrite Ht2|].
  by exists s1, s2, s3.
Defined.
