(* ===== verification/Shared.v ===== *)
(** Several file system clients on one extent server and one lock server (yfs_client.cc over
    lock_client_cache.cc and extent_client.cc).

    Every client has its own extent cache and one thread, the FUSE loop.  Its locks are those of
    the caching lock service, one [lsys] of [Lock] per extent: acquiring a lock runs the service
    ([Handover]) until the thread has it, and the client it is taken from flushes its copy of the
    extent on the way ([lock_releaser::dorelease]).  The state of all of them, as one client sees
    it, satisfies the laws of [FileStore], so that what [Yfs] and [Fuse] prove holds for each
    client whatever the others have cached. *)
From Stdlib Require Import ZArith Lia Ascii String.
From stdpp Require Import base gmap list strings.
From S2P Require Import Prelude TextIO Protocols Extent YfsDir Yfs Lock Handover.
Local Open Scope Z_scope.

(** The state of the clients [names], each with one thread, and of the servers. *)
Record world (names : list cstring) := World {
  sh_server : extent_server.state;
  sh_caches : gmap cstring extent_client.cache;
  sh_locks : gmap Z lsys;
  sh_me : nat;                                    (* the client at work *)
  sh_held : list Z }.                             (* the locks its thread holds *)
Arguments World {names}.
Arguments sh_server {names}.
Arguments sh_caches {names}.
Arguments sh_locks {names}.
Arguments sh_me {names}.
Arguments sh_held {names}.

Section clients.
  Context {names : list cstring}.
  Implicit Types w : world names.

Definition me (w : world names) : cstring := default [] (names !! sh_me w).
Definition cache_of (w : world names) (c : cstring) : extent_client.cache := default ∅ (sh_caches w !! c).
Definition lock_of (w : world names) (id : Z) : lsys := default (lock0 names) (sh_locks w !! id).

Definition set_store (w : world names) (c : cstring) (ca : extent_client.cache)
    (s : extent_server.state) : world names :=
  World s (<[c := ca]> (sh_caches w)) (sh_locks w) (sh_me w) (sh_held w).
Definition set_lock (w : world names) (id : Z) (l : lsys) (h : list Z) : world names :=
  World (sh_server w) (sh_caches w) (<[id := l]> (sh_locks w)) (sh_me w) h.

(** [lock_releaser::dorelease], at client [c]. *)
Definition dorelease (id : Z) (w : world names) (c : cstring) : world names :=
  let '(ca, s, _) := extent_client.flush Completed tick id (cache_of w c) (sh_server w) in
  set_store w c ca s.

(** [acquire] by the thread at work; a thread that is never given the lock stays where it is. *)
Definition acquire (id : Z) (w : world names) : world names :=
  match acquire_run 12 (sh_me w) (lock_of w id) with
  | Some (l, fl) => foldl (dorelease id) (set_lock w id l (id :: sh_held w)) fl
  | None => w
  end.
Definition release (id : Z) (w : world names) : world names :=
  match lstep (lock_of w id) (LRelease (sh_me w)) with
  | Some l => set_lock w id l (unlock id (sh_held w))
  | None => w
  end.

#[global] Instance world_store : FileStore (world names) := {
  ec_get id w :=
    let '(c, s, st, b) :=
      extent_client.get Completed Completed tick tick id [] (cache_of w (me w)) (sh_server w) in
    (set_store w (me w) c s, st, b);
  ec_getattr id w :=
    let '(c, s, st, a) :=
      extent_client.getattr Completed Completed tick id (cache_of w (me w)) (sh_server w) in
    (set_store w (me w) c s, st, a);
  ec_put id b w :=
    let '(c, s, st) :=
      extent_client.put Completed Completed tick tick id b (cache_of w (me w)) (sh_server w) in
    (set_store w (me w) c s, st);
  ec_remove id w :=
    let '(c, s, st) := extent_client.remove Completed id (cache_of w (me w)) (sh_server w) in
    (set_store w (me w) c s, st);
  lc_acquire := acquire;
  lc_release := release }.

(** Another client's turn. *)
Definition as_client (j : nat) (w : world names) : world names :=
  World (sh_server w) (sh_caches w) (sh_locks w) j (sh_held w).

(** * What the extents hold *)

(** The client that has the lock of an extent cached. *)
Definition owner (w : world names) (id : Z) : option cstring :=
  match l_srv (lock_of w id) with
  | Some l => if str_eqb (srv.holder l) srv.FREE then None else Some (srv.holder l)
  | None => None
  end.
(** It has the contents; an extent nobody has locked may have been made by the client at work. *)
Definition keeper (w : world names) (id : Z) : cstring := default (me w) (owner w id).
Definition world_stored (w : world names) (id : Z) : option cstring :=
  contents (cache_of w (keeper w id)) (sh_server w) id.
Definition world_usable (w : world names) (id : Z) : Prop := keeper w id = me w.
Definition world_loose (w : world names) (id : Z) : Prop :=
  owner w id = None /\ cache_of w (me w) !! id <> None.

(** The lock of [id]: held by the thread at work, or at rest. *)
Definition lock_ok (w : world names) (id : Z) : Prop :=
  if decide (id ∈ sh_held w) then
    holding (sh_me w) (me w) (lock_of w id) /\
    l_thr (lock_of w id) = <[sh_me w := (me w, PHold)]> ((fun c => (c, PIdle)) <$> names)
  else
    settled (owner w id) (lock_of w id) /\
    l_thr (lock_of w id) = ((fun c => (c, PIdle)) <$> names).

Record world_wf (w : world names) : Prop := {
  wf_names : Forall (fun c => c <> srv.FREE) names;
  wf_me : names !! sh_me w = Some (me w);
  wf_held : NoDup (sh_held w);
  wf_locks : forall id, lock_ok w id;
  wf_server : server_ok (sh_server w);
  wf_copies : forall c id, copy_ok (cache_of w c) (sh_server w) id;
  wf_keeper : forall c id, cache_of w c !! id <> None -> c = keeper w id }.

Lemma settled_owner o s w id : settled o s -> lock_of w id = s -> owner w id = o.
Proof.
  intros [_ _ _ Hs _] E. unfold owner. rewrite E. destruct o as [c|].
  - destruct Hs as [-> Hc]. simpl. by rewrite str_eqb_ne.
  - by destruct Hs as [->| ->].
Qed.
Lemma holding_owner t c s w id : holding t c s -> lock_of w id = s -> owner w id = Some c.
Proof.
  intros (_ & _ & [_ _ _ Hs _]) E. destruct s as [sv rq clts thr ms]. simpl in Hs.
  destruct Hs as [-> Hc]. unfold owner. rewrite E. simpl. by rewrite str_eqb_ne.
Qed.
Lemma held_owner w id : world_wf w -> id ∈ sh_held w -> owner w id = Some (me w).
Proof.
  intros Hw Hi. pose proof (wf_locks w Hw id) as Hl. unfold lock_ok in Hl.
  rewrite decide_True in Hl by done. destruct Hl as [Hl _]. by eapply holding_owner.
Qed.

Lemma cache_of_store w c ca s c' :
  cache_of (set_store w c ca s) c' = if decide (c' = c) then ca else cache_of w c'.
Proof.
  unfold cache_of, set_store; simpl. case_decide; subst;
    by rewrite ?lookup_insert_eq, ?lookup_insert_ne.
Qed.
Lemma lock_of_set w id l h i :
  lock_of (set_lock w id l h) i = if decide (i = id) then l else lock_of w i.
Proof.
  unfold lock_of, set_lock; simpl. case_decide; subst;
    by rewrite ?lookup_insert_eq, ?lookup_insert_ne.
Qed.

(** * An operation of one client on one extent *)

Section operation.
  Variables (w : world names) (id : Z) (c : cstring) (ca : extent_client.cache) (s : extent_server.state).
  Hypothesis Hw : world_wf w.
  Hypothesis Hc : keeper w id = c.
  Hypothesis Ha : apart id (cache_of w c) ca (sh_server w) s.

(** Other extents are as they were, at every client. *)
Lemma store_others c' i : i <> id ->
  cache_of (set_store w c ca s) c' !! i = cache_of w c' !! i /\
  extent_server.buf_of s i = extent_server.buf_of (sh_server w) i.
Proof.
  intros Hi. destruct Ha as [_ Ho]. destruct (Ho i Hi) as [H1 H2]. rewrite cache_of_store.
  split; [|done]. by case_decide as E; [rewrite E|].
Qed.
Lemma store_stored_others i : i <> id ->
  world_stored (set_store w c ca s) i = world_stored w i.
Proof.
  intros Hi. unfold world_stored. change (keeper (set_store w c ca s) i) with (keeper w i).
  destruct (store_others (keeper w i) i Hi). by apply contents_eq.
Qed.
Lemma store_stored : world_stored (set_store w c ca s) id = contents ca s id.
Proof.
  unfold world_stored. change (keeper (set_store w c ca s) id) with (keeper w id).
  by rewrite Hc, cache_of_store, decide_True.
Qed.
(** No other client has a copy of [id]. *)
Lemma store_alone c' : c' <> c -> cache_of w c' !! id = None.
Proof.
  intros Hne. destruct (cache_of w c' !! id) eqn:E; [|done].
  destruct Hne. rewrite <- Hc. apply (wf_keeper w Hw). by rewrite E.
Qed.
Lemma store_wf : copy_ok ca s id -> world_wf (set_store w c ca s).
Proof.
  intros Hid. destruct Hw as [H1 H2 H3 H4 H5 H6 H7]. split; try done.
  - by destruct Ha.
  - intros c' i. simpl. destruct (decide (i = id)) as [->|Hi].
    + rewrite cache_of_store. case_decide as E; [done|]. pose proof (store_alone c' E) as Hn.
      split; intros e; by rewrite Hn.
    + destruct (store_others c' i Hi). by eapply copy_ok_eq.
  - intros c' i. change (keeper (set_store w c ca s) i) with (keeper w i).
    destruct (decide (i = id)) as [->|Hi]; [|by rewrite (proj1 (store_others c' i Hi)); apply H7].
    rewrite cache_of_store. case_decide as E; [by subst|]. by rewrite (store_alone c' E).
Qed.
End operation.

Abbreviation world_evolves := (evolves world_wf world_usable world_loose).

(** The client at work uses an extent whose lock nobody else has. *)
Lemma own_evolves w id ca s :
  world_wf w -> world_usable w id -> apart id (cache_of w (me w)) ca (sh_server w) s ->
  copy_ok ca s id -> world_evolves [id] w (set_store w (me w) ca s).
Proof.
  intros Hw Hu Ha Hc. split; [by apply (store_wf w id)|]. split; [done|].
  intros i [Ho Hi]. destruct (decide (i = id)) as [->|Hne]; [by right; left|]. left.
  destruct (store_others w id (me w) ca s Ha (me w) i Hne) as [E _].
  change (me (set_store w (me w) ca s)) with (me w) in Hi. rewrite E in Hi. by split.
Qed.
Lemma held_evolves w id ca s :
  world_wf w -> id ∈ sh_held w -> apart id (cache_of w (me w)) ca (sh_server w) s ->
  copy_ok ca s id -> world_evolves [] w (set_store w (me w) ca s).
Proof.
  intros Hw Hi Ha Hc. pose proof (held_owner w id Hw Hi) as Ho.
  destruct (own_evolves w id ca s Hw) as (H1 & H2 & H3); [by unfold world_usable, keeper; rewrite Ho|done|done|].
  split; [done|]. split; [done|]. intros i Hl. destruct (H3 i Hl) as [|Hin]; [by left|].
  apply list_elem_of_singleton in Hin as ->. destruct Hl as [Hl _].
  change (owner (set_store w (me w) ca s) id) with (owner w id) in Hl. congruence.
Qed.
Lemma held_usable_world w id : world_wf w -> id ∈ sh_held w -> world_usable w id.
Proof. intros Hw Hi. unfold world_usable, keeper. by rewrite (held_owner w id Hw Hi). Qed.

(** * Locks *)

(** Writing a copy back. *)
Lemma client_flush id c s :
  copy_ok c s id -> server_ok s ->
  let '(c', s', _) := extent_client.flush Completed tick id c s in
  apart id c c' s s' /\ c' !! id = None /\ extent_server.buf_of s' id = contents c s id.
Proof.
  intros [Hf Hz] Hs. pose proof (extent_client.flush_spec Completed tick id c s
    (or_introl eq_refl) Hf) as H.
  assert (server_ok (extent_client.flush Completed tick id c s).1.2 /\
    extent_server.buf_of (extent_client.flush Completed tick id c s).1.2 id = contents c s id)
    as [Hok Hb].
  { unfold extent_client.flush, contents. destruct (c !! id) as [e|] eqn:Ec; [|done].
    destruct (extent_client.is_dirty e); cbn [call fst snd]; [|done].
    rewrite extent_client.server_put_buf, decide_True by done. split; [|done].
    unfold extent_server.put. destruct (s !! id); cbn [fst snd]; by refine (insert_all inode_sized _ _ _ _ Hs). }
  destruct (extent_client.flush _ _ _ _ _) as [[c' s'] r]. simpl in *.
  by destruct H as (? & _ & ?).
Qed.

Lemma dorelease_spec w id c :
  world_wf w -> keeper w id = c ->
  exists ca s, dorelease id w c = set_store w c ca s /\
    apart id (cache_of w c) ca (sh_server w) s /\ ca !! id = None /\
    extent_server.buf_of s id = contents (cache_of w c) (sh_server w) id.
Proof.
  intros Hw Hc. unfold dorelease.
  pose proof (client_flush id (cache_of w c) (sh_server w) (wf_copies w Hw c id) (wf_server w Hw)) as H.
  destruct (extent_client.flush _ _ _ _ _) as [[ca s] r]. by exists ca, s.
Qed.

Lemma owner_other w id l h i : i <> id -> owner (set_lock w id l h) i = owner w i.
Proof. intros Hi. unfold owner. by rewrite lock_of_set, decide_False by done. Qed.
Lemma keeper_other w id l h i : i <> id -> keeper (set_lock w id l h) i = keeper w i.
Proof. intros Hi. unfold keeper. by rewrite owner_other. Qed.

(** The lock of [id] changes, to a state with client [c] as its owner. *)
Lemma set_lock_wf w id l h :
  world_wf w -> NoDup h -> (forall i, i <> id -> (i ∈ h <-> i ∈ sh_held w)) ->
  lock_ok (set_lock w id l h) id -> owner (set_lock w id l h) id = Some (me w) ->
  (forall c, c <> me w -> cache_of w c !! id = None) ->
  world_wf (set_lock w id l h).
Proof.
  intros [H1 H2 H3 H4 H5 H6 H7] Hh Hi Hl Ho Hc. split; try done.
  - intros i. destruct (decide (i = id)) as [->|Hne]; [done|]. pose proof (H4 i) as H.
    unfold lock_ok in *. rewrite lock_of_set, (decide_False (P := i = id)), owner_other by done.
    cbn [sh_held sh_me set_lock]. change (me (set_lock w id l h)) with (me w).
    destruct (decide (i ∈ h)) as [Hin|Hin]; rewrite Hi in Hin by done;
      [by rewrite decide_True in H|by rewrite decide_False in H].
  - intros c i Hci. change (cache_of (set_lock w id l h) c) with (cache_of w c) in Hci.
    destruct (decide (i = id)) as [->|Hne]; [|rewrite keeper_other by done; by apply H7].
    unfold keeper. rewrite Ho. simpl. destruct (decide (c = me w)) as [|Hn]; [done|].
    by destruct (Hci (Hc c Hn)).
Qed.

(** The thread at work gets the lock, and no other client has a copy of the extent. *)
Lemma take_spec w id l :
  world_wf w -> id ∉ sh_held w -> (forall c, c <> me w -> cache_of w c !! id = None) ->
  holding (sh_me w) (me w) l ->
  l_thr l = <[sh_me w := (me w, PHold)]> ((fun c => (c, PIdle)) <$> names) ->
  let w' := set_lock w id l (id :: sh_held w) in
  world_evolves [] w w' /\ (forall i, i <> id -> world_stored w' i = world_stored w i) /\
  world_stored w' id = contents (cache_of w (me w)) (sh_server w) id.
Proof.
  intros Hw Hi Hc Hl Hthr w'.
  assert (lock_of w' id = l) as El by (unfold w'; by rewrite lock_of_set, decide_True).
  pose proof (holding_owner _ _ _ w' id Hl El) as Ho.
  assert (world_wf w') as Hw'.
  { apply set_lock_wf; try done; [by apply NoDup_cons; split; [|apply Hw]| |].
    - intros i Hne. set_solver.
    - fold w'. unfold lock_ok. rewrite decide_True by by left. rewrite El. by split. }
  assert (forall i, i <> id -> world_stored w' i = world_stored w i) as Hs.
  { intros i Hne. unfold world_stored, w'. by rewrite keeper_other. }
  split_and!; [|done|by unfold world_stored, keeper; rewrite Ho].
  split; [done|]. split.
  - intros i Hu. unfold world_usable in *. destruct (decide (i = id)) as [->|Hne].
    + unfold keeper. by rewrite Ho.
    + unfold w'. by rewrite keeper_other.
  - intros i [Hn Hci]. left. destruct (decide (i = id)) as [->|Hne]; [by rewrite Ho in Hn|].
    split; [|done]. unfold w' in Hn. by rewrite owner_other in Hn.
Qed.

(** The lock is taken from client [j], which flushes its copy. *)
Lemma take_from w id l j :
  world_wf w -> id ∉ sh_held w -> keeper w id = j -> j <> me w ->
  holding (sh_me w) (me w) l ->
  l_thr l = <[sh_me w := (me w, PHold)]> ((fun c => (c, PIdle)) <$> names) ->
  let w' := dorelease id (set_lock w id l (id :: sh_held w)) j in
  world_evolves [] w w' /\ sh_held w' = id :: sh_held w /\
  (forall i, world_stored w' i = world_stored w i).
Proof.
  intros Hw Hi Hk Hj Hl Hthr. destruct (dorelease_spec w id j Hw Hk) as (ca & s & Ed & Ha & Hn & Hb).
  assert (dorelease id (set_lock w id l (id :: sh_held w)) j
    = set_lock (set_store w j ca s) id l (id :: sh_held w)) as ->.
  { rewrite <- Ed. unfold dorelease. change (cache_of (set_lock w _ _ _) j) with (cache_of w j).
    cbn [sh_server set_lock]. by destruct (extent_client.flush _ _ _ _ _) as [[??]?]. }
  assert (world_wf (set_store w j ca s)) as Hw1.
  { apply (store_wf w id); try done. split; intros e; by rewrite Hn. }
  assert (forall c, cache_of (set_store w j ca s) c !! id = None) as Hnone.
  { intros c. rewrite cache_of_store. case_decide; [done|]. by apply (store_alone w id j). }
  destruct (take_spec (set_store w j ca s) id l Hw1 Hi (fun c _ => Hnone c) Hl Hthr) as (He & Hs & Hid).
  cbv zeta. split_and!; [|done|].
  - apply (evolves_trans _ _ _ [] [] w (set_store w j ca s)); [|exact He].
    split; [done|]. split; [done|]. intros i [Ho Hci]. left. split; [done|].
    change (me (set_store w j ca s)) with (me w) in Hci.
    by rewrite cache_of_store, decide_False in Hci by done.
  - intros i. destruct (decide (i = id)) as [->|Hne].
    + transitivity (contents (cache_of w j) (sh_server w) id); [|unfold world_stored; by rewrite Hk].
      rewrite <- Hb. etransitivity; [exact Hid|]. unfold contents.
      change (me (set_store w j ca s)) with (me w). by rewrite Hnone.
    + rewrite <- (store_stored_others w id j ca s Ha i Hne). by apply Hs.
Qed.

Lemma acquire_spec w id :
  world_wf w -> id ∉ sh_held w ->
  world_evolves [] w (acquire id w) /\ sh_held (acquire id w) = id :: sh_held w /\
  forall i, world_stored (acquire id w) i = world_stored w i.
Proof.
  intros Hw Hi. pose proof (wf_locks w Hw id) as Hl. unfold lock_ok in Hl.
  rewrite decide_False in Hl by done. destruct Hl as [Hset Hthr].
  assert (l_thr (lock_of w id) !! sh_me w = Some (me w, PIdle)) as Ht.
  { rewrite Hthr, list_lookup_fmap, (wf_me w Hw). done. }
  destruct (acquire_hands_over _ _ _ _ Hset Ht) as (l & El & Hhold & Hthr').
  rewrite Hthr in Hthr'. unfold acquire. rewrite El.
  destruct (decide (keeper w id = me w)) as [Hk|Hk].
  - assert (gives_up (owner w id) (me w) = []) as ->.
    { unfold gives_up. unfold keeper in Hk. destruct (owner w id); [|done]. simpl in Hk.
      by rewrite Hk, str_eqb_refl. }
    destruct (take_spec w id l Hw Hi) as (He & Hs & Hid); [by apply store_alone|done|done|].
    split_and!; try done. intros i. destruct (decide (i = id)) as [->|]; [|by apply Hs].
    simpl. rewrite Hid. unfold world_stored. by rewrite Hk.
  - assert (gives_up (owner w id) (me w) = [keeper w id]) as ->.
    { unfold gives_up, keeper in *. destruct (owner w id); [|done]. simpl in *.
      by rewrite str_eqb_ne. }
    by apply take_from.
Qed.

Lemma unlock_spec id l : NoDup l ->
  NoDup (unlock id l) /\ (id ∉ unlock id l) /\ (forall i, i <> id -> (i ∈ unlock id l <-> i ∈ l)).
Proof.
  induction 1 as [|x l Hx Hnd IH]; simpl.
  - split; [constructor|]. split; [apply not_elem_of_nil|done].
  - destruct IH as (Hd & Hni & Hi). destruct (Z.eqb_spec x id) as [->|Hne].
    + split; [done|]. split; [done|]. intros i Hii. rewrite elem_of_cons. naive_solver.
    + split; [constructor; [by rewrite Hi|done]|]. split.
      * rewrite elem_of_cons. naive_solver.
      * intros i Hii. rewrite !elem_of_cons, Hi by done. done.
Qed.

Lemma release_spec w id :
  world_wf w -> id ∈ sh_held w ->
  world_evolves [] w (release id w) /\ sh_held (release id w) = unlock id (sh_held w) /\
  forall i, world_stored (release id w) i = world_stored w i.
Proof.
  intros Hw Hi. pose proof (held_owner w id Hw Hi) as Ho. pose proof (wf_locks w Hw id) as Hl.
  unfold lock_ok in Hl. rewrite decide_True in Hl by done. destruct Hl as [Hl Hthr].
  destruct (release_settles _ _ _ Hl) as (l & El & Hset & Hthr').
  rewrite Hthr, list_insert_insert_eq, list_insert_id in Hthr'
    by (rewrite list_lookup_fmap, (wf_me w Hw); done).
  unfold release. rewrite El. set (w' := set_lock w id l _).
  assert (lock_of w' id = l) as El' by (unfold w'; by rewrite lock_of_set, decide_True).
  pose proof (settled_owner _ _ w' id Hset El') as Ho'.
  assert (forall i, owner w' i = owner w i) as How.
  { intros i. destruct (decide (i = id)) as [->|]; [congruence|]. by apply owner_other. }
  destruct (unlock_spec id (sh_held w) (wf_held w Hw)) as (Hnd & Hni & Hun).
  split_and!; [|done|].
  - split; [|split].
    + apply set_lock_wf; try done.
      * unfold lock_ok. fold w'. cbn [sh_held w' set_lock]. rewrite decide_False by done.
        rewrite El', Ho'. by split.
      * apply store_alone; [done|]. unfold keeper. by rewrite Ho.
    + intros i. unfold world_usable, keeper. by rewrite How.
    + intros i [Hn Hc]. left. rewrite How in Hn. by split.
  - intros i. unfold world_stored, keeper. by rewrite How.
Qed.

(** * The laws *)

Lemma store_same w id ca s :
  world_wf w -> keeper w id = me w -> apart id (cache_of w (me w)) ca (sh_server w) s ->
  contents ca s id = contents (cache_of w (me w)) (sh_server w) id ->
  forall i, world_stored (set_store w (me w) ca s) i = world_stored w i.
Proof.
  intros Hw Hk Ha Hc i. destruct (decide (i = id)) as [->|]; [|by apply (store_stored_others w id)].
  rewrite (store_stored w id) by done. unfold world_stored. by rewrite Hk.
Qed.

#[global, refine] Instance world_laws : FileStoreLaws (world names) := {
  stored := world_stored;
  held := sh_held;
  wf := world_wf;
  usable := world_usable;
  loose := world_loose }.
Proof.
  - intros id w. apply held_usable_world.
  - intros id w Hw Hi [Ho _]. by rewrite (held_owner w id Hw Hi) in Ho.
  - intros id w Hw Hi. pose proof (held_usable_world w id Hw Hi) as Hu.
    pose proof (client_get id _ _ (wf_copies w Hw (me w) id) (wf_server w Hw)) as Hg. simpl.
    destruct (extent_client.get _ _ _ _ _ _ _ _) as [[[c' s'] st] b].
    destruct Hg as (Ha & Hc & Hs & _ & Hst).
    split_and!; [by eapply held_evolves|done|by eapply store_same|].
    unfold world_stored. by rewrite Hu.
  - intros id w Hw Hi. pose proof (held_usable_world w id Hw Hi) as Hu.
    pose proof (client_getattr id _ _ (wf_copies w Hw (me w) id) (wf_server w Hw)) as Hg. simpl.
    destruct (extent_client.getattr _ _ _ _ _ _) as [[[c' s'] st] b].
    destruct Hg as (Ha & Hc & Hs & _ & Hst).
    split_and!; [by eapply held_evolves|done|by eapply store_same|].
    unfold world_stored. by rewrite Hu.
  - intros id b w Hw Hu. pose proof (client_put id b (cache_of w (me w)) _ (wf_server w Hw)) as Hp.
    simpl. destruct (extent_client.put _ _ _ _ _ _ _ _) as [[c' s'] st].
    destruct Hp as (Ha & Hc & Hs & _). split_and!; [by eapply own_evolves|done|].
    intros i. case_decide as E; [subst; by rewrite (store_stored w id)|].
    by apply (store_stored_others w id).
  - intros id w Hw Hi. pose proof (client_remove id (cache_of w (me w)) _ (wf_server w Hw)) as Hp.
    simpl. destruct (extent_client.remove _ _ _ _) as [[c' s'] st]. destruct Hp as (Ha & Hc).
    split_and!; [|done|by apply (store_stored_others w id)].
    eapply held_evolves; try done. split; intros e; by rewrite Hc.
  - intros id w. apply acquire_spec.
  - intros id w. apply release_spec.
Defined.

(** * Turns *)

(** Between the requests of different clients: no lock is held and every copy is of an extent
    whose lock its client has. *)
Definition calm (w : world names) : Prop := idle w /\ forall id, ~ loose w id.

Lemma calm_after w w' : calm w -> done_with [] w w' -> calm w'.
Proof.
  intros [_ Hl] D. split; [by eapply done_idle|]. intros id Hi. destruct D as [(_ & _ & L) _].
  destruct (L id Hi) as [?|[]%not_elem_of_nil]. by eapply Hl.
Qed.

(** Another client finds the same contents. *)
Lemma switch j c w :
  calm w -> names !! j = Some c ->
  calm (as_client j w) /\ forall id, stored (as_client j w) id = stored w id.
Proof.
  intros [[Hw Hh] Hl] Hj. assert (Hme : me (as_client j w) = c) by (unfold me; simpl; by rewrite Hj).
  assert (forall c id, cache_of w c !! id <> None -> owner w id = Some c) as Hown.
  { intros c' id Hc. pose proof (wf_keeper w Hw c' id Hc) as Hk. unfold keeper in Hk.
    destruct (owner w id) eqn:Eo; simpl in Hk; [by subst|]. subst c'. by destruct (Hl id). }
  assert (forall id, stored (as_client j w) id = stored w id) as Hs.
  { intros id. simpl. unfold world_stored, keeper.
    change (owner (as_client j w) id) with (owner w id).
    destruct (owner w id) eqn:Eo; [done|]. unfold contents. simpl.
    change (cache_of (as_client j w)) with (cache_of w).
    destruct (cache_of w (me (as_client j w)) !! id) eqn:E1;
      [by rewrite (Hown _ id) in Eo by by rewrite E1|].
    destruct (cache_of w (me w) !! id) eqn:E2; [by rewrite (Hown _ id) in Eo by by rewrite E2|done]. }
  assert (world_wf (as_client j w)) as Hwf.
  { destruct Hw as [H1 H2 H3 H4 H5 H6 H7]. simpl in Hh. split; try done.
    - rewrite Hme. done.
    - intros id. pose proof (H4 id) as H. unfold lock_ok in *. simpl. rewrite Hh in *.
      by rewrite decide_False in * by apply not_elem_of_nil.
    - intros c' id Hc. unfold keeper. change (owner (as_client j w) id) with (owner w id).
      by rewrite (Hown _ _ Hc). }
  split; [|done]. split; [by split|]. intros id [Ho Hc].
  change (owner (as_client j w) id) with (owner w id) in Ho.
  by rewrite (Hown _ _ Hc) in Ho.
Qed.
Lemma switch_directory j c w p es :
  calm w -> names !! j = Some c -> directory w p es -> directory (as_client j w) p es.
Proof. intros Hc Hj [? ?]. destruct (switch j c w Hc Hj) as [_ Hs]. by split; [rewrite Hs|]. Qed.

(** A new server and clients that have done nothing. *)
Definition world0 : world names := World (extent_server.new tick) ∅ ∅ 0 [].

Lemma world0_calm : Forall (fun c => c <> srv.FREE) names -> names <> [] -> calm world0.
Proof.
  intros Hn Hne. split; [split; [|done]|by intros id [_ ?]].
  split; try done; [|constructor| |apply yfs_example.server_new_ok].
  - unfold me. simpl. by destruct names.
  - intros id. unfold lock_ok. rewrite decide_False by apply not_elem_of_nil. split; [|done].
    by apply settled_initial.
Qed.
Lemma world0_directory : directory world0 ROOTDIR [].
Proof. split; [reflexivity|constructor]. Qed.
End clients.
Arguments world0 names : clear implicits.
