(* ===== verification/FileSystem.v ===== *)
(** The file system as a whole: yfs_client.cc and fuse.cc over any store, and over the shared
    store of several clients ([Shared]).

    [fs_ok] says what a file system is: every directory parses to entries with proper names, each
    entry names an inode that exists, no inode has two entries and no directory two files or two
    directories of one name.  The theorems: every request of a kernel is answered and keeps this,
    from whichever client; what one client writes another reads. *)
From Stdlib Require Import ZArith Lia Ascii String.
From stdpp Require Import base gmap list strings relations.
From S2P Require Import Prelude TextIO Protocols Extent YfsDir Yfs Fuse Lock Handover Shared.
Local Open Scope Z_scope.
Import yfs_status.

(** * Well-formed file systems *)

Definition disk : Type := Z -> option cstring.
Definition dir_at (m : disk) (p : Z) (es : list dirent) : Prop :=
  isdir p = true /\ m p = Some (writeDirent es) /\ Forall dirent_ok es.
Definition entry_at (m : disk) (p : Z) (n : nat) (d : dirent) : Prop :=
  exists es, dir_at m p es /\ es !! n = Some d.
(** A file and a directory may share a name: the creating operations look at their own kind. *)
Definition name_kind (d : dirent) : cstring * bool := (d_name d, isfile (d_inum d)).

Record fs_ok (m : disk) : Prop := {
  fs_root : m ROOTDIR <> None;
  fs_parse : forall p, isdir p = true -> m p <> None -> exists es, dir_at m p es;
  fs_present : forall p n d, entry_at m p n d -> m (d_inum d) <> None /\ d_inum d <> ROOTDIR;
  fs_names : forall p es, dir_at m p es -> NoDup (name_kind <$> es);
  fs_unique : forall p p' n n' d d', entry_at m p n d -> entry_at m p' n' d' ->
    d_inum d = d_inum d' -> p = p' /\ n = n' }.

Lemma dir_at_fun m p es es' : dir_at m p es -> dir_at m p es' -> es = es'.
Proof.
  intros (_ & H1 & H2) (_ & H3 & H4). pose proof (parse_write es H2) as E.
  pose proof (parse_write es' H4) as E'. assert (writeDirent es = writeDirent es') by congruence.
  congruence.
Qed.
Lemma entry_in m p es n d : dir_at m p es -> entry_at m p n d -> es !! n = Some d.
Proof. intros Hd (es' & Hd' & Hn). by rewrite (dir_at_fun m p es es'). Qed.
Lemma fs_ok_ext m m' : (forall x, m' x = m x) -> fs_ok m -> fs_ok m'.
Proof.
  intros Hx [H1 H2 H3 H4 H5].
  assert (forall p es, dir_at m' p es <-> dir_at m p es) as Hd.
  { intros. unfold dir_at. by rewrite Hx. }
  assert (forall p n d, entry_at m' p n d <-> entry_at m p n d) as He.
  { intros. unfold entry_at. by setoid_rewrite Hd. }
  split; intros *; rewrite ?Hd, ?He, ?Hx; eauto. intros ? ?. setoid_rewrite Hd. eauto.
Qed.

(** ** What operations do to it *)

Section changes.
  Variables (m m' : disk) (p : Z) (es : list dirent).
  Hypothesis Hm : fs_ok m.
  Hypothesis Hp : dir_at m p es.

(** An entry for an inode that did not exist is added. *)
Lemma fs_add d :
  m (d_inum d) = None -> dirent_ok d -> name_kind d ∉ (name_kind <$> es) ->
  m' p = Some (writeDirent (es ++ [d])) -> m' (d_inum d) = Some [] ->
  (forall x, x <> p -> x <> d_inum d -> m' x = m x) -> fs_ok m'.
Proof.
  intros Hnew Hok Hname Hp' Hi Ho.
  assert (Hpi : p <> d_inum d) by (intros E; destruct Hp as (_ & E' & _); congruence).
  assert (Hdp : dir_at m' p (es ++ [d])).
  { destruct Hp as (? & _ & ?). split; [done|]. split; [done|].
    apply Forall_app; split; [done|by constructor]. }
  assert (Hent : forall q n e, entry_at m' q n e ->
    entry_at m q n e \/ (q = p /\ n = length es /\ e = d)).
  { intros q n e (es' & Hq & Hn). destruct (decide (q = p)) as [->|Hqp].
    - rewrite (dir_at_fun _ _ _ _ Hq Hdp) in Hn.
      apply lookup_app_Some in Hn as [Hn|[Hl Hn]]; [left; by exists es|right].
      apply list_lookup_singleton_Some in Hn as [Hn ->]. split_and!; [done|lia|done].
    - destruct (decide (q = d_inum d)) as [->|Hqi].
      + assert (dir_at m' (d_inum d) []) as Hn'
          by (destruct Hq as (? & _ & _); split; [done|]; split; [done|constructor]).
        by rewrite (dir_at_fun _ _ _ _ Hq Hn') in Hn.
      + left. exists es'. split; [|done]. unfold dir_at in *. by rewrite <- Ho. }
  assert (Hpres : forall x, m x <> None -> m' x <> None).
  { intros x Hx. destruct (decide (x = p)) as [->|]; [by rewrite Hp'|].
    destruct (decide (x = d_inum d)) as [->|]; [by rewrite Hi|by rewrite Ho]. }
  assert (Hdist : forall q n e, entry_at m q n e -> d_inum e <> d_inum d).
  { intros q n e He E. destruct (fs_present m Hm q n e He) as [Hx _]. by rewrite E in Hx. }
  split.
  - apply Hpres, fs_root, Hm.
  - intros q Hq Hx. destruct (decide (q = p)) as [->|Hqp]; [eauto|].
    destruct (decide (q = d_inum d)) as [->|Hqi]; [exists []; repeat split; done|].
    rewrite Ho in Hx by done. destruct (fs_parse m Hm q Hq Hx) as [es' Hd].
    exists es'. unfold dir_at in *. by rewrite Ho.
  - intros q n e He. destruct (Hent q n e He) as [He'|(-> & -> & ->)].
    + destruct (fs_present m Hm q n e He'). auto.
    + rewrite Hi. split; [done|]. intros E. apply (fs_root m Hm). by rewrite <- E.
  - intros q es' Hq. destruct (decide (q = p)) as [->|Hqp].
    + rewrite (dir_at_fun _ _ _ _ Hq Hdp), fmap_app. apply NoDup_app.
      split; [by eapply fs_names|]. split; [|apply NoDup_singleton].
      intros x Hx ->%list_elem_of_singleton. done.
    + destruct (decide (q = d_inum d)) as [->|Hqi].
      * assert (dir_at m' (d_inum d) []) as Hn'
          by (destruct Hq as (? & _ & _); split; [done|]; split; [done|constructor]).
        rewrite (dir_at_fun _ _ _ _ Hq Hn'). constructor.
      * apply (fs_names m Hm q). unfold dir_at in *. by rewrite <- Ho.
  - intros q q' n n' e e' He He' E.
    destruct (Hent q n e He) as [H1|(-> & -> & ->)], (Hent q' n' e' He') as [H2|(-> & -> & ->)].
    + by apply (fs_unique m Hm q q' n n' e e').
    + by destruct (Hdist q n e H1).
    + by destruct (Hdist q' n' e' H2).
    + done.
Qed.

(** The entry of a file is taken out, and the file may go. *)
Lemma fs_remove name i es' :
  take_out name es = Some (i, es') -> m' p = Some (writeDirent es') ->
  (forall x, x <> p -> x <> i -> m' x = m x) -> fs_ok m'.
Proof.
  intros Ht Hp' Ho. destruct Hp as (Hpd & Hpm & Hes).
  destruct (take_out_ok _ _ _ _ Hes Ht) as (Hf & Hes' & l & l' & d & El & El' & Hdi & Hdn).
  assert (Hpi : p <> i) by (intros ->; unfold isdir in Hpd; by rewrite Hf in Hpd).
  assert (Hdp : dir_at m' p es') by done.
  assert (Hd : entry_at m p (length l) d).
  { exists es. split; [done|]. by rewrite El, list_lookup_middle. }
  assert (Hdir : forall q es'', q <> p -> dir_at m' q es'' -> dir_at m q es'').
  { intros q es'' Hq (Hqd & Hx & Hok). split; [done|]. split; [|done]. rewrite <- Ho; [done..|].
    intros ->. unfold isdir in Hqd. by rewrite Hf in Hqd. }
  set (old := fun n => if decide (n < length l)%nat then n else S n).
  assert (Hent : forall q n e, entry_at m' q n e ->
    entry_at m q (if decide (q = p) then old n else n) e).
  { intros q n e (es'' & Hq & Hn). case_decide as E; [|exists es''; by split; [apply Hdir|]].
    subst q. exists es. split; [done|]. rewrite (dir_at_fun _ _ _ _ Hq Hdp) in Hn.
    rewrite El. rewrite El' in Hn. unfold old. case_decide.
    - rewrite lookup_app_l in * by lia. done.
    - rewrite lookup_app_r in * by lia.
      replace (S n - length l)%nat with (S (n - length l)) by lia. done. }
  assert (Hold : forall q n, q = p -> (if decide (q = p) then old n else n) <> length l).
  { intros q n ->. rewrite decide_True by done. unfold old. case_decide; lia. }
  assert (Hne : forall q n e, entry_at m' q n e -> d_inum e <> i).
  { intros q n e He E. pose proof (Hent q n e He) as He0.
    destruct (fs_unique m Hm _ _ _ _ _ _ He0 Hd) as [-> En]; [congruence|].
    by destruct (Hold p n eq_refl). }
  assert (Hpres : forall x, x <> i -> m x <> None -> m' x <> None).
  { intros x Hx Hxm. destruct (decide (x = p)) as [->|]; [by rewrite Hp'|by rewrite Ho]. }
  split.
  - apply Hpres; [intros <-; by vm_compute in Hf|apply fs_root, Hm].
  - intros q Hq Hx. destruct (decide (q = p)) as [->|Hqp]; [eauto|].
    assert (q <> i) by (intros ->; unfold isdir in Hq; by rewrite Hf in Hq).
    rewrite Ho in Hx by done. destruct (fs_parse m Hm q Hq Hx) as [es'' Hq'].
    exists es''. unfold dir_at in *. by rewrite Ho.
  - intros q n e He. destruct (fs_present m Hm _ _ _ (Hent q n e He)). eauto.
  - intros q es'' Hq. destruct (decide (q = p)) as [->|Hqp]; [|by eapply fs_names; eauto].
    rewrite (dir_at_fun _ _ _ _ Hq Hdp), El'. eapply (sublist_NoDup _ (name_kind <$> es));
      [by eapply fs_names|]. rewrite El, !fmap_app. apply sublist_app; [done|].
    by apply sublist_cons.
  - intros q q' n n' e e' He He' E.
    destruct (fs_unique m Hm _ _ _ _ _ _ (Hent q n e He) (Hent q' n' e' He') E) as [-> En].
    split; [done|]. case_decide; [|done]. unfold old in En. repeat case_decide; lia.
Qed.
End changes.

(** A file is written, truncated or extended. *)
Lemma fs_write m m' i :
  fs_ok m -> isfile i = true -> (m i <> None -> m' i <> None) ->
  (forall x, x <> i -> m' x = m x) -> fs_ok m'.
Proof.
  intros Hm Hf Hi Ho.
  assert (Hd : forall q, isdir q = true -> m' q = m q).
  { intros q Hq. apply Ho. intros ->. unfold isdir in Hq. by rewrite Hf in Hq. }
  assert (Hdir : forall q es, dir_at m' q es <-> dir_at m q es).
  { intros q es. unfold dir_at. split; intros (Hq & Hx & Hok); (split; [done|]); (split; [|done]);
      [by rewrite <- Hd|by rewrite Hd]. }
  assert (He : forall q n d, entry_at m' q n d <-> entry_at m q n d).
  { intros. unfold entry_at. by setoid_rewrite Hdir. }
  assert (Hpres : forall x, m x <> None -> m' x <> None).
  { intros x Hx. destruct (decide (x = i)) as [->|]; [by apply Hi|by rewrite Ho]. }
  destruct Hm as [H1 H2 H3 H4 H5]. split.
  - auto.
  - intros q Hq Hx. rewrite Hd in Hx by done. destruct (H2 q Hq Hx) as [es Hes].
    exists es. by apply Hdir.
  - intros q n d Hn%He. destruct (H3 q n d Hn). auto.
  - intros q es Hes%Hdir. eauto.
  - intros ?????? ?%He ?%He. eauto.
Qed.

(** * Requests *)

Section requests.
  Context {W : Type} `{FileStoreLaws W} `{Libfuse}.

(** An inode number nobody has used: the creating operations take what [random()] returns for
    one. *)
Definition fresh (w : W) (i : Z) : Prop := stored w i = None /\ usable w i.

(** What the kernel sends: names it has checked, writes and truncations of files within 64-bit
    offsets, creations in directories that exist. *)
Definition valid (w : W) (rnd : Z) (r : fuse_request) : Prop :=
  match r with
  | FuseGetattr _ | FuseStatfs | FuseReaddir _ _ _ | FuseOpen _ => True
  | FuseLookup parent _ | FuseUnlink parent _ => isdir parent = true /\ stored w parent <> None
  | FuseCreate parent name | FuseMknod parent name =>
      isdir parent = true /\ stored w parent <> None /\ name_ok name /\
      0 <= rnd < 2 ^ 31 /\ fresh w (Z.lor rnd 0x80000000)
  | FuseMkdir parent name =>
      isdir parent = true /\ stored w parent <> None /\ name_ok name /\
      0 <= rnd /\ fresh w (Z.land rnd 0x7FFFFFFF)
  | FuseRead _ size off => is_u64 size /\ is_u64 off
  | FuseWrite ino buf off =>
      isfile ino = true /\ 0 <= off /\ off + Z.of_nat (length buf) < 2 ^ 64
  | FuseSetattr ino size to_set => isfile ino = true
  end.

(** A request that was answered. *)
Definition answered (r : fuse_request) (w : W) (o : outcome (W * list reply)) : Prop :=
  exists w' out, o = Ret (w', out) /\ done_with [] w w' /\ fs_ok (stored w').

Lemma keeps_ok w w' : keeps w w' -> fs_ok (stored w) -> fs_ok (stored w').
Proof. intros [_ Hs]. by apply fs_ok_ext. Qed.

Lemma parent_dir w p : fs_ok (stored w) -> isdir p = true -> stored w p <> None ->
  exists es, dir_at (stored w) p es /\ directory w p es.
Proof. intros Hm Hp Hx. destruct (fs_parse _ Hm p Hp Hx) as [es Hd]. exists es. split; [done|]. apply Hd. Qed.

Lemma taken_kind (b : bool) es name i :
  isfile i = b ->
  existsb (fun d => str_eqb (d_name d) name && Bool.eqb (isfile (d_inum d)) b) es = false ->
  name_kind (Dirent name i) ∉ (name_kind <$> es).
Proof.
  intros Hi He (d & Ed & Hd)%list_elem_of_fmap. injection Ed as En Ef.
  assert (existsb (fun d => str_eqb (d_name d) name && Bool.eqb (isfile (d_inum d)) b) es = true).
  { apply existsb_exists. exists d. split; [by apply list_elem_of_In|].
    rewrite <- En, str_eqb_refl, <- Hi, Ef. simpl. apply Bool.eqb_reflx. }
  congruence.
Qed.

Lemma no_file_kind es name i :
  isfile i = true -> has_file es name = false -> name_kind (Dirent name i) ∉ (name_kind <$> es).
Proof.
  intros Hi He. apply (taken_kind true); [done|]. etransitivity; [|exact He]. unfold has_file. clear.
  induction es as [|d es IH]; simpl; [done|]. rewrite IH. by destruct (isfile (d_inum d)).
Qed.
Lemma no_dir_kind es name i :
  isfile i = false -> has_dir es name = false -> name_kind (Dirent name i) ∉ (name_kind <$> es).
Proof.
  intros Hi He. apply (taken_kind false); [done|]. etransitivity; [|exact He]. unfold has_dir. clear.
  induction es as [|d es IH]; simpl; [done|]. rewrite IH. by destruct (isfile (d_inum d)).
Qed.

(** The helper of [create] and [mknod]. *)
Lemma createhelper_ok rnd i0 p name w :
  idle w -> fs_ok (stored w) -> valid w rnd (FuseCreate p name) ->
  exists w' ret e, fuseserver_createhelper rnd i0 p name w = Ret (w', ret, e) /\
    done_with [] w w' /\ fs_ok (stored w').
Proof.
  intros Hw Hm (Hp & Hx & Hn & Hr & Hfree & Hu).
  destruct (parent_dir w p Hm Hp Hx) as (es & Hd & Hdir). destruct (new_file rnd Hr) as [Hf Hu64].
  destruct (createhelper_spec rnd i0 p name es w Hw Hdir Hp Hn Hr Hu) as (w' & ret & e & E & Hc).
  exists w', ret, e. split; [done|]. destruct (has_file es name) eqn:Eh.
  - destruct Hc as [_ Hk]. split; [by destruct Hk|by eapply keeps_ok].
  - destruct Hc as (_ & _ & _ & D & Hi & [Hd' _] & Ho). split; [done|].
    eapply (fs_add (stored w) _ p es Hm Hd (Dirent name (Z.lor rnd 0x80000000))); try done.
    by apply no_file_kind.
Qed.

Lemma mkdir_ok rnd i0 p name w :
  idle w -> fs_ok (stored w) -> valid w rnd (FuseMkdir p name) ->
  answered (FuseMkdir p name) w (fuseserver_mkdir rnd i0 p name w).
Proof.
  intros Hw Hm (Hp & Hx & Hn & Hr & Hfree & Hu).
  destruct (parent_dir w p Hm Hp Hx) as (es & Hd & Hdir). destruct (new_dir rnd Hr) as [Hf Hrange].
  assert (p <> Z.land rnd 0x7FFFFFFF) as Hne by congruence.
  destruct (createDirectory_spec rnd i0 p name es w Hw Hdir Hn Hr Hne Hu) as (w1 & st & i & E & Hc).
  unfold answered, fuseserver_mkdir. rewrite E. unfold created in Hc. simpl.
  destruct (has_dir es name) eqn:Eh.
  - destruct Hc as (-> & -> & D & Hs). simpl. eexists _, _. split; [done|]. split; [done|].
    by eapply fs_ok_ext.
  - destruct Hc as (-> & -> & D & Hi & [Hd' _] & Ho). simpl.
    destruct (handler_attr_spec (Z.land rnd 0x7FFFFFFF) _ w1 w D) as
      (w2 & ret & st & -> & D2 & Hs2 & _); [by intros i ->%list_elem_of_singleton|].
    eexists _, _. split; [done|]. split; [done|]. eapply fs_ok_ext; [exact Hs2|].
    eapply (fs_add (stored w) _ p es Hm Hd (Dirent name (Z.land rnd 0x7FFFFFFF))); try done.
    + split; [done|]. unfold is_u64. simpl. lia.
    + by apply no_dir_kind.
Qed.

Lemma unlink_ok p name w :
  idle w -> fs_ok (stored w) -> isdir p = true -> stored w p <> None ->
  answered (FuseUnlink p name) w (fuseserver_unlink p name w).
Proof.
  intros Hw Hm Hp Hx. destruct (parent_dir w p Hm Hp Hx) as (es & Hd & Hdir).
  destruct (unlink_spec p name es w Hw Hdir Hp) as (w' & st & E & D & Hc).
  unfold answered, fuseserver_unlink. rewrite E. simpl. eexists _, _. split; [done|]. split; [done|].
  destruct (take_out name es) as [[i es']|] eqn:Et.
  - destruct Hc as (_ & [Hd' _] & Ho). by eapply (fs_remove (stored w) _ p es Hm Hd name i es').
  - destruct Hc as (_ & Hs). by eapply fs_ok_ext.
Qed.

Lemma readdir_ok ino size off w :
  idle w -> fs_ok (stored w) ->
  answered (FuseReaddir ino size off) w (fuseserver_readdir ino size off w).
Proof.
  intros Hw Hm. unfold answered, fuseserver_readdir. destruct (isdir ino) eqn:Hp; simpl.
  2:{ eexists _, _. split; [done|]. split; [by apply done_refl|done]. }
  unfold getDirContents. pose proof (idle_open ino w Hw) as Ho.
  destruct (ec_get ino _) as [[w1 st] b]. destruct Ho as (He & Hh & Hs & Hst).
  destruct (idle_close ino _ _ _ He Hh) as (D & Hs2).
  assert (exists es, parsebuf b = Ret es) as [es ->].
  { destruct (stored w ino) as [v|] eqn:Ev; [|subst b; by eexists].
    destruct Hst as [_ ->]. destruct (fs_parse _ Hm ino Hp) as [es (_ & Hd & Hok)]; [congruence|].
    exists es. rewrite Ev in Hd. injection Hd as ->. by apply parse_write. }
  simpl. eexists _, _. split; [done|]. split; [done|]. eapply fs_ok_ext; [|exact Hm].
  intros x. by rewrite Hs2, Hs.
Qed.

Lemma getattr_ok ino w :
  idle w -> fs_ok (stored w) -> answered (FuseGetattr ino) w (fuseserver_getattr ino w).
Proof.
  intros Hw Hm. unfold answered, fuseserver_getattr.
  destruct (attr_keeps ino w Hw) as (w' & ret & st & -> & Hk & _).
  destruct (ret =? OK); simpl; eexists _, _; (split; [done|]); (split; [apply Hk|by eapply keeps_ok]).
Qed.

Lemma setattr_ok ino size to_set w :
  idle w -> fs_ok (stored w) -> isfile ino = true ->
  answered (FuseSetattr ino size to_set) w (fuseserver_setattr ino size to_set w).
Proof.
  intros Hw Hm Hf. unfold answered, fuseserver_setattr.
  destruct (negb _); [|eexists _, _; split; [done|]; split; [by apply done_refl|done]].
  pose proof (setattr_spec ino (FileInfo (u64 size) 0 0 0) w Hw) as Hs.
  specialize (Hs ltac:(simpl; apply Z.mod_pos_bound; lia)).
  destruct (setAttr _ _ w) as [w1 ret]. destruct Hs as (D & Ho & Hi & _).
  assert (fs_ok (stored w1)) as Hm1 by by eapply fs_write.
  destruct (negb (ret =? OK)); [eexists _, _; split; [done|]; by split|].
  destruct (attr_keeps ino w1 (done_idle _ _ _ D)) as (w2 & ret2 & st & -> & Hk & _).
  assert (done_with [] w w2) as D2 by exact (done_trans _ _ _ _ _ D (proj1 Hk)).
  destruct (ret2 =? OK); eexists _, _; (split; [done|]); (split; [done|by eapply keeps_ok]).
Qed.

(** Progress and preservation: a valid request is answered, every lock is given back, and the
    file system is one. *)
Lemma oper_ok rnd i0 r w :
  idle w -> fs_ok (stored w) -> valid w rnd r -> answered r w (fuseserver_oper rnd i0 r w).
Proof.
  intros Hw Hm Hv. destruct r as [ino| |ino size off|parent name|parent name|parent name|ino
    |ino size off|ino buf off|ino size to_set|parent name|parent name]; simpl fuseserver_oper.
  - by apply getattr_ok.
  - eexists _, _. split; [done|]. split; [by apply done_refl|done].
  - by apply readdir_ok.
  - destruct Hv as [Hp Hx]. destruct (parent_dir w parent Hm Hp Hx) as (es & _ & Hdir).
    destruct (lookup_handler parent name es w Hw Hdir) as (w' & out & E & Hk & _).
    exists w', out. split; [done|]. split; [apply Hk|by eapply keeps_ok].
  - destruct (createhelper_ok rnd i0 parent name w Hw Hm Hv) as (w' & ret & e & E & D & Hm').
    unfold answered, fuseserver_create. rewrite E. simpl.
    destruct (ret =? OK); [|destruct (ret =? EXIST)]; eexists _, _; split; done.
  - destruct (createhelper_ok rnd i0 parent name w Hw Hm Hv) as (w' & ret & e & E & D & Hm').
    unfold answered, fuseserver_mknod. rewrite E. simpl.
    destruct (ret =? OK); [|destruct (ret =? EXIST)]; eexists _, _; split; done.
  - eexists _, _. split; [done|]. split; [by apply done_refl|done].
  - destruct Hv. pose proof (read_spec ino [] size off w Hw) as Hr. unfold answered, fuseserver_read.
    destruct (readFile ino [] size off w) as [[w' st] b].
    destruct Hr as (D & Hs & _); [done|done|].
    destruct (st =? OK); eexists _, _; (split; [done|]); (split; [done|by eapply fs_ok_ext]).
  - destruct Hv as (Hf & Ho & Hl). destruct (write_spec ino buf off w Hw Ho Hl)
      as (w' & st & E & D & Hs & Hc). unfold answered, fuseserver_write. rewrite E. simpl.
    eexists _, _. split; [done|]. split; [done|]. eapply fs_write; [exact Hm|exact Hf| |exact Hs].
    destruct Hc as [[_ ->]|(_ & -> & _)]; done.
  - by apply setattr_ok.
  - destruct Hv. by apply unlink_ok.
  - by apply mkdir_ok.
Qed.
End requests.

(** * Several clients *)

Section clients.
  Context {names : list cstring} `{Libfuse}.
  Implicit Types w : world names.

(** The request [r] of client [j]. *)
Definition turn (i0 : Z) (j : nat) (rnd : Z) (r : fuse_request) (w : world names)
    : outcome (world names * list reply) :=
  fuseserver_oper rnd i0 r (as_client j w).
Fixpoint fuse_turns (i0 : Z) (rs : list (nat * Z * fuse_request)) (w : world names)
    : outcome (world names * list (list reply)) :=
  match rs with
  | [] => Ret (w, [])
  | (j, rnd, r) :: rs' =>
      '(w, out) ← turn i0 j rnd r w;
      '(w, outs) ← fuse_turns i0 rs' w;
      Ret (w, out :: outs)
  end.

(** A client makes a valid request. *)
Inductive fs_step : world names -> world names -> Prop :=
| fs_turn i0 j c rnd r out w w' :
    names !! j = Some c -> valid (as_client j w) rnd r -> turn i0 j rnd r w = Ret (w', out) ->
    fs_step w w'.

Lemma turn_ok i0 j c rnd r w :
  calm w -> fs_ok (stored w) -> names !! j = Some c -> valid (as_client j w) rnd r ->
  exists w' out, turn i0 j rnd r w = Ret (w', out) /\ calm w' /\ fs_ok (stored w').
Proof.
  intros Hc Hm Hj Hv. destruct (switch j c w Hc Hj) as [Hc' Hs].
  destruct (oper_ok rnd i0 r (as_client j w)) as (w' & out & E & D & Hm');
    [apply Hc'|by eapply fs_ok_ext|done|].
  exists w', out. split; [done|]. split; [by eapply calm_after|done].
Qed.

Lemma world0_ok : fs_ok (stored (world0 names)).
Proof.
  assert (forall p, stored (world0 names) p = if decide (p = ROOTDIR) then Some [] else None) as Hs.
  { intros p. simpl. unfold world_stored, contents, cache_of. simpl. rewrite lookup_empty.
    simpl. unfold extent_server.new. rewrite extent_client.server_put_buf. by case_decide. }
  assert (forall p es, dir_at (stored (world0 names)) p es -> p = ROOTDIR /\ es = []) as Hd.
  { intros p es Hd. pose proof Hd as (_ & E & _). rewrite Hs in E. case_decide as Ep; [|done].
    split; [done|]. eapply dir_at_fun; [exact Hd|]. split; [by subst|]. split; [|constructor].
    by rewrite Hs, decide_True. }
  split.
  - by rewrite Hs.
  - intros p Hp Hx. rewrite Hs in Hx. case_decide as Ep; [|done]. exists []. split; [done|].
    split; [|constructor]. by rewrite Hs, decide_True.
  - by intros p n d (es & [_ ->]%Hd & Hn).
  - intros p es [_ ->]%Hd. constructor.
  - by intros p p' n n' d d' (es & [_ ->]%Hd & Hn).
Qed.

Lemma steps_ok w w' : calm w -> fs_ok (stored w) -> rtc fs_step w w' -> calm w' /\ fs_ok (stored w').
Proof.
  intros Hc Hm Hr. induction Hr as [|w w1 w2 Hstep _ IH]; [done|].
  destruct Hstep as [i0 j c rnd r out w w' Hj Hv E].
  destruct (turn_ok i0 j c rnd r w Hc Hm Hj Hv) as (w3 & out' & E' & ? & ?).
  rewrite E in E'. injection E' as -> ->. auto.
Qed.

Lemma turns_cons i0 j rnd r rs w w1 w2 out outs :
  turn i0 j rnd r w = Ret (w1, out) -> fuse_turns i0 rs w1 = Ret (w2, outs) ->
  fuse_turns i0 ((j, rnd, r) :: rs) w = Ret (w2, out :: outs).
Proof. intros E1 E2. simpl. rewrite E1. simpl. by rewrite E2. Qed.

(** A file one client makes and writes, and another one reads and removes. *)
Definition passing_on (a b : nat) (rnd parent : Z) (name data : cstring) (off : Z)
    : list (nat * Z * fuse_request) :=
  let inum := Z.lor rnd 0x80000000 in
  [(a, rnd, FuseCreate parent name); (a, 0, FuseWrite inum data off);
   (b, 0, FuseLookup parent name); (b, 0, FuseRead inum (Z.of_nat (length data)) off);
   (b, 0, FuseUnlink parent name); (a, 0, FuseLookup parent name)].

Lemma length_overwrite v data off :
  length (overwrite v data off) = Nat.max (length v) (off + length data).
Proof.
  unfold overwrite. rewrite !length_app, length_take, length_drop, length_resize. lia.
Qed.

(** What a client makes of a file that only it knows. *)
Lemma make_file i0 a ca rnd parent name data off es w :
  let inum := Z.lor rnd 0x80000000 in
  calm w -> names !! a = Some ca -> directory w parent es -> isdir parent = true ->
  name_ok name -> Forall (fun d => d_name d <> name) es -> 0 <= rnd < 2 ^ 31 ->
  owner w inum = None -> 0 <= off -> off + Z.of_nat (length data) < 2 ^ 64 ->
  exists w1 w2 st, turn i0 a rnd (FuseCreate parent name) w = Ret (w1, [ReplyCreate (Entry inum st)]) /\
    turn i0 a 0 (FuseWrite inum data off) w1 = Ret (w2, [ReplyWrite (Z.of_nat (length data))]) /\
    st_size st = 0 /\ calm w2 /\ directory w2 parent (es ++ [Dirent name inum]) /\
    stored w2 inum = Some (overwrite [] data (Z.to_nat off)).
Proof.
  intros inum Hc Ha Hd Hdir Hname Hfree Hr Ho Hoff Hlen.
  destruct (switch a ca w Hc Ha) as [Hc0 Hs0].
  destruct (create_handler rnd i0 parent name es (as_client a w)) as
    (w1 & st & E1 & D1 & Hd1 & Hi1 & Hz & _);
    [apply Hc0|by eapply switch_directory|done..| |].
  { simpl. unfold world_usable, keeper. change (owner (as_client a w)) with (owner w).
    fold inum. by rewrite Ho. }
  pose proof (calm_after _ _ Hc0 D1) as Hc1. destruct (switch a ca w1 Hc1 Ha) as [Hc1' Hs1].
  destruct (write_spec inum data off (as_client a w1)) as (w2 & st2 & E2 & D2 & Ho2 & H2);
    [apply Hc1'|done..|].
  rewrite Hs1 in H2. fold inum in Hi1. rewrite Hi1 in H2.
  destruct H2 as [[-> Hi2]|(_ & ? & _)]; [|done].
  assert (parent <> inum) as Hne.
  { destruct (new_file rnd Hr) as [Hf _]. intros ->. unfold isdir in Hdir. unfold inum in Hdir.
    by rewrite Hf in Hdir. }
  exists w1, w2, st. split; [exact E1|]. split; [simpl; unfold turn; simpl; unfold fuseserver_write;
    rewrite E2; reflexivity|].
  split; [done|]. split; [by eapply calm_after|]. split; [|done].
  destruct Hd1 as [Hd1 ?]. split; [by rewrite Ho2, Hs1|done].
Qed.
End clients.

(** * Properties *)

Section properties.
  Context {names : list cstring} `{Libfuse}.
  Implicit Types w : world names.

(** C11 (well-formed file systems do not go wrong): whatever valid requests the clients of a new
    file system have made, in any order, the next one of any of them is answered, as often as it
    should be and without a parse error, an exception or a lock left behind, and what is stored is
    again a file system: directories that parse, entries of existing inodes, each inode entered
    once, no name twice among the files or the directories of a directory. *)
Theorem requests_preserve_file_system i0 j c rnd r w :
  Forall (fun c => c <> srv.FREE) names -> rtc fs_step (world0 names) w ->
  names !! j = Some c -> valid (as_client j w) rnd r ->
  exists w' out, turn i0 j rnd r w = Ret (w', out) /\ length out = replies_due r /\
    fs_ok (stored w') /\ held w' = [].
Proof.
  intros Hn Hr Hj Hv. assert (names <> []) as Hne by (by intros ->).
  destruct (steps_ok _ _ (world0_calm Hn Hne) world0_ok Hr) as [Hc Hm].
  destruct (turn_ok i0 j c rnd r w Hc Hm Hj Hv) as (w' & out & E & Hc' & Hm').
  exists w', out. split; [done|]. split; [by eapply one_reply|]. split; [done|]. apply Hc'.
Qed.

(** C14 (what one client writes another reads): client [a] creates a file and writes to it; client
    [b] finds it under its name, with the size it has, and reads the bytes written, although [a]
    has them in its cache only: the locks make [a] write them back.  When [b] has unlinked it, [a]
    does not find it any more. *)
Theorem clients_share_files i0 a b ca cb rnd parent name data off es w :
  let inum := Z.lor rnd 0x80000000 in
  calm w -> names !! a = Some ca -> names !! b = Some cb ->
  directory w parent es -> isdir parent = true -> name_ok name ->
  Forall (fun d => d_name d <> name) es -> 0 <= rnd < 2 ^ 31 -> owner w inum = None ->
  0 <= off -> off + Z.of_nat (length data) < 2 ^ 64 ->
  exists w' st1 st2, fuse_turns i0 (passing_on a b rnd parent name data off) w =
      Ret (w', [[ReplyCreate (Entry inum st1)]; [ReplyWrite (Z.of_nat (length data))];
                [ReplyEntry (Entry inum st2)]; [ReplyBuf data]; [ReplyErr 0]; [ReplyErr ENOENT]]) /\
    st_size st2 = u32 (off + Z.of_nat (length data)) /\ calm w' /\ directory w' parent es.
Proof.
  intros inum Hc Ha Hb Hd Hdir Hname Hfree Hr Ho Hoff Hlen.
  destruct (new_file rnd Hr) as [Hf _]. subst inum.
  destruct (make_file i0 a ca rnd parent name data off es w Hc Ha Hd Hdir Hname Hfree Hr Ho Hoff Hlen)
    as (w1 & w2 & st1 & E1 & E2 & _ & Hc2 & Hd2 & Hi2).
  unfold passing_on. cbv zeta. set (inum := Z.lor rnd 0x80000000) in *.
  assert (inum <> 0) as Hi0 by (intros Hz; rewrite Hz in Hf; done).
  destruct (switch b cb w2 Hc2 Hb) as [Hc2' Hs2].
  destruct (lookup_handler parent name _ (as_client b w2) (proj1 Hc2')
    (switch_directory _ _ _ _ _ Hc2 Hb Hd2)) as (w3 & out & E3 & K3 & H3).
  rewrite find_name_snoc, (proj2 (Z.eqb_neq inum 0)) in H3 by done. destruct H3 as (st2 & -> & Hst).
  rewrite Hs2 in Hst. specialize (Hst _ Hi2 Hf).
  pose proof (calm_after _ _ Hc2' (proj1 K3)) as Hc3. destruct (switch b cb w3 Hc3 Hb) as [Hc3' Hs3].
  assert (stored (as_client b w3) inum = Some (overwrite [] data (Z.to_nat off))) as Hi3.
  { by rewrite Hs3, (proj2 K3), Hs2. }
  destruct (read_overwrite [] data (Z.to_nat off)) as [Hrd Hle].
  destruct (read_keeps inum (Z.of_nat (length data)) off _ (as_client b w3) (proj1 Hc3') Hi3)
    as (w4 & E4 & K4); [unfold is_u64; lia|unfold is_u64; lia|lia|].
  rewrite Nat2Z.id, Hrd in E4. pose proof (calm_after _ _ Hc3' (proj1 K4)) as Hc4.
  destruct (switch b cb w4 Hc4 Hb) as [Hc4' Hs4].
  assert (directory (as_client b w4) parent (es ++ [Dirent name inum])) as Hd4.
  { destruct Hd2. split; [|done]. by rewrite Hs4, (proj2 K4), Hs3, (proj2 K3), Hs2. }
  destruct (unlink_spec parent name _ _ (proj1 Hc4') Hd4 Hdir) as (w5 & st & E5 & D5 & H5).
  rewrite take_out_snoc in H5 by done. destruct H5 as (-> & Hd5 & _).
  pose proof (calm_after _ _ Hc4' D5) as Hc5. destruct (switch a ca w5 Hc5 Ha) as [Hc5' Hs5].
  destruct (lookup_handler parent name _ (as_client a w5) (proj1 Hc5')
    (switch_directory _ _ _ _ _ Hc5 Ha Hd5)) as (w6 & out & E6 & K6 & H6).
  rewrite find_name_absent in H6 by done. simpl in H6. subst out.
  exists w6, st1, st2. split.
  - eapply turns_cons; [exact E1|]. eapply turns_cons; [exact E2|]. eapply turns_cons; [exact E3|].
    eapply turns_cons; [unfold turn; simpl; unfold fuseserver_read; rewrite E4; reflexivity|].
    eapply turns_cons; [unfold turn; simpl; unfold fuseserver_unlink; rewrite E5; reflexivity|].
    by eapply turns_cons; [exact E6|].
  - split; [rewrite Hst, length_overwrite; f_equal; simpl; lia|].
    split; [by eapply calm_after; [exact Hc5'|apply K6]|].
    eapply keeps_directory; [exact K6|]. by eapply switch_directory.
Qed.
End properties.

(** Inode numbers are drawn at random and not looked up: a number that is in use makes a second
    name for the file that has it, and empties it. *)
Theorem number_reused {W} `{FileStoreLaws W} rnd i0 parent name es v w :
  let inum := Z.lor rnd 0x80000000 in
  idle w -> directory w parent es -> isdir parent = true -> name_ok name -> 0 <= rnd < 2 ^ 31 ->
  usable w inum -> has_file es name = false -> stored w inum = Some v ->
  exists w', createFile rnd i0 parent name w = Ret (w', OK, inum) /\ stored w' inum = Some [].
Proof.
  intros inum Hw Hd Hdir Hn Hr Hu Hfile Hv.
  destruct (createFile_spec rnd i0 parent name es w Hw Hd Hdir Hn Hr Hu) as (w' & st & i & E & Hc).
  rewrite Hfile in Hc. destruct Hc as (-> & -> & _ & Hs & _). by exists w'.
Qed.

(** * Witnesses *)

Module shared_example.
Import fuse_example.

Lemma start_calm : calm (world0 three).
Proof. by apply world0_calm; [apply three_ok|]. Qed.

Lemma clients_share_files_witness :
  exists w' st1 st2, fuse_turns 0 (passing_on 0 1 7 ROOTDIR (cs "notes") (cs "abc") 2) (world0 three) =
      Ret (w', [[ReplyCreate (Entry 2147483655 st1)]; [ReplyWrite 3];
                [ReplyEntry (Entry 2147483655 st2)]; [ReplyBuf (cs "abc")]; [ReplyErr 0];
                [ReplyErr ENOENT]]) /\ st_size st2 = 5.
Proof.
  destruct (clients_share_files 0 0 1 (cs "a:1") (cs "b:2") 7 ROOTDIR (cs "notes") (cs "abc") 2 []
    (world0 three) start_calm) as (w' & st1 & st2 & E & Hz & _);
    [reflexivity|reflexivity|apply world0_directory|reflexivity|by_computing|constructor|lia
    |vm_compute; reflexivity|lia|simpl; lia|].
  exists w', st1, st2. split; [exact E|exact Hz].
Defined.

Definition notes : fuse_request := FuseCreate ROOTDIR (cs "notes").
Definition one_file : world three :=
  match turn 0 0 7 notes (world0 three) with Ret (w, _) => w | Fault _ => world0 three end.

Lemma notes_valid : valid (as_client 0 (world0 three)) 7 notes.
Proof.
  split; [done|]. split; [by vm_compute|]. split; [by_computing|]. split; [lia|].
  split; by vm_compute.
Qed.
Lemma sub_valid : valid (as_client 1 one_file) 9 (FuseMkdir ROOTDIR (cs "sub")).
Proof.
  split; [done|]. split; [by vm_compute|]. split; [by_computing|]. split; [lia|].
  split; by vm_compute.
Qed.
Lemma notes_turn : exists out, turn 0 0 7 notes (world0 three) = Ret (one_file, out).
Proof.
  unfold one_file. destruct (turn 0 0 7 notes (world0 three)) as [[w o]|e] eqn:E; [by exists o|].
  by vm_compute in E.
Qed.
(** A file made by the first client, and a directory by the second. *)
Lemma requests_preserve_file_system_witness :
  exists w out, turn 0 1 9 (FuseMkdir ROOTDIR (cs "sub")) one_file = Ret (w, out) /\
    length out = 1%nat /\ fs_ok (stored w).
Proof.
  destruct (requests_preserve_file_system 0 1 (cs "b:2") 9 (FuseMkdir ROOTDIR (cs "sub")) one_file)
    as (w & out & E & Hl & Hm & _); [apply three_ok| |reflexivity|exact sub_valid|].
  - destruct notes_turn as [o Eo].
    eapply rtc_once, (fs_turn 0 0 (cs "a:1") 7 notes); [reflexivity|exact notes_valid|exact Eo].
  - exists w, out. split; [exact E|]. split; [exact Hl|exact Hm].
Defined.
End shared_example.
