(* ===== verification/Race.v ===== *)
(** A race of two clients of the file system: yfs_client.cc over the shared store of [Shared].

    [createFile] writes the new inode without acquiring its lock.  The caches and the lock of one
    extent are followed step by step here, without the invariant of [Shared], which this breaks:
    the extent has a copy at a client that does not have its lock while another one uses it. *)
From Stdlib Require Import ZArith Lia Ascii String.
From stdpp Require Import base gmap list strings.
From S2P Require Import Prelude TextIO Protocols Extent YfsDir Yfs Fuse Lock Handover Shared FileSystem.
Local Open Scope Z_scope.
Import yfs_status.

Section clients.
  Context {names : list cstring} (id : Z).
  Implicit Types w : world names.

Abbreviation idle_threads := ((fun c => (c, PIdle)) <$> names).

(** The lock of [id] at rest, cached by [o]; and held by the thread at work. *)
Definition at_rest (o : option cstring) (w : world names) : Prop :=
  settled o (lock_of w id) /\ l_thr (lock_of w id) = idle_threads.
Definition held_by (c : cstring) (w : world names) : Prop :=
  holding (sh_me w) c (lock_of w id) /\
  l_thr (lock_of w id) = <[sh_me w := (c, PHold)]> idle_threads.

(** The clients that flush when [c] asks for the lock. *)
Definition handed (o : option cstring) (c : cstring) (w : world names) : world names :=
  foldl (dorelease id) w (gives_up o c).

Lemma dorelease_lock w l h j :
  dorelease id (set_lock w id l h) j = set_lock (dorelease id w j) id l h.
Proof. unfold dorelease. cbn. by destruct (extent_client.flush _ _ _ _ _) as [[??]?]. Qed.
Lemma dorelease_me w j : sh_me (dorelease id w j) = sh_me w.
Proof. unfold dorelease. by destruct (extent_client.flush _ _ _ _ _) as [[??]?]. Qed.

Lemma visit_open o c w : at_rest o w -> names !! sh_me w = Some c ->
  exists w1, acquire id w = w1 /\ held_by c w1 /\ sh_me w1 = sh_me w
    /\ sh_server w1 = sh_server (handed o c w) /\ forall c', cache_of w1 c' = cache_of (handed o c w) c'.
Proof.
  intros [Hset Hthr] Hc. assert (me w = c) as Hme by (unfold me; by rewrite Hc).
  destruct (acquire_hands_over o (sh_me w) c (lock_of w id) Hset) as (l & El & Hl & Hthr').
  { by rewrite Hthr, list_lookup_fmap, Hc. }
  eexists. split; [reflexivity|]. unfold acquire. rewrite El. unfold handed, gives_up.
  assert (forall w' h, held_by c (set_lock w' id l h) \/ sh_me w' <> sh_me w) as Hheld.
  { intros w' h. destruct (decide (sh_me w' = sh_me w)) as [E|]; [left|by right].
    unfold held_by. rewrite lock_of_set, decide_True by done. cbn [sh_me set_lock]. rewrite E.
    split; [exact Hl|]. by rewrite Hthr', Hthr. }
  destruct o as [j|]; [destruct (str_eqb j c)|]; cbn [foldl]; rewrite ?dorelease_lock; cbn [sh_me set_lock];
    rewrite ?dorelease_me; (split; [|done]);
    match goal with |- held_by _ (set_lock ?w' _ _ ?h) => destruct (Hheld w' h) as [|[]]; [done|] end;
    by rewrite ?dorelease_me.
Qed.

Lemma visit_close c w : held_by c w -> names !! sh_me w = Some c ->
  exists w1, release id w = w1 /\ at_rest (Some c) w1 /\ sh_me w1 = sh_me w
    /\ sh_server w1 = sh_server w /\ forall c', cache_of w1 c' = cache_of w c'.
Proof.
  intros [Hl Hthr] Hc. destruct (release_settles _ _ _ Hl) as (l & El & Hset & Hthr').
  eexists. split; [reflexivity|]. unfold release. rewrite El. split; [|done].
  unfold at_rest. rewrite lock_of_set, decide_True by done. split; [exact Hset|].
  rewrite Hthr', Hthr, list_insert_insert_eq. apply list_insert_id. by rewrite list_lookup_fmap, Hc.
Qed.
(** A visit: client [c] takes the lock, does something with its cache and the server, and gives the
    lock back. *)
Record visited (o : option cstring) (c : cstring) (w : world names) (k : extent_client.cache)
    (s : extent_server.state) (w' : world names) : Prop := {
  vi_rest : at_rest (Some c) w';
  vi_me : sh_me w' = sh_me w;
  vi_server : sh_server w' = s;
  vi_cache : cache_of w' c = k;
  vi_others : forall c', c' <> c -> cache_of w' c' = cache_of (handed o c w) c' }.

Section visit.
  Variables (o : option cstring) (c : cstring) (w : world names).
  Hypothesis (Hrest : at_rest o w) (Hc : names !! sh_me w = Some c).

Lemma visit : exists w0, acquire id w = w0 /\ me w0 = c
  /\ cache_of w0 c = cache_of (handed o c w) c /\ sh_server w0 = sh_server (handed o c w)
  /\ forall k s, visited o c w k s (release id (set_store w0 c k s)).
Proof.
  destruct (visit_open o c w Hrest Hc) as (w0 & E0 & Hh & Hm & Hs & Hca). exists w0.
  split; [done|]. split; [unfold me; by rewrite Hm, Hc|]. split; [done|]. split; [done|]. intros k s.
  destruct (visit_close c (set_store w0 c k s)) as (w1 & E1 & Hr & Hm1 & Hs1 & Hca1);
    [exact Hh|by rewrite <- Hc, <- Hm|].
  rewrite E1. split; [done|by rewrite Hm1|by rewrite Hs1|by rewrite Hca1, cache_of_store, decide_True|].
  intros c' Hne. by rewrite Hca1, cache_of_store, decide_False, Hca.
Qed.

Lemma getfile_visit fin :
  let '(k, s, st, at_) := extent_client.getattr Completed Completed tick id
    (cache_of (handed o c w) c) (sh_server (handed o c w)) in
  exists w', getfile id fin w
      = (w', if st =? extent_protocol.OK then OK else IOERR,
         if st =? extent_protocol.OK then FileInfo (a_size at_) (a_atime at_) (a_mtime at_) (a_ctime at_) else fin)
    /\ visited o c w k s w'.
Proof.
  destruct visit as (w0 & E0 & Hm & Hca & Hs & Hv). rewrite <- Hca, <- Hs.
  unfold getfile. cbn [lc_acquire ec_getattr lc_release world_store]. rewrite E0, Hm.
  destruct (extent_client.getattr _ _ _ _ _ _) as [[[k s] st] at_]. eexists. split; [|apply Hv].
  by destruct (st =? extent_protocol.OK).
Qed.
Lemma readFile_visit buf size :
  is_u64 size ->
  let '(k, s, st, b) := extent_client.get Completed Completed tick tick id []
    (cache_of (handed o c w) c) (sh_server (handed o c w)) in
  exists w', readFile id buf size 0 w
      = (w', if st =? extent_protocol.OK then OK else IOERR,
         if st =? extent_protocol.OK then take (Z.to_nat size) b else buf)
    /\ visited o c w k s w'.
Proof.
  intros Hz. destruct visit as (w0 & E0 & Hm & Hca & Hs & Hv). rewrite <- Hca, <- Hs.
  unfold readFile. cbn [lc_acquire ec_get lc_release world_store]. rewrite E0, Hm.
  destruct (extent_client.get _ _ _ _ _ _ _ _) as [[[k s] st] b]. eexists. split; [|apply Hv].
  change (u64 0) with 0. destruct (st =? extent_protocol.OK); [|done].
  rewrite (proj2 (Z.ltb_ge _ _)) by lia. by rewrite u64_id.
Qed.
(** A write over a copy that is shorter. *)
Lemma writeFile_visit data e :
  Z.of_nat (length data) < 2 ^ 64 -> (length (extent_client.c_buf e) <= length data)%nat ->
  cache_of (handed o c w) c !! id = Some e ->
  exists w' e', writeFile id data 0 w = Ret (w', OK) /\ extent_client.is_dirty e' = true
    /\ extent_client.c_buf e' = data
    /\ visited o c w (<[id := e']> (cache_of (handed o c w) c)) (sh_server (handed o c w)) w'.
Proof.
  intros Hz Hlen He. destruct visit as (w0 & E0 & Hm & Hca & Hs & Hv). rewrite <- Hca, <- Hs in *.
  unfold writeFile. cbn [lc_acquire ec_get ec_put lc_release world_store]. rewrite E0, Hm.
  unfold extent_client.get. rewrite He. cbn [fst snd Z.eqb extent_protocol.OK].
  change (me (set_store w0 c _ _)) with (me w0). rewrite Hm.
  rewrite (u64_id (0 + _)) by width_lia. change (Z.to_nat (u64 0)) with 0%nat. cbn [Nat.ltb Nat.leb take app].
  match goal with |- context [drop (0 + length data) ?x] => set (cur := x) end.
  assert (drop (0 + length data) cur = []) as ->.
  { apply drop_ge. unfold cur. case_match; rewrite ?length_resize; lia. }
  rewrite app_nil_r. unfold extent_client.put. rewrite cache_of_store, decide_True, lookup_insert_eq by done.
  cbn [fst snd]. eexists _, (extent_client.Cached true _ _ data). split; [reflexivity|]. split; [reflexivity|]. split; [reflexivity|].
  rewrite insert_insert_eq.
  match goal with |- visited _ _ _ ?k ?s (release _ (set_store (set_store _ _ ?k0 ?s0) _ _ _)) =>
    replace (set_store (set_store w0 c k0 s0) c k s) with (set_store w0 c k s); [apply Hv|] end.
  unfold set_store. cbn. by rewrite insert_insert_eq.
Qed.
End visit.

(** The lock comes from its own client, or from one whose copy is dirty. *)
Lemma handed_own c w : handed (Some c) c w = w.
Proof. unfold handed, gives_up. by rewrite str_eqb_refl. Qed.
Lemma handed_dirty j c e w :
  j <> c -> cache_of w j !! id = Some e -> extent_client.is_dirty e = true ->
  cache_of (handed (Some j) c w) c = cache_of w c /\ cache_of (handed (Some j) c w) j !! id = None
  /\ exists f, sh_server (handed (Some j) c w) !! id = Some f
       /\ extent_server.file_buf f = extent_client.c_buf e.
Proof.
  intros Hne He Hd. unfold handed, gives_up. rewrite str_eqb_ne by done. cbn [foldl]. unfold dorelease.
  unfold extent_client.flush. rewrite He, Hd. cbn [call]. split; [by rewrite cache_of_store, decide_False|].
  split; [by rewrite cache_of_store, decide_True, lookup_delete_eq|]. cbn [sh_server set_store].
  unfold extent_server.put. destruct (sh_server w !! id); cbn; rewrite lookup_insert_eq; by eexists.
Qed.
End clients.

Section race.
  Context {names : list cstring}.
  Implicit Types w : world names.

(** The creator [a] has a dirty copy, nobody has used the lock, and [b] comes. *)
Lemma stale_copy_wins id a b ca cb e data fin buf w :
  names !! a = Some ca -> names !! b = Some cb -> ca <> cb ->
  at_rest id None w -> cache_of w ca !! id = Some e -> extent_client.is_dirty e = true ->
  cache_of w cb !! id = None -> sh_server w !! id = None -> Z.of_nat (length data) < 2 ^ 64 ->
  exists w1 w2 w3 w4 w5 fi,
    getfile id fin (as_client b w) = (w1, IOERR, fin)
    /\ writeFile id data 0 w1 = Ret (w2, OK)
    /\ readFile id buf (Z.of_nat (length data)) 0 w2 = (w3, OK, data)
    /\ getfile id fin (as_client a w3) = (w4, OK, fi) /\ fi_size fi = a_size (extent_client.c_attr e)
    /\ readFile id buf (Z.of_nat (length data)) 0 (as_client b w4)
       = (w5, OK, take (length data) (extent_client.c_buf e)).
Proof.
  intros Ha Hb Hne Hr He Hd Hno Hsv Hz. assert (is_u64 (Z.of_nat (length data))) as Hz' by width_lia.
  (* [b] looks at the file: there is none on the server, and an empty clean copy stays. *)
  pose proof (getfile_visit id None cb (as_client b w) Hr Hb fin) as V1. cbn [handed gives_up foldl] in V1.
  change (cache_of (as_client b w)) with (cache_of w) in V1. cbn [sh_server as_client] in V1.
  unfold extent_client.getattr in V1. rewrite Hno, fetch_complete, Hsv in V1.
  destruct V1 as (w1 & E1 & [R1 M1 S1 C1 O1]). cbn [as_client sh_me] in M1.
  specialize (O1 ca Hne). cbn [handed gives_up foldl] in O1. change (cache_of (as_client b w)) with (cache_of w) in O1.
  (* It writes. *)
  assert (names !! sh_me w1 = Some cb) as Hb1 by by rewrite M1.
  destruct (writeFile_visit id (Some cb) cb w1 R1 Hb1 data (extent_client.Cached false attr0 id []))
    as (w2 & e2 & E2 & Hd2 & Hb2 & [R2 M2 S2 C2 O2]); [done|cbn; lia|by rewrite handed_own, C1, lookup_insert_eq|].
  specialize (O2 ca Hne). rewrite handed_own in *.
  (* It reads its copy. *)
  assert (names !! sh_me w2 = Some cb) as Hb3 by by rewrite M2.
  pose proof (readFile_visit id (Some cb) cb w2 R2 Hb3 buf (Z.of_nat (length data)) Hz') as V3.
  rewrite handed_own in V3. unfold extent_client.get in V3. rewrite C2, lookup_insert_eq in V3.
  destruct V3 as (w3 & E3 & [R3 M3 S3 C3 O3]). specialize (O3 ca Hne). rewrite handed_own in O3.
  rewrite Hb2, Nat2Z.id, take_ge in E3 by done.
  (* [a] asks for the attributes: [b] flushes, and [a] has its own copy. *)
  set (e3 := extent_client.Cached _ _ _ _) in C3.
  assert (cache_of w3 cb !! id = Some e3) as He3 by by rewrite C3, lookup_insert_eq.
  destruct (handed_dirty id cb ca e3 (as_client a w3)) as (K4 & N4 & f4 & F4 & B4); [done|exact He3|exact Hd2|].
  change (cache_of (as_client a w3) ca) with (cache_of w3 ca) in K4. rewrite O3, O2, O1 in K4.
  pose proof (getfile_visit id (Some cb) ca (as_client a w3) R3 Ha fin) as V4.
  unfold extent_client.getattr in V4. rewrite K4, He in V4. destruct V4 as (w4 & E4 & [R4 M4 S4 C4 O4]).
  specialize (O4 cb (not_eq_sym Hne)).
  (* [b] reads again: [a] flushes its copy over what [b] wrote. *)
  destruct (handed_dirty id ca cb e (as_client b w4)) as (K5 & N5 & f5 & F5 & B5);
    [done|change (cache_of w4 ca !! id = Some e); by rewrite C4|exact Hd|].
  change (cache_of (as_client b w4) cb) with (cache_of w4 cb) in K5. rewrite O4 in K5.
  pose proof (readFile_visit id (Some ca) cb (as_client b w4) R4 Hb buf (Z.of_nat (length data)) Hz') as V5.
  unfold extent_client.get in V5. rewrite K5, N4, fetch_complete, F5, B5 in V5.
  destruct V5 as (w5 & E5 & _). rewrite Nat2Z.id in E5.
  exists w1, w2, w3, w4, w5. eexists. split; [exact E1|]. split; [exact E2|]. split; [exact E3|].
  split; [exact E4|]. split; [reflexivity|exact E5].
Qed.
(** What [createFile] leaves alone: the lock of the new inode, and what the server has of it. *)
Definition untouched (id : Z) (w w' : world names) : Prop :=
  lock_of w' id = lock_of w id /\
  extent_server.buf_of (sh_server w') id = extent_server.buf_of (sh_server w) id /\ sh_me w' = sh_me w.

Lemma untouched_trans id w w1 w2 : untouched id w w1 -> untouched id w1 w2 -> untouched id w w2.
Proof. intros (H1 & H2 & H3) (H4 & H5 & H6). split; [congruence|]. split; congruence. Qed.
Lemma untouched_set_lock id p w l h : id <> p -> untouched id w (set_lock w p l h).
Proof. intros Hne. split; [by rewrite lock_of_set, decide_False|done]. Qed.
Lemma untouched_store id c k s w :
  extent_server.buf_of s id = extent_server.buf_of (sh_server w) id -> untouched id w (set_store w c k s).
Proof. by split. Qed.

Lemma untouched_acquire id p w : id <> p -> untouched id w (acquire p w).
Proof.
  intros Hne. unfold acquire. destruct (acquire_run _ _ _) as [[l fl]|]; [|done].
  eapply untouched_trans; [by apply (untouched_set_lock id p w l (p :: sh_held w))|].
  generalize (set_lock w p l (p :: sh_held w)). induction fl as [|j fl IH]; intros w'; cbn [foldl]; [done|].
  eapply untouched_trans; [|apply IH]. unfold dorelease.
  pose proof (extent_client.flush_only Completed tick p (cache_of w' j) (sh_server w') id Hne) as [_ Hf].
  destruct (extent_client.flush _ _ _ _ _) as [[k s] r]. by apply untouched_store.
Qed.
Lemma untouched_release id p w : id <> p -> untouched id w (release p w).
Proof. intros Hne. unfold release. destruct (lstep _ _); [by apply untouched_set_lock|done]. Qed.
Lemma untouched_get id p w : id <> p -> untouched id w (ec_get p w).1.1.
Proof.
  intros Hne. cbn [ec_get world_store].
  pose proof (extent_client.get_only Completed Completed tick tick p [] (cache_of w (me w)) (sh_server w) id Hne) as [_ Hf].
  destruct (extent_client.get _ _ _ _ _ _ _ _) as [[[k s] st] b]. by apply untouched_store.
Qed.
Lemma untouched_put id p b w : untouched id w (ec_put p b w).1.
Proof.
  cbn [ec_put world_store].
  assert (extent_server.buf_of (extent_client.put Completed Completed tick tick p b (cache_of w (me w)) (sh_server w)).1.2 id
    = extent_server.buf_of (sh_server w) id) as Hf.
  { unfold extent_client.put. destruct (cache_of w (me w) !! p); [done|].
    destruct (extent_client.fetch _ _ _ _ _ _) as [[[[s r1] b1] r2] a] eqn:E. by eapply extent_client.fetch_buf. }
  destruct (extent_client.put _ _ _ _ _ _ _ _) as [[k s] st]. by apply untouched_store.
Qed.

Lemma createFile_untouched rnd i0 parent name id w w' st i :
  id <> parent -> createFile rnd i0 parent name w = Ret (w', st, i) -> untouched id w w'.
Proof.
  intros Hne E. unfold createFile in E. cbn [lc_acquire lc_release world_store] in E.
  pose proof (untouched_get id parent (acquire parent w) Hne) as H1.
  destruct (ec_get parent (acquire parent w)) as [[w1 st1] b]. cbn [fst] in H1.
  pose proof (untouched_trans _ _ _ _ (untouched_acquire id parent w Hne) H1) as H2.
  destruct (negb (st1 =? extent_protocol.OK)); [by inv_ret|].
  destruct (parsebuf b) as [es|]; [|done]. cbn [mbind outcome_bind] in E. destruct (existsb _ es); inv_ret.
  - eapply untouched_trans; [exact H2|by apply untouched_release].
  - unfold append_entry. cbn [lc_release world_store].
    match goal with |- context [ec_put ?n [] w1] => pose proof (untouched_put id n [] w1) as H3;
      destruct (ec_put n [] w1) as [w2 st2] end.
    match goal with |- context [ec_put parent ?pb w2] => pose proof (untouched_put id parent pb w2) as H4;
      destruct (ec_put parent pb w2) as [w3 st3] end. cbn [fst] in H3, H4.
    eapply untouched_trans; [exact H2|]. eapply untouched_trans; [exact H3|].
    eapply untouched_trans; [exact H4|by apply untouched_release].
Qed.

(** An extent nobody has locked or stored: no client has a copy of it. *)
Lemma unused id w : calm w -> owner w id = None -> stored w id = None ->
  (forall c, cache_of w c !! id = None) /\ sh_server w !! id = None.
Proof.
  intros [[Hw _] Hl] Ho Hs.
  assert (forall c, cache_of w c !! id = None) as Hn.
  { intros c. destruct (cache_of w c !! id) eqn:E; [|done].
    pose proof (wf_keeper w Hw c id ltac:(by rewrite E)) as Hk. unfold keeper in Hk. rewrite Ho in Hk. cbn in Hk.
    subst c. destruct (Hl id). split; [done|by rewrite E]. }
  split; [done|]. cbn in Hs. unfold world_stored, contents in Hs. rewrite Hn in Hs.
  unfold extent_server.buf_of in Hs. by destruct (sh_server w !! id).
Qed.

(** What [createFile] leaves: a dirty copy of the new inode at a client without its lock. *)
Lemma created_copy rnd i0 parent name es a b ca cb w :
  let inum := Z.lor rnd 0x80000000 in
  calm w -> names !! a = Some ca -> names !! b = Some cb -> ca <> cb ->
  directory w parent es -> isdir parent = true -> name_ok name -> 0 <= rnd < 2 ^ 31 ->
  has_file es name = false -> owner w inum = None -> stored w inum = None ->
  exists w0 e, createFile rnd i0 parent name (as_client a w) = Ret (w0, OK, inum)
    /\ at_rest inum None w0 /\ cache_of w0 ca !! inum = Some e /\ extent_client.is_dirty e = true
    /\ extent_client.c_buf e = [] /\ a_size (extent_client.c_attr e) = 0
    /\ cache_of w0 cb !! inum = None /\ sh_server w0 !! inum = None.
Proof.
  intros inum Hcalm Ha Hb Hne Hdir Hisdir Hname Hrnd Hfile Hown Hst.
  destruct (switch a ca w Hcalm Ha) as [Hcalm' Hsame].
  assert (me (as_client a w) = ca) as Hme by (unfold me; cbn; by rewrite Ha).
  destruct (unused inum (as_client a w) Hcalm' Hown) as [Hno Hsv]; [by rewrite Hsame|].
  destruct (createFile_spec rnd i0 parent name es (as_client a w)) as (w0 & st & i & E0 & Hc);
    [apply Hcalm'|by eapply switch_directory|done..| |].
  { cbn. unfold world_usable, keeper. change (owner (as_client a w) (Z.lor rnd 2147483648)) with (owner w inum).
    by rewrite Hown. }
  unfold created in Hc. rewrite Hfile in Hc. destruct Hc as (-> & -> & [(Hwf & _ & _) Hh] & Hs0 & _ & _).
  assert (inum <> parent) as Hnp.
  { intros E. unfold isdir in Hisdir. rewrite <- E in Hisdir. unfold inum in Hisdir.
    by rewrite (proj1 (new_file rnd Hrnd)) in Hisdir. }
  destruct (createFile_untouched _ _ _ _ inum _ _ _ _ Hnp E0) as (Hlk & Hbuf & Hm).
  assert (me w0 = ca) as Hme0 by (unfold me; rewrite Hm; cbn; by rewrite Ha).
  assert (owner w0 inum = None) as Hown0 by (unfold owner in *; by rewrite Hlk).
  assert (sh_server w0 !! inum = None) as Hsv0.
  { unfold extent_server.buf_of in Hbuf. rewrite Hsv in Hbuf. by destruct (sh_server w0 !! inum). }
  assert (at_rest inum None w0) as Hrest.
  { pose proof (wf_locks w0 Hwf inum) as Hl. unfold lock_ok in Hl. cbn in Hh. rewrite Hh in Hl.
    rewrite decide_False, Hown0 in Hl by apply not_elem_of_nil. exact Hl. }
  change (world_stored w0 inum = Some []) in Hs0. unfold world_stored, keeper, contents in Hs0.
  rewrite Hown0 in Hs0. cbn [default from_option] in Hs0. rewrite Hme0 in Hs0.
  unfold extent_server.buf_of in Hs0. rewrite Hsv0 in Hs0.
  destruct (cache_of w0 ca !! inum) as [e|] eqn:He; [|done].
  destruct (extent_client.is_dirty e) eqn:Hd; [|done]. injection Hs0 as Hbe.
  destruct (wf_copies w0 Hwf ca inum) as [_ Hsz]. specialize (Hsz e He).
  unfold copy_sized, sized in Hsz. rewrite Hbe in Hsz.
  assert (cache_of w0 cb !! inum = None) as Hno0.
  { destruct (cache_of w0 cb !! inum) eqn:E; [|done].
    pose proof (wf_keeper w0 Hwf cb inum ltac:(by rewrite E)) as Hk. unfold keeper in Hk.
    rewrite Hown0 in Hk. cbn in Hk. congruence. }
  exists w0, e. by split_and!.
Qed.

(** C31 (a new file is made without its lock): [createFile] writes the new inode without acquiring
    its lock, so that until the client first uses the lock, in the [getattr] with which
    [fuseserver_create] goes on, the empty file is a copy in its cache alone.  For all clients,
    names and data: a client that comes in between is told that there is no such inode, then writes
    to it with success and reads its data back; and when the first client has asked for the
    attributes, which are those of its empty copy, the data are gone: the stale copy has been
    flushed over them. *)
Theorem new_file_unlocked rnd i0 parent name es a b ca cb data fin buf w :
  let inum := Z.lor rnd 0x80000000 in
  calm w -> names !! a = Some ca -> names !! b = Some cb -> ca <> cb ->
  directory w parent es -> isdir parent = true -> name_ok name -> 0 <= rnd < 2 ^ 31 ->
  has_file es name = false -> owner w inum = None -> stored w inum = None ->
  Z.of_nat (length data) < 2 ^ 64 ->
  exists w0 w1 w2 w3 w4 w5 fi,
    createFile rnd i0 parent name (as_client a w) = Ret (w0, OK, inum)
    /\ getfile inum fin (as_client b w0) = (w1, IOERR, fin)
    /\ writeFile inum data 0 w1 = Ret (w2, OK)
    /\ readFile inum buf (Z.of_nat (length data)) 0 w2 = (w3, OK, data)
    /\ getfile inum fin (as_client a w3) = (w4, OK, fi) /\ fi_size fi = 0
    /\ readFile inum buf (Z.of_nat (length data)) 0 (as_client b w4) = (w5, OK, []).
Proof.
  intros inum Hcalm Ha Hb Hne Hdir Hisdir Hname Hrnd Hfile Hown Hst Hz.
  destruct (created_copy rnd i0 parent name es a b ca cb w) as (w0 & e & E0 & Hr & He & Hd & Hbe & Hsz & Hno & Hsv);
    [done..|].
  destruct (stale_copy_wins inum a b ca cb e data fin buf w0 Ha Hb Hne Hr He Hd Hno Hsv Hz)
    as (w1 & w2 & w3 & w4 & w5 & fi & E1 & E2 & E3 & E4 & E5 & E6).
  exists w0, w1, w2, w3, w4, w5, fi. rewrite Hbe, take_nil in E6. rewrite Hsz in E5. by split_and!.
Qed.
End race.

Module race_example.
Import fuse_example.

Lemma new_file_unlocked_witness :
  exists (w0 w1 w2 w3 w4 w5 : world three) fi,
    createFile 7 0 ROOTDIR (cs "notes") (as_client 0 (world0 three)) = Ret (w0, OK, 2147483655)
    /\ getfile 2147483655 (FileInfo 0 0 0 0) (as_client 1 w0) = (w1, IOERR, FileInfo 0 0 0 0)
    /\ writeFile 2147483655 (cs "abc") 0 w1 = Ret (w2, OK)
    /\ readFile 2147483655 [] 3 0 w2 = (w3, OK, cs "abc")
    /\ getfile 2147483655 (FileInfo 0 0 0 0) (as_client 0 w3) = (w4, OK, fi) /\ fi_size fi = 0
    /\ readFile 2147483655 [] 3 0 (as_client 1 w4) = (w5, OK, []).
Proof.
  apply (new_file_unlocked 7 0 ROOTDIR (cs "notes") [] 0 1 (cs "a:1") (cs "b:2") (cs "abc")
    (FileInfo 0 0 0 0) [] (world0 three));
    [apply shared_example.start_calm|reflexivity|reflexivity|by vm_compute|apply world0_directory|reflexivity
    |by_computing|lia|reflexivity|reflexivity|by vm_compute|cbn; lia].
Defined.

(** The first client has created the file and not yet asked for its attributes, as [createhelper]
    goes on to do; meanwhile the second one looks it up, writes to it and reads it. *)
Definition raced : outcome (list (list reply)) :=
  '(w, _, inum) ← createFile 7 0 ROOTDIR (cs "notes") (as_client 0 (world0 three));
  '(w, found) ← turn 0 1 0 (FuseLookup ROOTDIR (cs "notes")) w;
  '(w, wrote) ← turn 0 1 0 (FuseWrite inum (cs "abc") 0) w;
  '(w, before) ← turn 0 1 0 (FuseRead inum 3 0) w;
  '(w, attrs) ← turn 0 0 0 (FuseGetattr inum) w;
  '(w, after) ← turn 0 1 0 (FuseRead inum 3 0) w;
  Ret [found; wrote; before; attrs; after].
Example raced_requests :
  raced = Ret [[ReplyEntry (Entry 2147483655 (stat0 2147483655))]; [ReplyWrite 3];
               [ReplyBuf (cs "abc")]; [ReplyAttr (Stat 2147483655 0x81b6 1 0 0 0 0)];
               [ReplyBuf []]].
Proof. vm_compute. reflexivity. Qed.
End race_example.
