(* ===== verification/Remote.v ===== *)
(** Remote calls from end to end: rpcc::call and rpcs over a connection that delivers.

    A [link] is a client, a server with the methods registered on an object, and the connection
    between them.  [remote_call] is one call as the two sides run it: the client numbers and sends
    the request, the server dispatches it, runs the method and keeps the reply, the client takes
    the reply and returns.  The theorem: on a bound client every call returns what the method
    returned, and the link is as good as before, so that the next call does as well. *)
From Stdlib Require Import ZArith Lia Ascii String Sorting.Sorted.
From stdpp Require Import base gmap list strings.
From S2P Require Import Prelude Marshall Protocols RpcClient RpcServer Rpc Stubs.
Local Open Scope Z_scope.

(** A method, behind the handler made for it. *)
Definition fn (T : Type) : Type := T -> unmarshall -> marshall -> outcome (T * Z * marshall).

Record link (T : Type) := Link {
  lk_clt : rpcc; lk_srv : rpcs (fn T); lk_obj : T; lk_conn : connection }.
Arguments Link {T}.
Arguments lk_clt {T}.
Arguments lk_srv {T}.
Arguments lk_obj {T}.
Arguments lk_conn {T}.

Section remote.
  Context {T : Type} `{Memory}.

(** The reply, or its absence, and the return of the call. *)
Definition returns (l : link T) (c : rpcc) (xid xid_rep : Z) (req : list ascii)
    (reply : option (list ascii)) (sv : rpcs (fn T)) (obj : T) : outcome (link T * Z * unmarshall) :=
  c ← match reply with Some b => rpcc_got_pdu c b | None => Ret c end;
  '(c, ret, u) ← call1_end c xid xid_rep req;
  Ret (Link c sv obj (lk_conn l), ret, u).

Lemma returns_ext l l' c xid xid_rep req reply sv obj :
  lk_conn l = lk_conn l' ->
  returns l c xid xid_rep req reply sv obj = returns l' c xid xid_rep req reply sv obj.
Proof. unfold returns. by intros ->. Qed.

Definition remote_call (proc : Z) (req : marshall) (l : link T) : outcome (link T * Z * unmarshall) :=
  st ← call1_begin (lk_clt l) proc req;
  match st with
  | Refused code => Ret (l, code, unmarshall_empty)
  | Started c xid req xid_rep =>
      '(sv, v) ← dispatch_begin (lk_srv l) (lk_conn l) (m_bytes req);
      match v with
      | Ignored => returns l c xid xid_rep (m_bytes req) None sv (lk_obj l)
      | Answered _ b => returns l c xid xid_rep (m_bytes req) (Some b) sv (lk_obj l)
      | Running f h args =>
          '(obj, ret, rep) ← f (lk_obj l) args marshall_new;
          '(sv, _, b) ← dispatch_end sv (lk_conn l) h ret rep false;
          returns l c xid xid_rep (m_bytes req) (Some b) sv obj
      end
  end.

(** The call template of one argument. *)
Definition rcall {A R} `{Marshal A, Marshal R} (proc : Z) (x : A) (r0 : R) (l : link T)
    : outcome (link T * Z * R) :=
  '(l, ret, u) ← remote_call proc (put marshall_new x) l;
  '(ret, r) ← call_m ret u r0;
  Ret (l, ret, r).

(** [rpcc::bind] and the method it calls. *)
Definition rpcbind_fn (nonce : Z) : fn T :=
  handler1 (H := marshal_int) (H0 := marshal_int) (fun s _ => (s, 0, s32 nonce)) 0.
Definition remote_bind (l : link T) : outcome (link T * Z) :=
  '(l, ret, r) ← rcall (H0 := marshal_int) (H1 := marshal_int) rpc_const.bind 0 0 l;
  Ret (Link (bind_end (lk_clt l) ret r) (lk_srv l) (lk_obj l) (lk_conn l), ret).

(** * Links in order *)

(** No call is pending, the calls numbered below [xid_] are acknowledged, and the server has
    finished exactly those. *)
Record linked (N : Z) (l : link T) : Prop := {
  ln_live : destroy_wait_ (lk_clt l) = false;
  ln_nonces : clt_nonce_ (lk_clt l) = N
    /\ (srv_nonce_ (lk_clt l) = 0 \/ srv_nonce_ (lk_clt l) = nonce_ (lk_srv l));
  ln_xid : 1 <= xid_ (lk_clt l);
  ln_calls : calls_ (lk_clt l) = ∅;
  ln_acks : window_of (fun x => 1 <= x <= xid_ (lk_clt l) - 1) (xid_rep_window_ (lk_clt l));
  ln_window : (xid_ (lk_clt l) = 1 /\ reply_window_ (lk_srv l) !! N = None)
    \/ exists w f, reply_window_ (lk_srv l) !! N = Some w
         /\ win w f (xid_ (lk_clt l) - 1) (xid_ (lk_clt l) - 1) }.

Definition allowed (c : rpcc) (proc : Z) : Prop :=
  if proc =? rpc_const.bind then bind_done_ c = false else bind_done_ c = true.

(** A request with the next number is new. *)
Lemma check_window_fresh w f n :
  win w f n n -> exists w' f', check_window w (n + 1) n = (w', NEW) /\ win w' f' (n + 1) n.
Proof.
  intros Hw. pose proof Hw as (_ & Hf & _). destruct (win_head _ _ _ _ Hw) as (r & w0 & E & Er & Hge).
  unfold check_window. rewrite E, <- E, Er, min_xid_first by done.
  assert ((n + 1 <? f) = false) as -> by lia.
  pose proof (win_filter _ _ _ _ n Hw ltac:(lia)) as Hw1. rewrite find_reply_none.
  - eexists _, _. split; [done|]. eapply win_snoc; [exact Hw1|done|lia|lia|done].
  - destruct Hw1 as (_ & _ & Hin & _). rewrite Hin. lia.
Qed.

Section call.
  Variables (N : Z) (l : link T).
  Hypothesis HN : is_u32 N /\ N <> 0.
  Hypothesis HS : is_u32 (nonce_ (lk_srv l)).
  Hypothesis Hl : linked N l.
  Hypothesis Hx : xid_ (lk_clt l) < 2 ^ 31 - 1.

Abbreviation xid := (xid_ (lk_clt l)).
Definition the_header (proc : Z) : req_header :=
  ReqHeader xid proc N (srv_nonce_ (lk_clt l)) (xid - 1).

Lemma call_begins proc req :
  is_s32 proc -> allowed (lk_clt l) proc ->
  call1_begin (lk_clt l) proc req =
    Ret (Started (set_calls (set_xid (lk_clt l) (xid + 1)) {[xid := Caller unmarshall_empty 0 false]})
      xid (pack_req_header req (the_header proc)) (xid - 1)).
Proof.
  intros Hp Ha. destruct Hl as [H1 [H2 H3] H4 H5 H6 H7].
  destruct (window_upto (xid - 1) _ ltac:(lia) H6) as [w Hw].
  unfold call1_begin. rewrite H1. unfold allowed in Ha.
  assert ((negb (proc =? rpc_const.bind) && negb (bind_done_ (lk_clt l))
    || (proc =? rpc_const.bind) && bind_done_ (lk_clt l)) = false) as ->.
  { destruct (proc =? rpc_const.bind); simpl; by rewrite Ha. }
  simpl. rewrite Hw, H5, !s32_id by (done || unfold is_s32; lia). rewrite u32_id by (unfold is_u32; lia).
  unfold the_header. by rewrite H2, insert_empty.
Qed.

(** The server takes the request for a new one. *)
Lemma dispatch_new proc f req :
  procs_ (lk_srv l) !! proc = Some f ->
  exists sv w, dispatch_header (lk_srv l) (lk_conn l) (the_header proc) req
      = Ret (sv, Running f (the_header proc) req) /\
    nonce_ sv = nonce_ (lk_srv l) /\ procs_ sv = procs_ (lk_srv l) /\
    reply_window_ sv !! N = Some w /\
    (forall b, reply_num b xid -> exists f, win (w ++ [Reply xid true b]) f xid xid).
Proof.
  intros Hf. destruct Hl as [H1 [H2 H3] H4 H5 H6 H7]. unfold dispatch_header, the_header. simpl.
  assert (negb (srv_nonce_ (lk_clt l) =? 0) && negb (srv_nonce_ (lk_clt l) =? nonce_ (lk_srv l)) = false)
    as -> by lia.
  assert (negb (N =? 0) = true) as -> by lia. rewrite Hf, !u32_id by (unfold is_u32; lia).
  set (s1 := save_connection (know_client (lk_srv l) N) N (lk_conn l)).
  assert (nonce_ s1 = nonce_ (lk_srv l) /\ procs_ s1 = procs_ (lk_srv l)
    /\ reply_window_ s1 !! N = Some (default [] (reply_window_ (lk_srv l) !! N))) as (E1 & E2 & E3).
  { unfold s1, save_connection, know_client. destruct (reply_window_ (lk_srv l) !! N) eqn:F; simpl;
      repeat case_match; simpl; rewrite ?lookup_insert_eq; done. }
  assert (exists w, check_window (default [] (reply_window_ (lk_srv l) !! N)) xid (xid - 1) = (w, NEW)
    /\ forall b, reply_num b xid -> exists f, win (w ++ [Reply xid true b]) f xid xid) as (w & Ew & Hw).
  { destruct H7 as [[Hx1 ->]|(w & f0 & -> & Hwin)]; simpl.
    - exists [reply_new 0]. split; [done|]. intros b Hb. exists 0.
      eapply win_snoc; [apply win_base|done|lia|lia|]. intros _. split; [done|simpl; lia].
    - destruct (check_window_fresh w f0 (xid - 1) Hwin) as (w' & f' & E & Hw').
      replace (xid - 1 + 1) with xid in * by lia. exists w'. split; [done|]. intros b Hb. exists f'.
      eapply win_snoc; [exact Hw'|done|lia|lia|]. intros _. split; [done|simpl; lia]. }
  unfold checkduplicate_and_update. rewrite E3, Ew. simpl.
  set (sv := set_replies s1 (<[N := w]> (reply_window_ s1))).
  exists (if negb (counting_ sv =? 0) then updatestat sv proc else sv), w. split; [done|].
  unfold sv. case_match; simpl; rewrite lookup_insert_eq; by split_and!.
Qed.

(** What is left of the client when the call has returned. *)
Definition advanced (c c' : rpcc) : Prop :=
  calls_ c' = ∅ /\ xid_ c' = xid + 1 /\
  window_of (fun x => 1 <= x <= xid) (xid_rep_window_ c') /\
  destroy_wait_ c' = destroy_wait_ c /\ bind_done_ c' = bind_done_ c /\
  clt_nonce_ c' = clt_nonce_ c /\ srv_nonce_ c' = srv_nonce_ c.

(** The reply completes the call. *)
Lemma reply_taken (m : marshall) (b : Z) sv obj req :
  m_wf m -> is_s32 b -> Z.of_nat (m_ind m) < 2 ^ 31 ->
  let c := set_calls (set_xid (lk_clt l) (xid + 1)) {[xid := Caller unmarshall_empty 0 false]} in
  let rep := m_bytes (pack_reply_header m (ReplyHeader xid b)) in
  exists c' u, returns l c xid (xid - 1) req (Some rep) sv obj = Ret (Link c' sv obj (lk_conn l), b, u) /\
    u_wf u /\ u_left u = get_content m /\ advanced (lk_clt l) c'.
Proof.
  intros Wm Hbs Hsz c rep. destruct Hl as [H1 [H2 H3] H4 H5 H6 H7].
  assert (is_s32 xid) as Hxs by (unfold is_s32; lia).
  destruct (reply_header_roundtrip _ (ReplyHeader xid b) Wm (conj Hxs Hbs) Hsz) as (u & Eu & Wu & Lu).
  destruct (update_upto (xid - 1) (xid_rep_window_ (lk_clt l)) xid) as (w & Ew & Hw); [lia|lia|done|].
  replace (Z.max (xid - 1) xid) with xid in Hw by lia.
  destruct (update_upto xid w xid) as (w' & Ew' & Hw'); [lia|lia|done|].
  replace (Z.max xid xid) with xid in Hw' by lia.
  unfold returns, rpcc_got_pdu. fold rep in Eu. rewrite Eu.
  pose proof Wu as (? & ? & ? & Hu). rewrite Hu. cbn [negb rp_xid].
  rewrite u32_id by (unfold is_u32; lia). unfold c. cbn [xid_rep_window_ set_calls set_xid].
  rewrite Ew. cbn. rewrite lookup_singleton_eq. cbn. unfold call1_end. cbn.
  rewrite s32_id by done. rewrite insert_singleton_eq, lookup_singleton_eq. cbn.
  rewrite Ew'. cbn. rewrite delete_singleton_eq, (take_in_header _ _ _ Eu Wu).
  eexists _, _. split; [reflexivity|]. split; [done|]. split; [done|].
  destruct (negb (lossytest_ (lk_clt l) =? 0)); cbn; split_and!; done.
Qed.

(** A server started after the client was bound turns the call away and keeps its state. *)
Lemma remote_call_old proc req server obj :
  is_s32 proc -> allowed (lk_clt l) proc -> m_wf req -> Z.of_nat (m_ind req) < 2 ^ 31 ->
  srv_nonce_ (lk_clt l) <> 0 -> srv_nonce_ (lk_clt l) <> nonce_ server ->
  exists c' u, remote_call proc req (Link (lk_clt l) server obj (lk_conn l))
    = Ret (Link c' server obj (lk_conn l), rpc_const.oldsrv_failure, u) /\ advanced (lk_clt l) c'.
Proof.
  intros Hps Ha Wx Hzx HS0 HSn.
  assert (wf_req_header (the_header proc)) as Hh.
  { pose proof (ln_xid N l Hl). pose proof (ln_nonces N l Hl) as [_ Hsv].
    destruct HN. split_and!; simpl; try done; width_lia. }
  destruct (req_header_roundtrip _ (the_header proc) Wx Hh Hzx) as (args & Ea & (_ & _ & _ & Hu) & _).
  assert (dispatch_begin server (lk_conn l) (m_bytes (pack_req_header req (the_header proc)))
    = Ret (server, Answered (lk_conn l) (error_reply (the_header proc) rpc_const.oldsrv_failure))) as Ed.
  { unfold dispatch_begin. rewrite Ea, Hu. cbn [negb]. unfold dispatch_header, the_header at 1 2.
    cbn [rq_srv_nonce].
    by assert (negb (srv_nonce_ (lk_clt l) =? 0) && negb (srv_nonce_ (lk_clt l) =? nonce_ server) = true)
      as -> by lia. }
  destruct (reply_taken marshall_new rpc_const.oldsrv_failure server obj
    (m_bytes (pack_req_header req (the_header proc))))
    as (c' & u & E & _ & _ & Hc); [apply marshall_new_wf|by_computing|by_computing|].
  exists c', u. split; [|exact Hc]. unfold remote_call. cbn [lk_clt lk_srv lk_conn lk_obj].
  rewrite call_begins by done. cbn [mbind outcome_bind]. rewrite Ed. cbn [mbind outcome_bind].
  unfold error_reply. cbn [rq_xid the_header].
  rewrite (returns_ext _ l) by reflexivity. exact E.
Qed.

Section method.
  Context {A R : Type} `{MA : Marshal A, MR : Marshal R}.
  Variables (meth : T -> A -> T * Z * R) (a0 x : A) (r r0 : R) (obj : T) (b proc : Z).
  Hypothesis Hm : meth (lk_obj l) x = (obj, b, r).
  Hypothesis Hb : 0 <= b /\ is_s32 b.
  Hypothesis Hsend : sendable x /\ sendable r.
  Hypothesis Hsz : Z.of_nat (m_ind (put marshall_new x)) < 2 ^ 31
    /\ Z.of_nat (m_ind (put marshall_new r)) < 2 ^ 31.
  Hypothesis Hp : is_s32 proc /\ allowed (lk_clt l) proc.
  Variable f : fn T.
  Hypothesis Hf : procs_ (lk_srv l) !! proc = Some f.
  Hypothesis Hmeth : forall s u m, f s u m = handler1 meth a0 s u m.

Lemma rcall_spec :
  exists l', rcall proc x r0 l = Ret (l', b, r) /\ linked N l' /\ lk_obj l' = obj /\
    xid_ (lk_clt l') = xid + 1 /\ procs_ (lk_srv l') = procs_ (lk_srv l) /\
    nonce_ (lk_srv l') = nonce_ (lk_srv l) /\ bind_done_ (lk_clt l') = bind_done_ (lk_clt l) /\
    srv_nonce_ (lk_clt l') = srv_nonce_ (lk_clt l).
Proof.
  destruct Hp as [Hps Ha], Hb as [Hb0 Hbs], Hsend as [Hsx Hsr], Hsz as [Hzx Hzr].
  unfold rcall, remote_call. rewrite call_begins by done. cbn [mbind outcome_bind].
  destruct (put_new x) as [Wx Ex]. pose proof (ln_nonces N l Hl) as [Hcn Hsn].
  assert (wf_req_header (the_header proc)) as Hh.
  { pose proof (ln_xid N l Hl). destruct HN. split_and!; simpl; try done; try width_lia. }
  destruct (req_header_roundtrip _ (the_header proc) Wx Hh Hzx) as (args & Ea & Wa & La).
  rewrite Ex in La. destruct (get_rest x a0 args Wa Hsx La) as (args' & Eg & Hok).
  destruct (dispatch_new proc _ args Hf) as (sv & w & Ed & Hno & Hpr & Hw & Hwin).
  unfold dispatch_begin. rewrite Ea. destruct Wa as (_ & _ & _ & Hu). rewrite Hu. cbn [negb].
  rewrite Ed. cbn [mbind outcome_bind]. rewrite Hmeth. unfold handler1 at 1. rewrite Eg. cbn [mbind outcome_bind].
  rewrite Hok, Hm. cbn [negb mbind outcome_bind]. unfold dispatch_end.
  assert (negb (b =? rpc_const.unmarshal_args_failure) = true) as -> by (unfold rpc_const.unmarshal_args_failure; lia).
  assert ((0 <=? b) = true) as -> by lia. cbn [verify mbind outcome_bind rq_clt_nonce the_header].
  assert ((N >? 0) = true) as -> by (destruct HN as [HN1 ?]; unfold is_u32 in HN1; lia).
  unfold add_reply. rewrite Hw. cbn [mbind outcome_bind rq_xid the_header].
  destruct (put_new r) as [Wr Er].
  destruct (reply_taken (put marshall_new r) b
    (set_replies sv (<[N := w ++ [Reply (u32 xid) true
       (m_bytes (pack_reply_header (put marshall_new r) (ReplyHeader xid b)))]]> (reply_window_ sv)))
    obj (m_bytes (pack_req_header (put marshall_new x) (the_header proc))) Wr Hbs Hzr)
    as (c' & u & E & Wu & Lu & C1 & C2 & C3 & C4 & C5 & C6 & C7).
  rewrite E. cbn [mbind outcome_bind]. rewrite Er in Lu.
  destruct (get_rest r r0 u Wu Hsr Lu) as (u' & Egr & Hokr).
  unfold call_m. rewrite (proj2 (Z.ltb_ge b 0) Hb0), Egr. cbn [mbind outcome_bind].
  rewrite Hokr. cbn [verify mbind outcome_bind].
  eexists. split; [reflexivity|]. cbn [lk_obj lk_clt lk_srv procs_ nonce_ set_replies].
  split; [|by rewrite C2, C5, C7].
  split; cbn [lk_obj lk_clt lk_srv nonce_ set_replies reply_window_].
  - rewrite C4. apply Hl.
  - by rewrite C6, C7, Hno.
  - rewrite C2. pose proof (ln_xid N l Hl). lia.
  - done.
  - rewrite C2. by replace (xid + 1 - 1) with xid by lia.
  - right. rewrite C2, lookup_insert_eq. replace (xid + 1 - 1) with xid by lia.
    rewrite u32_id by (pose proof (ln_xid N l Hl); unfold is_u32; lia).
    edestruct (Hwin (m_bytes (pack_reply_header (put marshall_new r) (ReplyHeader xid b)))) as [f' Hf'].
    { apply reply_num_packed; [apply put_new|pose proof (ln_xid N l Hl); unfold is_s32; lia|done|done]. }
    by eexists _, f'.
Qed.
End method.
End call.
End remote.

(** What a message of [x] takes. *)
Lemma message_size {A} `{Memory, Marshal A} (x : A) :
  m_ind (put marshall_new x) = (RPC_HEADER_SZ + length (enc x))%nat.
Proof.
  destruct (put_new x) as [(H1 & H2 & H3) E]. rewrite <- E. unfold get_content.
  rewrite length_drop, length_take. lia.
Qed.

(** * Binding *)

(** A client that is bound. *)
Definition ready {T} (N : Z) (l : link T) : Prop :=
  linked N l /\ is_u32 N /\ N <> 0 /\ is_u32 (nonce_ (lk_srv l)) /\ bind_done_ (lk_clt l) = true.

(** A new client of a server that has just been started. *)
Definition fresh_link {T} (nonce : Z) (sv : rpcs (fn T)) (obj : T) (conn : connection) : link T :=
  Link (rpcc_new true nonce 0) sv obj conn.

Lemma fresh_linked {T} N (sv : rpcs (fn T)) obj conn :
  is_u32 N -> reply_window_ sv !! N = None -> linked N (fresh_link N sv obj conn).
Proof.
  intros HN Hw. split; simpl; rewrite ?u32_id by done; try done.
  - split; [done|by left].
  - eapply window_of_proper; [|exact window_of_init]. simpl. lia.
  - by left.
Qed.

(** The first call makes the client ready. *)
Lemma remote_bind_ready {T} `{Memory} N (sv : rpcs (fn T)) obj conn :
  is_u32 N -> N <> 0 -> is_u32 (nonce_ sv) -> reply_window_ sv !! N = None ->
  procs_ sv !! rpc_const.bind = Some (rpcbind_fn (nonce_ sv)) ->
  exists l, remote_bind (fresh_link N sv obj conn) = Ret (l, 0) /\ ready N l /\ lk_obj l = obj /\
    procs_ (lk_srv l) = procs_ sv /\ xid_ (lk_clt l) = 2 /\ srv_nonce_ (lk_clt l) = nonce_ sv.
Proof.
  intros HN HN0 HS Hw Hp. unfold remote_bind.
  assert (is_s32 (s32 (nonce_ sv))) as Hs by (unfold is_s32, s32; Z.to_euclidean_division_equations; lia).
  edestruct (rcall_spec N (fresh_link N sv obj conn) (conj HN HN0) HS (fresh_linked N sv obj conn HN Hw)
      ltac:(simpl; lia) (MA := marshal_int) (MR := marshal_int) (fun s _ => (s, 0, s32 (nonce_ sv))) 0 0
      (s32 (nonce_ sv)) 0 obj 0 rpc_const.bind) as (l & E & Hl & Ho & Hx & Hpr & Hno & _).
  - reflexivity.
  - split; [lia|by_computing].
  - split; [by_computing|exact Hs].
  - rewrite !message_size. cbn [enc marshal_int]. rewrite !length_enc_uint. split; by vm_compute.
  - split; [by_computing|reflexivity].
  - exact Hp.
  - reflexivity.
  - rewrite E. cbn [mbind outcome_bind]. eexists. split; [reflexivity|]. cbn [lk_obj lk_clt lk_srv].
    unfold bind_end. cbn [Z.eqb].
    assert (u32 (s32 (nonce_ sv)) = nonce_ sv) as Hsu by (clear -HS; width_lia).
    split; [|split; [exact Ho|split; [exact Hpr|split; [exact Hx|exact Hsu]]]].
    split; [|split; [exact HN|split; [exact HN0|split; [|reflexivity]]]]; [|change (is_u32 (nonce_ (lk_srv l))); by rewrite Hno]. destruct Hl as [L1 [L2 L3] L4 L5 L6 L7].
    split; cbn [lk_clt lk_srv set_bound destroy_wait_ clt_nonce_ srv_nonce_ xid_ calls_ xid_rep_window_];
      try assumption.
    split; [exact L2|]. right. rewrite Hno. exact Hsu.
Qed.

(** * Property *)


(** ** Witness: a counter *)

Module remote_example.
#[local] Instance zeroed : Memory := char_of_Z 0.

Definition counter_fn : fn Z := handler1 (H := marshal_int) (H0 := marshal_int)
  rpc_schedules.succ_method 0.
Definition server : rpcs (fn Z) :=
  Rpcs 99 ∅ ∅ 0 0 ∅ true {[rpc_const.bind := rpcbind_fn 99; 0x7001 := counter_fn]}.
Definition conn : connection := Connection 5 0 0.

End remote_example.
