(* ===== verification/RpcTest.v ===== *)
(** The test program of the RPC layer, as far as one thread runs it: rpc/rpctest.cc.

    Its server, the test of marshalling, [simple_tests], the parts of [failure_test] before and
    between its threads, and what each thread of [client1], [client2] and [client3] does when it has
    the client for itself, on the calls of [Remote].  An assertion that does not hold is a fault, so
    that the theorem that a test returns says that all of its assertions hold.  The random numbers,
    the nonces and the readings of the clock are arguments.  Left out are the tests that start
    threads ([concurrent_test], [lossy_test] and the threads of [failure_test], which make calls at
    the same time, on two clients, and with messages lost on purpose) and [main]. *)
From Stdlib Require Import ZArith Lia Ascii String.
From stdpp Require Import base gmap list strings.
From S2P Require Import Prelude Marshall Protocols RpcClient RpcServer Rpc Stubs Remote.
Local Open Scope Z_scope.

#[global] Instance req_header_eq_dec : EqDecision req_header.
Proof. solve_decision. Defined.

(** * The server *)

Module srv.
(** The object has no state. *)
Definition handle_22 (s : unit) (a b : cstring) : unit * Z * cstring := (s, 0, a ++ b).
Definition handle_fast (s : unit) (a : Z) : unit * Z * Z := (s, 0, s32 (a + 1)).
(** It sleeps first. *)
Definition handle_slow (s : unit) (a : Z) : unit * Z * Z := (s, 0, s32 (a + 2)).
(** The length is converted to a size. *)
Definition handle_bigrep (s : unit) (len : Z) : unit * Z * cstring :=
  (s, 0, repeat (char_of_Z 120) (Z.to_nat (u64 len))).
End srv.

Section test.
  Context `{Memory}.

(** [nonce] is the random number of the new server. *)
Definition startserver (nonce : Z) : outcome (rpcs (fn unit)) :=
  s ← rpcs_new nonce 0 (rpcbind_fn (u32 nonce));
  s ← reg1 s 22 (handler2 srv.handle_22 [] []);
  s ← reg1 s 23 (handler1 (H := marshal_int) (H0 := marshal_int) srv.handle_fast 0);
  s ← reg1 s 24 (handler1 (H := marshal_int) (H0 := marshal_int) srv.handle_slow 0);
  reg1 s 25 (handler1 (H := marshal_int) srv.handle_bigrep 0).

(** * Marshalling *)

Definition testmarshall : outcome unit :=
  let m := marshall_new in
  let rh := ReqHeader 1 2 3 4 5 in
  let m := pack_req_header m rh in
  _ ← verify (Nat.eqb (m_ind m) RPC_HEADER_SZ);
  let i := 12345 in
  let l := 1223344455 in
  let s := cs "hallo...." in
  let m := put_int m i in
  let m := put_ull m l in
  let m := put_string m s in
  let b := m_bytes m in
  _ ← verify (Nat.eqb (length b) (RPC_HEADER_SZ + 4 + 8 + length s + 4));
  let un := unmarshall_of_buf b in
  let '(un, rh1) := unpack_req_header un in
  _ ← verify (bool_decide (rh = rh1));
  let '(un, i1) := get_int un in
  let '(un, l1) := get_ull un in
  '(un, s1) ← get_string un [];
  _ ← verify (okdone un);
  verify ((i1 =? i) && (l1 =? l) && str_eqb s1 s).

(** * Calls *)

Abbreviation conn_t := (link unit).
(** Two random numbers, and a clock that goes on by less than 2^20 seconds. *)
Definition timed (r : Z * Z * timespec * timespec) : Prop :=
  let '(r1, r2, start, end_) := r in
  0 <= r1 /\ 0 <= r2 /\ 0 <= tv_sec end_ - tv_sec start < 2 ^ 20.
Abbreviation random_numbers := (Forall (fun r => 0 <= r)).

(** [call] with two arguments and with an integer. *)
Definition call_22 (a b : cstring) (rep : cstring) (l : conn_t) : outcome (conn_t * Z * cstring) :=
  '(l, ret, u) ← remote_call 22 (call2 a b) l;
  '(ret, rep) ← call_m ret u rep;
  Ret (l, ret, rep).
Definition call_int (proc a rep : Z) (l : conn_t) : outcome (conn_t * Z * Z) :=
  rcall (H0 := marshal_int) (H1 := marshal_int) proc a rep l.
Definition call_25 (len : Z) (rep : cstring) (l : conn_t) : outcome (conn_t * Z * cstring) :=
  rcall (H0 := marshal_int) 25 len rep l.

(** The first loop of [client1], on the numbers [random()] returns, and its second, on those numbers
    and the readings of the clock before and after the call. *)
Fixpoint client1_big (rs : list Z) (l : conn_t) : outcome conn_t :=
  match rs with
  | [] => Ret l
  | r :: rs =>
      let arg := Z.rem r 2000 in
      '(l, ret, rep) ← call_25 arg [] l;
      _ ← verify (ret =? 0);
      _ ← verify (Z.of_nat (length rep) =? arg);
      client1_big rs l
  end.
Fixpoint client1_order (rs : list (Z * Z * timespec * timespec)) (l : conn_t) : outcome conn_t :=
  match rs with
  | [] => Ret l
  | (r1, r2, start, end_) :: rs =>
      let which := Z.rem r1 2 in
      let arg := Z.rem r2 1000 in
      '(l, ret, rep) ← call_int (if negb (which =? 0) then 23 else 24) arg 0 l;
      diff ← diff_timespec end_ start;
      _ ← verify (ret =? 0);
      _ ← verify (rep =? (if negb (which =? 0) then arg + 1 else arg + 2));
      client1_order rs l
  end.
Definition client1 (rs : list Z) (rs2 : list (Z * Z * timespec * timespec)) (l : conn_t) : outcome conn_t :=
  l ← client1_big rs l; client1_order rs2 l.

(** As many rounds as there is time for. *)
Fixpoint client2 (rs : list Z) (l : conn_t) : outcome conn_t :=
  match rs with
  | [] => Ret l
  | r :: rs =>
      let arg := Z.rem r 2000 in
      '(l, ret, rep) ← call_25 arg [] l;
      _ ← verify (Z.of_nat (length rep) =? arg);
      client2 rs l
  end.

Fixpoint client3_loop (js : list Z) (l : conn_t) : outcome conn_t :=
  match js with
  | [] => Ret l
  | i :: js =>
      '(l, ret, rep) ← call_int 24 i 0 l;
      _ ← verify ((ret =? rpc_const.timeout_failure) || (rep =? i + 2));
      client3_loop js l
  end.
Definition client3 : conn_t -> outcome conn_t := client3_loop [0; 1; 2; 3].

(** A call nobody answers: no connection can be made, so that nothing is sent and each wait lasts
    until its deadline.  [clock] is what the clock shows at the readings to come, here those of
    the waiting loop; the ones it leaves are returned. *)
Fixpoint unanswered_wait (retrans : bool) (w : waiting) (clock : list timespec)
    : outcome (list timespec) :=
  match clock with
  | [] => Fault Diverged
  | now :: later =>
      r ← call1_round retrans w (Round now false true);
      match r with None => Ret clock | Some w => unanswered_wait retrans w later end
  end.
Definition call_unanswered (proc : Z) (req : marshall) (to : Z) (clock : list timespec) (c : rpcc)
    : outcome (rpcc * Z * list timespec) :=
  st ← call1_begin c proc req;
  match st, clock with
  | Refused code, _ => Ret (c, code, clock)
  | Started _ _ _ _, [] => Fault Diverged
  | Started c xid req xid_rep, start :: clock =>
      w ← wait_start start to;
      clock ← unanswered_wait (retrans_ c) w clock;
      '(c, ret, _) ← call1_end c xid xid_rep (m_bytes req);
      Ret (c, ret, clock)
  end.
Definition bind_unanswered (to : Z) (clock : list timespec) (c : rpcc)
    : outcome (rpcc * Z * list timespec) :=
  call_unanswered rpc_const.bind (put (Marshal := marshal_int) marshall_new 0) to clock c.

(** [time(0)]. *)
Definition time (clock : list timespec) : outcome (Z * list timespec) :=
  match clock with [] => Fault Diverged | now :: clock => Ret (tv_sec now, clock) end.

(** [simple_tests] on client [l]; [n1] is the nonce of the client of a port nobody listens on, and
    [clock] the readings of the clock while that client tries to bind. *)
Definition simple_tests (n1 : Z) (clock : list timespec) (l : conn_t) : outcome conn_t :=
  '(l, intret, rep) ← call_22 (cs "hello") (cs " goodbye") [] l;
  _ ← verify (intret =? 0);
  _ ← verify (str_eqb rep (cs "hello goodbye"));
  '(l, intret, rep) ← call_25 70000 rep l;
  _ ← verify (intret =? 0);
  _ ← verify (Z.of_nat (length rep) =? 70000);
  '(l, intret, xx) ← call_int 23 77 0 l;
  _ ← verify ((intret =? 0) && (xx =? 78));
  '(l, _, rep1) ← call_22 (repeat (char_of_Z 120) (Z.to_nat 1000)) (cs "x") [] l;
  _ ← verify (Z.of_nat (length rep1) =? 1001);
  '(l, intret, rep) ← call_22 (repeat (char_of_Z 120) (Z.to_nat 1000000)) (cs "z") rep l;
  _ ← verify (Z.of_nat (length rep) =? 1000001);
  '(t0, clock) ← time clock;
  '(_, intret, clock) ← bind_unanswered 3000 clock (rpcc_new true n1 0);
  '(t1, clock) ← time clock;
  _ ← verify ((intret <? 0) && (t1 - t0 <=? 4));
  Ret l.

(** [failure_test], up to its first threads: the server of client [l] is gone, a client with nonce
    [n1] fails to bind to it within what [clock] shows, another server is started, with [nonce], and
    the old client is replaced by one with nonce [n2]; [conn] is the connection to the new server. *)
Definition failure_test_begin (nonce n1 n2 : Z) (clock : list timespec) (conn : connection)
    (l : conn_t) : outcome conn_t :=
  '(_, ret, clock) ← bind_unanswered 3000 clock (rpcc_new true n1 0);
  _ ← verify (ret <? 0);
  server ← startserver nonce;
  '(l, intret, rep) ← call_22 (cs "hello") (cs " goodbye") [] (Link (lk_clt l) server tt conn);
  _ ← verify (intret =? rpc_const.oldsrv_failure);
  '(l, ret) ← remote_bind (fresh_link n2 (lk_srv l) tt conn);
  _ ← verify (0 <=? ret);
  '(l, ret) ← remote_bind l;
  _ ← verify (ret <? 0);
  '(l, intret, rep) ← call_22 (cs "hello") (cs " goodbye") rep l;
  _ ← verify (intret =? 0);
  _ ← verify (str_eqb rep (cs "hello goodbye"));
  Ret l.
(** And between its first threads and its last: both sides are replaced. *)
Definition failure_test_replace (nonce n3 : Z) (conn : connection) : outcome conn_t :=
  server ← startserver nonce;
  '(l, ret) ← remote_bind (fresh_link n3 server tt conn);
  _ ← verify (0 <=? ret);
  Ret l.

(** * A machine that keeps up *)

(** The thread runs again at most [late] nanoseconds after it could, which is at [t]: [t] is the
    reading before or, after a wait, its deadline. *)
Definition prompt (late t : Z) (now : timespec) : Prop := clock_time now /\ t <= nanos now <= t + late.
Fixpoint prompt_wait (late t : Z) (retrans : bool) (w : waiting) (clock : list timespec) : Prop :=
  match clock with
  | [] => True
  | now :: clock =>
      prompt late t now /\
      match call1_round retrans w (Round now false true) with
      | Ret (Some w') =>
          let deadline := Z.min (nanos now + curr_to w * 1000000) (nanos (finaldeadline w)) in
          prompt_wait late (Z.max (nanos now) deadline) retrans w' clock
      | _ => True
      end
  end.
(** The readings of a call with timeout [to], the first of them after [t]. *)
Definition prompt_call (late t to : Z) (clock : list timespec) : Prop :=
  match clock with
  | [] => True
  | start :: clock =>
      prompt late t start /\
      forall retrans w, wait_start start to = Ret w -> prompt_wait late (nanos start) retrans w clock
  end.

(** * All assertions hold *)

Lemma testmarshall_ok : testmarshall = Ret tt.
Proof. vm_compute. reflexivity. Qed.

(** The procedures of the server. *)
Definition table (nonce : Z) : gmap Z (fn unit) :=
  <[25 := handler1 (H := marshal_int) srv.handle_bigrep 0]>
  (<[24 := handler1 (H := marshal_int) (H0 := marshal_int) srv.handle_slow 0]>
  (<[23 := handler1 (H := marshal_int) (H0 := marshal_int) srv.handle_fast 0]>
  (<[22 := handler2 srv.handle_22 [] []]>
  (<[rpc_const.bind := rpcbind_fn nonce]> ∅)))).

Lemma startserver_ok nonce :
  startserver nonce = Ret (Rpcs (u32 nonce) ∅ ∅ 0 0 ∅ true (table (u32 nonce))).
Proof.
  unfold startserver, rpcs_new, reg1, set_procs. simpl.
  repeat (rewrite bool_decide_true by (by rewrite ?lookup_insert_ne, ?lookup_empty); simpl).
  reflexivity.
Qed.

Section client.
  (** The nonce of its server. *)
  Variable Sn : Z.

(** A client that is bound to it and has [k] calls left. *)
Definition good (k : Z) (l : conn_t) : Prop :=
  exists N nonce, ready N l /\ procs_ (lk_srv l) = table nonce /\ xid_ (lk_clt l) + k < 2 ^ 31
    /\ srv_nonce_ (lk_clt l) = Sn.
Lemma good_less k k' l : k' <= k -> good k l -> good k' l.
Proof. intros Hk (N & nonce & ? & ? & ? & ?). exists N, nonce. split_and!; try done. lia. Qed.

(** A call of one of its methods. *)
Lemma good_call {A R} `{MA : Marshal A, MR : Marshal R} k (meth : unit -> A -> unit * Z * R) (a0 x : A)
    (r r0 : R) proc f (l : conn_t) :
  good (k + 1) l -> 1 <= k -> (forall nonce, table nonce !! proc = Some f) ->
  (forall s u m, f s u m = handler1 meth a0 s u m) ->
  is_s32 proc -> proc <> rpc_const.bind -> meth tt x = (tt, 0, r) -> sendable x -> sendable r ->
  Z.of_nat (RPC_HEADER_SZ + length (enc x)) < 2 ^ 31 ->
  Z.of_nat (RPC_HEADER_SZ + length (enc r)) < 2 ^ 31 ->
  exists l', rcall proc x r0 l = Ret (l', 0, r) /\ good k l'.
Proof.
  intros (N & nonce & (Hl & HN & HN0 & HS & Hbd) & Hp & Hx & Hsn) Hk Ht Hf Hps Hpb Hm Hsx Hsr Hzx Hzr.
  destruct (rcall_spec N l (conj HN HN0) HS Hl ltac:(lia) meth a0 x r r0 tt 0 proc) with (f := f)
    as (l' & E & Hl' & Ho & Hxid & Hpr & Hno & Hbd' & Hsn').
  - by destruct (lk_obj l).
  - split; [lia|by_computing].
  - by split.
  - by rewrite !message_size.
  - split; [done|]. unfold allowed. by rewrite (proj2 (Z.eqb_neq _ _) Hpb).
  - rewrite Hp. apply Ht.
  - exact Hf.
  - exists l'. split; [exact E|]. exists N, nonce. rewrite Hpr, Hxid, Hsn'. split; [|split; [done|split; [lia|done]]].
    split; [done|]. rewrite Hno, Hbd'. done.
Qed.

Lemma enc_string_length (s : cstring) : length (enc s) = (4 + length s)%nat.
Proof. cbn [enc marshal_string]. by rewrite length_app, length_enc_uint. Qed.

Lemma call_22_rcall a b rep l : call_22 a b rep l = rcall 22 (a, b) rep l.
Proof. unfold call_22, rcall. reflexivity. Qed.
Lemma call_22_ok k a b rep l :
  good (k + 1) l -> 1 <= k -> Z.of_nat (length a) + Z.of_nat (length b) < 2 ^ 30 ->
  exists l', call_22 a b rep l = Ret (l', 0, a ++ b) /\ good k l'.
Proof.
  intros Hg Hk Hlen. rewrite call_22_rcall.
  apply (good_call k (fun s => tuple2 (srv.handle_22 s)) ([], []) (a, b) (a ++ b) rep 22
    (handler2 srv.handle_22 [] []) l Hg Hk).
  - intros nonce. reflexivity.
  - intros s u m. unfold handler2, handler1. cbn. destruct (get_string u []) as [[u1 x]|]; [|done].
    cbn. by destruct (get_string u1 []) as [[u2 y]|].
  - by_computing.
  - done.
  - done.
  - done.
  - done.
  - cbn [enc marshal_pair fst snd]. rewrite length_app, !enc_string_length. unfold RPC_HEADER_SZ. lia.
  - rewrite enc_string_length, length_app. unfold RPC_HEADER_SZ. lia.
Qed.
Lemma call_25_ok k len rep l :
  good (k + 1) l -> 1 <= k -> 0 <= len < 2 ^ 30 ->
  exists l', call_25 len rep l = Ret (l', 0, repeat (char_of_Z 120) (Z.to_nat len)) /\ good k l'.
Proof.
  intros Hg Hk Hlen. unfold call_25.
  apply (good_call (MA := marshal_int) k srv.handle_bigrep 0 len _ rep 25
    (handler1 (H := marshal_int) srv.handle_bigrep 0) l Hg Hk).
  - intros nonce. reflexivity.
  - done.
  - by_computing.
  - done.
  - unfold srv.handle_bigrep. by rewrite u64_id by (unfold is_u64; lia).
  - cbn [sendable marshal_int]. unfold is_s32. lia.
  - done.
  - cbn [enc marshal_int]. rewrite length_enc_uint. by vm_compute.
  - rewrite enc_string_length, repeat_length. unfold RPC_HEADER_SZ. lia.
Qed.
Lemma call_int_ok k proc d a rep l :
  good (k + 1) l -> 1 <= k -> 0 <= a < 2 ^ 30 -> (proc = 23 /\ d = 1) \/ (proc = 24 /\ d = 2) ->
  exists l', call_int proc a rep l = Ret (l', 0, a + d) /\ good k l'.
Proof.
  intros Hg Hk Ha Hd.
  assert (exists meth, (forall nonce, table nonce !! proc =
    Some (handler1 (H := marshal_int) (H0 := marshal_int) meth 0)) /\ meth tt a = (tt, 0, a + d)) as (meth & Ht & Hm).
  { destruct Hd as [[-> ->]|[-> ->]]; [exists srv.handle_fast|exists srv.handle_slow]; (split; [done|]);
      unfold srv.handle_fast, srv.handle_slow; by rewrite s32_id by (unfold is_s32; lia). }
  unfold call_int.
  apply (good_call (MA := marshal_int) (MR := marshal_int) k meth 0 a (a + d) rep proc _ l Hg Hk Ht);
    [done|destruct Hd as [[-> _]|[-> _]]; by_computing|destruct Hd as [[-> _]|[-> _]]; done|done|..];
    cbn [sendable enc marshal_int]; rewrite ?length_enc_uint; try (unfold is_s32; lia); by vm_compute.
Qed.

Lemma rem_range r n : 0 <= r -> 0 < n -> 0 <= Z.rem r n < n.
Proof. intros. apply Z.rem_bound_pos; lia. Qed.
Lemma x_length len : 0 <= len -> Z.of_nat (length (repeat (char_of_Z 120) (Z.to_nat len))) = len.
Proof. intros. rewrite repeat_length. lia. Qed.

Lemma client1_big_ok k rs l :
  good (k + Z.of_nat (length rs)) l -> 1 <= k -> random_numbers rs ->
  exists l', client1_big rs l = Ret l' /\ good k l'.
Proof.
  intros Hg Hk Hrs. revert l Hg. induction Hrs as [|r rs Hr _ IH]; intros l Hg; simpl.
  - exists l. split; [done|]. eapply good_less; [|exact Hg]. simpl. lia.
  - pose proof (rem_range r 2000 Hr ltac:(lia)).
    destruct (call_25_ok (k + Z.of_nat (length rs)) (Z.rem r 2000) [] l) as (l' & -> & Hg');
      [eapply good_less; [|exact Hg]; simpl; lia|lia|lia|].
    cbn [mbind outcome_bind Z.eqb verify]. rewrite x_length, Z.eqb_refl by lia. by apply IH.
Qed.
Lemma client2_ok k rs l :
  good (k + Z.of_nat (length rs)) l -> 1 <= k -> random_numbers rs ->
  exists l', client2 rs l = Ret l' /\ good k l'.
Proof.
  intros Hg Hk Hrs. revert l Hg. induction Hrs as [|r rs Hr _ IH]; intros l Hg; simpl.
  - exists l. split; [done|]. eapply good_less; [|exact Hg]. simpl. lia.
  - pose proof (rem_range r 2000 Hr ltac:(lia)).
    destruct (call_25_ok (k + Z.of_nat (length rs)) (Z.rem r 2000) [] l) as (l' & -> & Hg');
      [eapply good_less; [|exact Hg]; simpl; lia|lia|lia|].
    cbn [mbind outcome_bind Z.eqb verify]. rewrite x_length, Z.eqb_refl by lia. by apply IH.
Qed.
Lemma diff_timespec_ok st en : 0 <= tv_sec en - tv_sec st < 2 ^ 20 -> exists d, diff_timespec en st = Ret d.
Proof.
  intros Ht. unfold diff_timespec. destruct (tv_sec en >? tv_sec st) eqn:E.
  - rewrite (s32_id ((tv_sec en - tv_sec st) * 1000)) by (unfold is_s32; lia).
    rewrite (proj2 (Z.eqb_neq ((tv_sec en - tv_sec st) * 1000) 0)) by lia. eexists. reflexivity.
  - rewrite (proj2 (Z.eqb_eq (tv_sec en) (tv_sec st))) by lia. eexists. reflexivity.
Qed.
Lemma client1_order_ok k rs l :
  good (k + Z.of_nat (length rs)) l -> 1 <= k -> Forall timed rs ->
  exists l', client1_order rs l = Ret l' /\ good k l'.
Proof.
  intros Hg Hk Hrs. revert l Hg. induction Hrs as [|[[[r1 r2] st] en] rs (Hr1 & Hr2 & Ht) _ IH]; intros l Hg; simpl.
  - exists l. split; [done|]. eapply good_less; [|exact Hg]. simpl. lia.
  - pose proof (rem_range r2 1000 Hr2 ltac:(lia)). destruct (diff_timespec_ok st en Ht) as [diff Hdiff].
    set (b := negb (Z.rem r1 2 =? 0)).
    destruct (call_int_ok (k + Z.of_nat (length rs)) (if b then 23 else 24) (if b then 1 else 2)
      (Z.rem r2 1000) 0 l) as (l' & -> & Hg');
      [eapply good_less; [|exact Hg]; simpl; lia|lia|lia|destruct b; [left|right]; done|].
    cbn [mbind outcome_bind]. rewrite Hdiff. cbn [mbind outcome_bind Z.eqb verify]. destruct b; rewrite Z.eqb_refl; by apply IH.
Qed.
Lemma client3_ok k l : good (k + 4) l -> 1 <= k -> exists l', client3 l = Ret l' /\ good k l'.
Proof.
  intros Hg Hk. unfold client3.
  assert (forall js l, good (k + Z.of_nat (length js)) l -> Forall (fun j => 0 <= j < 4) js ->
    exists l', client3_loop js l = Ret l' /\ good k l') as Hloop.
  { intros js l0 Hg0 Hjs. revert l0 Hg0. induction Hjs as [|j js Hj _ IH]; intros l0 Hg0; simpl.
    - exists l0. split; [done|]. eapply good_less; [|exact Hg0]. simpl. lia.
    - destruct (call_int_ok (k + Z.of_nat (length js)) 24 2 j 0 l0) as (l' & -> & Hg');
        [eapply good_less; [|exact Hg0]; simpl; lia|lia|lia|by right|].
      cbn [mbind outcome_bind]. rewrite Z.eqb_refl, orb_true_r. by apply IH. }
  apply Hloop; [done|]. repeat constructor; lia.
Qed.

(** Nobody answers. *)
Lemma add_seconds a k :
  clock_time a -> 0 <= k -> add_timespec a (1000 * k) = Ret (Timespec (tv_sec a + k) (tv_nsec a)).
Proof.
  intros [Ha1 Ha2] Hk. destruct (add_timespec_spec a (1000 * k) Ha2) as (r & -> & Hn & _ & _ & Hid); [lia|].
  rewrite Z.mul_comm, Z.rem_mul in Hid by lia. specialize (Hid eq_refl). f_equal. destruct r as [rs rn].
  unfold nanos in Hn. cbn in *. f_equal; lia.
Qed.

(** A round that nothing interrupts, with a timeout of [k] seconds. *)
Lemma quiet_round retrans k now w :
  clock_time now -> 0 <= k < 2 ^ 20 -> curr_to w = 1000 * k -> tv_sec (finaldeadline w) <> 0 ->
  0 <= tv_nsec (finaldeadline w) < 1000000000 ->
  call1_round retrans w (Round now false true)
  = Ret (Some (Waiting (1000 * (2 * k))
      (if nanos now + k * 1000000000 <=? nanos (finaldeadline w) then finaldeadline w
       else Timespec 0 (tv_nsec (finaldeadline w))) retrans)).
Proof.
  intros Hn Hk Hw HF HF2. unfold call1_round. rewrite (proj2 (Z.eqb_neq _ _) HF). cbn [r_now r_done r_dead].
  rewrite Hw, add_seconds by (done || lia). cbn [mbind outcome_bind]. rewrite andb_true_r.
  rewrite Z.shiftl_mul_pow2, s32_id by (unfold is_s32; lia). do 3 f_equal; [lia|].
  destruct Hn as [_ Hn]. unfold cmp_timespec, nanos in *. cbn [tv_sec tv_nsec] in *.
  repeat case_match; try done; lia.
Qed.

(** On a machine that keeps up the loop of a call with a timeout of three seconds ends in time, after
    four rounds at most. *)
Lemma unanswered_wait_ends late retrans start w clock :
  clock_time start -> wait_start start 3000 = Ret w -> 3 * late < 1000000000 ->
  prompt_wait late (nanos start) retrans w clock -> (4 <= length clock)%nat ->
  exists t1 rest, unanswered_wait retrans w clock = Ret (t1 :: rest) /\ clock_time t1
    /\ nanos t1 <= nanos start + 3000000000 + 2 * late.
Proof.
  intros Hs Hw Hlate Hp Hlen. unfold wait_start in Hw. change 3000 with (1000 * 3) in Hw.
  rewrite add_seconds in Hw by (done || lia). injection Hw as <-.
  set (F := Timespec (tv_sec start + 3) (tv_nsec start)) in *.
  assert (nanos F = nanos start + 3000000000) as HF by (unfold nanos, F; cbn; lia).
  assert (tv_sec F <> 0 /\ 0 <= tv_nsec F < 1000000000) as [HF0 HF1]
    by (destruct Hs; unfold F; cbn; lia).
  clearbody F. destruct clock as [|e1 [|e2 [|e3 [|e4 clock]]]]; cbn [length] in Hlen; try lia.
  cbn [prompt_wait unanswered_wait] in *. destruct Hp as [[C1 [L1 U1]] Hp].
  rewrite (quiet_round retrans 1) in * by (done || lia). cbn [mbind outcome_bind finaldeadline curr_to] in *.
  rewrite (proj2 (Z.leb_le _ _)) in * by lia. destruct Hp as [[C2 [L2 U2]] Hp].
  rewrite (quiet_round retrans 2) in * by (done || lia). cbn [mbind outcome_bind finaldeadline curr_to] in *.
  unfold to_min in *. destruct (nanos e2 + 2 * 1000000000 <=? nanos F) eqn:E2.
  - destruct Hp as [[C3 [L3 U3]] Hp].
    rewrite (quiet_round retrans 4) in * by (done || lia). cbn [mbind outcome_bind finaldeadline curr_to] in *.
    rewrite (proj2 (Z.leb_gt _ _)) in * by lia. destruct Hp as [[C4 [L4 U4]] _].
    exists e4, clock. split; [reflexivity|]. split; [exact C4|]. lia.
  - destruct Hp as [[C3 [L3 U3]] _]. exists e3, (e4 :: clock). split; [reflexivity|]. split; [exact C3|]. lia.
Qed.

Lemma bind_unanswered_fails n late t clock :
  prompt_call late t 3000 clock -> 3 * late < 1000000000 -> (5 <= length clock)%nat ->
  exists c t1 rest, bind_unanswered 3000 clock (rpcc_new true n 0)
      = Ret (c, rpc_const.timeout_failure, t1 :: rest)
    /\ clock_time t1 /\ nanos t1 <= t + 3000000000 + 3 * late.
Proof.
  intros Hp Hlate Hlen. destruct clock as [|start clock]; cbn [length] in Hlen; [lia|].
  destruct Hp as [[Cs [Ls Us]] Hp].
  destruct (wait_start start 3000) as [w|] eqn:Ew;
    [|unfold wait_start in Ew; change 3000 with (1000 * 3) in Ew; rewrite add_seconds in Ew by (done || lia); done].
  destruct (unanswered_wait_ends late true start w clock) as (t1 & rest & E & C1 & U1);
    [done|done|done|by apply Hp|lia|].
  unfold bind_unanswered, call_unanswered, call1_begin. cbn -[pack_req_header put_int wait_start unanswered_wait].
  rewrite Ew. cbn -[pack_req_header put_int unanswered_wait]. rewrite E.
  unfold call1_end. cbn -[pack_req_header put_int]. do 3 eexists. split; [reflexivity|]. split; [exact C1|]. lia.
Qed.

(** In whole seconds. *)
Lemma four_seconds t0 t1 :
  clock_time t0 -> clock_time t1 -> nanos t1 < nanos t0 + 4000000000 -> tv_sec t1 - tv_sec t0 <= 4.
Proof. unfold clock_time, nanos. lia. Qed.

Lemma bind_step {A B} (o : outcome A) a (f : A -> outcome B) r :
  o = Ret a -> f a = r -> (x ← o; f x) = r.
Proof. by intros -> <-. Qed.
Lemma verify_step {B} b (o r : outcome B) : b = true -> o = r -> (_ ← verify b; o) = r.
Proof. by intros -> <-. Qed.

Lemma simple_tests_ok k n1 late t0 clock l :
  good (k + 5) l -> 1 <= k -> clock_time t0 -> prompt_call late (nanos t0) 3000 clock ->
  3 * late < 1000000000 -> (5 <= length clock)%nat ->
  exists l', simple_tests n1 (t0 :: clock) l = Ret l' /\ good k l'.
Proof.
  intros Hg Hk Ht0 Hclock Hlate Hlen. unfold simple_tests.
  set (big1 := repeat _ (Z.to_nat 1000)). set (big2 := repeat _ (Z.to_nat 1000000)).
  assert (Z.of_nat (length big1) = 1000) as L1 by (apply x_length; lia).
  assert (Z.of_nat (length big2) = 1000000) as L2 by (apply x_length; lia).
  clearbody big1 big2.
  assert (Z.of_nat (length (cs "x")) = 1 /\ Z.of_nat (length (cs "z")) = 1) as [Lx Lz] by done.
  assert (str_eqb (cs "hello" ++ cs " goodbye") (cs "hello goodbye") = true) as Hhello by reflexivity.
  destruct (call_22_ok (k + 4) (cs "hello") (cs " goodbye") [] l) as (l1 & E1 & Hg1);
    [eapply good_less; [|exact Hg]; lia|lia|by vm_compute|].
  destruct (call_25_ok (k + 3) 70000 (cs "hello" ++ cs " goodbye") l1) as (l2 & E2 & Hg2);
    [eapply good_less; [|exact Hg1]; lia|lia|lia|].
  pose proof (x_length 70000 ltac:(lia)) as L3.
  revert E2 L3. generalize (repeat (char_of_Z 120) (Z.to_nat 70000)). intros big3 E2 L3.
  destruct (call_int_ok (k + 2) 23 1 77 0 l2) as (l3 & E3 & Hg3);
    [eapply good_less; [|exact Hg2]; lia|lia|lia|by left|].
  destruct (call_22_ok (k + 1) big1 (cs "x") [] l3) as (l4 & E4 & Hg4);
    [eapply good_less; [|exact Hg3]; lia|lia|lia|].
  destruct (call_22_ok k big2 (cs "z") big3 l4) as (l5 & E5 & Hg5);
    [eapply good_less; [|exact Hg4]; lia|lia|lia|].
  destruct (bind_unanswered_fails n1 late (nanos t0) clock) as (c & t1 & rest & Eb & Ht1 & Hend); [done..|].
  pose proof (four_seconds t0 t1 Ht0 Ht1 ltac:(lia)) as H4. exists l5. split; [|exact Hg5].
  eapply bind_step; [exact E1|]. apply verify_step; [reflexivity|]. apply verify_step; [exact Hhello|].
  eapply bind_step; [exact E2|]. apply verify_step; [reflexivity|]. apply verify_step; [apply Z.eqb_eq; exact L3|].
  eapply bind_step; [exact E3|]. apply verify_step; [reflexivity|].
  eapply bind_step; [exact E4|]. apply verify_step; [apply Z.eqb_eq; rewrite length_app; lia|].
  eapply bind_step; [exact E5|]. apply verify_step; [apply Z.eqb_eq; rewrite length_app; lia|].
  eapply bind_step; [reflexivity|]. eapply bind_step; [exact Eb|]. eapply bind_step; [reflexivity|].
  apply verify_step; [by apply Z.leb_le|]. reflexivity.
Qed.
End client.

(** A new server, and a client that binds to it. *)
Lemma bind_new_ok N nonce sv conn :
  is_u32 N -> N <> 0 -> startserver nonce = Ret sv ->
  exists l, remote_bind (fresh_link N sv tt conn) = Ret (l, 0) /\ good (u32 nonce) (2 ^ 30) l.
Proof.
  intros HN HN0 Es. rewrite startserver_ok in Es. injection Es as <-.
  destruct (remote_bind_ready N (Rpcs (u32 nonce) ∅ ∅ 0 0 ∅ true (table (u32 nonce))) tt conn)
    as (l & E & Hr & _ & Hp & Hx & Hs); [done|done|cbn [nonce_]; width_lia|reflexivity|reflexivity|].
  exists l. split; [exact E|]. exists N, (u32 nonce). rewrite Hp, Hx, Hs.
  split; [exact Hr|]. split; [reflexivity|]. split; [lia|reflexivity].
Qed.

(** A client whose server was replaced is told so, and the new server stays as it was. *)
Lemma old_client_told Sn k a b rep (l : conn_t) server conn :
  good Sn (k + 1) l -> 1 <= k -> Sn <> 0 -> Sn <> nonce_ server ->
  Z.of_nat (length a) + Z.of_nat (length b) < 2 ^ 30 ->
  exists l', call_22 a b rep (Link (lk_clt l) server tt conn)
    = Ret (l', rpc_const.oldsrv_failure, rep) /\ lk_srv l' = server.
Proof.
  intros (N & nonce & (Hl & HN & HN0 & HS & Hbd) & Hp & Hx & Hsn) Hk HS0 HSn Hlen.
  set (l2 := Link (lk_clt l) (lk_srv l) tt conn).
  assert (linked N l2) as Hl2 by (destruct Hl; by split).
  assert (xid_ (lk_clt l2) < 2 ^ 31 - 1) as Hx2 by (cbn [l2 lk_clt]; lia).
  rewrite call_22_rcall. unfold rcall.
  destruct (remote_call_old N l2 (conj HN HN0) HS Hl2 Hx2 22 (put marshall_new (a, b)) server tt)
    as (c' & u & E & _).
  - by_computing.
  - exact Hbd.
  - apply put_new.
  - rewrite message_size. cbn [enc marshal_pair fst snd]. rewrite length_app, !enc_string_length.
    unfold RPC_HEADER_SZ. lia.
  - by rewrite <- Hsn in HS0.
  - by rewrite <- Hsn in HSn.
  - exists (Link c' server tt conn). split; [|reflexivity]. eapply bind_step; [exact E|reflexivity].
Qed.

(** A client that is bound does not bind again. *)
Lemma rebind_refused Sn k l : good Sn k l -> remote_bind l = Ret (l, rpc_const.bind_failure).
Proof.
  intros (N & nonce & (_ & _ & _ & _ & Hb) & _). unfold remote_bind, rcall, remote_call, call1_begin.
  rewrite Hb. cbn. by destruct l.
Qed.

Lemma failure_test_begin_ok Sn nonce n1 n2 late t clock conn l :
  good Sn 2 l -> Sn <> 0 -> Sn <> u32 nonce -> is_u32 n2 -> n2 <> 0 ->
  prompt_call late t 3000 clock -> 3 * late < 1000000000 -> (5 <= length clock)%nat ->
  exists l', failure_test_begin nonce n1 n2 clock conn l = Ret l' /\ good (u32 nonce) (2 ^ 30 - 1) l'.
Proof.
  intros Hg HS0 HSn Hn2 Hn20 Hclock Hlate Hlen. unfold failure_test_begin.
  destruct (bind_unanswered_fails n1 late t clock) as (c & t1 & rest & Eb & _); [done..|].
  pose proof (startserver_ok nonce) as Es. set (sv := Rpcs _ _ _ _ _ _ _ _) in Es.
  destruct (old_client_told Sn 1 (cs "hello") (cs " goodbye") [] l sv conn) as (l1 & E1 & Hs1);
    [exact Hg|lia|exact HS0|exact HSn|by vm_compute|].
  destruct (bind_new_ok n2 nonce sv conn Hn2 Hn20 Es) as (l2 & E2 & Hg2).
  pose proof (rebind_refused _ _ _ Hg2) as E3.
  destruct (call_22_ok (u32 nonce) (2 ^ 30 - 1) (cs "hello") (cs " goodbye") [] l2) as (l4 & E4 & Hg4);
    [exact Hg2|lia|by vm_compute|].
  exists l4. split; [|exact Hg4].
  eapply bind_step; [exact Eb|]. apply verify_step; [reflexivity|].
  eapply bind_step; [exact Es|]. eapply bind_step; [exact E1|]. apply verify_step; [reflexivity|].
  eapply bind_step; [rewrite Hs1; exact E2|]. apply verify_step; [reflexivity|].
  eapply bind_step; [exact E3|]. apply verify_step; [reflexivity|].
  eapply bind_step; [exact E4|]. apply verify_step; [reflexivity|]. apply verify_step; [reflexivity|].
  reflexivity.
Qed.
Lemma failure_test_replace_ok nonce n3 conn :
  is_u32 n3 -> n3 <> 0 ->
  exists l, failure_test_replace nonce n3 conn = Ret l /\ good (u32 nonce) (2 ^ 30) l.
Proof.
  intros Hn Hn0. unfold failure_test_replace.
  pose proof (startserver_ok nonce) as Es. set (sv := Rpcs _ _ _ _ _ _ _ _) in Es.
  destruct (bind_new_ok n3 nonce sv conn Hn Hn0 Es) as (l & E & Hg).
  exists l. split; [|exact Hg]. eapply bind_step; [exact Es|]. eapply bind_step; [exact E|].
  apply verify_step; reflexivity.
Qed.

Lemma client1_ok Sn k rs rs2 l :
  good Sn (k + 200) l -> 1 <= k -> length rs = 100%nat -> length rs2 = 100%nat ->
  random_numbers rs -> Forall timed rs2 ->
  exists l', client1 rs rs2 l = Ret l' /\ good Sn k l'.
Proof.
  intros Hg Hk L1 L2 H1 H2.
  destruct (client1_big_ok Sn (k + 100) rs l) as (l1 & E1 & Hg1);
    [eapply good_less; [|exact Hg]; lia|lia|exact H1|].
  destruct (client1_order_ok Sn k rs2 l1) as (l2 & E2 & Hg2);
    [eapply good_less; [|exact Hg1]; lia|lia|exact H2|].
  exists l2. split; [|exact Hg2]. eapply bind_step; [exact E1|exact E2].
Qed.

(** C33 (the serial RPC tests pass): the test of marshalling passes.  On a server of the test program
    and a client that binds to it over a connection that delivers, for all nonces that are not zero
    and differ between the two servers, and provided the machine keeps up with its clock (each reading at most a third of a second after the thread could make it), all assertions
    of [simple_tests] hold: calls small and big return what the methods return, and a bind nobody
    answers fails within four seconds.  Then, with the server gone, all assertions of [failure_test]
    up to its threads hold: a bind fails, the old client is told that its server was replaced, a new
    one binds once and its calls work; and the new client and server between its threads are bound. *)
Theorem serial_tests_pass (nonce n n1 nonce' n1' n2 nonce'' n3 late t' : Z) (t0 : timespec)
    (clock clock' : list timespec) (conn conn' : connection) :
  Forall (fun n => is_u32 n /\ n <> 0) [n; n2; n3; u32 nonce] -> u32 nonce <> u32 nonce' ->
  clock_time t0 -> prompt_call late (nanos t0) 3000 clock -> prompt_call late t' 3000 clock' ->
  3 * late < 1000000000 -> (5 <= length clock)%nat -> (5 <= length clock')%nat ->
  testmarshall = Ret tt /\
  exists server l0 l1 l2 l3,
    startserver nonce = Ret server /\ remote_bind (fresh_link n server tt conn) = Ret (l0, 0)
    /\ simple_tests n1 (t0 :: clock) l0 = Ret l1
    /\ failure_test_begin nonce' n1' n2 clock' conn' l1 = Ret l2
    /\ failure_test_replace nonce'' n3 conn' = Ret l3.
Proof.
  intros Hn Hne Ht0 Hc Hc' Hlate Hlen Hlen'. split; [exact testmarshall_ok|].
  apply Forall_cons in Hn as [[Hn1 Hn10] Hn]. apply Forall_cons in Hn as [[Hn2 Hn20] Hn].
  apply Forall_cons in Hn as [[Hn3 Hn30] Hn]. apply Forall_cons in Hn as [[_ Hs0] _].
  pose proof (startserver_ok nonce) as Es. set (sv := Rpcs _ _ _ _ _ _ _ _) in Es.
  destruct (bind_new_ok n nonce sv conn Hn1 Hn10 Es) as (l0 & E0 & Hg0).
  destruct (simple_tests_ok (u32 nonce) 2 n1 late t0 clock l0) as (l1 & E1 & Hg1);
    [eapply good_less; [|exact Hg0]; lia|lia|done..|].
  destruct (failure_test_begin_ok (u32 nonce) nonce' n1' n2 late t' clock' conn' l1) as (l2 & E2 & _); [done..|].
  destruct (failure_test_replace_ok nonce'' n3 conn' Hn3 Hn30) as (l3 & E3 & _).
  exists sv, l0, l1, l2, l3. exact (conj Es (conj E0 (conj E1 (conj E2 E3)))).
Qed.
End test.

Module rpctest_example.
#[local] Instance zeroed : Memory := char_of_Z 0.

(** A clock whose readings are ten milliseconds late. *)
Definition clock0 : list timespec :=
  [Timespec 1300000000 10000000; Timespec 1300000000 20000000; Timespec 1300000001 30000000;
   Timespec 1300000003 20000000; Timespec 1300000003 30000000].
Lemma clock0_prompt : prompt_call 10000000 1300000000000000000 3000 clock0.
Proof.
  split; [unfold prompt, clock_time, nanos; cbn; lia|]. intros retrans w E. injection E as <-.
  cbn -[prompt call1_round]. unfold prompt, clock_time, nanos. vm_compute.
  repeat first [split | discriminate | lia].
Qed.

Lemma serial_tests_pass_witness :
  prompt_call 10000000 1300000000000000000 3000 clock0 /\
  exists server l0 l1 l2 l3,
    startserver 11 = Ret server /\ remote_bind (fresh_link 21 server tt (Connection 5 0 0)) = Ret (l0, 0)
    /\ simple_tests 31 (Timespec 1300000000 0 :: clock0) l0 = Ret l1
    /\ failure_test_begin 12 32 22 clock0 (Connection 6 0 0) l1 = Ret l2
    /\ failure_test_replace 13 23 (Connection 6 0 0) = Ret l3.
Proof.
  split; [exact clock0_prompt|].
  refine (proj2 (serial_tests_pass 11 21 31 12 32 22 13 23 10000000 1300000000000000000
    (Timespec 1300000000 0) clock0 clock0 (Connection 5 0 0) (Connection 6 0 0) _ _ _ _ _ _ _ _)).
  - repeat (constructor; [split; [by_computing|by_computing]|]). constructor.
  - by_computing.
  - unfold clock_time. cbn. lia.
  - exact clock0_prompt.
  - exact clock0_prompt.
  - lia.
  - cbn. lia.
  - cbn. lia.
Defined.

(** The assertion on the time is about the machine too: a wait that ends two seconds late fails it. *)
Example late_bind_fails :
  ('(_, ret, clock) ← bind_unanswered 3000
     [Timespec 1300000000 0; Timespec 1300000000 0; Timespec 1300000003 0; Timespec 1300000005 0]
     (rpcc_new true 31 0);
   '(t1, clock) ← time clock;
   verify ((ret <? 0) && (t1 - 1300000000 <=? 4))) = Fault AssertFail.
Proof. vm_compute. reflexivity. Qed.
End rpctest_example.
