(* ===== verification/LockTester.v ===== *)
(** The test program of the lock service: lock_tester.cc.

    Its threads acquire and release locks and count, for each lock, the threads that believe they
    hold it.  The program runs against any [LockService]; if the service keeps at most one thread
    at a lock, no thread ever reports an error, whatever the interleaving.  The caching lock
    service of [Lock] is such a service; the unwritten client of lock_client_cache_rsm.cc, which
    the program is linked with, is not, and the program finds it out. *)
From Stdlib Require Import ZArith Lia Ascii String.
From stdpp Require Import base gmap list strings relations.
From S2P Require Import Prelude Protocols Lock Handover LockRsm.
Local Open Scope Z_scope.

(** * The lock service, as a thread sees it *)

(** [acquire_call t i lid] is the call of [acquire] on client [i] by thread [t]; [holding] tells
    that it has returned and the thread has not called [release] since; [internal] is what goes on
    in the meantime. *)
Class LockService (L : Type) := {
  acquire_call : nat -> nat -> Z -> L -> option L;
  holding_lock : nat -> Z -> L -> bool;
  release_call : nat -> nat -> Z -> L -> option L;
  internal : L -> L -> Prop }.

(** What it promises. *)
Class LockServiceLaws (L : Type) `{LockService L} := {
  service_ok : L -> Prop;
  acquire_ok : forall t i lid l l', service_ok l -> acquire_call t i lid l = Some l' ->
    service_ok l' /\ forall t' lid', holding_lock t' lid' l = true -> holding_lock t' lid' l' = true;
  release_ok : forall t i lid l l', service_ok l -> release_call t i lid l = Some l' ->
    service_ok l' /\ forall t' lid', (t', lid') <> (t, lid) -> holding_lock t' lid' l = true ->
      holding_lock t' lid' l' = true;
  internal_ok : forall l l', service_ok l -> internal l l' ->
    service_ok l' /\ forall t lid, holding_lock t lid l = true -> holding_lock t lid l' = true;
  exclusive : forall t t' lid l, service_ok l -> holding_lock t lid l = true ->
    holding_lock t' lid l = true -> t = t' }.

(** * The checks *)

(** [ct], an array of 256 counters. *)
Abbreviation counts := (gmap Z Z).
Definition ct_at (ct : counts) (x : Z) : Z := default 0 (ct !! x).

(** [None]: the program prints an error and exits. *)
Definition check_grant (ct : counts) (lid : Z) : option counts :=
  let x := Z.land lid 0xff in
  if negb (ct_at ct x =? 0) then None else Some (<[x := ct_at ct x + 1]> ct).
Definition check_release (ct : counts) (lid : Z) : option counts :=
  let x := Z.land lid 0xff in
  if negb (ct_at ct x =? 1) then None else Some (<[x := ct_at ct x - 1]> ct).

(** * The threads *)

(** What a thread does, a call or a check at a time; [OAwait] is an [acquire] that has been called
    and has not returned. *)
Inductive op :=
| OAcquire (i : nat) (lid : Z)
| OAwait (lid : Z)
| ORelease (i : nat) (lid : Z)
| OGrant (lid : Z)
| OCheck (lid : Z).

Definition a : Z := 1.
Definition b : Z := 2.

Definition test1 : list op :=
  [OAcquire 0 a; OGrant a; ORelease 0 a; OCheck a;
   OAcquire 0 a; OGrant a; ORelease 0 a; OCheck a;
   OAcquire 0 a; OGrant a; OAcquire 0 b; OGrant b;
   ORelease 0 b; OCheck b; ORelease 0 a; OCheck a].
Definition test2 (i : nat) : list op := [OAcquire i a; OGrant a; OCheck a; ORelease i a].
(** The loop of the other tests, on client [i]. *)
Fixpoint rounds (j : nat) (i : nat) : list op :=
  match j with
  | O => []
  | S j => [OAcquire i a; OGrant a; OCheck a; ORelease i a] ++ rounds j i
  end.
Definition test3 (i : nat) : list op := rounds 10 i.
Definition test4 (i : nat) : list op := rounds 10 0.
Definition test5 (i : nat) : list op := rounds 10 (if (i <? 5)%nat then 0 else 1).

(** The tests [main] runs for its argument [test], one after the other: the threads of each. *)
Definition main (nt : nat) (test : Z) : list (list (list op)) :=
  (if (test =? 0) || (test =? 1) then [[test1]] else []) ++
  (if (test =? 0) || (test =? 2) then [test2 <$> seq 0 nt] else []) ++
  (if (test =? 0) || (test =? 3) then [test3 <$> seq 0 nt] else []) ++
  (if (test =? 0) || (test =? 4) then [test4 <$> seq 0 2] else []) ++
  (if (test =? 0) || (test =? 5) then [test5 <$> seq 0 nt] else []).

(** The threads are numbered as they are created. *)
Fixpoint number (t : nat) (phases : list (list (list op))) : list (list (nat * list op)) :=
  match phases with
  | [] => []
  | ph :: phases => zip (seq t (length ph)) ph :: number (t + length ph) phases
  end.

Section tester.
  Context {L : Type} `{LockService L}.

(** The service, the counters, what is left to do for the threads of the test that runs, and the
    tests after it. *)
Record tester := Tester {
  t_locks : L; t_ct : counts; t_running : list (nat * list op);
  t_later : list (list (nat * list op)) }.

(** Thread [t] does [o], if it can: what is left of [o] comes first. *)
Definition exec (t : nat) (o : op) (l : L) (ct : counts) : option (L * counts * list op) :=
  match o with
  | OAcquire i lid => l' ← acquire_call t i lid l; Some (l', ct, [OAwait lid])
  | OAwait lid => if holding_lock t lid l then Some (l, ct, []) else None
  | ORelease i lid => l' ← release_call t i lid l; Some (l', ct, [])
  | OGrant lid => ct' ← check_grant ct lid; Some (l, ct', [])
  | OCheck lid => ct' ← check_release ct lid; Some (l, ct', [])
  end.

Inductive tstep : tester -> tester -> Prop :=
| step_internal l l' ct run later :
    internal l l' -> tstep (Tester l ct run later) (Tester l' ct run later)
| step_thread l ct run later k t o os l' ct' rest :
    run !! k = Some (t, o :: os) -> exec t o l ct = Some (l', ct', rest) ->
    tstep (Tester l ct run later) (Tester l' ct' (<[k := (t, rest ++ os)]> run) later)
| step_join l ct run ph later :
    Forall (fun th => th.2 = []) run ->
    tstep (Tester l ct run (ph :: later)) (Tester l ct ph later).

(** A thread is about to print that a lock was granted twice, or released by nobody. *)
Definition reports (s : tester) : Prop :=
  exists k t lid os, (t_running s !! k = Some (t, OGrant lid :: os) /\ check_grant (t_ct s) lid = None)
    \/ (t_running s !! k = Some (t, OCheck lid :: os) /\ check_release (t_ct s) lid = None).

(** The program, before its first test; all counters are zero. *)
Definition start (l : L) (phases : list (list (list op))) : tester :=
  Tester l ∅ [] (number 0 phases).
End tester.
Arguments tester : clear implicits.

(** * Threads that use the checks properly *)

Definition on (o : op) : Z :=
  match o with OAcquire _ x | OAwait x | ORelease _ x | OGrant x | OCheck x => x end.

(** Read off what a thread has left to do: it has the lock; it is counted in [ct]. *)
Fixpoint held (p : list op) (lid : Z) : bool :=
  match p with
  | [] => false
  | (OAcquire _ x | OAwait x) :: p => if x =? lid then false else held p lid
  | ORelease _ x :: p => if x =? lid then true else held p lid
  | _ :: p => held p lid
  end.
Fixpoint granted (p : list op) (lid : Z) : bool :=
  match p with
  | [] => false
  | OGrant x :: p => if x =? lid then false else granted p lid
  | OCheck x :: p => if x =? lid then true else granted p lid
  | _ :: p => granted p lid
  end.

(** Calls and checks alternate, locks have names below 256, and, unless the thread runs alone, it
    has the lock while it is counted. *)
Fixpoint proper (solo : bool) (p : list op) : bool :=
  match p with
  | [] => true
  | o :: q =>
      proper solo q
      && match o with
         | OAcquire _ x | OAwait x => held q x
         | ORelease _ x => negb (held q x)
         | OGrant x => granted q x && held q x
         | OCheck x => negb (granted q x)
         end
      && ((0 <=? on o) && (on o <? 256))
      && (solo || forallb (fun x => implb (granted p x) (held p x)) (on <$> p))
  end.

Lemma granted_on p x : granted p x = true -> x ∈ on <$> p.
Proof.
  induction p as [|o p IH]; [done|]. rewrite fmap_cons, elem_of_cons.
  destruct o as [j y|y|j y|y|y]; simpl; try (intros H; right; by apply IH);
    destruct (Z.eqb_spec y x) as [->|?]; try done; [intros H; right; by apply IH|by left|intros H; right; by apply IH].
Qed.
Lemma proper_held p x : proper false p = true -> granted p x = true -> held p x = true.
Proof.
  destruct p as [|o q]; [done|]. intros Hp Hg. cbn [proper orb] in Hp.
  apply andb_true_iff in Hp as [_ Hp]. rewrite forallb_forall in Hp.
  specialize (Hp x). rewrite Hg in Hp. apply Hp, list_elem_of_In, granted_on, Hg.
Qed.
Lemma proper_solo p : proper false p = true -> proper true p = true.
Proof.
  induction p as [|o p IH]; [done|]. cbn [proper orb]. intros H.
  repeat match goal with H : (_ && _)%bool = true |- _ => apply andb_true_iff in H as [? ?] end.
  rewrite IH by done. by repeat (apply andb_true_iff; split).
Qed.

Lemma cnt_none {A} (f : A -> bool) l : (forall i x, l !! i = Some x -> f x = false) -> cnt f l = 0%nat.
Proof.
  induction l as [|y l IH]; intros Hf; [done|]. simpl. rewrite (Hf 0%nat y), IH; [done| |done].
  intros i x. apply (Hf (S i)).
Qed.
Lemma cnt_unique {A} (f : A -> bool) l i x :
  l !! i = Some x -> f x = true -> (forall j y, l !! j = Some y -> f y = true -> i = j) -> cnt f l = 1%nat.
Proof.
  revert i. induction l as [|z l IH]; intros i Hi Hx Hu; [done|]. destruct i as [|i]; simplify_eq/=.
  - rewrite Hx, (cnt_none f l); [done|]. intros j y Hj. destruct (f y) eqn:E; [|done].
    by specialize (Hu (S j) y Hj E).
  - assert (f z = false) as ->. { destruct (f z) eqn:E; [|done]. by specialize (Hu 0%nat z eq_refl E). }
    rewrite (IH i Hi Hx); [done|]. intros j y Hj Hy. specialize (Hu (S j) y Hj Hy). lia.
Qed.

Lemma land_byte x : 0 <= x < 256 -> Z.land x 0xff = x.
Proof. intros. change 0xff with (Z.ones 8). rewrite Z.land_ones by lia. apply Z.mod_small. lia. Qed.
Lemma ct_at_insert ct x v y : ct_at (<[x := v]> ct) y = if x =? y then v else ct_at ct y.
Proof.
  unfold ct_at. destruct (Z.eqb_spec x y) as [->|]; [by rewrite lookup_insert_eq|by rewrite lookup_insert_ne].
Qed.

(** * The invariant *)

Section invariant.
  Context {L : Type} `{LockServiceLaws L}.

Definition alone {A} (l : list A) : bool := (length l =? 1)%nat.
Definition phase_ok (ph : list (nat * list op)) : Prop :=
  NoDup ph.*1 /\ Forall (fun th => proper (alone ph) th.2 = true /\
    forall lid, held th.2 lid = false /\ granted th.2 lid = false) ph.

(** A counter is the number of threads that are counted, and those that believe they have a lock
    have it. *)
Record tinv (s : tester L) : Prop := {
  ti_ok : service_ok (t_locks s);
  ti_nodup : NoDup (t_running s).*1;
  ti_proper : Forall (fun th => proper (alone (t_running s)) th.2 = true) (t_running s);
  ti_held : forall k t p lid, t_running s !! k = Some (t, p) -> held p lid = true ->
    holding_lock t lid (t_locks s) = true;
  ti_ct : forall lid, 0 <= lid < 256 ->
    ct_at (t_ct s) lid = Z.of_nat (cnt (fun th => granted th.2 lid) (t_running s));
  ti_later : Forall phase_ok (t_later s) }.

(** A thread that is counted, or has the lock, is the only one that is counted. *)
Lemma counted_unique s k t p k' t' p' lid :
  tinv s -> t_running s !! k = Some (t, p) -> t_running s !! k' = Some (t', p') ->
  held p lid = true \/ granted p lid = true -> granted p' lid = true -> k = k'.
Proof.
  intros I Hk Hk' Hp Hp'. pose proof (ti_proper _ I) as Hpr. destruct (alone (t_running s)) eqn:E.
  - apply Nat.eqb_eq in E. apply lookup_lt_Some in Hk, Hk'. lia.
  - pose proof (Forall_lookup_1 _ _ _ _ Hpr Hk) as P. pose proof (Forall_lookup_1 _ _ _ _ Hpr Hk') as P'.
    assert (held p lid = true) as Hh by (destruct Hp; [done|by apply proper_held]).
    apply (proper_held _ _ P') in Hp'.
    pose proof (exclusive _ _ _ _ (ti_ok _ I) (ti_held _ I _ _ _ _ Hk Hh) (ti_held _ I _ _ _ _ Hk' Hp')) as ->.
    eapply NoDup_lookup; [apply (ti_nodup _ I)|..]; by rewrite list_lookup_fmap, ?Hk, ?Hk'.
Qed.

Lemma proper_cons solo o q : proper solo (o :: q) = true ->
  proper solo q = true /\ 0 <= on o < 256 /\
  match o with
  | OAcquire _ x | OAwait x => held q x = true
  | ORelease _ x => held q x = false
  | OGrant x => granted q x = true /\ held q x = true
  | OCheck x => granted q x = false
  end.
Proof.
  cbn [proper]. intros Hp.
  repeat match goal with H : (_ && _)%bool = true |- _ => apply andb_true_iff in H as [? ?] end.
  split; [done|]. split; [lia|]. destruct o; try done; by (apply andb_true_iff || apply negb_true_iff).
Qed.

(** The counters that the next checks of a thread find. *)
Lemma grant_count s k t lid q :
  tinv s -> t_running s !! k = Some (t, OGrant lid :: q) -> ct_at (t_ct s) lid = 0 /\ 0 <= lid < 256.
Proof.
  intros I Hk. pose proof (Forall_lookup_1 _ _ _ _ (ti_proper _ I) Hk) as (Hq & Hr & Hg & Hh)%proper_cons.
  simpl in Hr. split; [|done]. rewrite (ti_ct _ I) by done. rewrite cnt_none; [done|].
  intros k' [t' p'] Hk'. destruct (granted p' lid) eqn:E; [|done].
  pose proof (counted_unique s k t _ k' t' p' lid I Hk Hk' (or_introl Hh) E) as ->.
  simplify_eq. simpl in E. by rewrite Z.eqb_refl in E.
Qed.
Lemma check_count s k t lid q :
  tinv s -> t_running s !! k = Some (t, OCheck lid :: q) -> ct_at (t_ct s) lid = 1 /\ 0 <= lid < 256.
Proof.
  intros I Hk. pose proof (Forall_lookup_1 _ _ _ _ (ti_proper _ I) Hk) as (Hq & Hr & Hg)%proper_cons.
  simpl in Hr. split; [|done]. rewrite (ti_ct _ I) by done.
  assert (granted (OCheck lid :: q) lid = true) as G by (simpl; by rewrite Z.eqb_refl).
  rewrite (cnt_unique _ _ k (t, OCheck lid :: q)); [done|done|exact G|].
  intros k' [t' p'] Hk' Hp'. eapply counted_unique; [done|exact Hk|exact Hk'|right; exact G|exact Hp'].
Qed.

Lemma tinv_silent s : tinv s -> ~ reports s.
Proof.
  intros I (k & t & lid & os & [[Hk Hc]|[Hk Hc]]).
  - destruct (grant_count _ _ _ _ _ I Hk) as [E Hr]. unfold check_grant in Hc.
    by rewrite (land_byte lid Hr), E in Hc.
  - destruct (check_count _ _ _ _ _ I Hk) as [E Hr]. unfold check_release in Hc.
    by rewrite (land_byte lid Hr), E in Hc.
Qed.

(** A thread moves on from [p] to [p']. *)
Lemma tinv_thread l ct run later k t p p' l' ct' :
  tinv (Tester l ct run later) -> run !! k = Some (t, p) -> service_ok l' ->
  (forall t' lid, t' <> t -> holding_lock t' lid l = true -> holding_lock t' lid l' = true) ->
  (forall lid, held p' lid = true -> holding_lock t lid l' = true) ->
  proper (alone run) p' = true ->
  (forall lid, 0 <= lid < 256 ->
     ct_at ct' lid + Z.b2z (granted p lid) = ct_at ct lid + Z.b2z (granted p' lid)) ->
  tinv (Tester l' ct' (<[k := (t, p')]> run) later).
Proof.
  intros [H1 H2 H3 H4 H5 H6] Hk Hok Hoth Hself Hp Hct. simpl in *.
  assert ((<[k := (t, p')]> run).*1 = run.*1) as Hfst.
  { rewrite list_fmap_insert. apply list_insert_id. by rewrite list_lookup_fmap, Hk. }
  assert (alone (<[k := (t, p')]> run) = alone run) as Hal by (unfold alone; by rewrite length_insert).
  split; simpl; [done|by rewrite Hfst|..].
  - rewrite Hal. by apply Forall_insert.
  - intros k0 t0 p0 lid Hk0 Hh. destruct (decide (k0 = k)) as [->|Hne].
    + rewrite list_lookup_insert_eq in Hk0 by (by eapply lookup_lt_Some). simplify_eq. by apply Hself.
    + rewrite list_lookup_insert_ne in Hk0 by done. apply Hoth; [|by eapply H4].
      intros ->. apply Hne. eapply NoDup_lookup; [exact H2|..]; by rewrite list_lookup_fmap, ?Hk, ?Hk0.
  - intros lid Hr. pose proof (cnt_insert (fun th : nat * list op => granted th.2 lid) run k (t, p) (t, p') Hk) as E.
    specialize (Hct lid Hr). rewrite H5 in Hct by done. simpl in E.
    destruct (granted p lid), (granted p' lid); simpl in *; lia.
  - done.
Qed.

Lemma tinv_exec l ct run later k t o os l' ct' rest :
  tinv (Tester l ct run later) -> run !! k = Some (t, o :: os) ->
  exec t o l ct = Some (l', ct', rest) -> tinv (Tester l' ct' (<[k := (t, rest ++ os)]> run) later).
Proof.
  intros I Hk E. pose proof I as [H1 _ H3 H4 _ _]. simpl in *.
  pose proof (Forall_lookup_1 _ _ _ _ H3 Hk) as Hp. simpl in Hp. pose proof Hp as (Hq & Hr & Ho)%proper_cons.
  assert (forall lid, held (o :: os) lid = true -> holding_lock t lid l = true) as Hh by (intros; by eapply H4).
  destruct o as [i x|x|i x|x|x]; simpl in E, Hr, Ho.
  - apply bind_Some in E as (z & Ez & [= -> -> <-]).
    destruct (acquire_ok _ _ _ _ _ H1 Ez) as [Hok Hfr].
    eapply tinv_thread; [exact I|exact Hk|done|by intros; apply Hfr|by intros lid ?; apply Hfr, Hh|by destruct (alone run)|].
    by intros lid _.
  - destruct (holding_lock t x l) eqn:Ex; [|done]. injection E as -> -> <-.
    eapply tinv_thread; [exact I|exact Hk|done|done| |done|by intros lid _].
    intros lid Hlid. simpl in Hlid. destruct (Z.eqb_spec x lid) as [<-|Hne]; [done|].
    apply Hh. simpl. by rewrite (proj2 (Z.eqb_neq _ _) Hne).
  - apply bind_Some in E as (z & Ez & [= -> -> <-]).
    destruct (release_ok _ _ _ _ _ H1 Ez) as [Hok Hfr].
    eapply tinv_thread; [exact I|exact Hk|done| | |done|by intros lid _].
    + intros t' lid Hne. apply Hfr. congruence.
    + intros lid Hlid. simpl in Hlid. apply Hfr; [intros [=]; congruence|]. apply Hh. simpl. by destruct (x =? lid).
  - apply bind_Some in E as (z & Ez & [= -> -> <-]). destruct Ho as [Hg Hhe].
    unfold check_grant in Ez. rewrite land_byte in Ez by done. destruct (negb _); [done|]. injection Ez as <-.
    eapply tinv_thread; [exact I|exact Hk|done|done|exact Hh|done|].
    intros lid _. rewrite ct_at_insert. simpl. destruct (Z.eqb_spec x lid) as [<-|]; [rewrite Hg; simpl; lia|done].
  - apply bind_Some in E as (z & Ez & [= -> -> <-]).
    unfold check_release in Ez. rewrite land_byte in Ez by done. destruct (negb _); [done|]. injection Ez as <-.
    eapply tinv_thread; [exact I|exact Hk|done|done|exact Hh|done|].
    intros lid _. rewrite ct_at_insert. simpl. destruct (Z.eqb_spec x lid) as [<-|]; [rewrite Ho; simpl; lia|done].
Qed.

Lemma tinv_step s s' : tinv s -> tstep s s' -> tinv s'.
Proof.
  intros I Hs. destruct Hs as [l l' ct run later Hi|l ct run later k t o os l' ct' rest Hk E|l ct run ph later Hd].
  - destruct I as [H1 H2 H3 H4 H5 H6]. destruct (internal_ok _ _ H1 Hi) as [Hok Hfr].
    split; simpl in *; try done. intros k t p lid Hk Hp. apply Hfr. by eapply H4.
  - by eapply tinv_exec.
  - destruct I as [H1 H2 H3 H4 H5 H6]. simpl in *. apply Forall_cons in H6 as [[Hn Hp] H6].
    split; simpl; [done|done|by eapply Forall_impl; [exact Hp|]; intros ? [? ?]|..|done].
    + intros k t p lid Hk Hh. pose proof (Forall_lookup_1 _ _ _ _ Hp Hk) as [_ Hf].
      destruct (Hf lid) as [E _]. simpl in E. congruence.
    + intros lid Hr. rewrite H5 by done. rewrite !cnt_none; [done|..].
      * intros k th Hk. by apply (Forall_lookup_1 _ _ _ _ Hp Hk).
      * intros k th Hk. by rewrite (Forall_lookup_1 _ _ _ _ Hd Hk).
Qed.

Lemma tinv_start l phases : service_ok l -> Forall phase_ok (number 0 phases) -> tinv (start l phases).
Proof.
  intros Hl Hp. split; simpl; [done|apply NoDup_nil_2|done|by intros|by intros|done].
Qed.

Lemma tester_silent l phases s :
  service_ok l -> Forall phase_ok (number 0 phases) -> rtc tstep (start l phases) s -> ~ reports s.
Proof.
  intros Hl Hp Hr. apply tinv_silent. assert (tinv (start l phases)) as I by by apply tinv_start.
  induction Hr as [|s1 s2 s3 Hs _ IH]; [done|]. by apply IH, (tinv_step s1).
Qed.
End invariant.

(** * The tests of the program *)

Lemma number_ok phases : Forall (fun ph => Forall (fun p => proper (alone ph) p = true /\
    forall lid, held p lid = false /\ granted p lid = false) ph) phases ->
  forall t, Forall phase_ok (number t phases).
Proof.
  induction 1 as [|ph phases Hph _ IH]; intros t; simpl; constructor; [|by apply IH].
  assert (length (zip (seq t (length ph)) ph) = length ph) as El
    by (rewrite length_zip_with, length_seq; lia).
  split.
  - rewrite fst_zip by (rewrite length_seq; lia). apply NoDup_seq.
  - apply Forall_lookup_2. intros k [t' p] Hk. apply lookup_zip_with_Some in Hk as (x & y & [= -> ->] & _ & Hy).
    pose proof (Forall_lookup_1 _ _ _ _ Hph Hy) as Hy2. unfold alone in *. by rewrite El.
Qed.

(** A round leaves nothing behind. *)
Lemma rounds_ok j i : proper false (rounds j i) = true /\
  forall lid, held (rounds j i) lid = false /\ granted (rounds j i) lid = false.
Proof.
  induction j as [|j [IHp IHf]]; [done|]. split.
  - assert (forall p, (forall x, implb (granted p x) (held p x) = true) ->
      forallb (fun x => implb (granted p x) (held p x)) (on <$> p) = true) as Hall
      by (intros p Hp; apply forallb_forall; by intros).
    cbn [rounds app proper orb]. rewrite IHp, !Hall.
    all: try (intros x; destruct (IHf x) as [E1 E2]; cbn [held granted]; rewrite ?E1, ?E2;
      by destruct (a =? x)).
    destruct (IHf a) as [E1 E2]. cbn [held granted on]. by rewrite Z.eqb_refl, E1, E2.
  - intros lid. destruct (IHf lid) as [E1 E2]. cbn [rounds app held granted]. rewrite E1, E2.
    by destruct (a =? lid).
Qed.

Lemma tester_main_ok nt test : Forall phase_ok (number 0 (main nt test)).
Proof.
  apply number_ok. unfold main.
  assert (forall (f : nat -> list op) n, (forall i, exists j k, f i = rounds j k) ->
    Forall (fun p => proper (alone (f <$> seq 0 n)) p = true /\
      forall lid, held p lid = false /\ granted p lid = false) (f <$> seq 0 n)) as Hrounds.
  { intros f n Hf. apply Forall_fmap, Forall_true. intros i. simpl. destruct (Hf i) as (j & k & ->).
    destruct (rounds_ok j k) as [Hp Hh]. split; [|done]. destruct (alone _); [by apply proper_solo|done]. }
  repeat apply Forall_app_2; (destruct (_ || _); [|constructor]); (constructor; [|constructor]).
  - constructor; [|constructor]. split; [by_computing|]. intros lid.
    unfold test1, a, b. cbn [held granted]. by destruct (1 =? lid), (2 =? lid).
  - apply Hrounds. intros i. by exists 1%nat, i.
  - apply Hrounds. intros i. by exists 10%nat, i.
  - apply Hrounds. intros i. by exists 10%nat, 0%nat.
  - apply Hrounds. intros i. by eexists 10%nat, _.
Qed.

(** * On the caching lock service *)

(** [thr] are the names of the clients of the threads, [lc] those of the clients [main] makes; each
    lock has its own record at the server and at every client. *)
Record caching (thr lc : list cstring) := Caching { lk_of : gmap Z lsys }.
Arguments Caching {thr lc}.
Arguments lk_of {thr lc}.

Section caching_clients.
  Context {thr lc : list cstring}.

Definition lock_at (l : caching thr lc) (lid : Z) : lsys := default (lock0 thr) (lk_of l !! lid).
Definition lock_step (l : caching thr lc) (lid : Z) (x : laction) : option (caching thr lc) :=
  s ← lstep (lock_at l lid) x; Some (Caching (<[lid := s]> (lk_of l))).
Definition is_call (x : laction) : bool :=
  match x with LEnter _ | LRelease _ => true | _ => false end.
Definition own_client (t i : nat) : bool := bool_decide (is_Some (lc !! i) /\ thr !! t = lc !! i).

#[global] Instance caching_service : LockService (caching thr lc) := {
  acquire_call t i lid l := if own_client t i then lock_step l lid (LEnter t) else None;
  holding_lock t lid l := has_it t (lock_at l lid);
  release_call t i lid l := if own_client t i then lock_step l lid (LRelease t) else None;
  internal l l' := exists lid x, is_call x = false /\ lock_step l lid x = Some l' }.

Lemma lock_at_step l lid x l' : lock_step l lid x = Some l' ->
  lstep (lock_at l lid) x = Some (lock_at l' lid) /\ forall lid', lid' <> lid -> lock_at l' lid' = lock_at l lid'.
Proof.
  intros (s & E & [= <-])%bind_Some. unfold lock_at at 2 3. simpl. rewrite lookup_insert_eq. split; [done|].
  intros lid' Hne. by rewrite lookup_insert_ne.
Qed.

(** Only its own [release] takes a lock from a thread. *)
Lemma has_it_moved s s' t0 t :
  (l_thr s' = l_thr s \/ exists th, l_thr s' = <[t0 := th]> (l_thr s)) ->
  (t = t0 -> has_it t s = false) -> has_it t s = true -> has_it t s' = true.
Proof.
  unfold has_it. intros [->|[th ->]] Hne Ht; [done|]. destruct (decide (t = t0)) as [->|].
  - specialize (Hne eq_refl). congruence.
  - by rewrite list_lookup_insert_ne.
Qed.
Lemma has_it_same s s' t : l_thr s' = l_thr s -> has_it t s = true -> has_it t s' = true.
Proof. unfold has_it. by intros ->. Qed.
Lemma not_has_it s t c p : l_thr s !! t = Some (c, p) -> p <> PHold -> has_it t s = false.
Proof. unfold has_it. intros ->. by destruct p. Qed.
Lemma lstep_keeps s x s' t :
  lstep s x = Some s' -> x <> LRelease t -> has_it t s = true -> has_it t s' = true.
Proof.
  intros Hs Hx.
  destruct x as [t0|t0|t0|t0 ret|t0|t0|t0|i| |]; cbn [lstep] in Hs.
  1-7: destruct (l_thr s !! t0) as [[c []]|] eqn:Et; try done; cbn in Hs; repeat case_match; try done;
    simplify_eq; (apply (has_it_moved _ _ t0); [first [by left|right; by eexists]|]);
    intros ->; first [by eapply not_has_it|done].
  - destruct (l_msgs s !! i) as [[]|]; try done; cbn [deliver] in Hs; repeat case_match; try done;
      simplify_eq; try (by apply has_it_same).
    eapply has_it_moved; [right; by eexists|]. intros ->. by eapply not_has_it.
  - repeat case_match; simplify_eq; (by apply has_it_same).
  - repeat case_match; simplify_eq; (by apply has_it_same).
Qed.

#[global] Instance caching_laws : LockServiceLaws (caching thr lc).
Proof.
  assert (forall l lid x l', (forall i, linv (lock_at l i)) -> lock_step l lid x = Some l' ->
    (forall i, linv (lock_at l' i)) /\ forall t' lid', (lid' = lid -> x <> LRelease t') ->
      has_it t' (lock_at l lid') = true -> has_it t' (lock_at l' lid') = true) as Hstep.
  { intros l lid x l' Hl (Hs & Ho)%lock_at_step. split.
    - intros i. destruct (decide (i = lid)) as [->|Hne]; [by eapply lstep_inv|by rewrite Ho].
    - intros t' lid' Hx Hh. destruct (decide (lid' = lid)) as [->|Hne]; [|by rewrite Ho].
      eapply lstep_keeps; [exact Hs|by apply Hx|done]. }
  refine {| service_ok l := forall lid, linv (lock_at l lid) |}.
  - intros t i lid l l' Hl E. simpl in E. destruct (own_client t i); [|done].
    destruct (Hstep _ _ _ _ Hl E) as [H1 H2]. split; [done|]. intros t' lid'. by apply H2.
  - intros t i lid l l' Hl E. simpl in E. destruct (own_client t i); [|done].
    destruct (Hstep _ _ _ _ Hl E) as [H1 H2]. split; [done|]. intros t' lid' Hne. apply H2. congruence.
  - intros l l' Hl (lid & x & Hx & E). destruct (Hstep _ _ _ _ Hl E) as [H1 H2]. split; [done|].
    intros t' lid'. apply H2. by intros _ ->.
  - intros t t' lid l Hl Ht Ht'. simpl in *. unfold has_it in *.
    destruct (l_thr (lock_at l lid) !! t) as [[c []]|] eqn:E; try done.
    destruct (l_thr (lock_at l lid) !! t') as [[c' []]|] eqn:E'; try done.
    eapply (holds_exclusive _ c t c' t' (Hl lid) E E').
Defined.
End caching_clients.

(** No lock has been used. *)
Definition unused {thr lc} : caching thr lc := Caching ∅.
Lemma unused_ok thr lc : Forall (fun c => c <> srv.FREE) thr -> service_ok (unused (thr := thr) (lc := lc)).
Proof.
  intros Hn lid. unfold lock_at. simpl. rewrite lookup_empty. simpl. apply linitial_inv.
  split_and!; try done. simpl. apply Forall_fmap. eapply Forall_impl; [exact Hn|]. by simpl.
Qed.

(** ** Schedules *)

(** One step, chosen by a schedule. *)
Inductive taction := AThread (k : nat) | ALock (lid : Z) (x : laction) | AJoin.
Definition tester_step {thr lc} (s : tester (caching thr lc)) (x : taction)
    : option (tester (caching thr lc)) :=
  match x with
  | AThread k =>
      match t_running s !! k with
      | Some (t, o :: os) =>
          '(l, ct, rest) ← exec t o (t_locks s) (t_ct s);
          Some (Tester l ct (<[k := (t, rest ++ os)]> (t_running s)) (t_later s))
      | _ => None
      end
  | ALock lid x =>
      if is_call x then None
      else l ← lock_step (t_locks s) lid x; Some (Tester l (t_ct s) (t_running s) (t_later s))
  | AJoin =>
      match t_later s with
      | ph :: later =>
          if forallb (fun th => match th.2 with [] => true | _ => false end) (t_running s)
          then Some (Tester (t_locks s) (t_ct s) ph later) else None
      | [] => None
      end
  end.

Lemma tester_step_tstep {thr lc} (s s' : tester (caching thr lc)) x : tester_step s x = Some s' -> tstep s s'.
Proof.
  destruct s as [l ct run later], x as [k|lid x|]; cbn [tester_step t_locks t_ct t_running t_later].
  - destruct (run !! k) as [[t [|o os]]|] eqn:Ek; try done. intros ([[l' ct'] rest] & E & [= <-])%bind_Some.
    by eapply step_thread.
  - destruct (is_call x) eqn:Ex; [done|]. intros (l' & E & [= <-])%bind_Some. apply step_internal.
    by exists lid, x.
  - destruct later as [|ph later]; [done|]. destruct (forallb _ run) eqn:E; [|done]. intros [= <-].
    apply step_join, Forall_forall. intros th Hth. rewrite forallb_forall in E.
    specialize (E th (proj1 (list_elem_of_In _ _) Hth)). by destruct th as [? []].
Qed.

(** A schedule that lets the threads run one after the other. *)
Fixpoint first_busy (run : list (nat * list op)) (k : nat) : option (nat * nat * op) :=
  match run with
  | [] => None
  | (t, o :: _) :: _ => Some (k, t, o)
  | (_, []) :: run => first_busy run (S k)
  end.
Definition schedule {thr lc} (s : tester (caching thr lc)) : option taction :=
  match first_busy (t_running s) 0 with
  | None => Some AJoin
  | Some (k, t, OAwait lid) =>
      if has_it t (lock_at (t_locks s) lid) then Some (AThread k)
      else x ← next_action t (lock_at (t_locks s) lid); Some (ALock lid x)
  | Some (k, _, _) => Some (AThread k)
  end.
Fixpoint run_tests {thr lc} (fuel : nat) (s : tester (caching thr lc)) : tester (caching thr lc) :=
  match fuel with
  | O => s
  | S fuel =>
      match x ← schedule s; tester_step s x with
      | Some s' => run_tests fuel s'
      | None => s
      end
  end.
Lemma run_tests_rtc {thr lc} fuel (s : tester (caching thr lc)) : rtc tstep s (run_tests fuel s).
Proof.
  revert s. induction fuel as [|fuel IH]; intros s; simpl; [done|].
  destruct (x ← schedule s; tester_step s x) as [s'|] eqn:E; [|done].
  apply bind_Some in E as (x & _ & E). eapply rtc_l; [by eapply tester_step_tstep|apply IH].
Qed.

(** All threads of all tests have returned. *)
Definition passed {L} (s : tester L) : bool :=
  forallb (fun th => match th.2 with [] => true | _ => false end) (t_running s)
  && match t_later s with [] => true | _ => false end.

(** * Properties *)

(** C25 (the lock tester never fails): on the caching lock service, whichever tests are run, with
    any number of threads and clients and in any interleaving of the threads, the server's
    background threads and the messages, no thread of the lock tester ever finds a lock granted
    twice or released by nobody. *)
Theorem lock_tester_silent (thr lc : list cstring) (nt : nat) (test : Z) (s : tester (caching thr lc)) :
  Forall (fun c => c <> srv.FREE) thr -> rtc tstep (start unused (main nt test)) s -> ~ reports s.
Proof. intros Hn. apply tester_silent; [by apply unused_ok|apply tester_main_ok]. Qed.

Module tester_example.
(** Six clients, and the clients of the threads of all five tests. *)
Definition lc : list cstring :=
  [cs "127.0.0.1:1"; cs "127.0.0.1:2"; cs "127.0.0.1:3"; cs "127.0.0.1:4"; cs "127.0.0.1:5"; cs "127.0.0.1:6"].
Definition clients : list nat :=
  ([0] ++ seq 0 6 ++ seq 0 6 ++ [0; 0] ++ ((fun i => if i <? 5 then 0 else 1) <$> seq 0 6))%nat.
Definition thr : list cstring := (fun i => default [] (lc !! i)) <$> clients.
Definition s0 : tester (caching thr lc) := start unused (main 6 0).

(** All tests are run to the end, and the program is silent there as everywhere. *)
Lemma lock_tester_silent_witness :
  passed (run_tests (Z.to_nat 5000) s0) = true /\ ~ reports (run_tests (Z.to_nat 5000) s0).
Proof.
  split; [vm_compute; reflexivity|].
  apply (lock_tester_silent thr lc 6 0); [|apply run_tests_rtc].
  repeat (constructor; [by_computing|]). constructor.
Defined.
End tester_example.

(** ** The client the program is linked with *)

(** [acquire] and [release] of lock_client_cache_rsm return at once. *)
Record rsm_clients := RsmClients {}.
#[global] Instance rsm_service : LockService rsm_clients := {
  acquire_call t i lid l := if lock_client_cache_rsm.acquire lid =? lock_protocol.OK then Some l else None;
  holding_lock t lid l := true;
  release_call t i lid l := if lock_client_cache_rsm.release lid =? lock_protocol.OK then Some l else None;
  internal _ _ := False }.

(** The tester finds out: with the clients of lock_client_cache_rsm.cc, whose [acquire] is
    unwritten, the second test, with any number of threads above one, can find the lock granted
    twice: both threads hold it. *)
Theorem lock_tester_detects (nt : nat) :
  exists s : tester rsm_clients, rtc tstep (start (RsmClients) (main (S (S nt)) 2)) s /\ reports s.
Proof.
  eexists. split.
  - eapply rtc_l; [by apply step_join|].
    do 3 (eapply rtc_l; [eapply (step_thread _ _ _ _ 0); reflexivity|]).
    do 2 (eapply rtc_l; [eapply (step_thread _ _ _ _ 1); reflexivity|]).
    apply rtc_refl.
  - exists 1%nat. eexists _, _, _. left. split; reflexivity.
Qed.
