(* ===== verification/Posix.v ===== *)
(** Processes and their system calls, for the test programs of the file system.

    A test program is a tree of system calls.  The operating system, with the file system mounted
    at two places, is a parameter, an ideal one: no call on a file that is there fails, no write is
    short and both mounts show the same files at once, which POSIX does not promise and which it
    is for the test programs to find out of the file system; as a relation on the files, the
    directories and the open descriptors.  A program forks
    at most one child and waits for it, and the calls of the two are interleaved at will; [wp] is
    what must be shown of each of them, under what the other may do. *)
From Stdlib Require Import ZArith Lia Ascii String.
From stdpp Require Import base gmap list strings relations.
From S2P Require Import Prelude.
Local Open Scope Z_scope.

(** * Programs *)

Inductive oflag := O_RDONLY | O_WRONLY | O_WRONLY_APPEND | O_WRONLY_CREAT.

(** [Readdir] stands for [opendir], [readdir] until it returns a null pointer, and [closedir]. *)
Inductive call :=
| Creat (n : cstring) | Open (n : cstring) (fl : oflag)
| Read (fd : Z) (count : nat) | Write (fd : Z) (s : cstring)
| Lseek (fd off : Z) | Fsync (fd : Z) | Close (fd : Z)
| Unlink (n : cstring) | Mkdir (n : cstring) | Access (n : cstring) | Readdir (n : cstring).

Record reply := Reply { r_ret : Z; r_errno : Z; r_data : cstring; r_names : list cstring }.

(** [Fail]: the process exits with an error, or its behaviour is undefined. *)
Inductive prog (A : Type) :=
| Done (a : A)
| Fail (f : fault)
| Sys (c : call) (k : reply -> prog A).
Arguments Done {A}.
Arguments Fail {A}.
Arguments Sys {A}.

#[global] Instance prog_ret : MRet prog := fun A a => Done a.
#[global] Instance prog_bind : MBind prog := fun A B f =>
  fix go p := match p with Done a => f a | Fail e => Fail e | Sys c k => Sys c (fun r => go (k r)) end.
Definition sys (c : call) : prog reply := Sys c Done.
(** The error branches of the programs: a message, and [exit(1)]. *)
Definition check (b : bool) : prog unit := if b then Done tt else Fail Exited.
Definition defined (b : bool) : prog unit := if b then Done tt else Fail Undefined.

(** * The ideal system *)

(** A file is a directory and a name in it. *)
Abbreviation file := (cstring * cstring)%type.
Inductive location := LDir (d : cstring) | LFile (f : file).

Record desc := Desc { d_file : file; d_off : nat; d_append : bool; d_write : bool }.
(** Directories, files and the descriptors of the parent ([true]) and the child. *)
Record view := View {
  v_dirs : gset cstring; v_files : gmap file cstring; v_fds : gmap (bool * Z) desc }.

Definition set_file (v : view) (f : file) (b : cstring) : view :=
  View (v_dirs v) (<[f := b]> (v_files v)) (v_fds v).
Definition del_file (v : view) (f : file) : view := View (v_dirs v) (delete f (v_files v)) (v_fds v).
Definition set_fd (v : view) (pid : bool) (fd : Z) (d : desc) : view :=
  View (v_dirs v) (v_files v) (<[(pid, fd) := d]> (v_fds v)).
Definition del_fd (v : view) (pid : bool) (fd : Z) : view :=
  View (v_dirs v) (v_files v) (delete (pid, fd) (v_fds v)).
Definition add_dir (v : view) (d : cstring) : view := View ({[d]} ∪ v_dirs v) (v_files v) (v_fds v).
Definition dir_names (v : view) (d : cstring) : list cstring :=
  (fun fb => fb.1.2) <$> filter (fun fb => fb.1.1 = d) (map_to_list (v_files v)).
Definition write_at (b : cstring) (off : nat) (s : cstring) : cstring :=
  take off b ++ s ++ drop (off + length s) b.

Definition opens (v v' : view) (pid : bool) (fd : Z) (d : desc) : Prop :=
  0 <= fd /\ v_fds v !! (pid, fd) = None /\ v' = set_fd v pid fd d.
Definition flags_desc (f : file) (fl : oflag) : desc :=
  match fl with
  | O_RDONLY => Desc f 0 false false
  | O_WRONLY | O_WRONLY_CREAT => Desc f 0 false true
  | O_WRONLY_APPEND => Desc f 0 true true
  end.

(** A call of process [pid] on a file system that works, with room left and nobody else on it; where
    nothing is said, anything may happen. *)
Definition ideal (locate : cstring -> option location) (pid : bool) (c : call)
    (v v' : view) (r : reply) : Prop :=
  match c with
  | Creat n => forall f, locate n = Some (LFile f) -> f.1 ∈ v_dirs v ->
      opens (set_file v f []) v' pid (r_ret r) (Desc f 0 false true)
  | Open n fl => forall f, locate n = Some (LFile f) -> f.1 ∈ v_dirs v ->
      match v_files v !! f, fl with
      | Some _, _ => opens v v' pid (r_ret r) (flags_desc f fl)
      | None, O_WRONLY_CREAT => opens (set_file v f []) v' pid (r_ret r) (flags_desc f fl)
      | None, _ => r_ret r < 0 /\ v' = v
      end
  | Read fd count => forall d b, v_fds v !! (pid, fd) = Some d -> d_write d = false ->
      v_files v !! d_file d = Some b ->
      r_data r = take count (drop (d_off d) b) /\ r_ret r = Z.of_nat (length (r_data r)) /\
      v' = set_fd v pid fd (Desc (d_file d) (d_off d + length (r_data r)) (d_append d) (d_write d))
  | Write fd s => forall d b, v_fds v !! (pid, fd) = Some d -> d_write d = true ->
      v_files v !! d_file d = Some b ->
      let off := if d_append d then length b else d_off d in (off <= length b)%nat ->
      r_ret r = Z.of_nat (length s) /\
      v' = set_fd (set_file v (d_file d) (write_at b off s)) pid fd
             (Desc (d_file d) (off + length s) (d_append d) (d_write d))
  | Lseek fd off => forall d, v_fds v !! (pid, fd) = Some d -> 0 <= off ->
      r_ret r = off /\ v' = set_fd v pid fd (Desc (d_file d) (Z.to_nat off) (d_append d) (d_write d))
  | Fsync fd => forall d, v_fds v !! (pid, fd) = Some d -> r_ret r = 0 /\ v' = v
  | Close fd => forall d, v_fds v !! (pid, fd) = Some d -> r_ret r = 0 /\ v' = del_fd v pid fd
  | Unlink n => forall f b, locate n = Some (LFile f) -> v_files v !! f = Some b ->
      (forall p d, v_fds v !! p = Some d -> d_file d <> f) -> r_ret r = 0 /\ v' = del_file v f
  | Mkdir n => forall d, locate n = Some (LDir d) -> d ∉ v_dirs v -> r_ret r = 0 /\ v' = add_dir v d
  | Access n => forall d, locate n = Some (LDir d) -> d ∈ v_dirs v -> r_ret r = 0 /\ v' = v
  | Readdir n => forall d, locate n = Some (LDir d) -> d ∈ v_dirs v ->
      r_ret r = 0 /\ r_names r ≡ₚ cs "." :: cs ".." :: dir_names v d /\ v' = v
  end.

Class System (W : Type) := {
  syscall : bool -> call -> W -> W * reply;
  view_of : W -> view;
  locate : cstring -> option location }.
Class IdealSystem (W : Type) `{System W} := {
  calls_ideal : forall pid c w,
    ideal locate pid c (view_of w) (view_of (syscall pid c w).1) (syscall pid c w).2 }.

(** A name without a separator, and the place where the file system is mounted. *)
Definition plain (n : cstring) : Prop := n <> [] /\ ("/"%char ∉ n).
Definition mounted (locate : cstring -> option location) (m : cstring) : Prop :=
  forall d, plain d -> locate (m ++ cs "/" ++ d) = Some (LDir d) /\
    forall f, plain f -> locate (m ++ cs "/" ++ d ++ cs "/" ++ f) = Some (LFile (d, f)).

(** * A program and its child *)

(** The parts of a program: what it does alone, and what it does from a [fork] to the [reap] of the
    child. *)
Inductive phase := Solo (p : prog unit) | Forked (child parent : prog unit).

Section run.
  Context {W : Type} `{System W}.

Record state := State { s_world : W; s_parent : prog unit; s_child : prog unit; s_later : list phase }.

Inductive step : state -> state -> Prop :=
| step_parent w c k q later :
    step (State w (Sys c k) q later)
      (State (syscall true c w).1 (k (syscall true c w).2) q later)
| step_child w p c k later :
    step (State w p (Sys c k) later)
      (State (syscall false c w).1 p (k (syscall false c w).2) later)
| step_solo w p later : step (State w (Done tt) (Done tt) (Solo p :: later)) (State w p (Done tt) later)
| step_fork w p q later : step (State w (Done tt) (Done tt) (Forked q p :: later)) (State w p q later).

Definition failed (s : state) : Prop :=
  (exists f, s_parent s = Fail f) \/ (exists f, s_child s = Fail f).
Definition finished (s : state) : Prop :=
  s_parent s = Done tt /\ s_child s = Done tt /\ s_later s = [].
Definition init (w : W) (main : list phase) : state := State w (Done tt) (Done tt) main.

(** It does not get stuck, and it ends. *)
Lemma step_or_end s : failed s \/ finished s \/ exists s', step s s'.
Proof.
  destruct s as [w [[]|f|c k] [[]|f'|c' k'] later];
    try (left; left; eexists; reflexivity); try (left; right; eexists; reflexivity);
    try (right; right; eexists; constructor).
  destruct later as [|[p|q p] later]; [by right; left|right; right; eexists; constructor..].
Qed.
Lemma step_ends s : sn step s.
Proof.
  assert (forall later, (forall w, sn step (State w (Done tt) (Done tt) later)) ->
    forall p q w, sn step (State w p q later)) as Hpq.
  { intros later Hd. induction p as [[]|f|c k IHp].
    - induction q as [[]|f|c' k' IHq]; intros w; [apply Hd|constructor; intros s' Hs; by inversion Hs|].
      constructor. intros s' Hs. inversion Hs; subst. apply IHq.
    - induction q as [[]|f'|c' k' IHq]; intros w; constructor; intros s' Hs; inversion Hs; subst. apply IHq.
    - induction q as [[]|f'|c' k' IHq]; intros w; constructor; intros s' Hs; inversion Hs; subst;
        try apply IHp; apply IHq. }
  assert (forall later w, sn step (State w (Done tt) (Done tt) later)) as Hd.
  { induction later as [|ph later IH]; intros w; constructor; intros s' Hs; inversion Hs; subst;
      by apply Hpq. }
  destruct s as [w p q later]. by apply Hpq.
Qed.
End run.
Arguments state : clear implicits.

(** * What is to be shown *)

Section wp.
  Variable locate : cstring -> option location.

(** Process [pid] may run [p] from [v], where others change the view by [R] in between: each of its
    calls changes the view by [G], it does not fail, and [Q] holds when it is done. *)
Fixpoint wp {A} (pid : bool) (R G : relation view) (p : prog A) (Q : A -> view -> Prop) (v : view) : Prop :=
  match p with
  | Done a => Q a v
  | Fail _ => False
  | Sys c k => forall v0 v1 r, rtc R v v0 -> ideal locate pid c v0 v1 r ->
      G v0 v1 /\ wp pid R G (k r) Q v1
  end.

Lemma wp_bind {A B} pid R G (p : prog A) (f : A -> prog B) Q v :
  wp pid R G p (fun a => wp pid R G (f a) Q) v -> wp pid R G (p ≫= f) Q v.
Proof.
  revert v. induction p as [a|e|c k IH]; intros v Hp; [done|done|].
  intros v0 v1 r Hr Hd. destruct (Hp v0 v1 r Hr Hd) as [HG Hw]. split; [done|]. by apply IH.
Qed.
Lemma wp_mono {A} pid R G (p : prog A) (Q Q' : A -> view -> Prop) v :
  (forall a v, Q a v -> Q' a v) -> wp pid R G p Q v -> wp pid R G p Q' v.
Proof.
  intros HQ. revert v. induction p as [a|e|c k IH]; intros v Hp; [by apply HQ|done|].
  intros v0 v1 r Hr Hd. destruct (Hp v0 v1 r Hr Hd) as [HG Hw]. split; [done|]. by apply IH.
Qed.
(** Others may act before it starts. *)
Lemma wp_later {A} pid R G (p : prog A) (Q : A -> view -> Prop) v v' :
  (forall a v v', Q a v -> R v v' -> Q a v') -> rtc R v v' -> wp pid R G p Q v -> wp pid R G p Q v'.
Proof.
  intros HQ Hr Hp. destruct p as [a|e|c k]; [|done|].
  - cbn [wp] in *. induction Hr; [done|]. eauto.
  - intros v0 v1 r Hr0. apply Hp. by etrans.
Qed.

Definition stable {A} (R : relation view) (Q : A -> view -> Prop) : Prop :=
  forall a v v', Q a v -> R v v' -> Q a v'.

(** A part of a program that takes views with [P] to views with [Q]. *)
Definition phase_ok (P : view -> Prop) (ph : phase) (Q : view -> Prop) : Prop :=
  forall v, P v ->
  match ph with
  | Solo p => wp true (fun _ _ => False) (fun _ _ => True) p (fun _ => Q) v
  | Forked q p => exists (Gp Gq : relation view) (Qp Qq : view -> Prop),
      wp true Gq Gp p (fun _ => Qp) v /\ wp false Gp Gq q (fun _ => Qq) v /\
      (forall v v', Qp v -> Gq v v' -> Qp v') /\ (forall v v', Qq v -> Gp v v' -> Qq v') /\
      (forall v, Qp v -> Qq v -> Q v)
  end.
Inductive phases_ok : (view -> Prop) -> list phase -> Prop :=
| phases_end P : phases_ok P []
| phases_cons P Q ph phs : phase_ok P ph Q -> phases_ok Q phs -> phases_ok P (ph :: phs).
End wp.

(** Parts that are shown one by one make a program that runs. *)
Section soundness.
  Context {W : Type} `{IdealSystem W}.

(** Both processes are where they were shown to be, and others' calls came since. *)
Definition running (s : state W) : Prop :=
  exists (Gp Gq : relation view) (Qp Qq P : view -> Prop),
    wp locate true Gq Gp (s_parent s) (fun _ => Qp) (view_of (s_world s)) /\
    wp locate false Gp Gq (s_child s) (fun _ => Qq) (view_of (s_world s)) /\
    (forall v v', Qp v -> Gq v v' -> Qp v') /\ (forall v v', Qq v -> Gp v v' -> Qq v') /\
    (forall v, Qp v -> Qq v -> P v) /\ phases_ok locate P (s_later s).

Lemma running_starts w (P : view -> Prop) main :
  P (view_of w) -> phases_ok locate P main -> running (init w main).
Proof.
  intros HP Hm. exists (fun _ _ => False), (fun _ _ => False), P, (fun _ => True), P. by split_and!.
Qed.

Lemma running_step s s' : running s -> step s s' -> running s'.
Proof.
  intros (Gp & Gq & Qp & Qq & P & Hp & Hq & Sp & Sq & HP & Hl) Hs.
  destruct Hs as [w c k q later|w p c k later|w p later|w p q later]; cbn [s_parent s_child s_world s_later] in *.
  - destruct (Hp _ _ _ (rtc_refl _ _) (calls_ideal true c w)) as [HG Hk].
    exists Gp, Gq, Qp, Qq, P. split_and!; try done.
    eapply (wp_later _ _ _ _ _ (fun _ => Qq)); [|by apply rtc_once|exact Hq]. intros _. apply Sq.
  - destruct (Hq _ _ _ (rtc_refl _ _) (calls_ideal false c w)) as [HG Hk].
    exists Gp, Gq, Qp, Qq, P. split_and!; try done.
    eapply (wp_later _ _ _ _ _ (fun _ => Qp)); [|by apply rtc_once|exact Hp]. intros _. apply Sp.
  - inversion Hl as [|? Q ? ? Hph Hl']; subst. specialize (Hph _ (HP _ Hp Hq)). cbn in Hph.
    exists (fun _ _ => True), (fun _ _ => False), Q, (fun _ => True), Q. by split_and!.
  - inversion Hl as [|? Q ? ? Hph Hl']; subst. specialize (Hph _ (HP _ Hp Hq)) as (Gp' & Gq' & Qp' & Qq' & Hph).
    exists Gp', Gq', Qp', Qq', Q. destruct Hph as (? & ? & ? & ? & ?). by split_and!.
Qed.

Lemma running_no_fail s : running s -> ~ failed s.
Proof.
  intros (Gp & Gq & Qp & Qq & P & Hp & Hq & _) [[f E]|[f E]]; [by rewrite E in Hp|by rewrite E in Hq].
Qed.

(** Whatever the interleaving, it runs to the end and does not fail. *)
Lemma program_passes w (P : view -> Prop) main :
  P (view_of w) -> phases_ok locate P main ->
  sn step (init w main) /\
  forall s, rtc step (init w main) s -> ~ failed s /\ (finished s \/ exists s', step s s').
Proof.
  intros HP Hm. split; [apply step_ends|]. intros s Hr.
  assert (running s) as Hs.
  { pose proof (running_starts w P main HP Hm) as Hi. induction Hr; [done|]. eauto using running_step. }
  apply running_no_fail in Hs. split; [done|]. by destruct (step_or_end s) as [|[|]]; [|left|right].
Qed.
End soundness.

(** * Files of one's own *)

(** What process [pid] does if it only uses files in [own]. *)
Definition changes (pid : bool) (own : file -> Prop) (v v' : view) : Prop :=
  v_dirs v' = v_dirs v /\
  (forall f, ~ own f -> v_files v' !! f = v_files v !! f) /\
  (forall fd, v_fds v' !! (negb pid, fd) = v_fds v !! (negb pid, fd)) /\
  (forall fd d, v_fds v' !! (pid, fd) = Some d -> own (d_file d) \/ v_fds v !! (pid, fd) = Some d).

#[global] Instance changes_trans pid own : Transitive (changes pid own).
Proof.
  intros v1 v2 v3 (A1 & A2 & A3 & A4) (B1 & B2 & B3 & B4). split_and!; [congruence|..].
  - intros f Hf. by rewrite B2, A2.
  - intros fd. by rewrite B3, A3.
  - intros fd d Hd. destruct (B4 _ _ Hd); [by left|by apply A4].
Qed.

Section own.
  Variables (locate : cstring -> option location) (pid : bool) (own : file -> Prop).
  Variables (R G : relation view) (D : gset cstring) (other : file -> Prop).
  Hypothesis Hdisj : forall f, own f -> other f -> False.
  Hypothesis HR : forall v v', R v v' -> changes (negb pid) other v v'.
  Hypothesis HG : forall v v', changes pid own v v' -> G v v'.

(** Its files are as in [M], its descriptors are [F], and nobody else has its files open. *)
Definition has (M : gmap file cstring) (F : gmap Z desc) (v : view) : Prop :=
  D ⊆ v_dirs v /\
  (forall f, own f -> v_files v !! f = M !! f) /\
  (forall fd, v_fds v !! (pid, fd) = F !! fd) /\
  (forall fd d, v_fds v !! (negb pid, fd) = Some d -> ~ own (d_file d)).

Lemma has_stable M F v v' : has M F v -> rtc R v v' -> has M F v'.
Proof.
  intros Hv Hr. induction Hr as [|v v1 v2 Hs _ IH]; [done|]. apply IH. clear IH.
  destruct Hv as (A1 & A2 & A3 & A4), (HR _ _ Hs) as (B1 & B2 & B3 & B4).
  rewrite negb_involutive in B3. split_and!.
  - by rewrite B1.
  - intros f Hf. rewrite B2; [by apply A2|]. intros Ho. by apply (Hdisj f).
  - intros fd. by rewrite B3.
  - intros fd d Hd Ho. destruct (B4 _ _ Hd) as [Hf|Hf]; [by apply (Hdisj (d_file d))|by apply (A4 fd d)].
Qed.

Lemma negb_ne b : negb b <> b.
Proof. by destruct b. Qed.
Lemma has_set_file M F v f b : own f -> has M F v ->
  has (<[f := b]> M) F (set_file v f b) /\ changes pid own v (set_file v f b).
Proof.
  intros Hf (A1 & A2 & A3 & A4). split; split_and!; try done; simpl.
  - intros g Hg. destruct (decide (g = f)) as [->|]; [by rewrite !lookup_insert_eq|].
    rewrite !lookup_insert_ne by done. by apply A2.
  - intros g Hg. rewrite lookup_insert_ne; [done|]. by intros ->.
  - intros fd d Hd. by right.
Qed.
Lemma has_del_file M F v f : own f -> has M F v ->
  has (delete f M) F (del_file v f) /\ changes pid own v (del_file v f).
Proof.
  intros Hf (A1 & A2 & A3 & A4). split; split_and!; try done; simpl.
  - intros g Hg. destruct (decide (g = f)) as [->|]; [by rewrite !lookup_delete_eq|].
    rewrite !lookup_delete_ne by done. by apply A2.
  - intros g Hg. rewrite lookup_delete_ne; [done|]. by intros ->.
  - intros fd d Hd. by right.
Qed.
Lemma has_set_fd M F v fd d : own (d_file d) -> has M F v ->
  has M (<[fd := d]> F) (set_fd v pid fd d) /\ changes pid own v (set_fd v pid fd d).
Proof.
  intros Hf (A1 & A2 & A3 & A4). pose proof (negb_ne pid).
  split; split_and!; try done; simpl; intros x.
  - destruct (decide (x = fd)) as [->|]; [by rewrite !lookup_insert_eq|].
    rewrite !lookup_insert_ne by congruence. apply A3.
  - intros e. rewrite lookup_insert_ne by congruence. apply A4.
  - by rewrite lookup_insert_ne by congruence.
  - intros e. destruct (decide (x = fd)) as [->|]; [rewrite lookup_insert_eq; intros [= <-]; by left|].
    rewrite lookup_insert_ne by congruence. by right.
Qed.
Lemma has_del_fd M F v fd : has M F v ->
  has M (delete fd F) (del_fd v pid fd) /\ changes pid own v (del_fd v pid fd).
Proof.
  intros (A1 & A2 & A3 & A4). pose proof (negb_ne pid).
  split; split_and!; try done; simpl; intros x.
  - destruct (decide (x = fd)) as [->|]; [by rewrite !lookup_delete_eq|].
    rewrite !lookup_delete_ne by congruence. apply A3.
  - intros e. rewrite lookup_delete_ne by congruence. apply A4.
  - by rewrite lookup_delete_ne by congruence.
  - intros e. destruct (decide (x = fd)) as [->|]; [by rewrite lookup_delete_eq|].
    rewrite lookup_delete_ne by congruence. by right.
Qed.
Lemma changes_refl v : changes pid own v v.
Proof. split_and!; try done. intros fd d Hd. by right. Qed.

(** ** The calls *)

Section calls.
  Context {A : Type}.
  Variables (k : reply -> prog A) (Q : A -> view -> Prop) (M : gmap file cstring) (F : gmap Z desc) (v : view).
  Hypothesis Hv : has M F v.

Abbreviation wpo := (wp locate pid R G).

(** The view the call finds. *)
Lemma wp_call c :
  (forall v0 v1 r, has M F v0 -> ideal locate pid c v0 v1 r ->
     changes pid own v0 v1 /\ wpo (k r) Q v1) -> wpo (Sys c k) Q v.
Proof.
  intros Hc v0 v1 r Hr Hd. destruct (Hc v0 v1 r (has_stable _ _ _ _ Hv Hr) Hd) as [Hch Hw].
  split; [by apply HG|done].
Qed.

Lemma opened M' v0 v1 v2 fd d : has M F v0 -> changes pid own v0 v1 -> has M' F v1 ->
  opens v1 v2 pid fd d -> own (d_file d) ->
  0 <= fd /\ F !! fd = None /\ has M' (<[fd := d]> F) v2 /\ changes pid own v0 v2.
Proof.
  intros H0 Hc H1 (Hfd & Hn & ->) Ho. destruct (has_set_fd M' F v1 fd d Ho H1) as [H2 Hc2].
  destruct H1 as (_ & _ & E & _). rewrite E in Hn. split_and!; try done. by etrans.
Qed.

Lemma wp_creat n f :
  locate n = Some (LFile f) -> own f -> f.1 ∈ D ->
  (forall r v', 0 <= r_ret r -> F !! r_ret r = None ->
     has (<[f := []]> M) (<[r_ret r := Desc f 0 false true]> F) v' -> wpo (k r) Q v') ->
  wpo (Sys (Creat n) k) Q v.
Proof.
  intros Hl Ho Hd Hk. apply wp_call. intros v0 v1 r H0 Hdoc.
  destruct (has_set_file M F v0 f [] Ho H0) as [H1 Hc].
  destruct (opened _ _ _ _ _ _ H0 Hc H1 (Hdoc f Hl (proj1 H0 _ Hd)) Ho) as (? & ? & ? & ?). auto.
Qed.
Lemma wp_open n f fl b :
  locate n = Some (LFile f) -> own f -> f.1 ∈ D -> M !! f = Some b ->
  (forall r v', 0 <= r_ret r -> F !! r_ret r = None ->
     has M (<[r_ret r := flags_desc f fl]> F) v' -> wpo (k r) Q v') ->
  wpo (Sys (Open n fl) k) Q v.
Proof.
  intros Hl Ho Hd Hm Hk. apply wp_call. intros v0 v1 r H0 Hdoc. specialize (Hdoc f Hl (proj1 H0 _ Hd)).
  rewrite (proj1 (proj2 H0) f Ho), Hm in Hdoc.
  assert (d_file (flags_desc f fl) = f) as E by by destruct fl. rewrite <- E in Ho.
  destruct (opened _ _ _ _ _ _ H0 (changes_refl v0) H0 Hdoc Ho) as (? & ? & ? & ?). auto.
Qed.
Lemma wp_open_missing n f :
  locate n = Some (LFile f) -> own f -> f.1 ∈ D -> M !! f = None ->
  (forall r v', r_ret r < 0 -> has M F v' -> wpo (k r) Q v') -> wpo (Sys (Open n O_RDONLY) k) Q v.
Proof.
  intros Hl Ho Hd Hm Hk. apply wp_call. intros v0 v1 r H0 Hdoc. specialize (Hdoc f Hl (proj1 H0 _ Hd)).
  rewrite (proj1 (proj2 H0) f Ho), Hm in Hdoc. destruct Hdoc as [Hr ->]. split; [apply changes_refl|auto].
Qed.
Lemma wp_read fd count d b :
  F !! fd = Some d -> own (d_file d) -> d_write d = false -> M !! d_file d = Some b ->
  (forall r v', r_data r = take count (drop (d_off d) b) -> r_ret r = Z.of_nat (length (r_data r)) ->
     has M (<[fd := Desc (d_file d) (d_off d + length (r_data r)) (d_append d) (d_write d)]> F) v' ->
     wpo (k r) Q v') ->
  wpo (Sys (Read fd count) k) Q v.
Proof.
  intros Hf Ho Hw Hm Hk. apply wp_call. intros v0 v1 r H0 Hdoc. pose proof H0 as (_ & E1 & E2 & _).
  destruct (Hdoc d b) as (Hr1 & Hr2 & ->); [by rewrite E2|done|by rewrite E1|].
  destruct (has_set_fd M F v0 fd (Desc (d_file d) (d_off d + length (r_data r)) (d_append d) (d_write d)) Ho H0)
    as [H1 Hc]. auto.
Qed.
Lemma wp_write fd s d b :
  F !! fd = Some d -> own (d_file d) -> d_write d = true -> M !! d_file d = Some b ->
  let off := if d_append d then length b else d_off d in (off <= length b)%nat ->
  (forall r v', r_ret r = Z.of_nat (length s) ->
     has (<[d_file d := write_at b off s]> M)
       (<[fd := Desc (d_file d) (off + length s) (d_append d) (d_write d)]> F) v' -> wpo (k r) Q v') ->
  wpo (Sys (Write fd s) k) Q v.
Proof.
  intros Hf Ho Hw Hm off Hoff Hk. apply wp_call. intros v0 v1 r H0 Hdoc. pose proof H0 as (_ & E1 & E2 & _).
  destruct (Hdoc d b) as (Hr & ->); [by rewrite E2|done|by rewrite E1|done|]. fold off.
  destruct (has_set_file M F v0 _ (write_at b off s) Ho H0) as [H1 Hc1].
  destruct (has_set_fd _ F _ fd (Desc (d_file d) (off + length s) (d_append d) (d_write d)) Ho H1) as [H2 Hc2].
  split; [by etrans|auto].
Qed.
Lemma wp_lseek fd off d :
  F !! fd = Some d -> own (d_file d) -> 0 <= off ->
  (forall r v', r_ret r = off ->
     has M (<[fd := Desc (d_file d) (Z.to_nat off) (d_append d) (d_write d)]> F) v' -> wpo (k r) Q v') ->
  wpo (Sys (Lseek fd off) k) Q v.
Proof.
  intros Hf Ho Hoff Hk. apply wp_call. intros v0 v1 r H0 Hdoc. pose proof H0 as (_ & _ & E2 & _).
  destruct (Hdoc d) as (Hr & ->); [by rewrite E2|done|].
  destruct (has_set_fd M F v0 fd (Desc (d_file d) (Z.to_nat off) (d_append d) (d_write d)) Ho H0) as [H1 Hc]. auto.
Qed.
Lemma wp_fsync fd d :
  F !! fd = Some d -> (forall r v', r_ret r = 0 -> has M F v' -> wpo (k r) Q v') ->
  wpo (Sys (Fsync fd) k) Q v.
Proof.
  intros Hf Hk. apply wp_call. intros v0 v1 r H0 Hdoc. pose proof H0 as (_ & _ & E2 & _).
  destruct (Hdoc d) as (Hr & ->); [by rewrite E2|]. split; [apply changes_refl|auto].
Qed.
Lemma wp_close fd d :
  F !! fd = Some d -> (forall r v', r_ret r = 0 -> has M (delete fd F) v' -> wpo (k r) Q v') ->
  wpo (Sys (Close fd) k) Q v.
Proof.
  intros Hf Hk. apply wp_call. intros v0 v1 r H0 Hdoc. pose proof H0 as (_ & _ & E2 & _).
  destruct (Hdoc d) as (Hr & ->); [by rewrite E2|]. destruct (has_del_fd M F v0 fd H0) as [H1 Hc]. auto.
Qed.
Lemma wp_unlink n f b :
  locate n = Some (LFile f) -> own f -> M !! f = Some b -> (forall fd d, F !! fd = Some d -> d_file d <> f) ->
  (forall r v', r_ret r = 0 -> has (delete f M) F v' -> wpo (k r) Q v') -> wpo (Sys (Unlink n) k) Q v.
Proof.
  intros Hl Ho Hm Hnf Hk. apply wp_call. intros v0 v1 r H0 Hdoc. pose proof H0 as (_ & E1 & E2 & E3).
  destruct (Hdoc f b) as (Hr & ->); [done|by rewrite E1| |].
  - intros [p fd] d Hd. destruct (decide (p = pid)) as [->|Hne]; [rewrite E2 in Hd; by eapply Hnf|].
    assert (p = negb pid) as -> by (by destruct p, pid). intros <-. by apply (E3 fd d).
  - destruct (has_del_file M F v0 f Ho H0) as [H1 Hc]. auto.
Qed.
(** All files of the directory are its own. *)
Lemma wp_readdir n d :
  locate n = Some (LDir d) -> d ∈ D ->
  (forall r v', r_ret r = 0 -> has M F v' -> r_names r ≡ₚ cs "." :: cs ".." :: dir_names v' d ->
     wpo (k r) Q v') -> wpo (Sys (Readdir n) k) Q v.
Proof.
  intros Hl Hd Hk. apply wp_call. intros v0 v1 r H0 Hdoc.
  destruct (Hdoc d Hl (proj1 H0 _ Hd)) as (Hr & Hn & ->). split; [apply changes_refl|auto].
Qed.
End calls.
End own.
