(* ===== verification/LabTests.v ===== *)
(** The test programs of the file system: test-lab-3-b.c and test-lab-3-c.c.

    Their functions are programs over the system calls of [Posix], and their main functions lists
    of commands, some of which run in a child.  The theorems: on an ideal operating system
    ([Posix.ideal]), and however parent and child are interleaved, both programs run to
    the end on a file system that is mounted at both places; and what [dircheck] and [check1]
    check. *)
From Stdlib Require Import ZArith Lia Ascii String Sorting.Sorted.
From stdpp Require Import base gmap list strings sorting relations.
From S2P Require Import Prelude TextIO Posix.
Local Open Scope Z_scope.

(** * The C library *)

Definition NUL : ascii := char_of_Z 0.
(** Whether [strncmp] returns zero. *)
Fixpoint strncmp0 (a b : cstring) (n : nat) : bool :=
  match n with
  | O => true
  | S n =>
      let ca := default NUL (head a) in
      let cb := default NUL (head b) in
      if Ascii.eqb ca cb then Ascii.eqb ca NUL || strncmp0 (tail a) (tail b) n else false
  end.

(** An [int] in memory. *)
Definition int_bytes (i : Z) : cstring :=
  [char_of_Z i; char_of_Z (i / 2 ^ 8); char_of_Z (i / 2 ^ 16); char_of_Z (i / 2 ^ 24)].
Definition int_of_bytes (b : cstring) : Z :=
  s32 (fold_right (fun c z => Z_of_char c + 2 ^ 8 * z) 0 b).

(** [strcmp] does not return a positive number. *)
Definition str_le (a b : cstring) : Prop := str_ltb b a = false.
#[global] Instance str_le_dec : RelDecision str_le.
Proof. unfold str_le. solve_decision. Defined.

(** [sprintf] into a buffer of 512 bytes, with the formats "%s/%s" and "%s/%s-%d". *)
Definition sprintf (n : cstring) : prog cstring :=
  _ ← defined (Z.of_nat (length n) <? 512); Done n.
Definition file_path (d f : cstring) : cstring := d ++ cs "/" ++ f.
Definition nth_name (prefix : cstring) (i : Z) : cstring := prefix ++ cs "-" ++ print_dec i.

(** * The functions of test-lab-3-b.c *)

Definition create1 (d f inp : cstring) : prog unit :=
  n ← sprintf (file_path d f);
  r ← sys (Creat n);
  let fd := r_ret r in
  _ ← check (negb (fd <? 0));
  r ← sys (Write fd inp);
  _ ← check (r_ret r =? Z.of_nat (length inp));
  r ← sys (Close fd);
  check (r_ret r =? 0).

(** [buf] has [sz] bytes. *)
Definition check1_sized (sz : nat) (d f inp : cstring) : prog unit :=
  n ← sprintf (file_path d f);
  r ← sys (Open n O_RDONLY);
  let fd := r_ret r in
  _ ← check (negb (fd <? 0));
  r ← sys (Read fd (sz - 1));
  _ ← check (r_ret r =? Z.of_nat (length inp));
  _ ← sys (Close fd);
  check (strncmp0 (r_data r) inp (length n)).
Definition check1 : cstring -> cstring -> cstring -> prog unit := check1_sized (Z.to_nat 21000).

Definition unlink1 (d f : cstring) : prog unit :=
  n ← sprintf (file_path d f);
  r ← sys (Unlink n);
  check (r_ret r =? 0).

Definition checknot (d f : cstring) : prog unit :=
  n ← sprintf (file_path d f);
  r ← sys (Open n O_RDONLY);
  check (negb (0 <=? r_ret r)).

Definition append1 (d f inp : cstring) : prog unit :=
  n ← sprintf (file_path d f);
  r ← sys (Open n O_WRONLY_APPEND);
  let fd := r_ret r in
  _ ← check (negb (fd <? 0));
  r ← sys (Write fd inp);
  _ ← check (r_ret r =? Z.of_nat (length inp));
  r ← sys (Close fd);
  check (r_ret r =? 0).

Definition EEXIST : Z := 17.
(** The loop that writes [n] characters one at a time. *)
Fixpoint write1_loop (fd : Z) (n : nat) (c : ascii) : prog unit :=
  match n with
  | O => Done tt
  | S n =>
      r ← sys (Write fd [c]);
      _ ← check (r_ret r =? 1);
      r ← sys (Fsync fd);
      _ ← check (r_ret r =? 0);
      write1_loop fd n c
  end.
Definition write1 (d f : cstring) (start : Z) (n : nat) (c : ascii) : prog unit :=
  name ← sprintf (file_path d f);
  r ← sys (Open name O_WRONLY_CREAT);
  r ← (if (r_ret r <? 0) && (r_errno r =? EEXIST) then sys (Open name O_WRONLY) else Done r);
  let fd := r_ret r in
  _ ← check (negb (fd <? 0));
  r ← sys (Lseek fd start);
  _ ← check (r_ret r =? start);
  _ ← write1_loop fd n c;
  r ← sys (Close fd);
  check (r_ret r =? 0).

Fixpoint checkread_loop (fd : Z) (n : nat) (c : ascii) : prog unit :=
  match n with
  | O => Done tt
  | S n =>
      r ← sys (Read fd 1);
      _ ← check (r_ret r =? 1);
      _ ← check (bool_decide (head (r_data r) = Some c));
      checkread_loop fd n c
  end.
Definition checkread (d f : cstring) (start : Z) (n : nat) (c : ascii) : prog unit :=
  name ← sprintf (file_path d f);
  r ← sys (Open name O_RDONLY);
  let fd := r_ret r in
  _ ← check (negb (fd <? 0));
  r ← sys (Lseek fd start);
  _ ← check (r_ret r =? start);
  _ ← checkread_loop fd n c;
  _ ← sys (Close fd);
  Done tt.

(** [k] rounds of the loop, from [i] on. *)
Fixpoint createn_from (k : nat) (i : Z) (d prefix : cstring) (possible_dup : bool) : prog unit :=
  match k with
  | O => Done tt
  | S k =>
      n ← sprintf (file_path d (nth_name prefix i));
      r ← sys (Creat n);
      let fd := r_ret r in
      if (fd <? 0) && possible_dup && (r_errno r =? EEXIST)
      then createn_from k (i + 1) d prefix possible_dup
      else
        _ ← check (negb (fd <? 0));
        r ← sys (Write fd (int_bytes i));
        _ ← check (r_ret r =? 4);
        r ← sys (Close fd);
        _ ← check (r_ret r =? 0);
        createn_from k (i + 1) d prefix possible_dup
  end.
Definition createn (d prefix : cstring) (nf : nat) (possible_dup : bool) : prog unit :=
  createn_from nf 0 d prefix possible_dup.

Fixpoint checkn_from (k : nat) (i : Z) (d prefix : cstring) : prog unit :=
  match k with
  | O => Done tt
  | S k =>
      n ← sprintf (file_path d (nth_name prefix i));
      r ← sys (Open n O_RDONLY);
      let fd := r_ret r in
      _ ← check (negb (fd <? 0));
      r ← sys (Read fd 4);
      _ ← check (r_ret r =? 4);
      _ ← check (int_of_bytes (r_data r) =? i);
      _ ← sys (Close fd);
      checkn_from k (i + 1) d prefix
  end.
Definition checkn (d prefix : cstring) (nf : nat) : prog unit := checkn_from nf 0 d prefix.

Fixpoint unlinkn_from (k : nat) (i : Z) (d prefix : cstring) : prog unit :=
  match k with
  | O => Done tt
  | S k =>
      n ← sprintf (file_path d (nth_name prefix i));
      r ← sys (Unlink n);
      _ ← check (r_ret r =? 0);
      unlinkn_from k (i + 1) d prefix
  end.
Definition unlinkn (d prefix : cstring) (nf : nat) : prog unit := unlinkn_from nf 0 d prefix.

(** Names that do not begin with a dot. *)
Definition visible (n : cstring) : bool := bool_decide (head n <> Some "."%char).
(** [qsort] with [compar], and the loop that compares neighbours. *)
Fixpoint no_twins (l : list cstring) : bool :=
  match l with
  | a :: (b :: _) as l' => negb (str_eqb a b) && no_twins l'
  | _ => true
  end.
(** What it makes of the directory; [names] has room for 1000 entries. *)
Definition dircheck_entries (nf : nat) (r : reply) : prog unit :=
  _ ← check (r_ret r =? 0);
  let names := filter visible (r_names r) in
  _ ← defined (Nat.leb (length names) (Z.to_nat 1000));
  _ ← check (Nat.eqb nf (length names));
  check (no_twins (merge_sort str_le names)).
Definition dircheck (d : cstring) (nf : nat) : prog unit := r ← sys (Readdir d); dircheck_entries nf r.

(** * The main functions *)

(** The calls of the functions above, in the directory [d1] or [d2]. *)
Inductive side := D1 | D2.
Inductive cmd :=
| CCreate1 (s : side) (f inp : cstring) | CCheck1 (s : side) (f inp : cstring)
| CUnlink1 (s : side) (f : cstring) | CChecknot (s : side) (f : cstring)
| CAppend1 (s : side) (f inp : cstring)
| CWrite1 (s : side) (f : cstring) (start : Z) (n : nat) (c : ascii)
| CCheckread (s : side) (f : cstring) (start : Z) (n : nat) (c : ascii)
| CCreaten (s : side) (prefix : cstring) (nf : nat) (possible_dup : bool)
| CCheckn (s : side) (prefix : cstring) (nf : nat)
| CUnlinkn (s : side) (prefix : cstring) (nf : nat)
| CDircheck (s : side) (nf : nat).

Definition run_cmd (d : side -> cstring) (c : cmd) : prog unit :=
  match c with
  | CCreate1 s f inp => create1 (d s) f inp
  | CCheck1 s f inp => check1 (d s) f inp
  | CUnlink1 s f => unlink1 (d s) f
  | CChecknot s f => checknot (d s) f
  | CAppend1 s f inp => append1 (d s) f inp
  | CWrite1 s f start n c => write1 (d s) f start n c
  | CCheckread s f start n c => checkread (d s) f start n c
  | CCreaten s prefix nf dup => createn (d s) prefix nf dup
  | CCheckn s prefix nf => checkn (d s) prefix nf
  | CUnlinkn s prefix nf => unlinkn (d s) prefix nf
  | CDircheck s nf => dircheck (d s) nf
  end.
Fixpoint run_cmds (d : side -> cstring) (l : list cmd) : prog unit :=
  match l with [] => Done tt | c :: l => _ ← run_cmd d c; run_cmds d l end.

(** [mkdir] and [access], with their error branches. *)
Definition mkdir (d : cstring) : prog unit := r ← sys (Mkdir d); check (r_ret r =? 0).
Definition access (d : cstring) : prog unit := r ← sys (Access d); check (r_ret r =? 0).

Module lab_3_b.
Definition big : cstring := replicate (Z.to_nat 20000) "x"%char.
Definition huge : cstring := replicate (Z.to_nat (65536 * 2)) "0"%char.

(** [sprintf(d1, "%s/d%d", argv[1], getpid())]. *)
Definition dir_name (pid : Z) : cstring := cs "d" ++ print_dec pid.
Definition dirs (argv1 argv2 : cstring) (pid : Z) (s : side) : cstring :=
  file_path (match s with D1 => argv1 | D2 => argv2 end) (dir_name pid).

Definition set_up (argv1 argv2 : cstring) (pid : Z) : prog unit :=
  d1 ← sprintf (dirs argv1 argv2 pid D1);
  _ ← mkdir d1;
  d2 ← sprintf (dirs argv1 argv2 pid D2);
  access d2.

Definition sequential : list cmd := [
  (* Create then read *)
  CCreate1 D1 (cs "f1") (cs "aaa"); CCheck1 D2 (cs "f1") (cs "aaa"); CCheck1 D1 (cs "f1") (cs "aaa");
  (* Unlink *)
  CUnlink1 D2 (cs "f1"); CCreate1 D1 (cs "fx1") (cs "fxx"); CUnlink1 D1 (cs "fx1");
  CChecknot D1 (cs "f1"); CChecknot D2 (cs "f1");
  CCreate1 D1 (cs "f2") (cs "222"); CUnlink1 D2 (cs "f2"); CChecknot D1 (cs "f2"); CChecknot D2 (cs "f2");
  CCreate1 D1 (cs "f3") (cs "333"); CCheck1 D2 (cs "f3") (cs "333"); CCheck1 D1 (cs "f3") (cs "333");
  CUnlink1 D1 (cs "f3"); CCreate1 D2 (cs "fx2") (cs "22"); CUnlink1 D2 (cs "fx2");
  CChecknot D2 (cs "f3"); CChecknot D1 (cs "f3");
  (* Append *)
  CCreate1 D2 (cs "f1") (cs "aaa"); CAppend1 D1 (cs "f1") (cs "bbb"); CAppend1 D2 (cs "f1") (cs "ccc");
  CCheck1 D1 (cs "f1") (cs "aaabbbccc"); CCheck1 D2 (cs "f1") (cs "aaabbbccc");
  (* Readdir *)
  CDircheck D1 1; CDircheck D2 1; CUnlink1 D1 (cs "f1"); CDircheck D1 0; CDircheck D2 0;
  CCreate1 D2 (cs "f2") (cs "aaa"); CCreate1 D1 (cs "f3") (cs "aaa"); CDircheck D1 2; CDircheck D2 2;
  CUnlink1 D2 (cs "f2"); CDircheck D2 1; CDircheck D1 1;
  CUnlink1 D2 (cs "f3"); CDircheck D1 0; CDircheck D2 0;
  (* Many sequential creates *)
  CCreaten D1 (cs "aa") 10 false; CCreaten D2 (cs "bb") 10 false; CDircheck D2 20;
  CCheckn D2 (cs "bb") 10; CCheckn D2 (cs "aa") 10; CCheckn D1 (cs "aa") 10; CCheckn D1 (cs "bb") 10;
  CUnlinkn D1 (cs "aa") 10; CUnlinkn D2 (cs "bb") 10;
  (* Write 20000 bytes *)
  CCreate1 D1 (cs "bf") big; CCheck1 D1 (cs "bf") big; CCheck1 D2 (cs "bf") big; CUnlink1 D1 (cs "bf")].

(** Concurrent creates. *)
Definition creates_child : list cmd := [CCreaten D2 (cs "xx") 20 false].
Definition creates_parent : list cmd := [CCreaten D1 (cs "yy") 20 false].
Definition after_creates : list cmd := [
  CDircheck D1 40; CCheckn D1 (cs "xx") 20; CCheckn D2 (cs "yy") 20;
  CUnlinkn D1 (cs "xx") 20; CUnlinkn D1 (cs "yy") 20].
(** Concurrent creates of the same file. *)
Definition same_child (s : side) : list cmd := [CCreaten s (cs "zz") 20 true].
Definition same_parent : list cmd := [CCreaten D1 (cs "zz") 20 true; CDircheck D1 20].
Definition after_same : list cmd := [
  CCheckn D1 (cs "zz") 20; CCheckn D2 (cs "zz") 20; CUnlinkn D1 (cs "zz") 20;
  CCreaten D1 (cs "x1") 20 false; CCreaten D2 (cs "x2") 20 false].
(** Concurrent create/delete. *)
Definition delete_child : list cmd := [CUnlinkn D2 (cs "x1") 20; CCreaten D1 (cs "x3") 20 false].
Definition delete_parent : list cmd := [CCreaten D1 (cs "x4") 20 false].
Definition after_delete : list cmd := [
  CUnlinkn D2 (cs "x2") 20; CUnlinkn D2 (cs "x4") 20; CUnlinkn D2 (cs "x3") 20; CDircheck D1 0].
(** Concurrent creates, same file, same server. *)
Definition after_same_server : list cmd := [
  CCheckn D1 (cs "zz") 20; CUnlinkn D1 (cs "zz") 20; CCreate1 D1 (cs "www") huge].
(** Concurrent writes to different parts of same file. *)
Definition writes_child : list cmd := [CWrite1 D2 (cs "www") 65536 64 "2"%char].
Definition writes_parent : list cmd := [CWrite1 D1 (cs "www") 0 64 "1"%char].
Definition after_writes : list cmd := [
  CCheckread D1 (cs "www") 0 64 "1"%char; CCheckread D2 (cs "www") 0 64 "1"%char;
  CCheckread D1 (cs "www") 65536 64 "2"%char; CCheckread D2 (cs "www") 65536 64 "2"%char].

Definition main (argv1 argv2 : cstring) (pid : Z) : list phase :=
  let run := run_cmds (dirs argv1 argv2 pid) in
  [Solo (set_up argv1 argv2 pid); Solo (run sequential);
   Forked (run creates_child) (run creates_parent); Solo (run after_creates);
   Forked (run (same_child D2)) (run same_parent); Solo (run after_same);
   Forked (run delete_child) (run delete_parent); Solo (run after_delete);
   Forked (run (same_child D1)) (run same_parent); Solo (run after_same_server);
   Forked (run writes_child) (run writes_parent); Solo (run after_writes)].
End lab_3_b.

Module lab_3_c.
(** Its functions are written out again in the program: [check1] has a smaller buffer and [createn]
    does not allow for files that are there already; the others are the same.  [main] uses [createn],
    [unlinkn] and [dircheck] only. *)
Definition create1 : cstring -> cstring -> cstring -> prog unit := create1.
Definition check1 : cstring -> cstring -> cstring -> prog unit := check1_sized 512.
Definition unlink1 : cstring -> cstring -> prog unit := unlink1.
Definition checknot : cstring -> cstring -> prog unit := checknot.
Definition append1 : cstring -> cstring -> cstring -> prog unit := append1.
Definition createn (d prefix : cstring) (nf : nat) : prog unit := createn d prefix nf false.
Definition checkn : cstring -> cstring -> nat -> prog unit := checkn.
Definition unlinkn : cstring -> cstring -> nat -> prog unit := unlinkn.
Definition dircheck : cstring -> nat -> prog unit := dircheck.

Definition dirs (argv1 argv2 : cstring) (pid : Z) (s : side) : cstring :=
  match s with
  | D1 => file_path argv1 (cs "da" ++ print_dec pid)
  | D2 => file_path argv2 (cs "db" ++ print_dec pid)
  end.
Definition set_up (argv1 argv2 : cstring) (pid : Z) : prog unit :=
  d1 ← sprintf (dirs argv1 argv2 pid D1);
  _ ← mkdir d1;
  d2 ← sprintf (dirs argv1 argv2 pid D2);
  _ ← mkdir d2;
  dd ← sprintf (file_path argv2 (cs "da" ++ print_dec pid));
  access dd.
Definition child (d : side -> cstring) : prog unit :=
  _ ← createn (d D2) (cs "xx") 100;
  _ ← unlinkn (d D2) (cs "xx") 99;
  Done tt.
Definition parent (d : side -> cstring) : prog unit :=
  _ ← createn (d D1) (cs "yy") 100;
  _ ← unlinkn (d D1) (cs "yy") 99;
  Done tt.
Definition reaped (d : side -> cstring) : prog unit :=
  _ ← dircheck (d D1) 1;
  _ ← dircheck (d D2) 1;
  Done tt.
Definition main (argv1 argv2 : cstring) (pid : Z) : list phase :=
  let d := dirs argv1 argv2 pid in
  [Solo (set_up argv1 argv2 pid); Forked (child d) (parent d); Solo (reaped d)].
End lab_3_c.
