(* ===== verification/LabPasses.v ===== *)
(** The test programs of the file system pass.

    What each function of [LabTests] does to the files it uses, for any ideal operating system
    ([Posix.ideal]) and any interference with other files; a prediction of what a list of commands
    leaves behind, which is computed; and the theorems about both programs. *)
From Stdlib Require Import ZArith Lia Ascii String Sorting.Sorted.
From stdpp Require Import base gmap list strings sorting relations.
From S2P Require Import Prelude TextIO Posix LabTests.
Local Open Scope Z_scope.

(** * Directories are checked for duplicates *)

#[global] Instance str_le_trans : Transitive str_le.
Proof.
  unfold str_le. intros a b c Hab Hbc. destruct (str_ltb c a) eqn:E; [|done].
  destruct (str_ltb_total a b) as [H|[->|H]]; [|congruence|congruence].
  pose proof (str_ltb_trans _ _ _ E H). congruence.
Qed.
#[global] Instance str_le_total : Total str_le.
Proof.
  intros a b. unfold str_le. destruct (str_ltb_total a b) as [H|[->|H]].
  - left. by apply str_ltb_asym.
  - left. apply str_ltb_irrefl.
  - right. by apply str_ltb_asym.
Qed.
#[global] Instance str_le_antisym : AntiSymm eq str_le.
Proof. unfold str_le. intros a b Hab Hba. destruct (str_ltb_total a b) as [H|[H|H]]; congruence. Qed.

Lemma no_twins_nodup l : StronglySorted str_le l -> no_twins l = true <-> NoDup l.
Proof.
  induction 1 as [|a l Hs IH Ha]; [by split; [constructor|]|]. rewrite NoDup_cons, <- IH.
  destruct l as [|b l]; [split; [intros _; split; [apply not_elem_of_nil|done]|done]|].
  cbn [no_twins]. rewrite andb_true_iff, negb_true_iff, str_eqb_neq.
  split; intros [Hn Ht]; (split; [|done]).
  - intros Hin. apply Hn. apply elem_of_cons in Hin as [->|Hin]; [done|].
    apply Forall_cons in Ha as [Hab _]. inversion Hs as [|? ? _ Hb]; subst.
    apply (anti_symm str_le); [done|]. by eapply Forall_forall in Hb.
  - intros ->. apply Hn. by left.
Qed.
Lemma no_twins_sorted l : no_twins (merge_sort str_le l) = true <-> NoDup l.
Proof.
  rewrite no_twins_nodup by apply (StronglySorted_merge_sort str_le). by rewrite merge_sort_Permutation.
Qed.

(** What the check makes of the entries of a directory that could be read. *)
Lemma dircheck_entries_spec nf r : r_ret r = 0 ->
  let names := filter visible (r_names r) in
  dircheck_entries nf r =
    if decide (Z.to_nat 1000 < length names)%nat then Fail Undefined
    else if decide (nf = length names /\ NoDup names) then Done tt else Fail Exited.
Proof.
  intros Hr names. unfold dircheck_entries. rewrite Hr. cbn [Z.eqb check mbind prog_bind]. fold names.
  unfold defined. destruct (decide _) as [Hlt|Hge].
  - by rewrite (proj2 (Nat.leb_gt _ _) Hlt).
  - rewrite (proj2 (Nat.leb_le _ _)) by lia. cbn [mbind prog_bind]. unfold check.
    destruct (Nat.eqb_spec nf (length names)) as [->|Hne]; cbn [mbind prog_bind].
    + destruct (no_twins _) eqn:E; [apply no_twins_sorted in E; by rewrite decide_True|].
      rewrite decide_False; [done|]. intros [_ Hn]. apply no_twins_sorted in Hn. congruence.
    + rewrite decide_False; [done|]. by intros [? _].
Qed.

(** C37 (directories are checked for duplicates): the entries of a directory pass just if it could be
    read, has as many visible entries as expected, not more than the array has room for, and none of
    them twice, in whatever order they come: sorting them and comparing neighbours finds every
    duplicate.  The program writes past the end of its array just if there are more than a thousand. *)
Theorem dircheck_accepts nf r :
  let names := filter visible (r_names r) in
  (dircheck_entries nf r = Done tt <->
     r_ret r = 0 /\ length names = nf /\ (nf <= Z.to_nat 1000)%nat /\ NoDup names) /\
  (dircheck_entries nf r = Fail Undefined <-> r_ret r = 0 /\ (Z.to_nat 1000 < length names)%nat).
Proof.
  intros names. destruct (Z.eq_dec (r_ret r) 0) as [Hr|Hr].
  - rewrite dircheck_entries_spec by exact Hr. cbv zeta. fold names.
    destruct (decide (Z.to_nat 1000 < length names)%nat) as [Hlt|Hge].
    + split; [|done]. split; [done|]. intros (_ & <- & ? & _). lia.
    + destruct (decide (nf = length names /\ NoDup names)) as [[-> Hn]|Hn].
      * split; [|split; [done|lia]]. split; [|done]. intros _. split_and!; [done|done|lia|done].
      * split; [|split; [done|lia]]. split; [done|]. intros (_ & <- & _ & ?). by destruct Hn.
  - unfold dircheck_entries. rewrite (proj2 (Z.eqb_neq _ _) Hr). cbn [check mbind prog_bind].
    split; (split; [done|]); by intros [? _].
Qed.

(** * What the functions do *)

(** [d] is the path of directory [dd]. *)
Definition at_dir (locate : cstring -> option location) (d dd : cstring) : Prop :=
  locate d = Some (LDir dd) /\ (forall f, plain f -> locate (file_path d f) = Some (LFile (dd, f))) /\
  (length d <= 300)%nat.
Definition name_ok (f : cstring) : Prop := plain f /\ (length f <= 100)%nat.
#[global] Instance plain_dec f : Decision (plain f).
Proof. unfold plain. apply _. Defined.
#[global] Instance name_ok_dec f : Decision (name_ok f).
Proof. unfold name_ok, plain. apply _. Defined.

Lemma sprintf_ok n : (length n < 512)%nat -> sprintf n = Done n.
Proof. intros Hn. unfold sprintf. by assert ((Z.of_nat (length n) <? 512) = true) as -> by lia. Qed.
Lemma strncmp0_refl a n : strncmp0 a a n = true.
Proof.
  revert a. induction n as [|n IH]; intros a; cbn [strncmp0]; [done|].
  rewrite Ascii.eqb_refl, IH. apply orb_true_r.
Qed.
Lemma int_bytes_back i : 0 <= i < 2 ^ 31 -> int_of_bytes (int_bytes i) = i.
Proof.
  intros Hi. unfold int_of_bytes, int_bytes. cbn [fold_right]. rewrite !Z_of_char_of_Z. unfold u8, s32.
  Z.to_euclidean_division_equations. lia.
Qed.
Lemma write_at_new s : write_at [] 0 s = s.
Proof. unfold write_at. by rewrite drop_nil, app_nil_r. Qed.
Lemma write_at_end b s : write_at b (length b) s = b ++ s.
Proof. unfold write_at. rewrite take_ge by lia. by rewrite drop_ge, app_nil_r by lia. Qed.

(** The next system call, and the next check. *)
Ltac fd_simpl := rewrite ?insert_insert_eq, ?delete_insert_eq, ?insert_empty, ?delete_singleton_eq.
Ltac wp_check tac :=
  match goal with |- context [check ?b] => assert (b = true) as -> by tac end;
  cbn [check mbind prog_bind].

(** The files that the loops create, expect and remove: [k] of them, from number [i] on. *)
Fixpoint created (dd prefix : cstring) (k : nat) (i : Z) (M : gmap file cstring) : gmap file cstring :=
  match k with
  | O => M
  | S k => created dd prefix k (i + 1) (<[(dd, nth_name prefix i) := int_bytes i]> M)
  end.
Fixpoint expected (dd prefix : cstring) (k : nat) (i : Z) (M : gmap file cstring) : bool :=
  match k with
  | O => true
  | S k => bool_decide (M !! (dd, nth_name prefix i) = Some (int_bytes i)) && expected dd prefix k (i + 1) M
  end.
Fixpoint removed (dd prefix : cstring) (k : nat) (i : Z) (M : gmap file cstring) : option (gmap file cstring) :=
  match k with
  | O => Some M
  | S k => _ ← M !! (dd, nth_name prefix i);
      removed dd prefix k (i + 1) (delete (dd, nth_name prefix i) M)
  end.
(** The names that begin with [prefix] are in order. *)
Definition prefix_ok (prefix : cstring) : Prop := ("/"%char ∉ prefix) /\ (length prefix <= 50)%nat.
#[global] Instance prefix_ok_dec p : Decision (prefix_ok p).
Proof. unfold prefix_ok. apply _. Defined.
Lemma print_dec_length n : (length (print_dec n) <= 20)%nat.
Proof.
  unfold print_dec. assert (forall fuel m acc, (length (dec_digits fuel m acc) <= fuel + length acc)%nat) as Hd.
  { induction fuel as [|fuel IH]; intros m acc; cbn [dec_digits]; [lia|].
    destruct (m <? 10); [simpl; lia|]. specialize (IH (m / 10) (digit (m mod 10) :: acc)). simpl in IH. lia. }
  specialize (Hd 20%nat n []). cbn [length] in Hd. lia.
Qed.
Lemma slash_not_digit n : "/"%char ∉ print_dec n.
Proof.
  intros Hin. pose proof (print_dec_digits n) as Hd. rewrite Forall_forall in Hd.
  by specialize (Hd _ Hin).
Qed.
Lemma nth_name_ok prefix i : prefix_ok prefix -> name_ok (nth_name prefix i).
Proof.
  intros [Hs Hl]. pose proof (print_dec_length i). pose proof (slash_not_digit i). unfold nth_name.
  split; [split|].
  - intros E. apply app_eq_nil in E as [_ E]. done.
  - rewrite !elem_of_app. intros [?|[Hin|?]]; [done| |done].
    apply list_elem_of_singleton in Hin. done.
  - rewrite !length_app. change (length (cs "-")) with 1%nat. lia.
Qed.

(** The names in a directory, up to their order. *)
Abbreviation names_of := (fun (M : gmap file cstring) dd => dir_names (View ∅ M ∅) dd).
Lemma dir_names_elem v dd n : n ∈ dir_names v dd <-> is_Some (v_files v !! (dd, n)).
Proof.
  unfold dir_names. rewrite list_elem_of_fmap. split.
  - intros ([[d f] b] & -> & Hin). apply list_elem_of_filter in Hin as [Hd Hin]. simpl in *. subst.
    exists b. by apply elem_of_map_to_list.
  - intros [b Hb]. exists ((dd, n), b). split; [done|]. apply list_elem_of_filter. split; [done|].
    by apply elem_of_map_to_list.
Qed.
Lemma dir_names_nodup v dd : NoDup (dir_names v dd).
Proof.
  unfold dir_names. pose proof (NoDup_fst_map_to_list (v_files v)) as Hn.
  induction (map_to_list (v_files v)) as [|[[d f] b] l IH]; [constructor|]. rewrite fmap_cons in Hn.
  apply NoDup_cons in Hn as [Hf Hn]. rewrite filter_cons. destruct (decide _) as [Hd|]; [|by apply IH].
  simpl in Hd. subst. cbn [fmap list_fmap]. apply NoDup_cons. split; [|by apply IH].
  intros Hin. apply list_elem_of_fmap in Hin as ([[d' f'] b'] & E & Hin). apply list_elem_of_filter in Hin as [Hd Hin].
  simpl in *. subst. apply Hf. apply list_elem_of_fmap. by exists ((dd, f'), b').
Qed.

Section functions.
  Variables (locate : cstring -> option location) (pid : bool) (own : file -> Prop).
  Variables (R G : relation view) (D : gset cstring) (other : file -> Prop).
  Hypothesis Hdisj : forall f, own f -> other f -> False.
  Hypothesis HR : forall v v', R v v' -> changes (negb pid) other v v'.
  Hypothesis HG : forall v v', changes pid own v v' -> G v v'.
  Variables (d dd : cstring).
  Hypothesis Hd : at_dir locate d dd.
  Hypothesis HD : dd ∈ D.

Abbreviation wpo := (wp locate pid R G).
Abbreviation holds := (fun M => has pid own D M ∅).
Ltac wp_sys L := eapply (L locate pid own R G D other Hdisj HR HG).

Lemma path_ok f : name_ok f ->
  sprintf (file_path d f) = Done (file_path d f) /\ locate (file_path d f) = Some (LFile (dd, f)).
Proof.
  intros [Hp Hl]. destruct Hd as (_ & Hloc & Hlen). split; [|by apply Hloc].
  apply sprintf_ok. unfold file_path. rewrite !length_app. change (length (cs "/")) with 1%nat. lia.
Qed.

Lemma create1_wp f inp M v (Q : unit -> view -> Prop) :
  name_ok f -> own (dd, f) -> holds M v -> (forall v', holds (<[(dd, f) := inp]> M) v' -> Q tt v') ->
  wpo (create1 d f inp) Q v.
Proof.
  intros Hf Ho Hv HQ. destruct (path_ok f Hf) as [Hs Hl]. unfold create1. rewrite Hs.
  cbn [mbind prog_bind sys]. wp_sys @wp_creat; [exact Hv|exact Hl|exact Ho|exact HD|].
  intros r v1 Hr0 _ H1. wp_check lia.
  wp_sys @wp_write; [exact H1|apply lookup_insert_eq|exact Ho|done|apply lookup_insert_eq|simpl; lia|].
  cbn [d_file d_off d_append d_write length]. rewrite write_at_new. fd_simpl.
  intros r2 v2 Hr2 H2. wp_check lia.
  wp_sys @wp_close; [exact H2|apply lookup_insert_eq|]. fd_simpl. intros r3 v3 Hr3 H3. wp_check lia. by apply HQ.
Qed.

Lemma check1_wp f inp M v (Q : unit -> view -> Prop) :
  name_ok f -> own (dd, f) -> holds M v -> M !! (dd, f) = Some inp -> (length inp < Z.to_nat 21000)%nat ->
  (forall v', holds M v' -> Q tt v') -> wpo (check1 d f inp) Q v.
Proof.
  intros Hf Ho Hv Hm Hlen HQ. destruct (path_ok f Hf) as [Hs Hl]. unfold check1, check1_sized. rewrite Hs.
  cbn [mbind prog_bind sys]. wp_sys @wp_open; [exact Hv|exact Hl|exact Ho|exact HD|exact Hm|].
  intros r v1 Hr0 _ H1. wp_check lia.
  wp_sys @wp_read; [exact H1|apply lookup_insert_eq|exact Ho|done|exact Hm|].
  cbn [flags_desc d_file d_off d_append d_write]. rewrite drop_0, take_ge by lia. fd_simpl.
  intros r2 v2 Hd2 Hr2 H2. rewrite Hd2 in *. wp_check lia.
  wp_sys @wp_close; [exact H2|apply lookup_insert_eq|]. fd_simpl. intros r3 v3 _ H3.
  wp_check ltac:(apply strncmp0_refl). by apply HQ.
Qed.

Lemma unlink1_wp f b M v (Q : unit -> view -> Prop) :
  name_ok f -> own (dd, f) -> holds M v -> M !! (dd, f) = Some b ->
  (forall v', holds (delete (dd, f) M) v' -> Q tt v') -> wpo (unlink1 d f) Q v.
Proof.
  intros Hf Ho Hv Hm HQ. destruct (path_ok f Hf) as [Hs Hl]. unfold unlink1. rewrite Hs.
  cbn [mbind prog_bind sys]. wp_sys @wp_unlink; [exact Hv|exact Hl|exact Ho|exact Hm|done|].
  intros r v1 Hr H1. wp_check lia. by apply HQ.
Qed.

Lemma checknot_wp f M v (Q : unit -> view -> Prop) :
  name_ok f -> own (dd, f) -> holds M v -> M !! (dd, f) = None ->
  (forall v', holds M v' -> Q tt v') -> wpo (checknot d f) Q v.
Proof.
  intros Hf Ho Hv Hm HQ. destruct (path_ok f Hf) as [Hs Hl]. unfold checknot. rewrite Hs.
  cbn [mbind prog_bind sys]. wp_sys @wp_open_missing; [exact Hv|exact Hl|exact Ho|exact HD|exact Hm|].
  intros r v1 Hr H1. wp_check lia. by apply HQ.
Qed.

Lemma append1_wp f inp b M v (Q : unit -> view -> Prop) :
  name_ok f -> own (dd, f) -> holds M v -> M !! (dd, f) = Some b ->
  (forall v', holds (<[(dd, f) := b ++ inp]> M) v' -> Q tt v') -> wpo (append1 d f inp) Q v.
Proof.
  intros Hf Ho Hv Hm HQ. destruct (path_ok f Hf) as [Hs Hl]. unfold append1. rewrite Hs.
  cbn [mbind prog_bind sys]. wp_sys @wp_open; [exact Hv|exact Hl|exact Ho|exact HD|exact Hm|].
  intros r v1 Hr0 _ H1. wp_check lia.
  wp_sys @wp_write; [exact H1|apply lookup_insert_eq|exact Ho|done|exact Hm|simpl; lia|].
  cbn [flags_desc d_file d_off d_append d_write]. rewrite write_at_end. fd_simpl.
  intros r2 v2 Hr2 H2. wp_check lia.
  wp_sys @wp_close; [exact H2|apply lookup_insert_eq|]. fd_simpl. intros r3 v3 Hr3 H3. wp_check lia. by apply HQ.
Qed.

(** The bytes from [off] on are read one at a time. *)
Lemma checkread_loop_wp fd f off n c b M v (Q : unit -> view -> Prop) :
  own (dd, f) -> M !! (dd, f) = Some b ->
  (forall j, (off <= j < off + n)%nat -> b !! j = Some c) ->
  has pid own D M {[fd := Desc (dd, f) off false false]} v ->
  (forall v', has pid own D M {[fd := Desc (dd, f) (off + n) false false]} v' -> Q tt v') ->
  wpo (checkread_loop fd n c) Q v.
Proof.
  intros Ho Hm. revert off v. induction n as [|n IH]; intros off v Hc Hv HQ; cbn [checkread_loop].
  - apply HQ. by rewrite Nat.add_0_r.
  - cbn [mbind prog_bind sys]. wp_sys @wp_read; [exact Hv|apply lookup_singleton_eq|exact Ho|done|exact Hm|].
    cbn [d_file d_off d_append d_write].
    assert (take 1 (drop off b) = [c]) as E.
    { pose proof (Hc off ltac:(lia)) as Hj. rewrite (drop_S b c off Hj). done. }
    intros r v1 Hr1 Hr2. rewrite E in Hr1. rewrite Hr1 in *. cbn [length head] in *.
    rewrite insert_singleton_eq. intros H1. wp_check lia. wp_check ltac:(by apply bool_decide_true).
    apply (IH (off + 1)%nat); [intros j Hj; apply Hc; lia|exact H1|].
    intros v' Hv'. apply HQ. by replace (off + S n)%nat with (off + 1 + n)%nat by lia.
Qed.
Lemma checkread_wp f start n c b M v (Q : unit -> view -> Prop) :
  name_ok f -> own (dd, f) -> holds M v -> M !! (dd, f) = Some b -> 0 <= start ->
  take n (drop (Z.to_nat start) b) = replicate n c ->
  (forall v', holds M v' -> Q tt v') -> wpo (checkread d f start n c) Q v.
Proof.
  intros Hf Ho Hv Hm Hst Hb HQ. destruct (path_ok f Hf) as [Hs Hl]. unfold checkread. rewrite Hs.
  cbn [mbind prog_bind sys]. wp_sys @wp_open; [exact Hv|exact Hl|exact Ho|exact HD|exact Hm|].
  intros r v1 Hr0 _ H1. wp_check lia.
  wp_sys @wp_lseek; [exact H1|apply lookup_insert_eq|exact Ho|exact Hst|].
  cbn [flags_desc d_file d_off d_append d_write]. fd_simpl. intros r2 v2 Hr2 H2. wp_check lia.
  assert (forall j, (j < n)%nat -> b !! (Z.to_nat start + j)%nat = Some c) as Hj.
  { intros j Hj. rewrite <- lookup_drop, <- (lookup_take_lt _ n) by done. rewrite Hb. by apply lookup_replicate_2. }
  apply wp_bind. eapply (checkread_loop_wp _ f (Z.to_nat start) n c b).
  - exact Ho.
  - exact Hm.
  - intros j Hjj. replace j with (Z.to_nat start + (j - Z.to_nat start))%nat by lia. apply Hj. lia.
  - exact H2.
  - intros v3 H3. cbn [mbind prog_bind sys]. wp_sys @wp_close; [exact H3|apply lookup_singleton_eq|]. fd_simpl.
    intros r4 v4 _ H4. by apply HQ.
Qed.

Lemma createn_wp prefix k dup i M v (Q : unit -> view -> Prop) :
  prefix_ok prefix -> (forall j, i <= j < i + Z.of_nat k -> own (dd, nth_name prefix j)) -> holds M v ->
  (forall v', holds (created dd prefix k i M) v' -> Q tt v') -> wpo (createn_from k i d prefix dup) Q v.
Proof.
  intros Hp. revert i M v. induction k as [|k IH]; intros i M v Ho Hv HQ; [by apply HQ|].
  destruct (path_ok _ (nth_name_ok prefix i Hp)) as [Hs Hl]. cbn [createn_from]. rewrite Hs.
  pose proof (Ho i ltac:(lia)) as Hoi.
  cbn [mbind prog_bind sys]. wp_sys @wp_creat; [exact Hv|exact Hl|exact Hoi|exact HD|].
  intros r v1 Hr0 _ H1. assert ((r_ret r <? 0) = false) as -> by lia. cbn [andb negb check].
  cbn [mbind prog_bind sys].
  wp_sys @wp_write; [exact H1|apply lookup_insert_eq|exact Hoi|done|apply lookup_insert_eq|simpl; lia|].
  cbn [d_file d_off d_append d_write length]. rewrite write_at_new. fd_simpl.
  intros r2 v2 Hr2 H2. change (length (int_bytes i)) with 4%nat in Hr2. wp_check lia.
  wp_sys @wp_close; [exact H2|apply lookup_insert_eq|]. fd_simpl.
  intros r3 v3 Hr3 H3. wp_check lia. eapply IH; [|exact H3|exact HQ]. intros j Hj. apply Ho. lia.
Qed.

Lemma checkn_wp prefix k i M v (Q : unit -> view -> Prop) :
  prefix_ok prefix -> (forall j, i <= j < i + Z.of_nat k -> own (dd, nth_name prefix j)) -> holds M v ->
  0 <= i -> i + Z.of_nat k < 2 ^ 31 -> expected dd prefix k i M = true ->
  (forall v', holds M v' -> Q tt v') -> wpo (checkn_from k i d prefix) Q v.
Proof.
  intros Hp. revert i v. induction k as [|k IH]; intros i v Ho Hv Hi Hik He HQ; [by apply HQ|].
  destruct (path_ok _ (nth_name_ok prefix i Hp)) as [Hs Hl]. cbn [checkn_from]. rewrite Hs.
  cbn [expected] in He. apply andb_true_iff in He as [Hm He]. apply bool_decide_eq_true in Hm.
  pose proof (Ho i ltac:(lia)) as Hoi.
  cbn [mbind prog_bind sys]. wp_sys @wp_open; [exact Hv|exact Hl|exact Hoi|exact HD|exact Hm|].
  intros r v1 Hr0 _ H1. wp_check lia.
  wp_sys @wp_read; [exact H1|apply lookup_insert_eq|exact Hoi|done|exact Hm|].
  cbn [flags_desc d_file d_off d_append d_write]. rewrite drop_0, take_ge by done. fd_simpl.
  intros r2 v2 Hd2 Hr2 H2. rewrite Hd2 in *. change (length (int_bytes i)) with 4%nat in Hr2.
  wp_check lia. wp_check ltac:(rewrite int_bytes_back by lia; lia).
  wp_sys @wp_close; [exact H2|apply lookup_insert_eq|]. fd_simpl. intros r3 v3 _ H3.
  eapply IH; [intros j Hj; apply Ho; lia|exact H3|lia|lia|exact He|exact HQ].
Qed.

Lemma unlinkn_wp prefix k i M M' v (Q : unit -> view -> Prop) :
  prefix_ok prefix -> (forall j, i <= j < i + Z.of_nat k -> own (dd, nth_name prefix j)) -> holds M v ->
  removed dd prefix k i M = Some M' ->
  (forall v', holds M' v' -> Q tt v') -> wpo (unlinkn_from k i d prefix) Q v.
Proof.
  intros Hp. revert i M v. induction k as [|k IH]; intros i M v Ho Hv Hr HQ.
  { injection Hr as ->. by apply HQ. }
  destruct (path_ok _ (nth_name_ok prefix i Hp)) as [Hs Hl]. cbn [unlinkn_from]. rewrite Hs.
  cbn [removed] in Hr. apply bind_Some in Hr as (b & Hm & Hr).
  cbn [mbind prog_bind sys]. wp_sys @wp_unlink; [exact Hv|exact Hl|apply Ho; lia|exact Hm|done|].
  intros r v1 Hr1 H1. wp_check lia. eapply IH; [|exact H1|exact Hr|exact HQ]. intros j Hj. apply Ho. lia.
Qed.

Lemma dircheck_wp nf M v (Q : unit -> view -> Prop) :
  (forall f, own (dd, f)) -> holds M v -> (nf <= Z.to_nat 1000)%nat ->
  length (filter visible (names_of M dd)) = nf ->
  (forall v', holds M v' -> Q tt v') -> wpo (dircheck d nf) Q v.
Proof.
  intros Ho Hv Hnf Hlen HQ. destruct Hd as (Hl & _ & _). unfold dircheck. cbn [mbind prog_bind sys].
  wp_sys @wp_readdir; [exact Hv|exact Hl|exact HD|]. intros r v1 Hr H1 Hn.
  assert (filter visible (r_names r) ≡ₚ filter visible (names_of M dd)) as Hperm.
  { rewrite Hn. change (filter visible (cs "." :: cs ".." :: dir_names v1 dd)) with (filter visible (dir_names v1 dd)).
    apply filter_Permutation, NoDup_Permutation; [apply dir_names_nodup..|]. intros n.
    rewrite !dir_names_elem. destruct H1 as (_ & E & _). by rewrite E. }
  rewrite dircheck_entries_spec by exact Hr. cbv zeta.
  assert (NoDup (filter visible (r_names r))) as Hnd.
  { rewrite Hperm. apply NoDup_filter, dir_names_nodup. }
  assert (length (filter visible (r_names r)) = nf) as El by (by rewrite Hperm).
  destruct (decide _); [lia|]. destruct (decide _) as [_|Hno]; [by apply HQ|]. by destruct Hno.
Qed.
End functions.

(** * Predictions *)

Section predictions.
  (** The names of the two directories. *)
  Variable dn : side -> cstring.

Definition demand (P : Prop) `{Decision P} (M : gmap file cstring) : option (gmap file cstring) :=
  if decide P then Some M else None.
Lemma demand_Some P `{Decision P} M M' : demand P M = Some M' -> P /\ M' = M.
Proof. unfold demand. destruct (decide P); [|done]. by intros [= <-]. Qed.

(** The files that are there after [c], if it does not fail. *)
Definition predict (c : cmd) (M : gmap file cstring) : option (gmap file cstring) :=
  match c with
  | CCreate1 s f inp => demand (name_ok f) (<[(dn s, f) := inp]> M)
  | CCheck1 s f inp =>
      demand (name_ok f /\ M !! (dn s, f) = Some inp /\ (length inp < Z.to_nat 21000)%nat) M
  | CUnlink1 s f => demand (name_ok f /\ is_Some (M !! (dn s, f))) (delete (dn s, f) M)
  | CChecknot s f => demand (name_ok f /\ M !! (dn s, f) = None) M
  | CAppend1 s f inp => b ← M !! (dn s, f); demand (name_ok f) (<[(dn s, f) := b ++ inp]> M)
  | CWrite1 _ _ _ _ _ => None
  | CCheckread s f start n c =>
      b ← M !! (dn s, f);
      demand (name_ok f /\ 0 <= start /\ take n (drop (Z.to_nat start) b) = replicate n c) M
  | CCreaten s prefix nf _ => demand (prefix_ok prefix) (created (dn s) prefix nf 0 M)
  | CCheckn s prefix nf =>
      demand (prefix_ok prefix /\ Z.of_nat nf < 2 ^ 31 /\ expected (dn s) prefix nf 0 M = true) M
  | CUnlinkn s prefix nf => _ ← demand (prefix_ok prefix) M; removed (dn s) prefix nf 0 M
  | CDircheck s nf =>
      demand ((nf <= Z.to_nat 1000)%nat /\ length (filter visible (names_of M (dn s))) = nf) M
  end.
Fixpoint predict_all (l : list cmd) (M : gmap file cstring) : option (gmap file cstring) :=
  match l with [] => Some M | c :: l => M ← predict c M; predict_all l M end.

(** The files it uses are among [own]. *)
Definition uses (own : file -> Prop) (c : cmd) : Prop :=
  match c with
  | CCreate1 s f _ | CCheck1 s f _ | CUnlink1 s f | CChecknot s f | CAppend1 s f _
  | CWrite1 s f _ _ _ | CCheckread s f _ _ _ => own (dn s, f)
  | CCreaten s p nf _ | CCheckn s p nf | CUnlinkn s p nf =>
      forall j, 0 <= j < 0 + Z.of_nat nf -> own (dn s, nth_name p j)
  | CDircheck s _ => forall f, own (dn s, f)
  end.

Section sound.
  Variables (locate : cstring -> option location) (pid : bool) (own : file -> Prop).
  Variables (R G : relation view) (D : gset cstring) (other : file -> Prop) (d : side -> cstring).
  Hypothesis Hdisj : forall f, own f -> other f -> False.
  Hypothesis HR : forall v v', R v v' -> changes (negb pid) other v v'.
  Hypothesis HG : forall v v', changes pid own v v' -> G v v'.
  Hypothesis Hd : forall s, at_dir locate (d s) (dn s).
  Hypothesis HD : forall s, dn s ∈ D.

Lemma predict_sound c M M' v (Q : unit -> view -> Prop) :
  predict c M = Some M' -> uses own c -> has pid own D M ∅ v ->
  (forall v', has pid own D M' ∅ v' -> Q tt v') -> wp locate pid R G (run_cmd d c) Q v.
Proof.
  intros Hp Hu Hv HQ.
  destruct c as [s f inp|s f inp|s f|s f|s f inp|s f st n c|s f st n c|s p nf dup|s p nf|s p nf|s nf];
    cbn [predict run_cmd uses] in *; try done.
  - apply demand_Some in Hp as [? ->].
    by eapply (create1_wp locate pid own R G D other Hdisj HR HG _ _ (Hd s) (HD s)).
  - apply demand_Some in Hp as [(? & ? & ?) ->].
    by eapply (check1_wp locate pid own R G D other Hdisj HR HG _ _ (Hd s) (HD s)).
  - apply demand_Some in Hp as [(? & [b Hb]) ->].
    by eapply (unlink1_wp locate pid own R G D other Hdisj HR HG _ _ (Hd s)).
  - apply demand_Some in Hp as [(? & ?) ->].
    by eapply (checknot_wp locate pid own R G D other Hdisj HR HG _ _ (Hd s) (HD s)).
  - apply bind_Some in Hp as (b & Hb & Hp). apply demand_Some in Hp as [? ->].
    by eapply (append1_wp locate pid own R G D other Hdisj HR HG _ _ (Hd s) (HD s)).
  - apply bind_Some in Hp as (b & Hb & Hp). apply demand_Some in Hp as [(? & ? & ?) ->].
    by eapply (checkread_wp locate pid own R G D other Hdisj HR HG _ _ (Hd s) (HD s)).
  - apply demand_Some in Hp as [? ->].
    by eapply (createn_wp locate pid own R G D other Hdisj HR HG _ _ (Hd s) (HD s)).
  - apply demand_Some in Hp as [(? & ? & ?) ->].
    by eapply (checkn_wp locate pid own R G D other Hdisj HR HG _ _ (Hd s) (HD s)).
  - apply bind_Some in Hp as (M1 & Hp & Hr). apply demand_Some in Hp as [? ->].
    by eapply (unlinkn_wp locate pid own R G D other Hdisj HR HG _ _ (Hd s)).
  - apply demand_Some in Hp as [(? & ?) ->].
    by eapply (dircheck_wp locate pid own R G D other Hdisj HR HG _ _ (Hd s) (HD s)).
Qed.

Lemma predict_all_sound l M M' v (Q : unit -> view -> Prop) :
  predict_all l M = Some M' -> Forall (uses own) l -> has pid own D M ∅ v ->
  (forall v', has pid own D M' ∅ v' -> Q tt v') -> wp locate pid R G (run_cmds d l) Q v.
Proof.
  intros Hp Hu. revert M v Hp. induction Hu as [|c l Hc _ IH]; intros M v Hp Hv HQ; cbn [run_cmds predict_all] in *.
  - injection Hp as ->. by apply HQ.
  - apply bind_Some in Hp as (M1 & Hp1 & Hp). apply wp_bind. eapply predict_sound; [exact Hp1|exact Hc|exact Hv|].
    intros v1 H1. by eapply IH.
Qed.
End sound.
End predictions.

(** ** The names of the directories do not matter *)

Section renaming.
  (** The directories are called [dn0 s], each with [suffix] at the end. *)
  Variables (dn0 : side -> cstring) (suffix : cstring).
Definition dn (s : side) : cstring := dn0 s ++ suffix.
Definition rename (f : file) : file := (f.1 ++ suffix, f.2).
#[global] Instance rename_inj : Inj (=) (=) rename.
Proof. intros [a f] [b g] [= E ->]. by apply app_inv_tail in E as ->. Qed.
Definition rn (M : gmap file cstring) : gmap file cstring := kmap rename M.

Lemma rn_lookup (M : gmap file cstring) (s : side) (f : cstring) : rn M !! (dn s, f) = M !! (dn0 s, f).
Proof. unfold rn. change (dn s, f) with (rename (dn0 s, f)). apply lookup_kmap, _. Qed.
Lemma rn_insert (M : gmap file cstring) (s : side) (f b : cstring) : <[(dn s, f) := b]> (rn M) = rn (<[(dn0 s, f) := b]> M).
Proof. unfold rn. change (dn s, f) with (rename (dn0 s, f)). by rewrite kmap_insert by apply _. Qed.
Lemma rn_delete (M : gmap file cstring) (s : side) (f : cstring) : delete (dn s, f) (rn M) = rn (delete (dn0 s, f) M).
Proof. unfold rn. change (dn s, f) with (rename (dn0 s, f)). by rewrite kmap_delete by apply _. Qed.

Lemma rn_created (s : side) (p : cstring) (k : nat) (i : Z) (M : gmap file cstring) : created (dn s) p k i (rn M) = rn (created (dn0 s) p k i M).
Proof. revert i M. induction k as [|k IH]; intros i M; cbn [created]; [done|]. by rewrite rn_insert, IH. Qed.
Lemma rn_expected (s : side) (p : cstring) (k : nat) (i : Z) (M : gmap file cstring) : expected (dn s) p k i (rn M) = expected (dn0 s) p k i M.
Proof. revert i. induction k as [|k IH]; intros i; cbn [expected]; [done|]. by rewrite rn_lookup, IH. Qed.
Lemma rn_removed (s : side) (p : cstring) (k : nat) (i : Z) (M M' : gmap file cstring) :
  removed (dn0 s) p k i M = Some M' -> removed (dn s) p k i (rn M) = Some (rn M').
Proof.
  revert i M. induction k as [|k IH]; intros i M; cbn [removed]; [by intros [= ->]|].
  rewrite rn_lookup. intros (b & -> & Hr)%bind_Some. cbn [mbind option_bind]. rewrite rn_delete. by apply IH.
Qed.
Lemma rn_names (s : side) (M : gmap file cstring) :
  length (filter visible (names_of (rn M) (dn s))) = length (filter visible (names_of M (dn0 s))).
Proof.
  apply Permutation_length, filter_Permutation, NoDup_Permutation; [apply dir_names_nodup..|]. intros n.
  rewrite !dir_names_elem. cbn [v_files]. by rewrite rn_lookup.
Qed.

Lemma demand_yes P `{Decision P} M : P -> demand P M = Some M.
Proof. intros. unfold demand. by rewrite decide_True. Qed.
Lemma predict_rename c M M' : predict dn0 c M = Some M' -> predict dn c (rn M) = Some (rn M').
Proof.
  destruct c as [s f inp|s f inp|s f|s f|s f inp|s f st n c|s f st n c|s p nf dup|s p nf|s p nf|s nf];
    cbn [predict]; rewrite ?rn_lookup, ?rn_insert, ?rn_delete, ?rn_created, ?rn_expected, ?rn_names; try done;
    try (intros [HP ->]%demand_Some; by apply demand_yes).
  - intros (b & -> & [HP ->]%demand_Some)%bind_Some. cbn [mbind option_bind]. rewrite rn_insert. by apply demand_yes.
  - intros (b & -> & [HP ->]%demand_Some)%bind_Some. by apply demand_yes.
  - intros (M1 & [HP ->]%demand_Some & Hr)%bind_Some. rewrite demand_yes by done. by apply rn_removed.
Qed.
Lemma predict_all_rename l M M' : predict_all dn0 l M = Some M' -> predict_all dn l (rn M) = Some (rn M').
Proof.
  revert M. induction l as [|c l IH]; intros M; cbn [predict_all]; [by intros [= ->]|].
  intros (M1 & Hc & Hl)%bind_Some. rewrite (predict_rename _ _ _ Hc). by apply IH.
Qed.

(** ** Between the parts of a program *)

  Variables (locate : cstring -> option location) (d : side -> cstring).
  Hypothesis Hd : forall s, at_dir locate (d s) (dn s).

(** The directories are there, their files are as in [M], and no file is open. *)
Definition between (M : gmap file cstring) (v : view) : Prop :=
  (forall s, dn s ∈ v_dirs v) /\ (forall s f, v_files v !! (dn s, f) = M !! (dn0 s, f)) /\
  (forall p, v_fds v !! p = None).
Definition dset : gset cstring := {[dn D1; dn D2]}.
Definition in_dirs (f : file) : Prop := exists s, f.1 = dn s.
Lemma dn_dset s : dn s ∈ dset.
Proof. unfold dset. destruct s; set_solver. Qed.

Lemma between_has M v pid own : (forall f, own f -> in_dirs f) -> between M v -> has pid own dset (rn M) ∅ v.
Proof.
  intros Ho (H1 & H2 & H3). split_and!.
  - unfold dset. pose proof (H1 D1). pose proof (H1 D2). set_solver.
  - intros [x f] [s E]%Ho. simpl in E. subst. by rewrite H2, rn_lookup.
  - intros fd. by rewrite H3, lookup_empty.
  - intros fd e. by rewrite H3.
Qed.

(** What all calls keep. *)
Lemma wp_inv {A} pid (R G : relation view) (p : prog A) Q (I : view -> Prop) v :
  (forall v v', R v v' -> I v -> I v') -> (forall v v', G v v' -> I v -> I v') -> I v ->
  wp locate pid R G p Q v -> wp locate pid R G p (fun a v => Q a v /\ I v) v.
Proof.
  intros HR HG. revert v. induction p as [a|e|c k IH]; intros v HI Hp; [done|done|].
  intros v0 v1 r Hr Hdoc. destruct (Hp v0 v1 r Hr Hdoc) as [Hg Hw]. split; [done|]. apply IH; [|done].
  apply (HG _ _ Hg). clear -Hr HI HR. induction Hr; eauto.
Qed.
Lemma wp_any {A} pid (R G : relation view) (p : prog A) Q v :
  wp locate pid R G p Q v -> wp locate pid R (fun _ _ => True) p Q v.
Proof.
  revert v. induction p as [a|e|c k IH]; intros v Hp; [done|done|].
  intros v0 v1 r Hr Hdoc. destruct (Hp v0 v1 r Hr Hdoc) as [Hg Hw]. split; [done|]. by apply IH.
Qed.

Lemma solo_ok l M M' :
  predict_all dn0 l M = Some M' -> phase_ok locate (between M) (Solo (run_cmds d l)) (between M').
Proof.
  intros Hp v Hv. cbn [phase_ok].
  eapply wp_mono; [|eapply wp_any, (wp_inv true (fun _ _ => False) (changes true in_dirs) _
    (fun _ => has true in_dirs dset (rn M') ∅)
    (fun v => forall fd, v_fds v !! (false, fd) = None)); [done|..]].
  - intros _ v' [(H1 & H2 & H3 & _) Hf]. split_and!.
    + intros s. apply H1, dn_dset.
    + intros s f. rewrite H2 by by exists s. apply rn_lookup.
    + intros [[] fd]; [by rewrite H3, lookup_empty|apply Hf].
  - intros v1 v2 (_ & _ & Hf & _) Hi fd. cbn [negb] in Hf. by rewrite Hf.
  - intros fd. apply Hv.
  - eapply (predict_all_sound dn locate true in_dirs _ _ dset (fun _ => False)); try done.
    + apply dn_dset.
    + by apply predict_all_rename.
    + clear. induction l as [|c l IH]; constructor; [|done]. destruct c; cbn [uses]; intros; by eexists.
    + apply between_has; [done|exact Hv].
Qed.

(** Parent and child use different files: those in [fp] and those in [fq]. *)
Definition footprint (c : cmd) : list file :=
  match c with
  | CCreate1 s f _ | CCheck1 s f _ | CUnlink1 s f | CChecknot s f | CAppend1 s f _
  | CWrite1 s f _ _ _ | CCheckread s f _ _ _ => [(dn0 s, f)]
  | CCreaten s p nf _ | CCheckn s p nf | CUnlinkn s p nf =>
      (fun j => (dn0 s, nth_name p (Z.of_nat j))) <$> seq 0 nf
  | CDircheck _ _ => []
  end.
Definition footprints (l : list cmd) : list file := l ≫= footprint.
Definition local (c : cmd) : bool := match c with CDircheck _ _ => false | _ => true end.
Definition owned (fs : list file) (f : file) : Prop := f ∈ rename <$> fs.
Definition patch (fs : list file) (M1 M : gmap file cstring) : gmap file cstring :=
  foldr (fun f M => partial_alter (fun _ => M1 !! f) f M) M fs.

Lemma footprints_uses l : forallb local l = true -> Forall (uses dn (owned (footprints l))) l.
Proof.
  intros Hl. apply Forall_forall. intros c Hc. rewrite forallb_forall in Hl.
  specialize (Hl c (proj1 (list_elem_of_In _ _) Hc)).
  assert (forall f, f ∈ footprint c -> owned (footprints l) (rename f)) as Hf.
  { intros f Hf. apply list_elem_of_fmap_2. apply list_elem_of_bind. eauto. }
  destruct c as [s f inp|s f inp|s f|s f|s f inp|s f st n c|s f st n c|s p nf dup|s p nf|s p nf|s nf];
    cbn [uses footprint] in *; try done; try (by apply (Hf (dn0 s, f)), list_elem_of_singleton);
    intros j Hj; apply (Hf (dn0 s, nth_name p j)), list_elem_of_fmap; exists (Z.to_nat j);
    (split; [by rewrite Z2Nat.id by lia|apply elem_of_seq; lia]).
Qed.
Lemma footprints_dirs l f : owned (footprints l) f -> in_dirs f.
Proof.
  intros (g & -> & Hg)%list_elem_of_fmap. apply list_elem_of_bind in Hg as (c & Hg & _).
  destruct c; cbn [footprint] in Hg;
    try (apply list_elem_of_singleton in Hg as ->; by eexists);
    try (apply list_elem_of_fmap in Hg as (j & -> & _); by eexists). by apply not_elem_of_nil in Hg.
Qed.
Lemma lookup_patch fs M1 M f : patch fs M1 M !! f = if decide (f ∈ fs) then M1 !! f else M !! f.
Proof.
  induction fs as [|g fs IH]; cbn [patch foldr]; [by rewrite decide_False by apply not_elem_of_nil|].
  destruct (decide (f = g)) as [->|Hne].
  - rewrite lookup_partial_alter_eq, decide_True; [done|by left].
  - rewrite lookup_partial_alter_ne by done. unfold patch in IH. rewrite IH.
    destruct (decide (f ∈ fs)); [rewrite decide_True; [done|by right]|]. rewrite decide_False; [done|]. set_solver.
Qed.
Lemma owned_rename fs f : owned fs (rename f) <-> f ∈ fs.
Proof. unfold owned. split; [|apply list_elem_of_fmap_2]. by intros (g & ->%(inj rename) & Hg)%list_elem_of_fmap. Qed.

Lemma process_ok pid l other M M' v0 :
  forallb local l = true -> predict_all dn0 l M = Some M' ->
  (forall f, owned (footprints l) f -> owned other f -> False) -> between M v0 ->
  let Q v := has pid (owned (footprints l)) dset (rn M') ∅ v /\
    (forall f, ~ owned (footprints l) f -> ~ owned other f -> v_files v !! f = v_files v0 !! f) in
  wp locate pid (changes (negb pid) (owned other)) (changes pid (owned (footprints l))) (run_cmds d l) (fun _ => Q) v0
  /\ (forall v v', Q v -> changes (negb pid) (owned other) v v' -> Q v').
Proof.
  intros Hl Hp Hdis Hv Q. split.
  - apply (wp_inv pid _ _ _ (fun _ => has pid (owned (footprints l)) dset (rn M') ∅)).
    + intros v v' (_ & Hf & _) HI f H1 H2. rewrite Hf by done. auto.
    + intros v v' (_ & Hf & _) HI f H1 H2. rewrite Hf by done. auto.
    + done.
    + eapply (predict_all_sound dn locate pid (owned (footprints l)) _ _ dset (owned other)); try done.
      * apply dn_dset.
      * by apply predict_all_rename.
      * by apply footprints_uses.
      * apply between_has; [apply footprints_dirs|done].
  - intros v v' [Hh HI] Hc. split.
    + eapply (has_stable pid (owned (footprints l)) (changes (negb pid) (owned other)) dset (owned other));
        [done|done|exact Hh|by apply rtc_once].
    + intros f H1 H2. destruct Hc as (_ & Hf & _). rewrite Hf by done. auto.
Qed.

Lemma forked_ok lq lp M Mq Mp :
  forallb local lq = true -> forallb local lp = true ->
  predict_all dn0 lq M = Some Mq -> predict_all dn0 lp M = Some Mp ->
  forallb (fun f => bool_decide (f ∉ footprints lq)) (footprints lp) = true ->
  phase_ok locate (between M) (Forked (run_cmds d lq) (run_cmds d lp))
    (between (patch (footprints lq) Mq (patch (footprints lp) Mp M))).
Proof.
  intros Lq Lp Hq Hp Hdis v Hv. rewrite forallb_forall in Hdis.
  assert (forall f, f ∈ footprints lp -> f ∉ footprints lq) as Hd1.
  { intros f Hf. by apply (bool_decide_eq_true_1 _), Hdis, list_elem_of_In. }
  assert (forall f, owned (footprints lp) f -> owned (footprints lq) f -> False) as Hdo.
  { intros f (g & -> & Hg)%list_elem_of_fmap Hf. apply (proj1 (owned_rename _ _)) in Hf. exact (Hd1 g Hg Hf). }
  destruct (process_ok true lp (footprints lq) M Mp v Lp Hp Hdo Hv) as [Wp Sp].
  destruct (process_ok false lq (footprints lp) M Mq v Lq Hq ltac:(eauto) Hv) as [Wq Sq].
  cbn [negb] in *. eexists _, _, _, _. split; [exact Wp|]. split; [exact Wq|]. split; [exact Sp|]. split; [exact Sq|].
  intros v' [(P1 & P2 & P3 & _) P5] [(Q1 & Q2 & Q3 & _) _]. split_and!.
  - intros s. apply P1, dn_dset.
  - intros s f. rewrite !lookup_patch. change (dn s, f) with (rename (dn0 s, f)).
    destruct (decide _) as [Hf|Hf]; [rewrite Q2 by (by apply owned_rename); apply rn_lookup|].
    destruct (decide _) as [Hf'|Hf']; [rewrite P2 by (by apply owned_rename); apply rn_lookup|].
    rewrite P5 by (by rewrite owned_rename). apply Hv.
  - intros [[] fd]; [by rewrite P3, lookup_empty|by rewrite Q3, lookup_empty].
Qed.
End renaming.

(** * The same files at the same time *)

Lemma wp_step {A} locate pid (R G : relation view) (P : view -> Prop) c (k : reply -> prog A) Q v :
  (forall v v', R v v' -> P v -> P v') -> P v ->
  (forall v0 v1 r, P v0 -> ideal locate pid c v0 v1 r -> G v0 v1 /\ wp locate pid R G (k r) Q v1) ->
  wp locate pid R G (Sys c k) Q v.
Proof. intros HR HP Hk v0 v1 r Hr. apply Hk. clear -HR HP Hr. induction Hr; eauto. Qed.

Lemma nth_name_inj prefix i j : is_u64 i -> is_u64 j -> nth_name prefix i = nth_name prefix j -> i = j.
Proof.
  intros Hi Hj E. unfold nth_name in E. apply app_inv_head, app_inv_head in E.
  rewrite <- (print_dec_val i Hi), <- (print_dec_val j Hj). by rewrite E.
Qed.

Section same_files.
  Variables (locate : cstring -> option location) (dd pre : cstring) (n : nat).
  Hypothesis Hpre : prefix_ok pre.
  Hypothesis Hn : (n <= Z.to_nat 1000)%nat.

Abbreviation num j := (0 <= j < Z.of_nat n).
Abbreviation zz j := (dd, nth_name pre j).

(** Every file of the directory is one of theirs, empty or complete, and if it is empty somebody is
    about to write it. *)
Definition shared (v : view) : Prop :=
  dd ∈ v_dirs v /\
  (forall x b, v_files v !! (dd, x) = Some b ->
     exists j, num j /\ x = nth_name pre j /\ (b = [] \/ b = int_bytes j)) /\
  (forall x, v_files v !! (dd, x) = Some [] ->
     exists p fd, v_fds v !! (p, fd) = Some (Desc (dd, x) 0 false true)).

(** What process [pid] does there. *)
Definition joins (pid : bool) (v v' : view) : Prop :=
  (shared v -> shared v') /\
  (forall x, is_Some (v_files v !! (dd, x)) -> is_Some (v_files v' !! (dd, x))) /\
  (forall fd, v_fds v' !! (negb pid, fd) = v_fds v !! (negb pid, fd)).

(** Process [pid] has created the files below [i] and has [F] open. *)
Definition created_to (pid : bool) (i : Z) (F : gmap Z desc) (v : view) : Prop :=
  shared v /\ (forall j, 0 <= j < i -> is_Some (v_files v !! zz j)) /\
  (forall fd, v_fds v !! (pid, fd) = F !! fd).
Lemma created_to_stable pid i F v v' : joins (negb pid) v v' -> created_to pid i F v -> created_to pid i F v'.
Proof.
  intros (J1 & J2 & J3) (A1 & A2 & A3). rewrite negb_involutive in J3. split_and!; auto.
  intros fd. by rewrite J3.
Qed.

Section process.
  Variables (pid : bool) (d : cstring).
  Hypothesis Hd : at_dir locate d dd.
Abbreviation wps := (wp locate pid (joins (negb pid)) (joins pid)).

Lemma negb_pid fd (fd' : Z) : (negb pid, fd) <> (pid, fd').
Proof. intros [= E _]. by destruct pid. Qed.

(** [creat] of file [i]. *)
Lemma creat_shared i v0 v1 fd :
  num i -> created_to pid i ∅ v0 -> opens (set_file v0 (zz i) []) v1 pid fd (Desc (zz i) 0 false true) ->
  joins pid v0 v1 /\ 0 <= fd /\ created_to pid (i + 1) {[fd := Desc (zz i) 0 false true]} v1.
Proof.
  intros Hi ((S1 & S2 & S3) & A2 & A3) (Hfd & Hnone & ->). cbn [set_file v_fds] in Hnone.
  assert (forall x, is_Some (v_files v0 !! (dd, x)) -> is_Some (<[zz i := []]> (v_files v0) !! (dd, x))) as Hex.
  { intros x Hx. destruct (decide ((dd, x) = zz i)) as [->|]; [by rewrite lookup_insert_eq|by rewrite lookup_insert_ne]. }
  assert (shared (set_fd (set_file v0 (zz i) []) pid fd (Desc (zz i) 0 false true))) as Hs.
  { split_and!; cbn [set_fd set_file v_dirs v_files v_fds]; [done|..].
    - intros x b. destruct (decide ((dd, x) = zz i)) as [E|]; [|rewrite lookup_insert_ne by done; apply S2].
      rewrite E, lookup_insert_eq. intros [= <-]. exists i. injection E as ->. auto.
    - intros x Hx. destruct (decide ((dd, x) = zz i)) as [E|Hne].
      + rewrite E. exists pid, fd. apply lookup_insert_eq.
      + rewrite lookup_insert_ne in Hx by done. destruct (S3 x Hx) as (p & fd' & Hp). exists p, fd'.
        rewrite lookup_insert_ne; [done|]. intros E. rewrite E in Hnone. congruence. }
  split; [split; [by intros _|split; [exact Hex|]]|split; [done|split; [exact Hs|split]]];
    cbn [set_fd set_file v_dirs v_files v_fds].
  - intros fd'. by rewrite lookup_insert_ne by (intros E; by apply (negb_pid fd' fd)).
  - intros j Hj. destruct (decide (j = i)) as [->|]; [by rewrite lookup_insert_eq|]. apply Hex, A2. lia.
  - intros fd'. destruct (decide (fd' = fd)) as [->|]; [by rewrite lookup_insert_eq, lookup_singleton_eq|].
    rewrite lookup_insert_ne, lookup_singleton_ne by congruence. by rewrite A3, lookup_empty.
Qed.

(** The number is written. *)
Lemma write_shared i fd v0 v1 r :
  num i -> created_to pid (i + 1) {[fd := Desc (zz i) 0 false true]} v0 ->
  ideal locate pid (Write fd (int_bytes i)) v0 v1 r ->
  joins pid v0 v1 /\ r_ret r = 4 /\ created_to pid (i + 1) {[fd := Desc (zz i) 4 false true]} v1.
Proof.
  intros Hi ((S1 & S2 & S3) & A2 & A3) Hdoc. destruct (A2 i ltac:(lia)) as [b Hb].
  destruct (Hdoc (Desc (zz i) 0 false true) b) as [Hr ->]; [by rewrite A3, lookup_singleton_eq|done|exact Hb|simpl; lia|].
  cbn [d_append d_off d_file d_write] in *.
  assert (write_at b 0 (int_bytes i) = int_bytes i) as ->.
  { destruct (S2 _ _ Hb) as (j & _ & _ & [->| ->]); reflexivity. }
  assert (forall x, is_Some (v_files v0 !! (dd, x)) -> is_Some (<[zz i := int_bytes i]> (v_files v0) !! (dd, x))) as Hex.
  { intros x Hx. destruct (decide ((dd, x) = zz i)) as [->|]; [by rewrite lookup_insert_eq|by rewrite lookup_insert_ne]. }
  assert (shared (set_fd (set_file v0 (zz i) (int_bytes i)) pid fd (Desc (zz i) (0 + length (int_bytes i)) false true))) as Hs.
  { split_and!; cbn [set_fd set_file v_dirs v_files v_fds]; [done|..].
    - intros x b'. destruct (decide ((dd, x) = zz i)) as [E|]; [|rewrite lookup_insert_ne by done; apply S2].
      rewrite E, lookup_insert_eq. intros [= <-]. exists i. injection E as ->. auto.
    - intros x Hx. destruct (decide ((dd, x) = zz i)) as [E|Hne]; [by rewrite E, lookup_insert_eq in Hx|].
      rewrite lookup_insert_ne in Hx by done. destruct (S3 x Hx) as (p & fd' & Hp). exists p, fd'.
      rewrite lookup_insert_ne; [done|]. intros E. rewrite <- E, A3, lookup_singleton_eq in Hp.
      injection Hp as Hp. by rewrite Hp in Hne. }
  split; [split; [by intros _|split; [exact Hex|]]|split; [exact Hr|split; [exact Hs|split]]];
    cbn [set_fd set_file v_dirs v_files v_fds].
  - intros fd'. by rewrite lookup_insert_ne by (intros E; by apply (negb_pid fd' fd)).
  - intros j Hj. by apply Hex, A2.
  - intros fd'. destruct (decide (fd' = fd)) as [->|]; [by rewrite lookup_insert_eq, lookup_singleton_eq|].
    rewrite lookup_insert_ne, lookup_singleton_ne by congruence. by rewrite A3, lookup_singleton_ne.
Qed.
Lemma close_shared i fd v0 v1 r :
  created_to pid i {[fd := Desc (zz (i - 1)) 4 false true]} v0 -> ideal locate pid (Close fd) v0 v1 r ->
  joins pid v0 v1 /\ r_ret r = 0 /\ created_to pid i ∅ v1.
Proof.
  intros ((S1 & S2 & S3) & A2 & A3) Hdoc.
  destruct (Hdoc (Desc (zz (i - 1)) 4 false true)) as [Hr ->]; [by rewrite A3, lookup_singleton_eq|].
  assert (shared (del_fd v0 pid fd)) as Hs.
  { split_and!; [done|exact S2|]. intros x Hx. destruct (S3 x Hx) as (p & fd' & Hp). exists p, fd'.
    cbn [del_fd v_fds]. rewrite lookup_delete_ne; [done|]. intros E. rewrite <- E, A3, lookup_singleton_eq in Hp. done. }
  split; [split; [by intros _|split; [done|]]|split; [exact Hr|split; [exact Hs|split; [exact A2|]]]];
    cbn [del_fd v_fds]; intros fd'.
  - by rewrite lookup_delete_ne by (intros E; by apply (negb_pid fd' fd)).
  - rewrite lookup_empty. destruct (decide (fd' = fd)) as [->|]; [by rewrite lookup_delete_eq|].
    rewrite lookup_delete_ne by congruence. by rewrite A3, lookup_singleton_ne.
Qed.

Lemma createn_shared k i v (Q : unit -> view -> Prop) :
  0 <= i -> i + Z.of_nat k = Z.of_nat n -> created_to pid i ∅ v ->
  (forall v', created_to pid (Z.of_nat n) ∅ v' -> Q tt v') -> wps (createn_from k i d pre true) Q v.
Proof.
  revert i v. induction k as [|k IH]; intros i v Hi Hik Hv HQ; cbn [createn_from].
  { apply HQ. by replace (Z.of_nat n) with i by lia. }
  destruct (path_ok locate _ _ Hd _ (nth_name_ok pre i Hpre)) as [Hs Hl]. rewrite Hs. cbn [mbind prog_bind sys].
  eapply wp_step; [intros; by eapply created_to_stable|exact Hv|]. intros v0 v1 r H0 Hdoc.
  destruct (creat_shared i v0 v1 (r_ret r)) as (J1 & Hr & H1); [lia|exact H0| |].
  { apply Hdoc; [exact Hl|apply H0]. }
  split; [exact J1|]. assert ((r_ret r <? 0) = false) as -> by lia. cbn [andb negb check mbind prog_bind sys].
  eapply wp_step; [intros; by eapply created_to_stable|exact H1|]. intros v2 v3 r3 H2 Hdoc3.
  destruct (write_shared i (r_ret r) v2 v3 r3) as (J3 & Hr3 & H3); [lia|exact H2|exact Hdoc3|].
  split; [exact J3|]. wp_check lia.
  eapply wp_step; [intros; by eapply created_to_stable|exact H3|]. intros v4 v5 r5 H4 Hdoc5.
  destruct (close_shared (i + 1) (r_ret r) v4 v5 r5) as (J5 & Hr5 & H5);
    [by replace (i + 1 - 1) with i by lia|exact Hdoc5|].
  split; [exact J5|]. wp_check lia. eapply IH; [lia|lia|exact H5|exact HQ].
Qed.

(** All of them are in the directory while the other process goes on. *)
Lemma dircheck_shared v (Q : unit -> view -> Prop) :
  pre <> [] -> visible pre -> created_to pid (Z.of_nat n) ∅ v ->
  (forall v', created_to pid (Z.of_nat n) ∅ v' -> Q tt v') -> wps (dircheck d n) Q v.
Proof.
  intros Hne Hvis Hv HQ. unfold dircheck. cbn [mbind prog_bind sys]. destruct Hd as (Hl & _ & _).
  eapply wp_step; [intros; by eapply created_to_stable|exact Hv|]. intros v0 v1 r H0 Hdoc.
  pose proof H0 as ((S1 & S2 & _) & A2 & _).
  destruct (Hdoc dd Hl S1) as (Hr & Hnames & ->). split; [by split_and!|].
  assert (filter visible (r_names r) ≡ₚ nth_name pre <$> seqZ 0 (Z.of_nat n)) as Hperm.
  { rewrite Hnames. change (filter visible (cs "." :: cs ".." :: dir_names v0 dd)) with (filter visible (dir_names v0 dd)).
    apply NoDup_Permutation; [apply NoDup_filter, dir_names_nodup| |].
    - apply NoDup_fmap_2_strong; [|apply NoDup_seqZ]. intros x y Hx%elem_of_seqZ Hy%elem_of_seqZ.
      apply nth_name_inj; unfold is_u64; lia.
    - intros x. rewrite list_elem_of_filter, dir_names_elem, list_elem_of_fmap. split.
      + intros [_ [b Hb]]. destruct (S2 x b Hb) as (j & Hj & -> & _). exists j. split; [done|]. apply elem_of_seqZ. lia.
      + intros (j & -> & Hj%elem_of_seqZ). split; [|apply A2; lia]. by destruct pre. }
  rewrite dircheck_entries_spec by exact Hr. cbv zeta.
  assert (length (filter visible (r_names r)) = n) as El by (rewrite Hperm, length_fmap, length_seqZ; lia).
  destruct (decide _); [lia|]. destruct (decide _) as [_|Hno]; [by apply HQ|]. destruct Hno. split; [done|].
  rewrite Hperm. apply NoDup_fmap_2_strong; [|apply NoDup_seqZ]. intros x y Hx%elem_of_seqZ Hy%elem_of_seqZ.
  apply nth_name_inj; unfold is_u64; lia.
Qed.
End process.
End same_files.

Lemma created_other dd pre k i M f :
  (forall j, i <= j < i + Z.of_nat k -> f <> (dd, nth_name pre j)) -> created dd pre k i M !! f = M !! f.
Proof.
  revert i M. induction k as [|k IH]; intros i M Hf; cbn [created]; [done|].
  rewrite IH; [|intros j Hj; apply Hf; lia]. apply lookup_insert_ne. intros E. apply (Hf i); [lia|done].
Qed.
Lemma created_lookup dd pre k i M j :
  0 <= i -> i + Z.of_nat k < 2 ^ 31 -> i <= j < i + Z.of_nat k ->
  created dd pre k i M !! (dd, nth_name pre j) = Some (int_bytes j).
Proof.
  revert i M. induction k as [|k IH]; intros i M Hi Hk Hj; [lia|]. cbn [created].
  destruct (decide (j = i)) as [->|]; [|apply IH; lia].
  rewrite created_other; [apply lookup_insert_eq|]. intros j' Hj' [= E].
  apply nth_name_inj in E; unfold is_u64; lia.
Qed.

(** * Different parts of the same file *)

Lemma write_at_one b off c k : (off < length b)%nat ->
  write_at b off [c] !! k = if decide (k = off) then Some c else b !! k.
Proof.
  intros Hoff. unfold write_at. cbn [length].
  replace (take off b ++ [c] ++ drop (off + 1) b) with (<[off := c]> b).
  - destruct (decide (k = off)) as [->|]; [by apply list_lookup_insert_eq|by apply list_lookup_insert_ne].
  - rewrite insert_take_drop by done. by replace (off + 1)%nat with (S off) by lia.
Qed.
Lemma write_at_length b off s : (off + length s <= length b)%nat -> length (write_at b off s) = length b.
Proof. intros. unfold write_at. rewrite !length_app, length_take, length_drop. lia. Qed.

Section parts.
  (** Process [p] writes [len] times [ch p] from [st p] on; [b0] is the file before. *)
  Variables (locate : cstring -> option location) (dd f b0 : cstring) (st : bool -> nat) (len : nat) (ch : bool -> ascii).
  Variable start : view.
  Hypothesis Hf : name_ok f.
  Hypothesis Hroom : forall p, (st p + len <= length b0)%nat.
Definition region (p : bool) (k : nat) : Prop := (st p <= k < st p + len)%nat.
  Hypothesis Hapart : forall k, region true k -> region false k -> False.
Abbreviation w := (dd, f).

Definition writes (p : bool) (v v' : view) : Prop :=
  v_dirs v' = v_dirs v /\ (forall g, g <> w -> v_files v' !! g = v_files v !! g) /\
  (forall b, v_files v !! w = Some b -> exists b', v_files v' !! w = Some b' /\ length b' = length b /\
     forall k, ~ region p k -> b' !! k = b !! k) /\
  (forall fd, v_fds v' !! (negb p, fd) = v_fds v !! (negb p, fd)).
(** Process [p] has written [i] characters. *)
Definition written (p : bool) (i : nat) (F : gmap Z desc) (v : view) : Prop :=
  v_dirs v = v_dirs start /\ (forall g, g <> w -> v_files v !! g = v_files start !! g) /\
  (exists b, v_files v !! w = Some b /\ length b = length b0 /\
     (forall k, (st p <= k < st p + i)%nat -> b !! k = Some (ch p)) /\
     (forall k, ~ region true k -> ~ region false k -> b !! k = b0 !! k)) /\
  (forall fd, v_fds v !! (p, fd) = F !! fd).

Lemma regions p k : region p k -> ~ region (negb p) k.
Proof. intros H1 H2. apply (Hapart k); by destruct p. Qed.
Lemma written_stable p i F v v' : (i <= len)%nat -> writes (negb p) v v' -> written p i F v -> written p i F v'.
Proof.
  intros Hi (W1 & W2 & W3 & W4) (A1 & A2 & (b & Hb & Hl & Hc & Ho) & A4). rewrite negb_involutive in W4.
  destruct (W3 b Hb) as (b' & Hb' & Hl' & Hk).
  split; [congruence|]. split; [intros g Hg; rewrite W2 by done; auto|]. split; [|intros fd; by rewrite W4].
  exists b'. split; [done|]. split; [congruence|]. split.
  - intros k Hk1. rewrite Hk; [auto|]. apply regions. unfold region. lia.
  - intros k Hk1 Hk2. rewrite Hk; [auto|]. by destruct p.
Qed.

Lemma write_one p i fd v0 v1 r :
  (i < len)%nat -> written p i {[fd := Desc w (st p + i) false true]} v0 ->
  ideal locate p (Write fd [ch p]) v0 v1 r ->
  writes p v0 v1 /\ r_ret r = 1 /\ written p (S i) {[fd := Desc w (st p + S i) false true]} v1.
Proof.
  intros Hi (A1 & A2 & (b & Hb & Hl & Hc & Ho) & A4) Hdoc. pose proof (Hroom p).
  destruct (Hdoc (Desc w (st p + i) false true) b) as [Hr ->];
    [by rewrite A4, lookup_singleton_eq|done|exact Hb|cbn [d_append d_off]; lia|].
  cbn [d_append d_off d_file d_write length] in *.
  assert (forall k, write_at b (st p + i) [ch p] !! k = if decide (k = (st p + i)%nat) then Some (ch p) else b !! k) as Hw
    by (intros k; apply write_at_one; lia).
  assert (length (write_at b (st p + i) [ch p]) = length b) as Hwl by (apply write_at_length; simpl; lia).
  assert (forall fd', (negb p, fd') <> (p, fd)) as Hne by (intros fd' [= E _]; by destruct p).
  split; [|split; [exact Hr|]].
  - split; [done|]. split; [intros g Hg; by apply lookup_insert_ne|]. split.
    + intros b1 Hb1. rewrite Hb in Hb1. injection Hb1 as <-. eexists. split; [apply lookup_insert_eq|]. split; [done|].
      intros k Hk. rewrite Hw, decide_False; [done|]. intros ->. apply Hk. unfold region. lia.
    + intros fd'. cbn [set_fd v_fds]. by rewrite lookup_insert_ne.
  - split; [done|]. split; [intros g Hg; cbn [set_fd set_file v_files]; rewrite lookup_insert_ne by done; auto|]. split.
    + eexists. split; [apply lookup_insert_eq|]. split; [congruence|]. split.
      * intros k Hk. rewrite Hw. destruct (decide _); [done|]. apply Hc. lia.
      * intros k Hk1 Hk2. rewrite Hw, decide_False; [auto|]. intros ->. destruct p; [apply Hk1|apply Hk2]; unfold region; lia.
    + intros fd'. cbn [set_fd v_fds]. destruct (decide (fd' = fd)) as [->|].
      * rewrite lookup_insert_eq, lookup_singleton_eq. do 2 f_equal. lia.
      * rewrite lookup_insert_ne, lookup_singleton_ne by congruence. cbn [set_file v_fds]. by rewrite A4, lookup_singleton_ne.
Qed.

(** Opening, seeking and closing. *)
Lemma written_fds p i F F' v0 v1 :
  written p i F v0 -> v_dirs v1 = v_dirs v0 -> v_files v1 = v_files v0 ->
  (forall fd, v_fds v1 !! (negb p, fd) = v_fds v0 !! (negb p, fd)) ->
  (forall fd, v_fds v1 !! (p, fd) = F' !! fd) -> writes p v0 v1 /\ written p i F' v1.
Proof.
  intros (A1 & A2 & A3 & A4) E1 E2 E3 E4. split.
  - split; [done|]. split; [by rewrite E2|]. split; [|done]. rewrite E2. intros b Hb. by exists b.
  - split; [congruence|]. rewrite E2. done.
Qed.
Lemma set_fd_lookup v p fd e : (forall x, v_fds (set_fd v p fd e) !! (negb p, x) = v_fds v !! (negb p, x)) /\
  v_fds (set_fd v p fd e) !! (p, fd) = Some e /\
  forall x, x <> fd -> v_fds (set_fd v p fd e) !! (p, x) = v_fds v !! (p, x).
Proof.
  cbn [set_fd v_fds]. split; [|split; [apply lookup_insert_eq|]]; intros x; [|intros Hx]; rewrite lookup_insert_ne; try done.
  - intros [= E _]. by destruct p.
  - congruence.
Qed.
Lemma written_set p i F v fd e : (forall x, x <> fd -> F !! x = None) -> written p i F v ->
  writes p v (set_fd v p fd e) /\ written p i {[fd := e]} (set_fd v p fd e).
Proof.
  intros HF HA. destruct (set_fd_lookup v p fd e) as (E1 & E2 & E3).
  eapply written_fds; [exact HA|done|done|exact E1|]. intros x. destruct (decide (x = fd)) as [->|Hx].
  - by rewrite lookup_singleton_eq.
  - rewrite lookup_singleton_ne, E3 by done. destruct HA as (_ & _ & _ & A4). rewrite A4. by apply HF.
Qed.

Lemma write1_loop_parts p i k fd v (Q : unit -> view -> Prop) :
  (i + k = len)%nat -> written p i {[fd := Desc w (st p + i) false true]} v ->
  (forall v', written p len {[fd := Desc w (st p + len) false true]} v' -> Q tt v') ->
  wp locate p (writes (negb p)) (writes p) (write1_loop fd k (ch p)) Q v.
Proof.
  revert i v. induction k as [|k IH]; intros i v Hik Hv HQ; cbn [write1_loop].
  { apply HQ. by replace len with i by lia. }
  cbn [mbind prog_bind sys]. eapply wp_step; [|exact Hv|]; [intros v1 v2; apply written_stable; lia|].
  intros v0 v1 r H0 Hdoc. destruct (write_one p i fd v0 v1 r) as (W1 & Hr & H1); [lia|exact H0|exact Hdoc|].
  split; [exact W1|]. wp_check lia.
  eapply wp_step; [|exact H1|]; [intros v2 v3; apply written_stable; lia|]. intros v2 v3 r3 H2 Hdoc3.
  destruct (Hdoc3 (Desc w (st p + S i) false true)) as [Hr3 ->].
  { destruct H2 as (_ & _ & _ & A4). by rewrite A4, lookup_singleton_eq. }
  edestruct (written_fds p (S i)) as [W3 H3]; [exact H2|reflexivity|reflexivity|reflexivity|apply H2|].
  split; [exact W3|]. wp_check lia. eapply IH; [|exact H3|exact HQ]. lia.
Qed.

Lemma write1_parts p d v (Q : unit -> view -> Prop) :
  at_dir locate d dd -> dd ∈ v_dirs start -> written p 0 ∅ v -> (forall v', written p len ∅ v' -> Q tt v') ->
  wp locate p (writes (negb p)) (writes p) (write1 d f (Z.of_nat (st p)) len (ch p)) Q v.
Proof.
  intros Hd Hdd Hv HQ. destruct (path_ok locate d dd Hd f Hf) as [Hs Hl]. unfold write1. rewrite Hs.
  cbn [mbind prog_bind sys]. eapply wp_step; [|exact Hv|]; [intros v1 v2; apply written_stable; lia|].
  intros v0 v1 r H0 Hdoc. pose proof H0 as (A1 & _ & (b & Hb & _) & A4).
  specialize (Hdoc w Hl). rewrite Hb in Hdoc. destruct Hdoc as (Hr & _ & ->); [by rewrite A1|]. cbn [flags_desc].
  destruct (written_set p 0 ∅ v0 (r_ret r) (Desc w 0 false true)) as [W1 H1]; [done|exact H0|].
  split; [exact W1|]. assert ((r_ret r <? 0) = false) as E0 by lia. rewrite E0. cbn [andb mbind prog_bind negb check sys].
  rewrite E0. cbn [negb check mbind prog_bind sys].
  eapply wp_step; [|exact H1|]; [intros v1 v2; apply written_stable; lia|]. intros v2 v3 r3 H2 Hdoc.
  destruct (Hdoc (Desc w 0 false true)) as [Hr3 ->]; [|lia|].
  { destruct H2 as (_ & _ & _ & B4). by rewrite B4, lookup_singleton_eq. }
  cbn [d_file d_append d_write]. rewrite Nat2Z.id.
  destruct (written_set p 0 {[r_ret r := Desc w 0 false true]} v2 (r_ret r) (Desc w (st p) false true)) as [W3 H3];
    [intros x Hx; by apply lookup_singleton_ne|exact H2|].
  split; [exact W3|]. wp_check lia. apply wp_bind. apply (write1_loop_parts p 0 len).
  - lia.
  - by rewrite Nat.add_0_r.
  - intros v4 H4. cbn [mbind prog_bind sys].
    eapply wp_step; [|exact H4|]; [intros v1 v5; apply written_stable; lia|]. intros v5 v6 r6 H5 Hdoc6.
    destruct (Hdoc6 (Desc w (st p + len) false true)) as [Hr6 ->].
    { destruct H5 as (_ & _ & _ & B4). by rewrite B4, lookup_singleton_eq. }
    destruct (written_fds p len {[r_ret r := Desc w (st p + len) false true]} ∅ v5 (del_fd v5 p (r_ret r)))
      as [W6 H6]; [exact H5|done|done|..].
    + intros x. cbn [del_fd v_fds]. rewrite lookup_delete_ne; [done|]. intros [= E _]. by destruct p.
    + intros x. cbn [del_fd v_fds]. rewrite lookup_empty. destruct (decide (x = r_ret r)) as [->|]; [by rewrite lookup_delete_eq|].
      rewrite lookup_delete_ne by congruence. destruct H5 as (_ & _ & _ & B4). by rewrite B4, lookup_singleton_ne.
    + split; [exact W6|]. wp_check lia. by apply HQ.
Qed.
End parts.

Section lab_3_b_phases.
  Variables (dn0 : side -> cstring) (suffix : cstring).
  Variables (locate : cstring -> option location) (d : side -> cstring).
  Hypothesis Hd : forall s, at_dir locate (d s) (dn dn0 suffix s).
  Hypothesis Hsame : forall s, dn0 s = dn0 D1.

Lemma dn_same s : dn dn0 suffix s = dn dn0 suffix D1.
Proof. unfold dn. by rewrite Hsame. Qed.

Lemma same_ok s pre n :
  prefix_ok pre -> pre <> [] -> visible pre -> (n <= Z.to_nat 1000)%nat ->
  phase_ok locate (between dn0 suffix ∅)
    (Forked (run_cmds d [CCreaten s pre n true]) (run_cmds d [CCreaten D1 pre n true; CDircheck D1 n]))
    (between dn0 suffix (created (dn0 D1) pre n 0 ∅)).
Proof.
  intros Hp Hne Hvis Hn v (H1 & H2 & H3). set (dd := dn dn0 suffix D1).
  assert (forall pid, created_to dd pre n pid 0 ∅ v) as Hv.
  { assert (forall x, v_files v !! (dd, x) = None) as Hf by (intros x; apply H2).
    intros pid. split; [|split; [lia|done]].
    split; [apply H1|split; [intros x b; by rewrite Hf|intros x; by rewrite Hf]]. }
  exists (joins dd pre n true), (joins dd pre n false),
    (created_to dd pre n true (Z.of_nat n) ∅), (created_to dd pre n false (Z.of_nat n) ∅).
  split; [|split; [|split; [|split]]].
  - cbn [run_cmds run_cmd]. apply wp_bind.
    eapply (createn_shared locate dd pre n Hp Hn true (d D1) (Hd D1)); [lia|lia|apply Hv|]. intros v1 Hv1.
    apply wp_bind. eapply (dircheck_shared locate dd pre n Hp Hn true (d D1) (Hd D1)); [done|done|exact Hv1|].
    by intros v2 Hv2.
  - cbn [run_cmds run_cmd]. apply wp_bind.
    assert (at_dir locate (d s) dd) as Hds by (unfold dd; rewrite <- (dn_same s); apply Hd).
    eapply (createn_shared locate dd pre n Hp Hn false (d s) Hds); [lia|lia|apply Hv|]. by intros v1 Hv1.
  - intros v1 v2 A J. by eapply (created_to_stable dd pre n true).
  - intros v1 v2 A J. by eapply (created_to_stable dd pre n false).
  - intros v1 ((S1 & S2 & S3) & A2 & A3) (_ & _ & B3).
    assert (forall p, v_fds v1 !! p = None) as Hfds
      by (intros [[] fd]; [by rewrite A3, lookup_empty|by rewrite B3, lookup_empty]).
    split; [|split; [|exact Hfds]]; intros s'; rewrite (dn_same s'); [exact S1|]. intros f. rewrite (Hsame s').
    destruct (v_files v1 !! (dd, f)) as [b|] eqn:Ef.
    + destruct (S2 f b Ef) as (j & Hj & -> & [-> | ->]); [by destruct (S3 _ Ef) as (p & fd & Hp1); rewrite Hfds in Hp1|].
      by rewrite created_lookup by lia.
    + rewrite created_other; [by rewrite lookup_empty|]. intros j Hj [= ->].
      destruct (A2 j ltac:(lia)) as [b Hb]. fold dd in Ef. congruence.
Qed.

(** What the two processes leave of the file. *)
Definition both_parts (b0 : cstring) (st : bool -> nat) (len : nat) (ch : bool -> ascii) : cstring :=
  write_at (write_at b0 (st true) (replicate len (ch true))) (st false) (replicate len (ch false)).
Lemma write_at_lookup b off s k : (off + length s <= length b)%nat ->
  write_at b off s !! k = if decide (off <= k < off + length s)%nat then s !! (k - off)%nat else b !! k.
Proof.
  intros Hl. unfold write_at. destruct (decide _) as [Hk|Hk].
  - rewrite lookup_app_r, length_take by (rewrite length_take; lia). rewrite lookup_app_l by lia.
    f_equal. lia.
  - destruct (decide (k < off)%nat) as [Hlt|Hge].
    + rewrite lookup_app_l by (rewrite length_take; lia). apply lookup_take_lt. lia.
    + rewrite lookup_app_r, length_take by (rewrite length_take; lia). rewrite lookup_app_r by lia.
      rewrite lookup_drop. f_equal. lia.
Qed.

Lemma parts_ok f b0 (st : bool -> nat) len (ch : bool -> ascii) M s :
  name_ok f -> (forall p, (st p + len <= length b0)%nat) ->
  (forall k, region st len true k -> region st len false k -> False) -> M !! (dn0 D1, f) = Some b0 ->
  phase_ok locate (between dn0 suffix M)
    (Forked (run_cmds d [CWrite1 s f (Z.of_nat (st false)) len (ch false)])
            (run_cmds d [CWrite1 D1 f (Z.of_nat (st true)) len (ch true)]))
    (between dn0 suffix (<[(dn0 D1, f) := both_parts b0 st len ch]> M)).
Proof.
  intros Hf Hroom Hap Hm v (H1 & H2 & H3). set (dd := dn dn0 suffix D1).
  assert (forall p, written dd f b0 st len ch v p 0 ∅ v) as Hv.
  { intros p. split; [done|]. split; [done|]. split; [|intros fd; by rewrite H3, lookup_empty].
    exists b0. split; [unfold dd; by rewrite H2|]. split; [done|]. split; [lia|done]. }
  assert (at_dir locate (d s) dd) as Hds by (unfold dd; rewrite <- (dn_same s); apply Hd).
  exists (writes dd f st len true), (writes dd f st len false),
    (written dd f b0 st len ch v true len ∅), (written dd f b0 st len ch v false len ∅).
  split; [|split; [|split; [|split]]].
  - cbn [run_cmds run_cmd]. apply wp_bind.
    eapply (write1_parts locate dd f b0 st len ch v Hf Hroom Hap true (d D1)); [apply Hd|apply H1|apply Hv|].
    by intros v1 Hv1.
  - cbn [run_cmds run_cmd]. apply wp_bind.
    eapply (write1_parts locate dd f b0 st len ch v Hf Hroom Hap false (d s)); [exact Hds|apply H1|apply Hv|].
    by intros v1 Hv1.
  - intros v1 v2 A W. by eapply (written_stable dd f b0 st len ch v Hap true).
  - intros v1 v2 A W. by eapply (written_stable dd f b0 st len ch v Hap false).
  - intros v1 (A1 & A2 & (b & Hb & Hl & Hc & Ho) & A4) (_ & _ & (b' & Hb' & _ & Hc' & _) & B4).
    rewrite Hb in Hb'. injection Hb' as <-.
    assert (b = both_parts b0 st len ch) as ->.
    { apply list_eq. intros k. unfold both_parts. pose proof (Hroom true). pose proof (Hroom false).
      rewrite !write_at_lookup by (rewrite ?write_at_length, ?length_replicate; rewrite ?length_replicate; lia).
      rewrite !length_replicate. destruct (decide _) as [Hk|Hk].
      { rewrite lookup_replicate_2 by lia. by apply Hc'. }
      destruct (decide _) as [Hk2|Hk2]; [rewrite lookup_replicate_2 by lia; by apply Hc|]. by apply Ho. }
    split; [intros s'; rewrite A1; apply H1|]. split.
    + intros s' g. rewrite (dn_same s'), (Hsame s'). destruct (decide (g = f)) as [->|Hg].
      * by rewrite lookup_insert_eq.
      * rewrite lookup_insert_ne by congruence. rewrite A2 by congruence. apply H2.
    + intros [[] fd]; [by rewrite A4, lookup_empty|by rewrite B4, lookup_empty].
Qed.
End lab_3_b_phases.

(** * The programs *)

(** Neither directory is there yet, and no file is open. *)
Definition unused_dirs (dn0 : side -> cstring) (suffix : cstring) (v : view) : Prop :=
  (forall s, dn dn0 suffix s ∉ v_dirs v) /\ (forall s f, v_files v !! (dn dn0 suffix s, f) = None) /\
  (forall p, v_fds v !! p = None).

Section set_up.
  Variables (locate : cstring -> option location) (pid : Z).

Lemma plain_dir x : plain x -> plain (x ++ print_dec pid).
Proof.
  intros [Hx Hs]. pose proof (slash_not_digit pid). split; [|by rewrite elem_of_app; intros [?|?]].
  intros [E _]%app_eq_nil. done.
Qed.
Lemma mounted_at m x : mounted locate m -> (length m <= 250)%nat -> plain x -> (length x <= 10)%nat ->
  at_dir locate (file_path m (x ++ print_dec pid)) (x ++ print_dec pid).
Proof.
  intros Hm Hl Hx Hlx. destruct (Hm _ (plain_dir x Hx)) as [E1 E2]. unfold at_dir, file_path. split; [done|]. split.
  - intros f Hf. rewrite <- (E2 f Hf). by rewrite <- !app_assoc.
  - pose proof (print_dec_length pid). rewrite !length_app. change (length (cs "/")) with 1%nat. lia.
Qed.

Abbreviation wps := (wp locate true (fun _ _ => False) (fun _ _ => True)).
Lemma rtc_false (v v' : view) : rtc (fun _ _ => False) v v' -> v' = v.
Proof. intros Hr. by destruct Hr. Qed.
(** [mkdir] and [access] on a path of directory [x]. *)
Lemma mkdir_wp d x v (Q : unit -> view -> Prop) :
  locate d = Some (LDir x) -> x ∉ v_dirs v -> Q tt (add_dir v x) -> wps (mkdir d) Q v.
Proof.
  intros Hl Hx HQ. unfold mkdir. cbn [mbind prog_bind sys]. intros v0 v1 r ->%rtc_false Hdoc.
  destruct (Hdoc x Hl Hx) as [Hr ->]. split; [done|]. wp_check lia. done.
Qed.
Lemma access_wp d x v (Q : unit -> view -> Prop) :
  locate d = Some (LDir x) -> x ∈ v_dirs v -> Q tt v -> wps (access d) Q v.
Proof.
  intros Hl Hx HQ. unfold access. cbn [mbind prog_bind sys]. intros v0 v1 r ->%rtc_false Hdoc.
  destruct (Hdoc x Hl Hx) as [Hr ->]. split; [done|]. wp_check lia. done.
Qed.
Lemma at_dir_sprintf d x : at_dir locate d x -> sprintf d = Done d /\ locate d = Some (LDir x).
Proof. intros (Hl & _ & Hlen). split; [apply sprintf_ok; lia|done]. Qed.
End set_up.

(** What a child and its parent that use different files leave behind. *)
Definition after_fork (dn0 : side -> cstring) (lq lp : list cmd) (M : gmap file cstring) : gmap file cstring :=
  patch (footprints dn0 lq) (default ∅ (predict_all dn0 lq M))
    (patch (footprints dn0 lp) (default ∅ (predict_all dn0 lp M)) M).
Lemma forked_step dn0 suffix locate d lq lp M M' :
  (forall s, at_dir locate (d s) (dn dn0 suffix s)) ->
  forallb local lq && forallb local lp &&
  forallb (fun f => bool_decide (f ∉ footprints dn0 lq)) (footprints dn0 lp) &&
  bool_decide (is_Some (predict_all dn0 lq M)) && bool_decide (is_Some (predict_all dn0 lp M)) &&
  bool_decide (after_fork dn0 lq lp M = M') = true ->
  phase_ok locate (between dn0 suffix M) (Forked (run_cmds d lq) (run_cmds d lp)) (between dn0 suffix M').
Proof.
  intros Hd. rewrite !andb_true_iff, !bool_decide_eq_true. intros (((((H1 & H2) & H3) & [Mq Eq]) & [Mp Ep]) & <-).
  unfold after_fork. rewrite Eq, Ep. cbn [default].
  apply forked_ok; [exact Hd|exact H1|exact H2|exact Eq|exact Ep|exact H3].
Qed.

Module lab_3_b_run.
Import lab_3_b.
Definition dn0 (s : side) : cstring := cs "d".

Section program.
  Variables (locate : cstring -> option location) (argv1 argv2 : cstring) (pid : Z).
  Hypothesis Hm1 : mounted locate argv1.
  Hypothesis Hm2 : mounted locate argv2.
  Hypothesis Hl1 : (length argv1 <= 250)%nat.
  Hypothesis Hl2 : (length argv2 <= 250)%nat.
Abbreviation suffix := (print_dec pid).

Lemma b_dirs_ok s : at_dir locate (dirs argv1 argv2 pid s) (dn dn0 suffix s).
Proof.
  assert (plain (cs "d")) as Hp by by_computing.
  destruct s; apply mounted_at; done || (simpl; lia).
Qed.
Lemma b_set_up_ok : phase_ok locate (unused_dirs dn0 suffix) (Solo (set_up argv1 argv2 pid)) (between dn0 suffix ∅).
Proof.
  intros v (H1 & H2 & H3). destruct (at_dir_sprintf locate _ _ (b_dirs_ok D1)) as [S1 L1].
  destruct (at_dir_sprintf locate _ _ (b_dirs_ok D2)) as [S2 L2]. cbn [phase_ok]. unfold set_up.
  rewrite S1. cbn [mbind prog_bind]. apply wp_bind. eapply mkdir_wp; [exact L1|apply (H1 D1)|].
  rewrite S2. cbn [mbind prog_bind]. eapply access_wp; [exact L2|by apply elem_of_union_l, elem_of_singleton_2|].
  split; [intros s; by apply elem_of_union_l, elem_of_singleton_2|]. split; [|done]. intros s f. rewrite lookup_empty. apply (H2 s f).
Qed.

(** The directory before the concurrent deletes, after the creates of the same files, and at the
    end. *)
Definition xs : gmap file cstring := created (cs "d") (cs "x2") 20 0 (created (cs "d") (cs "x1") 20 0 ∅).
Definition zzs : gmap file cstring := created (cs "d") (cs "zz") 20 0 ∅.
Definition www (b : cstring) : gmap file cstring := {[(cs "d", cs "www") := b]}.
Definition st (p : bool) : nat := if p then 0 else Z.to_nat 65536.
Definition ch (p : bool) : ascii := if p then "1"%char else "2"%char.

Lemma huge_length : Z.of_nat (length huge) = 131072.
Proof. unfold huge. rewrite length_replicate. lia. Qed.
Lemma writes_ok :
  phase_ok locate (between dn0 suffix (www huge))
    (Forked (run_cmds (dirs argv1 argv2 pid) writes_child) (run_cmds (dirs argv1 argv2 pid) writes_parent))
    (between dn0 suffix (www (both_parts huge st 64 ch))).
Proof.
  pose proof huge_length as Hl.
  assert (Z.of_nat (st false) = 65536) as Hst by (unfold st; lia).
  pose proof (parts_ok dn0 suffix locate (dirs argv1 argv2 pid) b_dirs_ok (fun _ => eq_refl)
    (cs "www") huge st 64 ch (www huge) D2) as Hp.
  rewrite Hst in Hp. unfold www in Hp |- *. rewrite insert_singleton_eq in Hp. apply Hp.
  - by_computing.
  - intros []; unfold st in *; lia.
  - intros k. unfold region, st in *. lia.
  - apply lookup_singleton_eq.
Qed.

Lemma b_main_ok : phases_ok locate (unused_dirs dn0 suffix) (main argv1 argv2 pid).
Proof.
  unfold main. set (d := dirs argv1 argv2 pid).
  assert (forall l M M', predict_all dn0 l M = Some M' ->
    phase_ok locate (between dn0 suffix M) (Solo (run_cmds d l)) (between dn0 suffix M')) as Hsolo
    by (intros l M M'; apply solo_ok, b_dirs_ok).
  assert (forall s, phase_ok locate (between dn0 suffix ∅)
    (Forked (run_cmds d (same_child s)) (run_cmds d same_parent)) (between dn0 suffix zzs)) as Hzz.
  { intros s. apply same_ok; [exact b_dirs_ok|done|by_computing|done|by_computing|by apply Nat.leb_le; vm_compute]. }
  apply (phases_cons locate _ (between dn0 suffix ∅)); [apply b_set_up_ok|].
  apply (phases_cons locate _ (between dn0 suffix ∅)); [apply Hsolo; by_computing|].
  apply (phases_cons locate _ (between dn0 suffix (after_fork dn0 creates_child creates_parent ∅)));
    [apply forked_step; [exact b_dirs_ok|by_computing]|].
  apply (phases_cons locate _ (between dn0 suffix ∅)); [apply Hsolo; by_computing|].
  apply (phases_cons locate _ (between dn0 suffix zzs)); [apply Hzz|].
  apply (phases_cons locate _ (between dn0 suffix xs)); [apply Hsolo; by_computing|].
  apply (phases_cons locate _ (between dn0 suffix (after_fork dn0 delete_child delete_parent xs)));
    [apply forked_step; [exact b_dirs_ok|by_computing]|].
  apply (phases_cons locate _ (between dn0 suffix ∅)); [apply Hsolo; by_computing|].
  apply (phases_cons locate _ (between dn0 suffix zzs)); [apply Hzz|].
  apply (phases_cons locate _ (between dn0 suffix (www huge))); [apply Hsolo; by_computing|].
  apply (phases_cons locate _ (between dn0 suffix (www (both_parts huge st 64 ch)))).
  { apply writes_ok. }
  apply (phases_cons locate _ (between dn0 suffix (www (both_parts huge st 64 ch)))); [apply Hsolo; by_computing|].
  apply phases_end.
Qed.
End program.
End lab_3_b_run.

Module lab_3_c_run.
Import lab_3_c.
Definition dn0 (s : side) : cstring := match s with D1 => cs "da" | D2 => cs "db" end.
Definition ends : gmap file cstring :=
  <[(cs "da", cs "yy-99") := int_bytes 99]> {[(cs "db", cs "xx-99") := int_bytes 99]}.

Section program.
  Variables (locate : cstring -> option location) (argv1 argv2 : cstring) (pid : Z).
  Hypothesis Hm1 : mounted locate argv1.
  Hypothesis Hm2 : mounted locate argv2.
  Hypothesis Hl1 : (length argv1 <= 250)%nat.
  Hypothesis Hl2 : (length argv2 <= 250)%nat.
Abbreviation suffix := (print_dec pid).

Lemma c_dirs_ok s : at_dir locate (dirs argv1 argv2 pid s) (dn dn0 suffix s).
Proof.
  assert (plain (cs "da") /\ plain (cs "db")) as [Ha Hb] by by_computing.
  destruct s; apply mounted_at; done || (simpl; lia).
Qed.
Lemma dirs_differ : dn dn0 suffix D2 <> dn dn0 suffix D1.
Proof. done. Qed.
Lemma c_set_up_ok : phase_ok locate (unused_dirs dn0 suffix) (Solo (set_up argv1 argv2 pid)) (between dn0 suffix ∅).
Proof.
  intros v (H1 & H2 & H3). destruct (at_dir_sprintf locate _ _ (c_dirs_ok D1)) as [S1 L1].
  destruct (at_dir_sprintf locate _ _ (c_dirs_ok D2)) as [S2 L2].
  assert (at_dir locate (file_path argv2 (cs "da" ++ suffix)) (dn dn0 suffix D1)) as Hdd
    by (apply mounted_at; [done|done|by_computing|simpl; lia]).
  destruct (at_dir_sprintf locate _ _ Hdd) as [S3 L3]. cbn [phase_ok]. unfold set_up.
  rewrite S1. cbn [mbind prog_bind]. apply wp_bind. eapply mkdir_wp; [exact L1|apply (H1 D1)|].
  rewrite S2. cbn [mbind prog_bind]. apply wp_bind. eapply mkdir_wp; [exact L2| |].
  { intros [Hi|Hi]%elem_of_union; [|by apply (H1 D2)]. by apply elem_of_singleton_1, dirs_differ in Hi. }
  rewrite S3. cbn [mbind prog_bind].
  eapply access_wp; [exact L3|by apply elem_of_union_r, elem_of_union_l, elem_of_singleton_2|].
  split; [|split; [|done]].
  - intros []; [by apply elem_of_union_r, elem_of_union_l, elem_of_singleton_2|by apply elem_of_union_l, elem_of_singleton_2].
  - intros s f. rewrite lookup_empty. apply (H2 s f).
Qed.

(** The parts of the program as lists of commands. *)
Definition child_cmds : list cmd := [CCreaten D2 (cs "xx") 100 false; CUnlinkn D2 (cs "xx") 99].
Definition parent_cmds : list cmd := [CCreaten D1 (cs "yy") 100 false; CUnlinkn D1 (cs "yy") 99].
Definition last_cmds : list cmd := [CDircheck D1 1; CDircheck D2 1].
Lemma child_is d : child d = run_cmds d child_cmds.
Proof. unfold child, createn, unlinkn, child_cmds. cbn [run_cmds run_cmd]. reflexivity. Qed.
Lemma parent_is d : parent d = run_cmds d parent_cmds.
Proof. unfold parent, createn, unlinkn, parent_cmds. cbn [run_cmds run_cmd]. reflexivity. Qed.
Lemma reaped_is d : reaped d = run_cmds d last_cmds.
Proof. unfold reaped, dircheck, last_cmds. cbn [run_cmds run_cmd]. reflexivity. Qed.

Lemma c_main_ok : phases_ok locate (unused_dirs dn0 suffix) (main argv1 argv2 pid).
Proof.
  unfold main. rewrite child_is, parent_is, reaped_is.
  apply (phases_cons locate _ (between dn0 suffix ∅)); [apply c_set_up_ok|].
  apply (phases_cons locate _ (between dn0 suffix ends)).
  { apply forked_step; [exact c_dirs_ok|]. by_computing. }
  apply (phases_cons locate _ (between dn0 suffix ends)); [apply solo_ok; [exact c_dirs_ok|]; by_computing|].
  apply phases_end.
Qed.
End program.
End lab_3_c_run.

(** * Properties *)

Section passes.
  Context {W : Type} `{IdealSystem W}.
  Variables (argv1 argv2 : cstring) (pid : Z) (world : W).
  Hypothesis Hm1 : mounted locate argv1.
  Hypothesis Hm2 : mounted locate argv2.
  Hypothesis Hl1 : (length argv1 <= 250)%nat.
  Hypothesis Hl2 : (length argv2 <= 250)%nat.

(** test-lab-3-b accepts a file system that works: on an ideal system with the file system mounted
    at two places, however the calls of the program and of its children are interleaved,
    test-lab-3-b ends and no check of it fails: files created, written,
    appended to and removed in one place are seen so in the other, concurrent creates of different
    and of the same files and concurrent writes to parts of one file all take effect. *)
Theorem lab_3_b_passes :
  unused_dirs lab_3_b_run.dn0 (print_dec pid) (view_of world) ->
  sn step (init world (lab_3_b.main argv1 argv2 pid)) /\
  forall s, rtc step (init world (lab_3_b.main argv1 argv2 pid)) s ->
    ~ failed s /\ (finished s \/ exists s', step s s').
Proof.
  intros Hv. eapply program_passes; [exact Hv|]. by apply lab_3_b_run.b_main_ok.
Qed.

(** Likewise the program that creates and removes a hundred files in each
    of two directories at the same time. *)
Theorem lab_3_c_passes :
  unused_dirs lab_3_c_run.dn0 (print_dec pid) (view_of world) ->
  sn step (init world (lab_3_c.main argv1 argv2 pid)) /\
  forall s, rtc step (init world (lab_3_c.main argv1 argv2 pid)) s ->
    ~ failed s /\ (finished s \/ exists s', step s s').
Proof.
  intros Hv. eapply program_passes; [exact Hv|]. by apply lab_3_c_run.c_main_ok.
Qed.
End passes.

(** [check1] compares as many characters as the path of the file has. *)
Lemma strncmp0_take a b n : take n a = take n b -> strncmp0 a b n = true.
Proof.
  revert a b. induction n as [|n IH]; intros [|x a] [|y b] E; try done.
  injection E as -> E. cbn [strncmp0 head default tail]. rewrite Ascii.eqb_refl, IH by done. apply orb_true_r.
Qed.
(** A file of 20000 characters that are all wrong but for the first hundred passes the check of the
    test that writes 20000 bytes, if its path has no more than a hundred. *)
Lemma check1_compares_prefix n : (n <= 100)%nat ->
  let wrong := replicate 100 "x"%char ++ replicate (Z.to_nat 19900) "y"%char in
  wrong <> lab_3_b.big /\ length wrong = length lab_3_b.big /\ strncmp0 wrong lab_3_b.big n = true.
Proof.
  intros Hn wrong. split; [|split].
  - intros E. apply (f_equal (fun l => l !! 100%nat)) in E. unfold wrong, lab_3_b.big in E.
    rewrite lookup_app_r, length_replicate in E by (rewrite length_replicate; lia).
    by rewrite !lookup_replicate_2 in E by lia.
  - unfold wrong, lab_3_b.big. rewrite length_app, !length_replicate. lia.
  - apply strncmp0_take. unfold wrong, lab_3_b.big. rewrite take_app_le by (rewrite length_replicate; lia).
    rewrite !take_replicate. f_equal. lia.
Qed.

(** * An ideal operating system *)

Module posix_example.
Definition not_slash (c : ascii) : bool := negb (Ascii.eqb c "/").
(** The file system is mounted at /a and at /b. *)
Definition locate0 (n : cstring) : option location :=
  match n with
  | s1 :: m :: s2 :: rest =>
      if Ascii.eqb s1 "/" && (Ascii.eqb m "a" || Ascii.eqb m "b") && Ascii.eqb s2 "/" then
        match span not_slash rest with
        | (d, []) => Some (LDir d)
        | (d, _ :: f) => Some (LFile (d, f))
        end
      else None
  | _ => None
  end.

Definition err (v : view) : view * reply := (v, Reply (-1) 2 [] []).
Definition ok (v : view) (ret : Z) : view * reply := (v, Reply ret 0 [] []).
Definition next_fd (v : view) : Z :=
  1 + foldr Z.max 0 ((fun kd => kd.1.2) <$> map_to_list (v_fds v)).
Definition open0 (v : view) (pid : bool) (d : desc) : view * reply :=
  ok (set_fd v pid (next_fd v) d) (next_fd v).
Definition call0 (pid : bool) (c : call) (v : view) : view * reply :=
  match c with
  | Creat n =>
      match locate0 n with
      | Some (LFile f) => open0 (set_file v f []) pid (Desc f 0 false true)
      | _ => err v
      end
  | Open n fl =>
      match locate0 n with
      | Some (LFile f) =>
          match v_files v !! f, fl with
          | Some _, _ => open0 v pid (flags_desc f fl)
          | None, O_WRONLY_CREAT => open0 (set_file v f []) pid (flags_desc f fl)
          | None, _ => err v
          end
      | _ => err v
      end
  | Read fd count =>
      match v_fds v !! (pid, fd) with
      | Some d =>
          let b := take count (drop (d_off d) (default [] (v_files v !! d_file d))) in
          (set_fd v pid fd (Desc (d_file d) (d_off d + length b) (d_append d) (d_write d)),
           Reply (Z.of_nat (length b)) 0 b [])
      | None => err v
      end
  | Write fd s =>
      match v_fds v !! (pid, fd) with
      | Some d =>
          let b := default [] (v_files v !! d_file d) in
          let off := if d_append d then length b else d_off d in
          ok (set_fd (set_file v (d_file d) (write_at b off s)) pid fd
                (Desc (d_file d) (off + length s) (d_append d) (d_write d))) (Z.of_nat (length s))
      | None => err v
      end
  | Lseek fd off =>
      match v_fds v !! (pid, fd) with
      | Some d => ok (set_fd v pid fd (Desc (d_file d) (Z.to_nat off) (d_append d) (d_write d))) off
      | None => err v
      end
  | Fsync fd => ok v 0
  | Close fd => ok (del_fd v pid fd) 0
  | Unlink n => match locate0 n with Some (LFile f) => ok (del_file v f) 0 | _ => err v end
  | Mkdir n => match locate0 n with Some (LDir d) => ok (add_dir v d) 0 | _ => err v end
  | Access n => ok v 0
  | Readdir n =>
      match locate0 n with
      | Some (LDir d) => (v, Reply 0 0 [] (cs "." :: cs ".." :: dir_names v d))
      | _ => err v
      end
  end.

#[local] Instance system0 : System view := { syscall := call0; view_of v := v; locate := locate0 }.

Lemma next_fd_fresh v pid : 0 <= next_fd v /\ v_fds v !! (pid, next_fd v) = None.
Proof.
  assert (forall (l : list Z) x, x ∈ l -> x <= foldr Z.max 0 l) as Hmax.
  { induction l as [|y l IH]; intros x Hx; [by apply not_elem_of_nil in Hx|]. simpl.
    apply elem_of_cons in Hx as [->|Hx]; [lia|]. specialize (IH x Hx). lia. }
  assert (forall l : list Z, 0 <= foldr Z.max 0 l) as Hpos by (induction l; simpl; lia).
  unfold next_fd. split; [specialize (Hpos ((fun kd => kd.1.2) <$> map_to_list (v_fds v))); lia|].
  destruct (v_fds v !! _) as [d|] eqn:E; [|done]. apply elem_of_map_to_list in E.
  apply (list_elem_of_fmap_2 (fun kd => kd.1.2)), Hmax in E. simpl in E. lia.
Qed.
Lemma open0_opens v pid d : opens v (open0 v pid d).1 pid (r_ret (open0 v pid d).2) d.
Proof. destruct (next_fd_fresh v pid). by split_and!. Qed.

#[local] Instance laws0 : IdealSystem view.
Proof.
  constructor. intros pid c v. destruct c as [n|n fl|fd count|fd s|fd off|fd|fd|n|n|n|n]; cbn -[open0];
    intros.
  - match goal with E : locate0 _ = _ |- _ => rewrite E end. apply open0_opens.
  - match goal with E : locate0 _ = _ |- _ => rewrite E end.
    destruct (v_files v !! f) as [b|]; [apply open0_opens|]. destruct fl; try done. apply open0_opens.
  - by simplify_option_eq.
  - by simplify_option_eq.
  - by simplify_option_eq.
  - done.
  - done.
  - by simplify_option_eq.
  - by simplify_option_eq.
  - done.
  - match goal with E : locate0 _ = _ |- _ => rewrite E end. by split_and!.
Defined.

Lemma mounted0 m : Ascii.eqb m "a" || Ascii.eqb m "b" = true -> mounted locate0 (["/"%char] ++ [m]).
Proof.
  intros Hm d [Hd Hs].
  assert (forall x, "/"%char ∉ x -> Forall (fun c => not_slash c = true) x) as Hns.
  { intros x Hx. apply Forall_forall. intros c Hc. unfold not_slash. apply negb_true_iff, Ascii.eqb_neq. by intros ->. }
  split.
  - cbn. rewrite Hm. cbn. by rewrite span_all by by apply Hns.
  - intros f _. cbn. rewrite Hm. cbn. rewrite span_app; [done|by apply Hns|done].
Qed.

Definition empty : view := View ∅ ∅ ∅.
Lemma lab_3_b_passes_witness :
  sn step (init empty (lab_3_b.main (cs "/a") (cs "/b") 42)) /\
  forall s, rtc step (init empty (lab_3_b.main (cs "/a") (cs "/b") 42)) s ->
    ~ failed s /\ (finished s \/ exists s', step s s').
Proof.
  apply (lab_3_b_passes (cs "/a") (cs "/b") 42 empty).
  - exact (mounted0 "a" eq_refl).
  - exact (mounted0 "b" eq_refl).
  - apply Nat.leb_le. reflexivity.
  - apply Nat.leb_le. reflexivity.
  - split; [|split].
    + intros s Hs. by apply not_elem_of_empty in Hs.
    + intros s f. apply lookup_empty.
    + intros p. apply lookup_empty.
Defined.
Lemma lab_3_c_passes_witness :
  sn step (init empty (lab_3_c.main (cs "/a") (cs "/b") 42)) /\
  forall s, rtc step (init empty (lab_3_c.main (cs "/a") (cs "/b") 42)) s ->
    ~ failed s /\ (finished s \/ exists s', step s s').
Proof.
  apply (lab_3_c_passes (cs "/a") (cs "/b") 42 empty).
  - exact (mounted0 "a" eq_refl).
  - exact (mounted0 "b" eq_refl).
  - apply Nat.leb_le. reflexivity.
  - apply Nat.leb_le. reflexivity.
  - split; [|split].
    + intros s Hs. by apply not_elem_of_empty in Hs.
    + intros s f. apply lookup_empty.
    + intros p. apply lookup_empty.
Defined.
End posix_example.
