(* ===== verification/Tokenizer.v ===== *)
(** The string tokenizer: StringTokenizer.cc, which no other part of the program uses.

    It keeps positions in an [unsigned int] and compares them with [std::string::npos], a [size_t]:
    the width of [size_t] is an argument.  Where both have 32 bits, the tokens are the fields of the
    string between delimiters; where [size_t] has 64, the comparison never fails and the constructor
    does not return. *)
From Stdlib Require Import ZArith Lia Ascii String.
From stdpp Require Import base list sets strings.
From S2P Require Import Prelude TextIO.
Local Open Scope Z_scope.

(** * std::string *)

Fixpoint starts_with (t s : cstring) : bool :=
  match t, s with
  | [], _ => true
  | x :: t, y :: s => Ascii.eqb x y && starts_with t s
  | _ :: _, [] => false
  end.
(** The first and the last place where [t] is in [s]. *)
Fixpoint search (t s : cstring) : option nat :=
  if starts_with t s then Some 0%nat
  else match s with [] => None | _ :: s => k ← search t s; Some (S k) end.
Fixpoint search_last (t s : cstring) : option nat :=
  match s with
  | [] => if starts_with t [] then Some 0%nat else None
  | _ :: s' =>
      match search_last t s' with
      | Some k => Some (S k)
      | None => if starts_with t s then Some 0%nat else None
      end
  end.
(** [erase] and [substr] throw an exception for a position behind the end. *)
Definition erase (s : cstring) (pos n : Z) : outcome cstring :=
  if pos >? Z.of_nat (length s) then Fault Uncaught
  else Ret (take (Z.to_nat pos) s ++ drop (Z.to_nat (pos + n)) s).
Definition substr (s : cstring) (pos n : Z) : outcome cstring :=
  if pos >? Z.of_nat (length s) then Fault Uncaught else Ret (take (Z.to_nat n) (drop (Z.to_nat pos) s)).

Record tokenizer := Tokenizer { token_str : cstring; delim : cstring }.

Section tokenizer.
  (** The number of bits of [size_t]. *)
  Variable W : Z.

Definition npos : Z := 2 ^ W - 1.
Definition find (s t : cstring) (pos : Z) : Z :=
  if pos >? Z.of_nat (length s) then npos
  else match search t (drop (Z.to_nat pos) s) with Some k => pos + Z.of_nat k | None => npos end.
Definition rfind (s t : cstring) : Z :=
  match search_last t s with Some k => Z.of_nat k | None => npos end.

Abbreviation len t := (Z.of_nat (length t)).

(** The inner loop of the constructor: delimiters at [pos] are erased. *)
Fixpoint erase_at (fuel : nat) (s t : cstring) (pos : Z) : outcome cstring :=
  match fuel with
  | O => Fault Diverged
  | S fuel =>
      if find s t pos =? pos then s ← erase s pos (len t); erase_at fuel s t pos else Ret s
  end.
(** The outer loop. *)
Fixpoint squeeze (fuel : nat) (s t : cstring) (curr_pos : Z) : outcome cstring :=
  match fuel with
  | O => Fault Diverged
  | S fuel =>
      let curr_pos := u32 (find s t curr_pos) in
      if negb (curr_pos =? npos) then
        let curr_pos := u32 (curr_pos + len t) in
        s ← erase_at (S (length s)) s t curr_pos;
        squeeze fuel s t curr_pos
      else Ret s
  end.
(** A string or a delimiter that is empty leaves both fields empty. *)
Definition tokenizer_new (fuel : nat) (str t : cstring) : outcome tokenizer :=
  if (Nat.eqb (length str) 0) || (Nat.eqb (length t) 0) then Ret (Tokenizer [] [])
  else
    s ← squeeze fuel str t 0;
    s ← (if find s t 0 =? 0 then erase s 0 (len t) else Ret s);
    let curr_pos := u32 (rfind s t) in
    if negb (curr_pos =? npos) then
      if negb (curr_pos =? (len s - len t) mod 2 ^ W) then Ret (Tokenizer s t)
      else s ← erase s ((len s - len t) mod 2 ^ W) (len t); Ret (Tokenizer s t)
    else Ret (Tokenizer s t).

Fixpoint count_loop (fuel : nat) (s t : cstring) (curr_pos num_tokens : Z) : outcome Z :=
  match fuel with
  | O => Fault Diverged
  | S fuel =>
      let curr_pos := u32 (find s t curr_pos) in
      if negb (curr_pos =? npos) then count_loop fuel s t (u32 (curr_pos + len t)) (num_tokens + 1)
      else Ret (num_tokens + 1)
  end.
Definition countTokens (fuel : nat) (k : tokenizer) : outcome Z :=
  if len (token_str k) >? 0 then count_loop fuel (token_str k) (delim k) 0 0 else Ret 0.
Definition hasMoreTokens (k : tokenizer) : bool := len (token_str k) >? 0.

(** [nextToken] with a delimiter, and with that of the tokenizer. *)
Definition nextToken_at (k : tokenizer) (t : cstring) : outcome (tokenizer * cstring) :=
  let s := token_str k in
  if len s =? 0 then Ret (k, [])
  else
    let pos := u32 (find s t 0) in
    if negb (pos =? npos) then
      tmp ← substr s 0 pos;
      rest ← substr s ((pos + len t) mod 2 ^ W) ((len s - pos) mod 2 ^ W);
      Ret (Tokenizer rest (delim k), tmp)
    else
      tmp ← substr s 0 (len s);
      Ret (Tokenizer [] (delim k), tmp).
Definition nextToken (k : tokenizer) : outcome (tokenizer * cstring) := nextToken_at k (delim k).
(** [atof] is a function of the C library; [double] is its type. *)
Definition nextIntToken (k : tokenizer) : outcome (tokenizer * Z) :=
  '(k, s) ← nextToken k;
  n ← atoi (c_string s);
  Ret (k, n).
Definition nextFloatToken {double : Type} (atof : cstring -> double) (k : tokenizer)
    : outcome (tokenizer * double) :=
  '(k, s) ← nextToken k;
  Ret (k, atof (c_string s)).
Definition remainingString (k : tokenizer) : cstring := token_str k.

Fixpoint filter_loop (fuel : nat) (s t : cstring) (pos : Z) : outcome cstring :=
  match fuel with
  | O => Fault Diverged
  | S fuel =>
      let pos := u32 (find s t pos) in
      if negb (pos =? npos) then s ← erase s pos (len t); filter_loop fuel s t pos else Ret s
  end.
Definition filterNextToken (fuel : nat) (k : tokenizer) (t : cstring) : outcome (tokenizer * cstring) :=
  '(k, s) ← nextToken k;
  s ← filter_loop fuel s t 0;
  Ret (k, s).

(** All tokens, as a caller takes them. *)
Fixpoint tokens (fuel : nat) (k : tokenizer) : outcome (list cstring) :=
  match fuel with
  | O => Fault Diverged
  | S fuel =>
      if hasMoreTokens k then
        '(k, s) ← nextToken k;
        l ← tokens fuel k;
        Ret (s :: l)
      else Ret []
  end.
End tokenizer.

(** * Where size_t has 64 bits *)

Lemma starts_with_length t s : starts_with t s = true -> (length t <= length s)%nat.
Proof.
  revert s. induction t as [|x t IH]; intros [|y s]; simpl; try done; [lia|].
  intros [_ Hs]%andb_true_iff. apply IH in Hs. lia.
Qed.
Lemma search_bound t s k : search t s = Some k -> (k + length t <= length s)%nat.
Proof.
  revert k. induction s as [|y s IH]; intros k; simpl.
  - destruct (starts_with t []) eqn:E; [|done]. intros [= <-]. by apply starts_with_length in E.
  - destruct (starts_with t (y :: s)) eqn:E; [intros [= <-]; by apply starts_with_length in E|].
    intros (k' & Hk & [= <-])%bind_Some. apply IH in Hk. lia.
Qed.
(** A delimiter at [pos] is within the string. *)
Lemma find_at W s t pos : 0 <= pos < npos W -> find W s t pos = pos ->
  pos + Z.of_nat (length t) <= Z.of_nat (length s).
Proof.
  intros Hpos. unfold find. destruct (pos >? Z.of_nat (length s)) eqn:E; [lia|].
  destruct (search t _) as [k|] eqn:Hk; [|lia]. apply search_bound in Hk. rewrite length_drop in Hk. lia.
Qed.
(** The inner loop ends: it leaves a string that has no delimiter at [pos]. *)
Lemma erase_at_ends W fuel s t pos : 0 <= pos < npos W -> t <> [] -> (length s < fuel)%nat ->
  exists s', erase_at W fuel s t pos = Ret s' /\ (length s' <= length s)%nat.
Proof.
  intros Hpos Ht. revert s. induction fuel as [|fuel IH]; intros s Hf; [lia|]. cbn [erase_at].
  destruct (Z.eqb_spec (find W s t pos) pos) as [E|]; [|by exists s].
  pose proof (find_at W s t pos Hpos E) as Hb. unfold erase.
  destruct (pos >? Z.of_nat (length s)) eqn:E1; [lia|]. cbn [mbind outcome_bind].
  assert (length t <> 0%nat) by by destruct t.
  destruct (IH (take (Z.to_nat pos) s ++ drop (Z.to_nat (pos + Z.of_nat (length t))) s)) as (s' & -> & Hl).
  { rewrite length_app, length_take, length_drop. lia. }
  exists s'. split; [done|]. rewrite length_app, length_take, length_drop in Hl. lia.
Qed.

Lemma squeeze_diverges fuel s t pos : t <> [] -> squeeze 64 fuel s t pos = Fault Diverged.
Proof.
  intros Ht. revert s pos. induction fuel as [|fuel IH]; intros s pos; [done|]. cbn [squeeze].
  set (p := u32 (find 64 s t pos)). set (p' := u32 (p + _)).
  assert (0 <= p < 2 ^ 32 /\ 0 <= p' < 2 ^ 32) as [Hp Hp'] by (split; apply Z.mod_pos_bound; lia).
  assert ((p =? npos 64) = false) as -> by (unfold npos; lia). cbn [negb].
  destruct (erase_at_ends 64 (S (length s)) s t p') as (s' & -> & _); [unfold npos; lia|done|lia|].
  cbn [mbind outcome_bind]. apply IH.
Qed.
(** The constructor loops for ever on every string and delimiter that are not empty. *)
Theorem tokenizer_diverges fuel str t :
  str <> [] -> t <> [] -> tokenizer_new 64 fuel str t = Fault Diverged.
Proof.
  intros Hs Ht. unfold tokenizer_new. destruct str as [|x str], t as [|y t]; try done. cbn [length Nat.eqb orb].
  by rewrite squeeze_diverges.
Qed.

(** * Where size_t has 32 bits: the tokens are the fields *)

(** The parts between delimiters, and those that are not empty. *)
Fixpoint split (c : ascii) (s : cstring) : list cstring :=
  match s with
  | [] => [[]]
  | x :: s =>
      if Ascii.eqb x c then [] :: split c s
      else match split c s with p :: l => (x :: p) :: l | [] => [[x]] end
  end.
Definition fields (c : ascii) (s : cstring) : list cstring := filter (fun p => p <> []) (split c s).

Lemma split_cut c p q : split c (p ++ c :: q) = split c p ++ split c q.
Proof.
  assert (forall s, split c s <> []) as Hne.
  { induction s as [|x s IH]; simpl; [done|]. destruct (Ascii.eqb x c); [done|]. by destruct (split c s). }
  induction p as [|x p IH]; simpl; [by rewrite Ascii.eqb_refl|]. rewrite IH.
  destruct (Ascii.eqb x c); [done|]. pose proof (Hne p). by destruct (split c p).
Qed.
Lemma fields_cut c p q : fields c (p ++ c :: q) = fields c p ++ fields c q.
Proof. unfold fields. by rewrite split_cut, filter_app. Qed.
Lemma fields_one c p : c ∉ p -> p <> [] -> fields c p = [p].
Proof.
  intros Hc Hp. unfold fields. assert (split c p = [p]) as ->; [|by rewrite filter_cons_True].
  clear Hp. induction p as [|x p IH]; simpl; [done|]. apply not_elem_of_cons in Hc as [Hx Hc].
  rewrite IH by done. by rewrite (proj2 (Ascii.eqb_neq x c)) by done.
Qed.

Section chars.
  Variable c : ascii.
Abbreviation max := (2 ^ 31).

Lemma search_char s :
  match search [c] s with
  | Some k => exists p q, s = p ++ c :: q /\ length p = k /\ c ∉ p
  | None => c ∉ s
  end.
Proof.
  induction s as [|x s IH]; simpl; [apply not_elem_of_nil|]. rewrite andb_true_r.
  destruct (Ascii.eqb_spec c x) as [<-|Hne]; [exists [], s; split_and!; [done|done|apply not_elem_of_nil]|].
  destruct (search [c] s) as [k|]; simpl.
  - destruct IH as (p & q & -> & <- & Hp). exists (x :: p), q. split_and!; [done|done|]. by apply not_elem_of_cons.
  - by apply not_elem_of_cons.
Qed.

(** The position found, as it is stored, and the string around it; [pre] is in front of the start. *)
Lemma found pre s : Z.of_nat (length (pre ++ s)) < max ->
  let pos := u32 (find 32 (pre ++ s) [c] (Z.of_nat (length pre))) in
  (pos = npos 32 /\ c ∉ s) \/
  exists p q, s = p ++ c :: q /\ (c ∉ p) /\ pos = Z.of_nat (length (pre ++ p)) /\ pos <> npos 32.
Proof.
  intros Hl. rewrite length_app in Hl. unfold find. rewrite length_app, Nat2Z.inj_add.
  destruct (_ >? _) eqn:E; [lia|]. rewrite Nat2Z.id, drop_app_length. pose proof (search_char s) as Hs.
  destruct (search [c] s) as [k|]; [|by left]. right. destruct Hs as (p & q & -> & <- & Hp). exists p, q.
  rewrite length_app in Hl. simpl in Hl. rewrite <- Nat2Z.inj_add, <- length_app.
  assert (Z.of_nat (length (pre ++ p)) < max) by (rewrite length_app; lia).
  rewrite u32_id by (unfold is_u32; lia). split_and!; try done. unfold npos. lia.
Qed.
(** Whether there is a delimiter at a position. *)
Lemma find_here pre s : Z.of_nat (length (pre ++ s)) < max ->
  (find 32 (pre ++ s) [c] (Z.of_nat (length pre)) =? Z.of_nat (length pre)) = bool_decide (head s = Some c).
Proof.
  intros Hl. rewrite length_app in Hl. unfold find. rewrite length_app, Nat2Z.inj_add.
  destruct (_ >? _) eqn:E; [lia|]. rewrite Nat2Z.id, drop_app_length. pose proof (search_char s) as Hs.
  destruct (search [c] s) as [k|].
  - destruct Hs as (p & q & -> & <- & Hp). destruct p as [|x p]; cbn [length app head].
    + rewrite Z.add_0_r, Z.eqb_refl. by rewrite bool_decide_true.
    + rewrite bool_decide_false; [apply Z.eqb_neq; lia|]. intros [= ->]. apply Hp. by left.
  - rewrite bool_decide_false; [apply Z.eqb_neq; unfold npos; lia|]. destruct s as [|x s]; [done|]. intros [= ->]. apply Hs. by left.
Qed.

(** The delimiters that follow a delimiter are erased. *)
Lemma erase_at_char fuel pre s : (length s < fuel)%nat -> Z.of_nat (length (pre ++ c :: s)) < max ->
  exists s', erase_at 32 fuel ((pre ++ [c]) ++ s) [c] (Z.of_nat (length (pre ++ [c]))) = Ret ((pre ++ [c]) ++ s') /\
    head s' <> Some c /\ fields c s' = fields c s /\ (length s' <= length s)%nat.
Proof.
  revert s. induction fuel as [|fuel IH]; intros s Hf Hl; [lia|]. cbn [erase_at].
  rewrite find_here by (rewrite <- app_assoc; exact Hl).
  destruct (bool_decide_reflect (head s = Some c)) as [Hh|Hh]; [|by exists s].
  destruct s as [|x s]; [done|]. injection Hh as ->. unfold erase.
  assert ((Z.of_nat (length (pre ++ [c])) >? Z.of_nat (length ((pre ++ [c]) ++ c :: s))) = false) as ->
    by (rewrite Z.gtb_ltb, (length_app (pre ++ [c])); apply Z.ltb_ge; lia). cbn [mbind outcome_bind].
  rewrite Nat2Z.id, take_app_length. replace (Z.to_nat _) with (S (length (pre ++ [c]))) by (simpl; lia).
  replace (drop (S (length (pre ++ [c]))) ((pre ++ [c]) ++ c :: s)) with s
    by (rewrite drop_app_ge by lia; by replace (S _ - _)%nat with 1%nat by lia).
  destruct (IH s) as (s' & Es & Hh & Hfi & Hle).
  - simpl in Hf. lia.
  - rewrite length_app in *. simpl in *. lia.
  - exists s'. split; [done|]. split; [done|]. split; [|simpl; lia]. rewrite Hfi. symmetry. apply (fields_cut c [] s).
Qed.

(** No delimiter follows a delimiter. *)
Inductive single : cstring -> Prop :=
| single_last p : c ∉ p -> single p
| single_cut p s : c ∉ p -> head s <> Some c -> single s -> single (p ++ c :: s).

Lemma squeeze_char fuel pre s : (length s < fuel)%nat -> Z.of_nat (length (pre ++ s)) < max ->
  exists s', squeeze 32 fuel (pre ++ s) [c] (Z.of_nat (length pre)) = Ret (pre ++ s') /\
    single s' /\ fields c s' = fields c s /\ (length s' <= length s)%nat /\ (head s <> Some c -> head s' <> Some c).
Proof.
  revert pre s. induction fuel as [|fuel IH]; intros pre s Hf Hl; [lia|]. cbn [squeeze].
  destruct (found pre s Hl) as [[E Hc]|(p & q & -> & Hp & E & Hne)]; cbv zeta in E; rewrite E.
  { rewrite Z.eqb_refl. cbn [negb]. exists s. split_and!; try done. by apply single_last. }
  rewrite (proj2 (Z.eqb_neq _ _)) by (by rewrite <- E). cbn [negb].
  rewrite !length_app in Hl. simpl in Hl.
  replace (u32 (Z.of_nat (length (pre ++ p)) + Z.of_nat (length [c]))) with (Z.of_nat (length ((pre ++ p) ++ [c]))).
  2: { rewrite u32_id; rewrite ?length_app; simpl; [lia|]. unfold is_u32. lia. }
  replace (pre ++ p ++ c :: q) with (((pre ++ p) ++ [c]) ++ q) by (by rewrite <- !app_assoc).
  destruct (erase_at_char (S (length (((pre ++ p) ++ [c]) ++ q))) (pre ++ p) q) as (q' & -> & Hq' & Hfi & Hle).
  { rewrite !length_app. simpl. lia. }
  { rewrite !length_app. simpl. lia. }
  cbn [mbind outcome_bind]. rewrite length_app in Hf. simpl in Hf.
  destruct (IH ((pre ++ p) ++ [c]) q') as (s' & -> & Hs & Hfs & Hls & Hhs).
  { lia. }
  { rewrite !length_app. simpl. lia. }
  exists (p ++ c :: s'). rewrite <- !app_assoc. split; [done|]. split; [apply single_cut; auto|]. split.
  - by rewrite !fields_cut, Hfs, Hfi.
  - rewrite !length_app. simpl. split; [lia|]. by destruct p.
Qed.

(** A delimiter at the end is the last one. *)
Lemma search_last_char s :
  match search_last [c] s with
  | Some k => exists p q, s = p ++ c :: q /\ length p = k /\ c ∉ q
  | None => c ∉ s
  end.
Proof.
  induction s as [|x s IH]; [apply not_elem_of_nil|]. cbn [search_last]. destruct (search_last [c] s) as [k|].
  - destruct IH as (p & q & -> & <- & Hq). by exists (x :: p), q.
  - cbn [starts_with]. rewrite andb_true_r. destruct (Ascii.eqb_spec c x) as [<-|Hne]; [by exists [], s|].
    by apply not_elem_of_cons.
Qed.

(** ... and none begins or ends the string. *)
Inductive tidy : cstring -> Prop :=
| tidy_nil : tidy []
| tidy_last p : c ∉ p -> p <> [] -> tidy p
| tidy_cut p s : c ∉ p -> p <> [] -> s <> [] -> tidy s -> tidy (p ++ c :: s).

(** Only the end is left to trim. *)
Lemma single_tidy s : single s -> head s <> Some c ->
  tidy s \/ exists s', s = s' ++ [c] /\ tidy s' /\ s' <> [].
Proof.
  induction 1 as [p Hp|p s Hp Hs Hsi IH]; intros Hh.
  - left. destruct p; [constructor|by constructor 2].
  - assert (p <> []) as Hpn by by destruct p. destruct (IH Hs) as [Ht|(s' & -> & Ht & Hs')].
    + destruct (decide (s = [])) as [->|Hne]; [right; exists p; split_and!; [done|by constructor 2|done]|].
      left. by constructor 3.
    + right. exists (p ++ c :: s'). rewrite <- app_assoc. split; [done|]. split; [by constructor 3|]. by destruct p.
Qed.
Lemma tidy_end s : tidy s -> s <> [] -> exists p x, s = p ++ [x] /\ x <> c.
Proof.
  induction 1 as [|p Hp Hn|p s Hp Hn Hs Ht IH]; intros Hne; [done|..].
  - destruct p as [|x p _] using rev_ind; [done|]. exists p, x. split; [done|]. intros ->. apply Hp. set_solver.
  - destruct (IH Hs) as (q & x & -> & Hx). exists (p ++ c :: q), x. by rewrite <- app_assoc.
Qed.

Lemma tokenizer_tidy fuel str : str <> [] -> Z.of_nat (length str) < max -> (length str < fuel)%nat ->
  exists s, tokenizer_new 32 fuel str [c] = Ret (Tokenizer s [c]) /\ tidy s /\ fields c s = fields c str /\
    (length s <= length str)%nat.
Proof.
  intros Hne Hl Hf. unfold tokenizer_new. assert ((length str =? 0)%nat = false) as -> by by destruct str.
  cbn [length Nat.eqb orb]. destruct (squeeze_char fuel [] str Hf Hl) as (s1 & E1 & Hs1 & Hf1 & Hl1 & _).
  cbn [app length] in E1. change (Z.of_nat 0) with 0 in E1. rewrite E1. cbn [mbind outcome_bind].
  pose proof (find_here [] s1) as Efind. cbn [app length] in Efind. change (Z.of_nat 0) with 0 in Efind.
  rewrite Efind by lia. clear E1 Efind.
  (* the leading delimiter *)
  assert (exists s2, (if bool_decide (head s1 = Some c) then erase s1 0 (Z.of_nat 1) else Ret s1) = Ret s2 /\
    single s2 /\ head s2 <> Some c /\ fields c s2 = fields c str /\ (length s2 <= length str)%nat) as (s2 & -> & Hs2 & Hh2 & Hf2 & Hl2).
  { destruct (bool_decide_reflect (head s1 = Some c)) as [Hh|Hh]; [|by exists s1].
    destruct s1 as [|x s1]; [done|]. injection Hh as ->. exists s1. split; [done|].
    simpl in Hl1. split.
    - inversion Hs1 as [p Hp|p s' Hp Hs' Hsi E]; subst; [exfalso; apply Hp; by left|].
      destruct p as [|y p]; simplify_eq/=; [done|]. exfalso. apply Hp. by left.
    - split; [|split; [|lia]].
      + inversion Hs1 as [p Hp|p s' Hp Hs' Hsi E]; subst; [exfalso; apply Hp; by left|].
        destruct p as [|y p]; simplify_eq/=; [done|]. exfalso. apply Hp. by left.
      + rewrite <- Hf1. symmetry. apply (fields_cut c [] s1). }
  cbn [mbind outcome_bind].
  destruct (single_tidy s2 Hs2 Hh2) as [Ht|(s' & -> & Ht & Hs')].
  - (* there is none at the end *)
    exists s2. split; [|done]. unfold rfind. pose proof (search_last_char s2) as Hlast.
    destruct (search_last [c] s2) as [k|]; [|by rewrite u32_id by (by vm_compute)].
    destruct Hlast as (p & q & -> & <- & Hq). rewrite u32_id by (unfold is_u32; rewrite length_app in *; simpl in *; lia).
    rewrite length_app in *. simpl in *.
    assert (q <> []) as Hqn.
    { intros ->. destruct (tidy_end _ Ht) as (p' & x & E & Hx); [by destruct p|]. apply app_inj_tail in E as [_ ->]. done. }
    assert (length q <> 0%nat) by by destruct q.
    rewrite (proj2 (Z.eqb_neq _ _)) by (unfold npos; lia). cbn [negb].
    rewrite Z.mod_small by lia. by rewrite (proj2 (Z.eqb_neq _ _)) by lia.
  - exists s'. rewrite length_app in Hl2. simpl in Hl2.
    assert (u32 (rfind 32 (s' ++ [c]) [c]) = Z.of_nat (length s')) as ->.
    { unfold rfind. pose proof (search_last_char (s' ++ [c])) as Hlast. destruct (search_last [c] _) as [k|].
      - destruct Hlast as (p & q & E & <- & Hq). destruct q as [|x q _] using rev_ind.
        + apply app_inj_tail in E as [-> _]. apply u32_id. unfold is_u32. lia.
        + rewrite app_comm_cons, app_assoc in E. apply app_inj_tail in E as [_ <-]. exfalso. apply Hq. set_solver.
      - exfalso. apply Hlast. set_solver. }
    rewrite (proj2 (Z.eqb_neq _ _)) by (unfold npos; lia). cbn [negb]. rewrite length_app. cbn [length].
    replace ((Z.of_nat (length s' + 1) - Z.of_nat 1) mod 2 ^ 32) with (Z.of_nat (length s')) by (rewrite Z.mod_small; lia).
    rewrite Z.eqb_refl. cbn [negb]. unfold erase. rewrite length_app. cbn [length].
    assert ((Z.of_nat (length s') >? Z.of_nat (length s' + 1)) = false) as -> by (rewrite Z.gtb_ltb; apply Z.ltb_ge; lia).
    cbn [mbind outcome_bind]. rewrite Nat2Z.id, take_app_length, drop_ge, app_nil_r by (rewrite length_app; simpl; lia).
    split; [done|]. split; [done|]. split; [|lia]. rewrite <- Hf2, fields_cut. by rewrite app_nil_r.
Qed.

Lemma cut_unique p s p' s' : p ++ c :: s = p' ++ c :: s' -> c ∉ p -> c ∉ p' -> p' = p /\ s' = s.
Proof.
  revert p'. induction p as [|x p IH]; intros [|y p'] Es Hp Hp'; simplify_eq/=.
  - done.
  - exfalso. apply Hp'. by left.
  - exfalso. apply Hp. by left.
  - apply not_elem_of_cons in Hp as [_ Hp], Hp' as [_ Hp']. by destruct (IH p') as [-> ->].
Qed.
Lemma hasMoreTokens_yes s t : s <> [] -> hasMoreTokens (Tokenizer s t) = true.
Proof. intros Hs. unfold hasMoreTokens. cbn [token_str]. rewrite Z.gtb_ltb. apply Z.ltb_lt. destruct s; [done|simpl; lia]. Qed.
Lemma substr_app p s n : substr (p ++ s) (Z.of_nat (length p)) n = Ret (take (Z.to_nat n) s).
Proof.
  unfold substr. rewrite length_app.
  assert ((Z.of_nat (length p) >? Z.of_nat (length p + length s)) = false) as -> by (rewrite Z.gtb_ltb; apply Z.ltb_ge; lia).
  by rewrite Nat2Z.id, drop_app_length.
Qed.
Lemma nextToken_last p : c ∉ p -> p <> [] -> Z.of_nat (length p) < max ->
  nextToken 32 (Tokenizer p [c]) = Ret (Tokenizer [] [c], p).
Proof.
  intros Hc Hp Hl. unfold nextToken, nextToken_at. cbn [token_str delim].
  assert (length p <> 0%nat) by by destruct p. rewrite (proj2 (Z.eqb_neq _ _)) by lia.
  destruct (found [] p Hl) as [[E _]|(q & r & -> & _)]; [|exfalso; apply Hc; set_solver].
  cbv zeta in E. cbn [app length] in E. change (Z.of_nat 0) with 0 in E. rewrite E, Z.eqb_refl. cbn [negb].
  pose proof (substr_app [] p (Z.of_nat (length p))) as Hs. cbn [app length] in Hs. change (Z.of_nat 0) with 0 in Hs.
  rewrite Hs. cbn [mbind outcome_bind]. by rewrite Nat2Z.id, firstn_all.
Qed.
Lemma nextToken_cut p s : c ∉ p -> p <> [] -> Z.of_nat (length (p ++ c :: s)) < max ->
  nextToken 32 (Tokenizer (p ++ c :: s) [c]) = Ret (Tokenizer s [c], p).
Proof.
  intros Hc Hp Hl. unfold nextToken, nextToken_at. cbn [token_str delim]. set (str := p ++ c :: s) in *.
  assert (length str <> 0%nat) by (unfold str; by destruct p). rewrite (proj2 (Z.eqb_neq _ _)) by lia.
  destruct (found [] str Hl) as [[_ Hn]|(p' & s' & Es & Hp' & E & Hne)]; [exfalso; apply Hn; unfold str; set_solver|].
  cbv zeta in E, Hne. cbn [app length] in E, Hne. change (Z.of_nat 0) with 0 in E, Hne.
  assert (p' = p /\ s' = s) as [-> ->].
  { by apply cut_unique. }
  rewrite (proj2 (Z.eqb_neq _ _) Hne), E. cbn [negb].
  pose proof (substr_app [] str (Z.of_nat (length p))) as Hs. cbn [app length] in Hs. change (Z.of_nat 0) with 0 in Hs.
  rewrite Hs. cbn [mbind outcome_bind]. unfold str in *. rewrite length_app in Hl. simpl in Hl.
  rewrite Nat2Z.id, take_app_length. rewrite (Z.mod_small (_ + _)) by (simpl; lia).
  replace (Z.of_nat (length p) + Z.of_nat (length [c])) with (Z.of_nat (length (p ++ [c]))) by (rewrite length_app; simpl; lia).
  replace (p ++ c :: s) with ((p ++ [c]) ++ s) by (by rewrite <- app_assoc). rewrite substr_app. cbn [mbind outcome_bind].
  rewrite take_ge; [done|]. rewrite !length_app. simpl. rewrite Z.mod_small by lia. lia.
Qed.

Lemma tokens_tidy s : tidy s -> forall fuel, Z.of_nat (length s) < max -> (length s < fuel)%nat ->
  tokens 32 fuel (Tokenizer s [c]) = Ret (fields c s).
Proof.
  induction 1 as [|p Hp Hn|p s Hp Hn Hs Ht IH]; intros [|fuel] Hl Hf; try lia; cbn [tokens].
  - done.
  - rewrite hasMoreTokens_yes, nextToken_last by done. cbn [mbind outcome_bind].
    assert (length p <> 0%nat) by by destruct p. destruct fuel; [lia|]. cbn [tokens]. by rewrite fields_one.
  - rewrite hasMoreTokens_yes, nextToken_cut by (done || by destruct p). rewrite length_app in *. simpl in Hl, Hf.
    cbn [mbind outcome_bind]. rewrite IH by lia. cbn [mbind outcome_bind]. by rewrite fields_cut, (fields_one c p).
Qed.
Lemma count_tidy s : tidy s -> s <> [] -> forall fuel pre n, Z.of_nat (length (pre ++ s)) < max -> (length s < fuel)%nat ->
  count_loop 32 fuel (pre ++ s) [c] (Z.of_nat (length pre)) n = Ret (n + Z.of_nat (length (fields c s))).
Proof.
  induction 1 as [|p Hp Hn|p s Hp Hn Hs Ht IH]; intros Hne [|fuel] pre n Hl Hf; try done; try lia; cbn [count_loop].
  - destruct (found pre p Hl) as [[E _]|(q & r & -> & _)]; [|exfalso; apply Hp; set_solver].
    cbv zeta in E. rewrite E, Z.eqb_refl. cbn [negb]. by rewrite fields_one.
  - destruct (found pre _ Hl) as [[_ Hc]|(p' & s' & Es & Hp' & E & Hnp)]; [exfalso; apply Hc; set_solver|].
    assert (p' = p /\ s' = s) as [-> ->].
    { by apply cut_unique. }
    cbv zeta in E, Hnp. rewrite (proj2 (Z.eqb_neq _ _) Hnp), E. cbn [negb].
    rewrite !length_app in Hl. simpl in Hl. rewrite length_app in Hf. simpl in Hf.
    replace (u32 _) with (Z.of_nat (length (pre ++ p ++ [c])))
      by (rewrite u32_id; rewrite ?length_app; simpl; [lia|unfold is_u32; lia]).
    replace (pre ++ p ++ c :: s) with ((pre ++ p ++ [c]) ++ s) by (by rewrite <- !app_assoc).
    rewrite IH; [|done|rewrite !length_app; simpl; lia|lia]. rewrite fields_cut, (fields_one c p) by done.
    f_equal. simpl. lia.
Qed.
(** A number between delimiters is read. *)
Lemma nextIntToken_number n s : is_digit c = false -> 0 <= n < 2 ^ 31 ->
  Z.of_nat (length (print_dec n ++ c :: s)) < max ->
  nextIntToken 32 (Tokenizer (print_dec n ++ c :: s) [c]) = Ret (Tokenizer s [c], n).
Proof.
  intros Hc Hn Hl. unfold nextIntToken. rewrite nextToken_cut; [|..]; [|intros Hin|apply print_dec_nonnil|done].
  - cbn [mbind outcome_bind]. by rewrite c_string_print, atoi_print.
  - pose proof (print_dec_digits n) as Hd. rewrite Forall_forall in Hd. specialize (Hd _ Hin). congruence.
Qed.
End chars.

(** The tokens of a string are its fields that are not empty, and they are counted. *)
Theorem tokenizer_fields (c : ascii) (str : cstring) (fuel : nat) :
  str <> [] -> Z.of_nat (length str) < 2 ^ 31 -> (length str < fuel)%nat ->
  exists k, tokenizer_new 32 fuel str [c] = Ret k /\ tokens 32 fuel k = Ret (fields c str) /\
    countTokens 32 fuel k = Ret (Z.of_nat (length (fields c str))).
Proof.
  intros Hne Hl Hf. destruct (tokenizer_tidy c fuel str Hne Hl Hf) as (s & E & Ht & Hfi & Hls).
  exists (Tokenizer s [c]). split; [exact E|]. rewrite <- Hfi. split; [apply tokens_tidy; [done|lia|lia]|].
  unfold countTokens. cbn [token_str delim]. destruct (decide (s = [])) as [->|Hn]; [done|].
  assert (length s <> 0%nat) by by destruct s. rewrite Z.gtb_ltb, (proj2 (Z.ltb_lt _ _)) by lia.
  by apply (count_tidy c s Ht Hn fuel []); [simpl; lia|lia].
Qed.
