(* ===== verification/Listener.v ===== *)
(** Addresses and the listening socket: make_sockaddr and operator< of rpc/rpc.cc, and the
    constructor, the accepting thread and the destructor of tcpsconn (rpc/connection.cc) with
    that of rpcs.

    The results of the system calls are arguments; [inet_addr] and [gethostbyname] are variables.
    The accepting thread runs between the other threads of the server, the actions of [Conns]; a
    turn of its loop is one step.  The theorems: the address a node prints is the address that is
    read back, the accepting thread fails no assertion and ends when the destructor asks it to, and
    what the destructor of the server leaves on the heap. *)
From Stdlib Require Import ZArith Lia Ascii String.
From stdpp Require Import base gmap list sets strings.
From S2P Require Import Prelude TextIO Marshall PollMgr RpcServer Transport Conns.
Local Open Scope Z_scope.

(** * Addresses *)

(** The port is in network byte order. *)
Record sockaddr_in := SockaddrIn { sin_addr : Z; sin_port : Z }.
#[global] Instance sockaddr_in_eq_dec : EqDecision sockaddr_in.
Proof. solve_decision. Defined.

Definition INADDR_NONE : Z := 2 ^ 32 - 1.
(** On a little-endian machine; [ntohs] is the same function. *)
Definition htons (z : Z) : Z := Z.lor (Z.shiftl (Z.land (u16 z) 255) 8) (Z.shiftr (u16 z) 8).

(** [index]: what is before the first [c] and what is behind it. *)
Fixpoint index (s : cstring) (c : ascii) : option (cstring * cstring) :=
  match s with
  | [] => None
  | x :: s => if Ascii.eqb x c then Some ([], s) else '(a, b) ← index s c; Some (x :: a, b)
  end.

Definition colon : ascii := char_of_Z 58.
Definition localhost : cstring := cs "127.0.0.1".

Definition sockaddr_lt (a b : sockaddr_in) : bool :=
  (sin_addr a <? sin_addr b) || ((sin_addr a =? sin_addr b) && (sin_port a <? sin_port b)).

Section sockaddr.
  Variable inet_addr : cstring -> Z.
  (** The length and the first address of the entry. *)
  Variable gethostbyname : cstring -> option (Z * Z).

Definition make_sockaddr_of (host port : cstring) : outcome sockaddr_in :=
  let a := inet_addr host in
  addr ← (if negb (a =? INADDR_NONE) then Ret a
          else match gethostbyname host with
               | None => Fault Exited
               | Some (h_length, h_addr) => if negb (h_length =? 4) then Fault Exited else Ret h_addr
               end);
  p ← atoi port;
  Ret (SockaddrIn addr (htons p)).
(** The host is copied, with a NUL byte behind it, to an array of 200 bytes. *)
Definition make_sockaddr (hostandport : cstring) : outcome sockaddr_in :=
  match index hostandport colon with
  | None => make_sockaddr_of localhost hostandport
  | Some (host, port) =>
      if (Nat.leb 200 (length host)) then Fault Undefined else make_sockaddr_of host port
  end.
End sockaddr.

(** * The listening socket *)

Record tcpsconn := Tcpsconn { tcp_ : Z; pipe_ : Z * Z; port_ : Z }.

(** What the system calls of the constructor return; [k_port] is the port [getsockname] reports,
    in network byte order. *)
Record set_up := SetUp {
  k_socket : Z; k_bind : Z; k_listen : Z; k_getsockname : Z; k_port : Z;
  k_pipe : Z; k_ends : Z * Z; k_thread : bool }.

Definition tcpsconn_new (k : set_up) : outcome tcpsconn :=
  _ ← verify (negb (k_socket k <? 0));
  _ ← verify (negb (k_bind k <? 0));
  _ ← verify (negb (k_listen k <? 0));
  _ ← verify (k_getsockname k =? 0);
  _ ← verify (negb (k_pipe k <? 0));
  _ ← verify (k_thread k);
  Ret (Tcpsconn (k_socket k) (k_ends k) (htons (k_port k))).

(** The name under which a lock client is called back: the constructor of lock_client_cache prints
    the port its server listens on. *)
Definition client_id (port : Z) : cstring := localhost ++ colon :: print_dec port.

(** * The accepting thread *)

(** What one turn of its loop meets: [select] returns with the descriptors that are ready, and
    [accept] would return [s1]; a signal; an error. *)
Inductive round := Ready (rfds : fd_set) (s1 : Z) | Interrupted | SelectError.

(** It is in the loop, has returned, or has left by [pthread_exit]. *)
Inductive accepting := Selecting | Returned | Gone.

Record listening := Listening {
  li_conns : rpcs_conns;
  li_thread : accepting;
  li_closed : bool (* the destructor has closed [pipe_[1]] *) }.

(** [process_accept]: a failed [accept] ends the thread. *)
Definition process_accept (s : rpcs_conns) (s1 : Z) : outcome (rpcs_conns * accepting) :=
  if s1 <? 0 then Ret (s, Gone) else s ← srv_accept s s1; Ret (s, Selecting).

(** A turn of the loop of [accept_conn]. *)
Definition accept_conn (t : tcpsconn) (s : rpcs_conns) (r : round) : outcome (rpcs_conns * accepting) :=
  rfds ← FD_SET (pipe_ t).1 ∅;
  rfds ← FD_SET (tcp_ t) rfds;
  match r with
  | Interrupted => Ret (s, Selecting)
  | SelectError => Fault AssertFail
  | Ready ready s1 =>
      let rfds := rfds ∩ ready in
      if FD_ISSET (pipe_ t).1 rfds then Ret (s, Returned)
      else if FD_ISSET (tcp_ t) rfds then process_accept s s1
      else Fault AssertFail
  end.

(** What other threads than the accepting one do. *)
Definition others (x : srv_act) : bool := match x with Accept _ | StopListener => false | _ => true end.

(** What the threads of the server do: one of the others does [x]; the accepting thread makes a
    turn; the destructor of tcpsconn closes the pipe, and goes on when the thread has ended. *)
Inductive srv_event := Works (x : srv_act) | Turns (r : round) | Closes | Joins.

Section listener.
  Context `{Memory} (created : positive -> Z * Z) (t : tcpsconn).

Definition listen_step (l : listening) (e : srv_event) : outcome listening :=
  match e with
  | Works x =>
      if others x then
        s ← srv_step created (li_conns l) x; Ret (Listening s (li_thread l) (li_closed l))
      else Ret l
  | Turns r =>
      match li_thread l with
      | Selecting => '(s, th) ← accept_conn t (li_conns l) r; Ret (Listening s th (li_closed l))
      | _ => Ret l
      end
  | Closes => Ret (Listening (li_conns l) (li_thread l) true)
  | Joins =>
      match li_thread l with
      | Selecting => Ret l
      | th => if li_closed l then s ← stop_listener (li_conns l); Ret (Listening s th true) else Ret l
      end
  end.
Fixpoint listen_run (l : listening) (es : list srv_event) : outcome listening :=
  match es with [] => Ret l | e :: es => l ← listen_step l e; listen_run l es end.
End listener.

Definition listen_start : listening := Listening rpcs_conns_new Selecting false.

(** * Addresses: lemmas *)

Lemma htons_swap z : htons z = (u16 z mod 256) * 256 + u16 z / 256.
Proof.
  unfold htons. change 255 with (Z.ones 8). rewrite Z.land_ones by lia. rewrite Z.shiftl_mul_pow2, Z.shiftr_div_pow2 by lia.
  change (2 ^ 8) with 256.
  pose proof (u16_range z) as Hr. unfold is_u16 in Hr.
  rewrite <- Z.add_lor_land. enough (Z.land (u16 z mod 256 * 256) (u16 z / 256) = 0) as -> by lia.
  apply Z.bits_inj'. intros n Hn. rewrite Z.land_spec, Z.bits_0. change 256 with (2 ^ 8) at 2.
  destruct (Z.ltb_spec n 8).
  - rewrite Z.mul_pow2_bits_low by lia. done.
  - rewrite (Z.testbit_eqb (u16 z / 256)) by lia. rewrite Z.div_small, andb_false_r; [done|].
    split; [apply Z.div_pos; lia|]. apply Z.lt_le_trans with (2 ^ 8); [|by apply Z.pow_le_mono_r].
    apply Z.div_lt_upper_bound; lia.
Qed.
(** A port survives the way to network byte order and back. *)
Lemma htons_twice z : htons (htons z) = u16 z.
Proof.
  rewrite !htons_swap. pose proof (u16_range z) as Hr. unfold is_u16 in Hr. set (x := u16 z) in *. clearbody x.
  pose proof (Z.div_mod x 256 ltac:(lia)) as E. pose proof (Z.mod_pos_bound x 256 ltac:(lia)).
  assert (0 <= x / 256 < 256) by (split; [apply Z.div_pos|apply Z.div_lt_upper_bound]; lia).
  set (h := x / 256) in *. set (l := x mod 256) in *. clearbody h l.
  rewrite (u16_id (l * 256 + h)) by (unfold is_u16; lia).
  rewrite (Z.add_comm (l * 256) h), Z.mod_add, Z.div_add, Z.mod_small, Z.div_small by lia. lia.
Qed.

Lemma index_cut (c : ascii) a b : c ∉ a -> index (a ++ c :: b) c = Some (a, b).
Proof.
  induction a as [|x a IH]; simpl; intros Hc; [by rewrite Ascii.eqb_refl|].
  apply not_elem_of_cons in Hc as [Hx Hc]. rewrite (proj2 (Ascii.eqb_neq x c)) by done. by rewrite IH.
Qed.
Lemma index_none (c : ascii) s : c ∉ s -> index s c = None.
Proof.
  induction s as [|x s IH]; simpl; intros Hc; [done|]. apply not_elem_of_cons in Hc as [Hx Hc].
  rewrite (proj2 (Ascii.eqb_neq x c)) by done. by rewrite IH.
Qed.

Lemma digit_not_colon c : is_digit c = true -> c <> colon.
Proof. intros Hd ->. by vm_compute in Hd. Qed.
(** [host:port], as the nodes and clients print their addresses, is read back, as is a port alone;
    a host name of 200 bytes or more overruns the array. *)
Theorem make_sockaddr_roundtrip inet_addr gethostbyname host port a :
  colon ∉ host -> 0 <= port < 2 ^ 16 -> inet_addr host = a -> a <> INADDR_NONE ->
  (make_sockaddr inet_addr gethostbyname (host ++ colon :: print_dec port)
   = if Nat.leb 200 (length host) then Fault Undefined else Ret (SockaddrIn a (htons port))) /\
  (host = localhost ->
   make_sockaddr inet_addr gethostbyname (print_dec port) = Ret (SockaddrIn a (htons port))) /\
  htons (htons port) = port.
Proof.
  intros Hc Hp Ha Hn. unfold make_sockaddr.
  assert (make_sockaddr_of inet_addr gethostbyname host (print_dec port) = Ret (SockaddrIn a (htons port))) as E.
  { unfold make_sockaddr_of. rewrite Ha, (proj2 (Z.eqb_neq _ _) Hn). simpl.
    rewrite atoi_print by lia. done. }
  split_and!.
  - rewrite index_cut by done. by rewrite E.
  - intros ->. rewrite index_none; [done|]. intros Hin. pose proof (print_dec_digits port) as Hd.
    rewrite Forall_forall in Hd. by apply (digit_not_colon _ (Hd _ Hin)).
  - rewrite htons_twice. apply u16_id. unfold is_u16. lia.
Qed.

(** [operator<] is a strict total order on address and port. *)
Lemma sockaddr_lt_total a b :
  (sockaddr_lt a b = true /\ sockaddr_lt b a = false) \/ a = b /\ sockaddr_lt a b = false
  \/ (sockaddr_lt b a = true /\ sockaddr_lt a b = false).
Proof.
  destruct a as [a p], b as [b q]. unfold sockaddr_lt. simpl.
  destruct (Z.lt_total a b) as [?|[->|?]]; [left| |right; right]; [|destruct (Z.lt_total p q) as [?|[->|?]]|];
    [|left|right; left|right; right|]; split; try done; lia.
Qed.
Lemma sockaddr_lt_trans a b c :
  sockaddr_lt a b = true -> sockaddr_lt b c = true -> sockaddr_lt a c = true.
Proof. unfold sockaddr_lt. lia. Qed.

(** * The constructor *)

(** It returns exactly if every call succeeded, and then knows the port the kernel has given. *)
Lemma tcpsconn_new_spec k :
  0 <= k_socket k -> 0 <= k_bind k -> 0 <= k_listen k -> k_getsockname k = 0 -> 0 <= k_pipe k ->
  k_thread k = true -> tcpsconn_new k = Ret (Tcpsconn (k_socket k) (k_ends k) (htons (k_port k))).
Proof.
  intros. unfold tcpsconn_new.
  assert (forall z, 0 <= z -> negb (z <? 0) = true) as Hz by lia.
  rewrite !Hz by done. cbn [verify mbind outcome_bind].
  assert ((k_getsockname k =? 0) = true) as -> by lia. cbn [verify mbind outcome_bind].
  by replace (k_thread k) with true.
Qed.

(** A lock server that calls a client back by its name reaches the socket the client listens on,
    whichever port the kernel chose for it. *)
Theorem client_id_reaches inet_addr gethostbyname k t :
  tcpsconn_new k = Ret t -> is_u16 (k_port k) -> inet_addr localhost <> INADDR_NONE ->
  make_sockaddr inet_addr gethostbyname (client_id (port_ t))
    = Ret (SockaddrIn (inet_addr localhost) (k_port k)).
Proof.
  intros E Hp Ha. assert (port_ t = htons (k_port k)) as ->.
  { unfold tcpsconn_new in E. repeat apply bind_ret_inv in E as (? & _ & E). by injection E as <-. }
  assert (0 <= htons (k_port k) < 2 ^ 16) as Hr.
  { rewrite htons_swap, u16_id by done. unfold is_u16 in Hp.
    pose proof (Z.mod_pos_bound (k_port k) 256 ltac:(lia)).
    assert (0 <= k_port k / 256 < 256) by (split; [apply Z.div_pos|apply Z.div_lt_upper_bound]; lia). lia. }
  destruct (make_sockaddr_roundtrip inet_addr gethostbyname localhost (htons (k_port k)) (inet_addr localhost))
    as [E' _]; [by_computing|exact Hr|done|done|]. unfold client_id. rewrite E'. cbn [Nat.leb length localhost].
  by rewrite htons_twice, u16_id.
Qed.

(** * The accepting thread: lemmas *)

Section threads.
  Context `{Memory} (created : positive -> Z * Z) (t : tcpsconn).
  Hypothesis Hfd : fd_in_range (pipe_ t).1 = true /\ fd_in_range (tcp_ t) = true.

(** What [select] may report: a socket that is ready, or the end of the pipe if, and only if, the
    other end is closed, since nothing is ever written to it. *)
Definition possible (l : listening) (r : round) : Prop :=
  match r with
  | Ready ready _ =>
      ((pipe_ t).1 ∈ ready <-> li_closed l = true) /\ ((pipe_ t).1 ∈ ready \/ tcp_ t ∈ ready)
  | Interrupted => True
  | SelectError => False
  end.

Lemma accept_conn_eq s r : accept_conn t s r =
  match r with
  | Interrupted => Ret (s, Selecting)
  | SelectError => Fault AssertFail
  | Ready ready s1 =>
      if bool_decide ((pipe_ t).1 ∈ ready) then Ret (s, Returned)
      else if bool_decide (tcp_ t ∈ ready) then process_accept s s1 else Fault AssertFail
  end.
Proof using Hfd.
  destruct Hfd as [H1 H2]. unfold accept_conn, FD_SET. rewrite H1. cbn [mbind outcome_bind]. rewrite H2.
  cbn [mbind outcome_bind]. destruct r as [ready s1| |]; [|done|done]. unfold FD_ISSET.
  rewrite (bool_decide_ext ((pipe_ t).1 ∈ _ ∩ ready) ((pipe_ t).1 ∈ ready)) by set_solver.
  by rewrite (bool_decide_ext (tcp_ t ∈ _ ∩ ready) (tcp_ t ∈ ready)) by set_solver.
Qed.

Lemma process_accept_ok s s1 :
  sinv s -> exists s' th, process_accept s s1 = Ret (s', th) /\ sinv s'.
Proof using Type.
  intros S. unfold process_accept. destruct (s1 <? 0); [eauto|].
  destruct (srv_accept_ok s s1 S) as (s' & -> & S' & _). simpl. eauto.
Qed.

Lemma accepting_turn l r : sinv (li_conns l) -> possible l r ->
  exists l', listen_step created t l (Turns r) = Ret l' /\ sinv (li_conns l') /\ li_closed l' = li_closed l.
Proof using Hfd.
  intros S Hr. simpl. destruct (li_thread l); [|eauto|eauto]. rewrite accept_conn_eq.
  destruct r as [ready s1| |]; simpl in Hr; [|simpl; eauto|done]. destruct Hr as [_ Hr].
  case_bool_decide; [simpl; eauto|]. rewrite bool_decide_eq_true_2 by tauto.
  destruct (process_accept_ok (li_conns l) s1 S) as (s' & th & -> & S'). simpl. eauto.
Qed.

Lemma listen_step_inv l e l' :
  sinv (li_conns l) -> listen_step created t l e = Ret l' -> sinv (li_conns l').
Proof using Hfd.
  intros S E. destruct e as [x|r| |]; simpl in E.
  - destruct (others x); [|by injection E as <-]. apply bind_ret_inv in E as (s & E & [= <-]).
    by eapply srv_step_inv.
  - destruct (li_thread l); [|by injection E as <-|by injection E as <-].
    apply bind_ret_inv in E as ([s th] & E & [= <-]). rewrite accept_conn_eq in E. simpl.
    destruct r as [ready s1| |]; [|by injection E as <- <-|done].
    case_bool_decide; [by injection E as <- <-|]. case_bool_decide; [|done].
    destruct (process_accept_ok (li_conns l) s1 S) as (s' & th' & E' & S'). congruence.
  - by injection E as <-.
  - assert (forall th, (if li_closed l then s ← stop_listener (li_conns l); Ret (Listening s th true) else Ret l)
      = Ret l' -> sinv (li_conns l')) as Hj.
    { intros th. destruct (li_closed l); [|by intros [= <-]].
      destruct (stop_listener_ok _ S) as (s & -> & S'). by intros [= <-]. }
    destruct (li_thread l); [by injection E as <-|by eapply Hj|by eapply Hj].
Qed.
Lemma listen_run_inv es : forall l l',
  sinv (li_conns l) -> listen_run created t l es = Ret l' -> sinv (li_conns l').
Proof using Hfd.
  induction es as [|e es IH]; simpl; intros l l' S E; [by injection E as <-|].
  apply bind_ret_inv in E as (l1 & E1 & E). eauto using listen_step_inv.
Qed.

(** The other threads leave the map of accepted connections alone. *)
Lemma others_keep s x s' : others x = true -> srv_step created s x = Ret s' -> listener s' = listener s.
Proof using Type.
  intros Ho E. unfold srv_step in E. destruct (on_deleted s x); [done|].
  destruct x; try discriminate Ho; simpl in E;
    unfold on_srv, srv_read, old_instance, save_conn, latest_conn in E;
    repeat first
      [ apply bind_ret_inv in E as ([? ?] & ? & E)
      | apply bind_ret_inv in E as (? & ? & E)
      | progress simplify_eq/=
      | match type of E with context [match ?y with _ => _ end] => destruct y end ]; done.
Qed.

(** The destructor has run. *)
Definition stopped (l : listening) : Prop :=
  li_thread l <> Selecting /\ listener (li_conns l) = ∅.
Lemma stopped_stays es : forall l l', stopped l -> listen_run created t l es = Ret l' -> stopped l'.
Proof using Type.
  induction es as [|e es IH]; simpl; intros l l' St E; [by injection E as <-|].
  apply bind_ret_inv in E as (l1 & E1 & E). eapply IH; [|exact E]. clear IH E l' es. destruct St as [Ht Hl].
  destruct e as [x|r| |]; simpl in E1.
  - destruct (others x) eqn:Ho; [|by injection E1 as <-]. apply bind_ret_inv in E1 as (s & E & [= <-]).
    split; [done|]. simpl. by rewrite (others_keep _ _ _ Ho E).
  - destruct (li_thread l) eqn:Et; [done|injection E1 as <-..]; split; congruence.
  - by injection E1 as <-.
  - assert (forall th, (if li_closed l then s ← stop_listener (li_conns l); Ret (Listening s th true) else Ret l)
      = Ret l1 -> th = li_thread l -> stopped l1) as Hj.
    { intros th. unfold stop_listener. rewrite Hl. destruct (li_closed l); simpl; intros [= <-] ->; by split. }
    destruct (li_thread l); [done|by eapply Hj|by eapply Hj].
Qed.

(** Who is left when no connection is accepted any more and no job is left. *)
Lemma left_over s a : sinv s -> listener s = ∅ -> threads (so s) = [] ->
  is_Some (heap (so s) !! a) <-> (exists n, saved s !! n = Some a) \/ a ∈ leaked s.
Proof using Type.
  intros S Hl Ht. pose proof (s_objs _ S) as I.
  assert (is_Some (heap (so s) !! a) <-> 0 < mcount a (saved s) + lcount a (leaked s))%nat as ->.
  { pose proof (i_live _ _ _ I a) as H1. unfold srv_refs in H1. rewrite Hl, Ht, mcount_empty in H1. simpl in H1.
    split; [|intros; apply H1; lia]. intros [c Hc]. apply (i_count _ _ _ I) in Hc as [_ Hp].
    unfold srv_refs in Hp. rewrite Hl, Ht, mcount_empty in Hp. simpl in Hp. lia. }
  assert ((0 < lcount a (leaked s))%nat <-> a ∈ leaked s) as Hk.
  { generalize (leaked s). clear. induction l as [|b l IH]; simpl; [split; [lia|by intros ?%elem_of_nil]|].
    rewrite elem_of_cons, <- IH. unfold one. case_decide; lia. }
  assert ((0 < mcount a (saved s))%nat <-> exists n, saved s !! n = Some a) as Hm.
  { split; [|intros [n Hn]; by eapply mcount_lookup]. unfold mcount. intros Hp.
    destruct (decide (filter (fun kv : Z * positive => kv.2 = a) (saved s) = ∅)) as [E|E];
      [rewrite E, map_size_empty in Hp; lia|].
    apply map_choose in E as (n & b & Hb). apply map_lookup_filter_Some in Hb as [Hb Hab]. simpl in Hab. subst. eauto. }
  rewrite <- Hk, <- Hm. lia.
Qed.
End threads.


(** A failed [accept] ends the thread: nobody can connect to the server any more. *)
Lemma accept_failure_final `{Memory} created t l ready s1 es l' :
  fd_in_range (pipe_ t).1 = true -> fd_in_range (tcp_ t) = true ->
  li_thread l = Selecting -> (pipe_ t).1 ∉ ready -> tcp_ t ∈ ready -> s1 < 0 ->
  listen_run created t l (Turns (Ready ready s1) :: es) = Ret l' ->
  li_thread l' = Gone /\ (forall fd a, listener (li_conns l') !! fd = Some a -> listener (li_conns l) !! fd = Some a).
Proof.
  intros H1 H2 Ht Hp Hr Hs. simpl. rewrite Ht, (accept_conn_eq t (conj H1 H2)).
  rewrite bool_decide_eq_false_2, bool_decide_eq_true_2 by done. unfold process_accept.
  rewrite (proj2 (Z.ltb_lt _ _) Hs). simpl. set (l1 := Listening _ Gone _).
  assert (li_thread l1 = Gone /\ forall fd a, listener (li_conns l1) !! fd = Some a -> listener (li_conns l) !! fd = Some a)
    as Hl by done.
  clearbody l1. revert l1 Hl. induction es as [|e es IH]; simpl; intros l1 [Hg Hsub] E; [by injection E as <-|].
  apply bind_ret_inv in E as (l2 & E2 & E). eapply IH; [|exact E]. destruct e as [x|r| |]; simpl in E2.
  - destruct (others x) eqn:Ho; [|by injection E2 as <-]. apply bind_ret_inv in E2 as (s & E' & [= <-]).
    simpl. by rewrite (others_keep created _ _ _ Ho E').
  - rewrite Hg in E2. by injection E2 as <-.
  - by injection E2 as <-.
  - rewrite Hg in E2. destruct (li_closed l1); [|by injection E2 as <-].
    apply bind_ret_inv in E2 as (s & Es & [= <-]). split; [done|]. simpl. unfold stop_listener in Es.
    apply bind_ret_inv in Es as (o & _ & [= <-]). simpl. intros fd a. by rewrite lookup_empty.
Qed.

(** ** Witness: a server that is started, used and destroyed *)

Module listener_example.
#[local] Instance zeroed : Memory := char_of_Z 0.

Definition sock3 : tcpsconn := Tcpsconn 3 (4, 5) 8080.
Definition kernel : set_up := SetUp 3 0 0 0 (htons 8080) 0 (4, 5) true.
Example set_up_listens : tcpsconn_new kernel = Ret sock3.
Proof. reflexivity. Qed.

(** A client connects and its request is served; then the destructor runs. *)
Definition session : list srv_event :=
  [Turns Interrupted; Turns (Ready {[3]} 6); Works (SrvReadCb 1 4 99 false true true true conns_example.pdu);
   Works (SaveConn 0 77); Works (JobEnd 0); Closes; Turns (Ready {[3; 4]} 7)].
Definition after_session : listening :=
  conns_example.result listen_start (listen_run conns_example.born sock3 listen_start session).

End listener_example.
