(* ===== verification/ExtentRemote.v ===== *)
(** The extent service from end to end: the server that main of extent_smain.cc sets up, and
    extent_client.cc whose calls go through the RPC library.

    [Extent] lets a call of the client run the method of the server at once; here it is marshalled,
    numbered, dispatched and answered as [Remote] has it.  The theorem is a refinement: over a
    connection that delivers, a client and the server do what those of [Extent] do when every call
    completes, so that the theorems on caches and files hold of calls that are really sent. *)
From Stdlib Require Import ZArith Lia Ascii String.
From stdpp Require Import base gmap list strings.
From S2P Require Import Prelude Marshall Protocols RpcClient RpcServer Rpc Stubs Extent Remote.
Local Open Scope Z_scope.

(** * The server *)

(** The numbers of the procedures (extent_protocol.h). *)
Definition proc_put : Z := 0x6001.
Definition proc_get : Z := 0x6002.
Definition proc_getattr : Z := 0x6003.
Definition proc_remove : Z := 0x6004.

(** The object: the extents, and how many calls were served. *)
Record served := Served { se_extents : extent_server.state; se_calls : nat }.

Abbreviation elink := (link served).
Abbreviation cache := extent_client.cache.

Section service.
  Context `{Memory}.
  (** The readings of the server's clock during the [n]-th call. *)
  Variable now : nat -> clock.

(** A method of [extent_server]. *)
Definition serve {R} (f : clock -> extent_server.state -> extent_server.state * Z * R) (o : served)
    : served * Z * R :=
  let '(s, ret, r) := f (now (se_calls o)) (se_extents o) in (Served s (S (se_calls o)), ret, r).

Definition serve_get (o : served) (id : Z) : served * Z * cstring :=
  serve (fun t => extent_server.get t id) o.
Definition serve_getattr (o : served) (id : Z) : served * Z * attr :=
  serve (fun _ => extent_server.getattr id) o.
Definition serve_put (o : served) (id : Z) (buf : cstring) : served * Z * Z :=
  serve (fun t => extent_server.put t id buf) o.
Definition serve_remove (o : served) (id : Z) : served * Z * Z :=
  serve (fun _ => extent_server.remove id) o.

(** main of extent_smain.cc: [nonce] is the random number of the server, [count] what it reads
    from the environment. *)
Definition extent_smain (nonce count : Z) : outcome (rpcs (fn served)) :=
  s ← rpcs_new nonce count (rpcbind_fn (u32 nonce));
  s ← reg1 s proc_get (handler1 (H := marshal_ull) serve_get 0);
  s ← reg1 s proc_getattr (handler1 (H := marshal_ull) serve_getattr 0);
  s ← reg1 s proc_put (handler2 (H := marshal_ull) (H1 := marshal_int) serve_put 0 []);
  reg1 s proc_remove (handler1 (H := marshal_ull) (H0 := marshal_int) serve_remove 0).

(** * The client *)

Definition call_get (eid : Z) (buf : cstring) (l : elink) : outcome (elink * Z * cstring) :=
  rcall (H0 := marshal_ull) proc_get eid buf l.
Definition call_getattr (eid : Z) (a : attr) (l : elink) : outcome (elink * Z * attr) :=
  rcall (H0 := marshal_ull) proc_getattr eid a l.
Definition call_remove (eid r : Z) (l : elink) : outcome (elink * Z * Z) :=
  rcall (H0 := marshal_ull) (H1 := marshal_int) proc_remove eid r l.
Definition call_put (eid : Z) (buf : cstring) (r : Z) (l : elink) : outcome (elink * Z * Z) :=
  '(l, ret, u) ← remote_call proc_put (call2 (H0 := marshal_ull) eid buf) l;
  '(ret, r) ← call_m (H := marshal_int) ret u r;
  Ret (l, ret, r).

Definition remote_fetch (eid : Z) (buf : cstring) (l : elink)
    : outcome (elink * Z * cstring * Z * attr) :=
  '(l, ret1, buf) ← call_get eid buf l;
  '(l, ret2, a) ← call_getattr eid attr0 l;
  Ret (l, ret1, buf, ret2, a).

Definition remote_get (t : clock) (eid : Z) (buf : cstring) (c : cache) (l : elink)
    : outcome (cache * elink * Z * cstring) :=
  match c !! eid with
  | None =>
      '(l, ret, buf, _, a) ← remote_fetch eid buf l;
      Ret (<[eid := extent_client.Cached false (attr_atime a (t 0%nat)) eid buf]> c, l, ret, buf)
  | Some e =>
      Ret (<[eid := extent_client.Cached (extent_client.is_dirty e)
              (attr_atime (extent_client.c_attr e) (t 0%nat)) (extent_client.c_eid e)
              (extent_client.c_buf e)]> c,
           l, extent_protocol.OK, extent_client.c_buf e)
  end.
Definition remote_getattr (eid : Z) (c : cache) (l : elink) : outcome (cache * elink * Z * attr) :=
  match c !! eid with
  | None =>
      '(l, _, buf, ret, a) ← remote_fetch eid [] l;
      Ret (<[eid := extent_client.Cached false a eid buf]> c, l, ret, a)
  | Some e => Ret (c, l, extent_protocol.OK, extent_client.c_attr e)
  end.
Definition remote_put (t : clock) (eid : Z) (buf : cstring) (c : cache) (l : elink)
    : outcome (cache * elink * Z) :=
  '(c, l, ret, e) ←
    match c !! eid with
    | None =>
        '(l, _, buf0, ret, a) ← remote_fetch eid [] l;
        Ret (<[eid := extent_client.Cached false a eid buf0]> c, l, ret,
             extent_client.Cached false a eid buf0)
    | Some e => Ret (c, l, extent_protocol.OK, e)
    end;
  let a := attr_times (attr_size (extent_client.c_attr e) (length buf)) (t 0%nat) (t 2%nat) (t 1%nat) in
  Ret (<[eid := extent_client.Cached true a (extent_client.c_eid e) buf]> c, l, ret).
(** [r] is the variable of the method, which it does not set before the call. *)
Definition remote_remove (r eid : Z) (c : cache) (l : elink) : outcome (cache * elink * Z) :=
  match c !! eid with
  | None => Ret (c, l, extent_protocol.OK)
  | Some _ =>
      let c := delete eid c in
      '(l, ret, _) ← call_remove eid r l;
      Ret (c, l, ret)
  end.
Definition remote_flush (r eid : Z) (c : cache) (l : elink) : outcome (cache * elink * Z) :=
  match c !! eid with
  | None => Ret (c, l, extent_protocol.OK)
  | Some e =>
      l ← (if extent_client.is_dirty e then
             '(l, _, _) ← call_put eid (extent_client.c_buf e) r l; Ret l
           else Ret l);
      Ret (delete eid c, l, extent_protocol.OK)
  end.

(** What a program asks of the client, and what it gets: the status, and contents or attributes. *)
Inductive op :=
| Get (t : clock) (eid : Z) (buf : cstring) | GetAttr (eid : Z) | Put (t : clock) (eid : Z) (buf : cstring)
| Remove (eid : Z) | Flush (eid : Z).
Inductive answer := Status (ret : Z) | Contents (ret : Z) (buf : cstring) | Attributes (ret : Z) (a : attr).

Definition remote_op (r : Z) (x : op) (c : cache) (l : elink) : outcome (cache * elink * answer) :=
  match x with
  | Get t eid buf => '(c, l, ret, b) ← remote_get t eid buf c l; Ret (c, l, Contents ret b)
  | GetAttr eid => '(c, l, ret, a) ← remote_getattr eid c l; Ret (c, l, Attributes ret a)
  | Put t eid buf => '(c, l, ret) ← remote_put t eid buf c l; Ret (c, l, Status ret)
  | Remove eid => '(c, l, ret) ← remote_remove r eid c l; Ret (c, l, Status ret)
  | Flush eid => '(c, l, ret) ← remote_flush r eid c l; Ret (c, l, Status ret)
  end.
Fixpoint remote_ops (rs : nat -> Z) (xs : list op) (c : cache) (l : elink)
    : outcome (cache * elink * list answer) :=
  match xs with
  | [] => Ret (c, l, [])
  | x :: xs =>
      '(c, l, y) ← remote_op (rs (length xs)) x c l;
      '(c, l, ys) ← remote_ops rs xs c l;
      Ret (c, l, y :: ys)
  end.
End service.

(** ** The same with the methods of the server at hand *)

Definition local_op (ts : clock) (x : op) (c : cache) (s : extent_server.state)
    : cache * extent_server.state * answer :=
  match x with
  | Get t eid buf =>
      let '(c, s, ret, b) := extent_client.get Completed Completed ts t eid buf c s in (c, s, Contents ret b)
  | GetAttr eid =>
      let '(c, s, ret, a) := extent_client.getattr Completed Completed ts eid c s in (c, s, Attributes ret a)
  | Put t eid buf =>
      let '(c, s, ret) := extent_client.put Completed Completed ts t eid buf c s in (c, s, Status ret)
  | Remove eid =>
      let '(c, s, ret) := extent_client.remove Completed eid c s in (c, s, Status ret)
  | Flush eid =>
      let '(c, s, ret) := extent_client.flush Completed ts eid c s in (c, s, Status ret)
  end.
(** [ts] are the readings of the server's clock, one list for each operation. *)
Fixpoint local_ops (ts : list clock) (xs : list op) (c : cache) (s : extent_server.state)
    : cache * extent_server.state * list answer :=
  match ts, xs with
  | t :: ts, x :: xs =>
      let '(c, s, y) := local_op t x c s in
      let '(c, s, ys) := local_ops ts xs c s in
      (c, s, y :: ys)
  | _, _ => (c, s, [])
  end.

(** * What can be sent *)

(** Contents that fit a message; the attributes of the extents do. *)
Definition short (b : cstring) : Prop := Z.of_nat (length b) < 2 ^ 30.
Definition short_extents (s : extent_server.state) : Prop :=
  map_Forall (fun _ f => short (extent_server.file_buf f) /\ sendable (extent_server.attributes f)) s.
Definition short_copies (c : cache) : Prop := map_Forall (fun _ e => short (extent_client.c_buf e)) c.
Definition short_op (x : op) : Prop :=
  match x with
  | Get _ eid _ | GetAttr eid | Remove eid | Flush eid => is_u64 eid
  | Put _ eid buf => is_u64 eid /\ short buf
  end.

Lemma short_nil : short [].
Proof. by_computing. Qed.

Lemma times_sendable a t1 t2 t3 : is_u32 (a_size a) -> sendable (attr_times a t1 t2 t3).
Proof. intros Ha. split_and!; cbn; [apply u32_range..|done]. Qed.

Lemma get_short t id s :
  short_extents s -> short_extents (extent_server.get t id s).1.1 /\ short (extent_server.get t id s).2.
Proof.
  intros Hs. unfold extent_server.get. destruct (s !! id) as [f|] eqn:E; simpl; [|split; [done|apply short_nil]].
  destruct (Hs _ _ E) as [Hb (H1 & H2 & H3 & H4)]. split; [|done].
  apply map_Forall_insert_2; [|done]. split; [done|]. split_and!; cbn; [apply u32_range|done..].
Qed.
Lemma getattr_short id s : short_extents s -> sendable (extent_server.getattr id s).2.
Proof.
  intros Hs. unfold extent_server.getattr. destruct (s !! id) as [f|] eqn:E; simpl.
  - by apply (Hs _ _ E).
  - by_computing.
Qed.
Lemma put_short t id b s :
  short_extents s -> short b -> short_extents (extent_server.put t id b s).1.1.
Proof.
  intros Hs Hb. unfold extent_server.put. destruct (s !! id) as [f|] eqn:E; simpl;
    (apply map_Forall_insert_2; [|done]); (split; [done|]); apply times_sendable, u32_range.
Qed.
Lemma remove_short id s : short_extents s -> short_extents (extent_server.remove id s).1.1.
Proof.
  intros Hs. unfold extent_server.remove. destruct (s !! id); simpl; [|done]. by apply map_Forall_delete.
Qed.

(** * One call *)

Section calls.
  Context `{Memory} (now : nat -> clock).

Definition table (nonce : Z) : gmap Z (fn served) :=
  <[proc_remove := handler1 (H := marshal_ull) (H0 := marshal_int) (serve_remove now) 0]>
  (<[proc_put := handler2 (H := marshal_ull) (H1 := marshal_int) (serve_put now) 0 []]>
  (<[proc_getattr := handler1 (H := marshal_ull) (serve_getattr now) 0]>
  (<[proc_get := handler1 (H := marshal_ull) (serve_get now) 0]>
  (<[rpc_const.bind := rpcbind_fn nonce]> ∅)))).

Lemma extent_smain_ok nonce count :
  extent_smain now nonce count = Ret (Rpcs (u32 nonce) ∅ ∅ count count ∅ true (table (u32 nonce))).
Proof.
  unfold extent_smain, rpcs_new, reg1, set_procs. simpl.
  repeat (rewrite bool_decide_true by (by rewrite ?lookup_insert_ne, ?lookup_empty); simpl).
  reflexivity.
Qed.

(** A bound client with [k] calls left, and what the server holds. *)
Definition good (k : Z) (s : extent_server.state) (n : nat) (l : elink) : Prop :=
  (exists N nonce, ready N l /\ procs_ (lk_srv l) = table nonce /\ xid_ (lk_clt l) + k < 2 ^ 31) /\
  lk_obj l = Served s n /\ short_extents s.
Lemma served_less k k' s n l : k' <= k -> good k s n l -> good k' s n l.
Proof. intros Hk [(N & nonce & ? & ? & ?) ?]. split; [|done]. exists N, nonce. split_and!; try done. lia. Qed.

Lemma served_call {A R} `{MA : Marshal A, MR : Marshal R} k (meth : served -> A -> served * Z * R) (a0 x : A)
    (r0 : R) proc f s n (l : elink) s' b r :
  good (k + 1) s n l -> 1 <= k -> (forall nonce, table nonce !! proc = Some f) ->
  (forall s u m, f s u m = handler1 meth a0 s u m) ->
  is_s32 proc /\ proc <> rpc_const.bind -> meth (Served s n) x = (Served s' (S n), b, r) ->
  0 <= b < 2 ^ 31 -> short_extents s' -> sendable x -> sendable r ->
  Z.of_nat (RPC_HEADER_SZ + length (enc x)) < 2 ^ 31 ->
  Z.of_nat (RPC_HEADER_SZ + length (enc r)) < 2 ^ 31 ->
  exists l', rcall proc x r0 l = Ret (l', b, r) /\ good k s' (S n) l'.
Proof.
  intros [(N & nonce & (Hl & HN & HN0 & HS & Hbd) & Hp & Hx) [Ho Hs]] Hk Ht Hf [Hps Hpb] Hm Hb Hs' Hsx Hsr Hzx Hzr.
  destruct (rcall_spec N l (conj HN HN0) HS Hl ltac:(lia) meth a0 x r r0 (Served s' (S n)) b proc) with (f := f)
    as (l' & E & Hl' & Ho' & Hxid & Hpr & Hno & Hbd' & Hsn').
  - by rewrite Ho.
  - split; [lia|unfold is_s32; lia].
  - by split.
  - by rewrite !message_size.
  - split; [done|]. unfold allowed. by rewrite (proj2 (Z.eqb_neq _ _) Hpb).
  - rewrite Hp. apply Ht.
  - exact Hf.
  - exists l'. split; [exact E|]. split; [|done]. exists N, nonce. rewrite Hpr, Hxid.
    split; [|split; [done|lia]]. split; [done|]. rewrite Hno, Hbd'. done.
Qed.

Lemma enc_ull_length x : length (enc (Marshal := marshal_ull) x) = 8%nat.
Proof. cbn [enc marshal_ull]. by rewrite length_app, !length_enc_uint. Qed.
Lemma enc_text_length (b : cstring) : length (enc b) = (4 + length b)%nat.
Proof. cbn [enc marshal_string]. by rewrite length_app, length_enc_uint. Qed.
Lemma call_get_ok k s n l eid buf :
  good (k + 1) s n l -> 1 <= k -> is_u64 eid ->
  let '(s', ret, b) := extent_server.get (now n) eid s in
  exists l', call_get eid buf l = Ret (l', ret, b) /\ good k s' (S n) l' /\ short b.
Proof.
  intros Hg Hk Hid. pose proof (proj2 (proj2 Hg)) as Hs. pose proof (get_short (now n) eid s Hs) as [H1 H2].
  assert (0 <= (extent_server.get (now n) eid s).1.2 < 2 ^ 31) as Hr.
  { unfold extent_server.get. destruct (s !! eid); by_computing. }
  destruct (extent_server.get (now n) eid s) as [[s' ret] b] eqn:E. simpl in H1, H2, Hr.
  edestruct (served_call (MA := marshal_ull) k (serve_get now) 0 eid buf proc_get) as (l' & El & Hl);
    [exact Hg|exact Hk|reflexivity|reflexivity|..].
  - by_computing.
  - unfold serve_get, serve. simpl. rewrite E. reflexivity.
  - exact Hr.
  - exact H1.
  - exact Hid.
  - exact I.
  - rewrite enc_ull_length. by_computing.
  - rewrite enc_text_length. unfold short in H2. unfold RPC_HEADER_SZ. lia.
  - eauto.
Qed.
Lemma call_getattr_ok k s n l eid a0 :
  good (k + 1) s n l -> 1 <= k -> is_u64 eid ->
  let '(s', ret, a) := extent_server.getattr eid s in
  exists l', call_getattr eid a0 l = Ret (l', ret, a) /\ good k s' (S n) l'.
Proof.
  intros Hg Hk Hid. pose proof (proj2 (proj2 Hg)) as Hs. pose proof (getattr_short eid s Hs) as H2.
  assert (0 <= (extent_server.getattr eid s).1.2 < 2 ^ 31 /\ (extent_server.getattr eid s).1.1 = s) as [Hr H1].
  { unfold extent_server.getattr. destruct (s !! eid); (split; [by_computing|done]). }
  destruct (extent_server.getattr eid s) as [[s' ret] a] eqn:E. simpl in H1, H2, Hr. subst s'.
  eapply (served_call (MA := marshal_ull) k (serve_getattr now) 0 eid a0 proc_getattr);
    [exact Hg|exact Hk|reflexivity|reflexivity|by_computing| |exact Hr|exact Hs|exact Hid|exact H2|..].
  - unfold serve_getattr, serve. simpl. rewrite E. reflexivity.
  - rewrite enc_ull_length. by_computing.
  - cbn [enc marshal_attr]. rewrite !length_app, !length_enc_uint. by_computing.
Qed.
Lemma call_remove_ok k s n l eid r0 :
  good (k + 1) s n l -> 1 <= k -> is_u64 eid ->
  let '(s', ret, r) := extent_server.remove eid s in
  exists l', call_remove eid r0 l = Ret (l', ret, r) /\ good k s' (S n) l'.
Proof.
  intros Hg Hk Hid. pose proof (remove_short eid s (proj2 (proj2 Hg))) as H1.
  assert (0 <= (extent_server.remove eid s).1.2 < 2 ^ 31 /\ (extent_server.remove eid s).2 = 0) as [Hr H2].
  { unfold extent_server.remove. destruct (s !! eid); (split; [by_computing|done]). }
  destruct (extent_server.remove eid s) as [[s' ret] a] eqn:E. simpl in H1, H2, Hr. subst a.
  eapply (served_call (MA := marshal_ull) (MR := marshal_int) k (serve_remove now) 0 eid r0 proc_remove);
    [exact Hg|exact Hk|reflexivity|reflexivity|by_computing| |exact Hr|exact H1|exact Hid|..].
  - unfold serve_remove, serve. simpl. rewrite E. reflexivity.
  - by_computing.
  - rewrite enc_ull_length. by_computing.
  - by_computing.
Qed.
Lemma call_put_ok k s n l eid b r0 :
  good (k + 1) s n l -> 1 <= k -> is_u64 eid -> short b ->
  exists l', call_put eid b r0 l = Ret (l', extent_protocol.OK, 0) /\
    good k (extent_server.put (now n) eid b s).1.1 (S n) l'.
Proof.
  intros Hg Hk Hid Hb. pose proof (put_short (now n) eid b s (proj2 (proj2 Hg)) Hb) as H1.
  assert ((extent_server.put (now n) eid b s).1.2 = extent_protocol.OK /\ (extent_server.put (now n) eid b s).2 = 0) as [Hr H2].
  { unfold extent_server.put. by destruct (s !! eid). }
  destruct (extent_server.put (now n) eid b s) as [[s' ret] a] eqn:E. simpl in H1, H2, Hr. subst a ret.
  change (call_put eid b r0 l) with
    (rcall (H0 := marshal_pair (MA := marshal_ull)) (H1 := marshal_int) proc_put (eid, b) r0 l).
  eapply (served_call (MA := marshal_pair (MA := marshal_ull)) (MR := marshal_int) k (fun o => tuple2 (serve_put now o))
    (0, []) (eid, b) r0 proc_put); [exact Hg|exact Hk|reflexivity| |by_computing| |by_computing|exact H1|..].
  - intros o u m. unfold handler2, handler1. cbn. destruct (get_ull u) as [u1 x]. cbn.
    by destruct (get_string u1 []) as [[u2 y]|].
  - unfold tuple2, serve_put, serve. simpl. rewrite E. reflexivity.
  - split; [exact Hid|exact I].
  - by_computing.
  - cbn [enc marshal_pair fst snd]. rewrite length_app, enc_text_length, enc_ull_length.
    unfold short in Hb. unfold RPC_HEADER_SZ. lia.
  - by_computing.
Qed.

(** * One operation of the client *)

Lemma remote_fetch_ok k s n l eid buf :
  good (k + 2) s n l -> 1 <= k -> is_u64 eid ->
  let '(s', r1, b, r2, a) := extent_client.fetch Completed Completed (now n) eid buf s in
  exists l', remote_fetch eid buf l = Ret (l', r1, b, r2, a) /\ good k s' (S (S n)) l' /\ short b.
Proof.
  intros Hg Hk Hid. unfold extent_client.fetch, remote_fetch. cbn [call].
  replace (k + 2) with (k + 1 + 1) in Hg by lia.
  pose proof (call_get_ok (k + 1) s n l eid buf Hg ltac:(lia) Hid) as H1.
  destruct (extent_server.get (now n) eid s) as [[s1 r1] b]. destruct H1 as (l1 & -> & Hg1 & Hb).
  cbn [mbind outcome_bind]. pose proof (call_getattr_ok k s1 (S n) l1 eid attr0 Hg1 Hk Hid) as H2.
  destruct (extent_server.getattr eid s1) as [[s2 r2] a]. destruct H2 as (l2 & -> & Hg2).
  cbn [mbind outcome_bind]. eauto.
Qed.

(** Two calls at most. *)
Lemma remote_op_ok k s n l c r x :
  good (k + 2) s n l -> 1 <= k -> short_copies c -> short_op x ->
  let '(c', s', y) := local_op (now n) x c s in
  exists l' n', remote_op r x c l = Ret (c', l', y) /\ good k s' n' l' /\ short_copies c'.
Proof.
  intros Hg Hk Hc Hx. pose proof (served_less (k + 2) k s n l ltac:(lia) Hg) as Hg0.
  destruct x as [t eid buf|eid|t eid buf|eid|eid]; simpl in Hx; cbn [local_op remote_op].
  - unfold extent_client.get, remote_get. destruct (c !! eid) as [e|] eqn:E.
    { cbn [mbind outcome_bind]. exists l, n. split; [done|]. split; [done|].
      apply map_Forall_insert_2; [|done]. exact (Hc _ _ E). }
    pose proof (remote_fetch_ok k s n l eid buf Hg Hk Hx) as Hf.
    destruct (extent_client.fetch _ _ _ _ _ _) as [[[[s' r1] b] r2] a]. destruct Hf as (l' & -> & Hg' & Hb).
    cbn [mbind outcome_bind]. exists l', (S (S n)). split; [done|]. split; [done|]. by apply map_Forall_insert_2.
  - unfold extent_client.getattr, remote_getattr. destruct (c !! eid) as [e|] eqn:E.
    { cbn [mbind outcome_bind]. by exists l, n. }
    pose proof (remote_fetch_ok k s n l eid [] Hg Hk Hx) as Hf.
    destruct (extent_client.fetch _ _ _ _ _ _) as [[[[s' r1] b] r2] a]. destruct Hf as (l' & -> & Hg' & Hb).
    cbn [mbind outcome_bind]. exists l', (S (S n)). split; [done|]. split; [done|]. by apply map_Forall_insert_2.
  - destruct Hx as [Hid Hb]. unfold extent_client.put, remote_put. destruct (c !! eid) as [e|] eqn:E.
    { cbn [mbind outcome_bind]. exists l, n. split; [done|]. split; [done|]. by apply map_Forall_insert_2. }
    pose proof (remote_fetch_ok k s n l eid [] Hg Hk Hid) as Hf.
    destruct (extent_client.fetch _ _ _ _ _ _) as [[[[s' r1] b] r2] a]. destruct Hf as (l' & -> & Hg' & Hb').
    cbn [mbind outcome_bind]. exists l', (S (S n)). split; [done|]. split; [done|].
    apply map_Forall_insert_2; [done|]. by apply map_Forall_insert_2.
  - unfold extent_client.remove, remote_remove. destruct (c !! eid) as [e|] eqn:E.
    2: { cbn [mbind outcome_bind]. by exists l, n. }
    cbn [call]. pose proof (served_less (k + 2) (k + 1) s n l ltac:(lia) Hg) as Hg1.
    pose proof (call_remove_ok k s n l eid r Hg1 Hk Hx) as Hf.
    destruct (extent_server.remove eid s) as [[s' ret] r']. destruct Hf as (l' & -> & Hg').
    cbn [mbind outcome_bind]. exists l', (S n). split; [done|]. split; [done|]. by apply map_Forall_delete.
  - unfold extent_client.flush, remote_flush. destruct (c !! eid) as [e|] eqn:E.
    2: { cbn [mbind outcome_bind]. by exists l, n. }
    destruct (extent_client.is_dirty e).
    2: { cbn [mbind outcome_bind]. exists l, n. split; [done|]. split; [done|]. by apply map_Forall_delete. }
    cbn [call]. pose proof (served_less (k + 2) (k + 1) s n l ltac:(lia) Hg) as Hg1.
    destruct (call_put_ok k s n l eid (extent_client.c_buf e) r Hg1 Hk Hx (Hc _ _ E)) as (l' & -> & Hg').
    cbn [mbind outcome_bind]. exists l', (S n). split; [done|]. split; [done|]. by apply map_Forall_delete.
Qed.

Lemma remote_ops_ok rs xs : forall s n l c,
  good (1 + 2 * Z.of_nat (length xs)) s n l -> short_copies c -> Forall short_op xs ->
  exists ts, length ts = length xs /\
    let '(c', s', ys) := local_ops ts xs c s in
    exists l' n', remote_ops rs xs c l = Ret (c', l', ys) /\ lk_obj l' = Served s' n' /\ short_extents s' /\
      short_copies c'.
Proof.
  induction xs as [|x xs IH]; intros s n l c Hg Hc Hx.
  { exists []. split; [done|]. simpl. exists l, n. destruct Hg as [_ [Ho Hs]]. done. }
  apply Forall_cons in Hx as [Hx Hxs].
  replace (1 + 2 * Z.of_nat (length (x :: xs))) with (1 + 2 * Z.of_nat (length xs) + 2) in Hg by (simpl length; lia).
  pose proof (remote_op_ok _ s n l c (rs (length xs)) x Hg ltac:(lia) Hc Hx) as H1.
  destruct (local_op (now n) x c s) as [[c1 s1] y] eqn:E. destruct H1 as (l1 & n1 & E1 & Hg1 & Hc1).
  destruct (IH s1 n1 l1 c1 Hg1 Hc1 Hxs) as (ts & Hl & H2). exists (now n :: ts). split; [by simpl; rewrite Hl|].
  cbn [local_ops remote_ops]. rewrite E, E1. cbn [mbind outcome_bind].
  destruct (local_ops ts xs c1 s1) as [[c2 s2] ys]. destruct H2 as (l2 & n2 & -> & ?).
  cbn [mbind outcome_bind]. eauto.
Qed.
End calls.

(** * Property *)


Module extent_remote_example.
#[local] Instance zeroed : Memory := char_of_Z 0.
Definition tick : clock := fun _ => 1000.
Definition session : list op :=
  [Put tick 5 (cs "hello"); Flush 5; Get tick 5 []; Remove 5; Get tick 5 []].

End extent_remote_example.
