(* ===== verification/Mutexes.v ===== *)
(** Mutexes, threads and the order in which they lock: rpc/slock.h, lock.hpp and the calls of
    pthread_mutex_lock and pthread_mutex_unlock, of which [Locking] uses the result.

    A [skeleton] is what is left of a function when everything but its locking is forgotten: locks,
    unlocks, branches, loops and the threads it starts.  A system is a list of threads that
    interleave freely.  [check] computes the mutexes held along a skeleton and demands that they
    are taken in a given order and given back; the theorem is that threads whose skeletons pass do
    not deadlock, in the strong form that whoever waits waits for somebody who can go on. *)
From Stdlib Require Import ZArith Lia.
From stdpp Require Import base option relations sets list.
From S2P Require Import Prelude.

Section mutexes.
  (** The kinds of mutexes: one for each member of a class.  The objects of the class are numbered. *)
  Context {M : Type} `{EqDecision M} (rank : M -> nat).

(** * Skeletons *)

Inductive skeleton :=
| Skip
| Lock (m : M)              (* of some object *)
| Get (m : M) (i : nat)     (* a [Lock] that waits for the mutex of object [i] *)
| Unlock (m : M)
| Seq (a b : skeleton)
| Choice (a b : skeleton)
| Loop (a : skeleton)
| Spawn (a : skeleton).

(** A [ScopedLock] for the rest of a block. *)
Definition scoped (m : M) (a : skeleton) : skeleton := Seq (Lock m) (Seq a (Unlock m)).
(** A mutex that is given up while [a] runs. *)
Definition unlocked (m : M) (a : skeleton) : skeleton := Seq (Unlock m) (Seq a (Lock m)).
(** pthread_cond_wait and pthread_cond_timedwait. *)
Definition wait (m : M) : skeleton := unlocked m Skip.
(** A branch that may be taken or not. *)
Definition maybe (a : skeleton) : skeleton := Choice a Skip.
(** A remote call that runs [a] on a thread of the server: the caller waits for it, or gives up
    while it runs, or the request is lost. *)
Definition remote (a : skeleton) : skeleton := Choice a (maybe (Spawn a)).
Fixpoint block (l : list skeleton) : skeleton :=
  match l with [] => Skip | a :: l => Seq a (block l) end.

(** * Threads *)

Record thread := Thread { todo : list skeleton; held : list (M * nat) }.

Definition is_held (ts : list thread) (x : M * nat) : Prop := Exists (fun t => x ∈ held t) ts.
#[global] Instance is_held_dec ts x : Decision (is_held ts x).
Proof. unfold is_held. apply _. Defined.

(** The mutex of class [m] a thread has, and the others. *)
Fixpoint give_back (m : M) (h : list (M * nat)) : option (list (M * nat)) :=
  match h with
  | [] => None
  | x :: h => if decide (x.1 = m) then Some h else h' ← give_back m h; Some (x :: h')
  end.

(** Thread [k] makes a step; [n] is the branch it takes or the object it locks.  A thread that
    waits for a mutex somebody has, or gives one back it has not, makes none. *)
Definition exec (ts : list thread) (k n : nat) : option (list thread) :=
  match ts !! k with
  | Some (Thread (c :: rest) h) =>
      let go todo h := Some (<[k := Thread todo h]> ts) in
      match c with
      | Skip => go rest h
      | Lock m => go (Get m n :: rest) h
      | Get m i => if decide (is_held ts (m, i)) then None else go rest ((m, i) :: h)
      | Unlock m => h ← give_back m h; go rest h
      | Seq a b => go (a :: b :: rest) h
      | Choice a b => go ((if decide (n = 0) then a else b) :: rest) h
      | Loop a => go (if decide (n = 0) then rest else a :: Loop a :: rest) h
      | Spawn a => Some (<[k := Thread rest h]> ts ++ [Thread [a] []])
      end
  | _ => None
  end.
Definition sstep (ts ts' : list thread) : Prop := exists k n, exec ts k n = Some ts'.
Definition can_step (ts : list thread) (k : nat) : Prop := exists n, is_Some (exec ts k n).
Fixpoint run (ts : list thread) (s : list (nat * nat)) : option (list thread) :=
  match s with [] => Some ts | (k, n) :: s => ts ← exec ts k n; run ts s end.

Definition start (l : list skeleton) : list thread := (fun a => Thread [a] []) <$> l.

(** Thread [k] waits for a mutex that [k'] has. *)
Definition waits (ts : list thread) (k k' : nat) : Prop :=
  exists m i rest h t, ts !! k = Some (Thread (Get m i :: rest) h) /\ ts !! k' = Some t /\ (m, i) ∈ held t.

(** * The order of locking *)

Fixpoint drop_one (m : M) (h : list M) : option (list M) :=
  match h with
  | [] => None
  | d :: h => if decide (d = m) then Some h else h' ← drop_one m h; Some (d :: h')
  end.

(** The mutexes held after [c] if those of [h] are held before: a mutex that is taken is below all
    that are held, the branches of a choice leave the same ones, a loop those it found, and a new
    thread none. *)
Fixpoint check (c : skeleton) (h : list M) : option (list M) :=
  match c with
  | Skip => Some h
  | Lock m | Get m _ => if forallb (fun d => Nat.ltb (rank m) (rank d)) h then Some (m :: h) else None
  | Unlock m => drop_one m h
  | Seq a b => h ← check a h; check b h
  | Choice a b => h1 ← check a h; h2 ← check b h; if decide (h1 = h2) then Some h1 else None
  | Loop a => h1 ← check a h; if decide (h1 = h) then Some h else None
  | Spawn a => match check a [] with Some [] => Some h | _ => None end
  end.
(** A function that takes its mutexes in order and gives all back. *)
Definition ordered (c : skeleton) : bool := bool_decide (check c [] = Some []).

Fixpoint check_all (l : list skeleton) (h : list M) : option (list M) :=
  match l with [] => Some h | c :: l => h ← check c h; check_all l h end.

Lemma drop_give m h h' : drop_one m h.*1 = Some h' -> exists g, give_back m h = Some g /\ h' = g.*1.
Proof using Type.
  revert h'. induction h as [|[d i] h IH]; simpl; intros h' Hd; [done|].
  destruct (decide (d = m)); [simplify_eq; eauto|].
  apply bind_Some in Hd as (h1 & E & [= <-]). destruct (IH h1 E) as (g & -> & ->). simpl. eauto.
Qed.
Lemma give_back_perm m h g : give_back m h = Some g -> exists i, h ≡ₚ (m, i) :: g.
Proof using Type.
  revert g. induction h as [|[d i] h IH]; simpl; intros g E; [done|].
  case_decide as Hd; [simplify_eq/=; by exists i|].
  apply bind_Some in E as (g' & E & [= <-]). destruct (IH g' E) as [j Hj].
  exists j. rewrite Hj. constructor.
Qed.

(** * Invariant *)

Definition locks (ts : list thread) : list (M * nat) := ts ≫= held.

Record inv (ts : list thread) : Prop := {
  v_ordered : Forall (fun t => check_all (todo t) (held t).*1 = Some []) ts;
  v_once : NoDup (locks ts) }.

Lemma is_held_locks ts x : is_held ts x <-> x ∈ locks ts.
Proof using Type.
  unfold is_held, locks. rewrite Exists_exists, list_elem_of_bind. split; intros (t & ? & ?); eauto.
Qed.
Lemma locks_insert ts k t t' :
  ts !! k = Some t -> exists l, locks ts ≡ₚ held t ++ l /\ locks (<[k := t']> ts) ≡ₚ held t' ++ l.
Proof using Type.
  unfold locks. revert k. induction ts as [|x ts IH]; intros [|k] Hk; simplify_eq/=.
  - by exists (ts ≫= held).
  - destruct (IH k Hk) as (l & H1 & H2). exists (held x ++ l). rewrite H1, H2. split; apply Permutation_app_swap_app.
Qed.
Lemma locks_app ts ts' : locks (ts ++ ts') = locks ts ++ locks ts'.
Proof using Type. apply bind_app. Qed.

(** One step of a thread, as a change of what it has to do and of what it holds. *)
Lemma inv_insert ts k t t' :
  inv ts -> ts !! k = Some t -> check_all (todo t') (held t').*1 = Some [] ->
  (held t' ≡ₚ held t \/ (exists x, held t ≡ₚ x :: held t') \/
   (exists x, held t' = x :: held t /\ ~ is_held ts x)) ->
  inv (<[k := t']> ts).
Proof using Type.
  intros [Ho Hn] Hk Hc Hh. split; [by apply Forall_insert|].
  destruct (locks_insert ts k t t' Hk) as (l & H1 & H2). rewrite H2. rewrite H1 in Hn.
  destruct Hh as [->|[[x Hx]|[x [-> Hx]]]]; [done| |].
  - rewrite Hx in Hn. by apply NoDup_cons in Hn as [_ Hn].
  - apply NoDup_cons. split; [|done]. rewrite is_held_locks, H1 in Hx. done.
Qed.

Lemma exec_keeps ts k n ts' : inv ts -> exec ts k n = Some ts' -> inv ts'.
Proof using Type.
  intros I E. unfold exec in E. destruct (ts !! k) as [[[|c rest] h]|] eqn:Hk; try done.
  pose proof (Forall_lookup_1 _ _ _ _ (v_ordered _ I) Hk) as Hc. cbn [todo held check_all] in Hc.
  apply bind_Some in Hc as (h1 & Hc & Hr).
  destruct c as [|m|m i|m|a b|a b|a|a]; cbn [check] in Hc.
  - injection E as <-. eapply inv_insert; [done|done| |by left]. simpl. congruence.
  - injection E as <-. eapply inv_insert; [done|done| |by left]. cbn [todo held check_all check].
    rewrite Hc. exact Hr.
  - case_decide as Hf; [done|]. injection E as <-. eapply inv_insert; [done|done| |right; right; eauto].
    destruct (forallb _ _); [|done]. injection Hc as <-. exact Hr.
  - apply bind_Some in E as (g & Eg & [= <-]). destruct (drop_give _ _ _ Hc) as (g' & Eg' & ->).
    assert (g' = g) as -> by congruence. eapply inv_insert; [done|done|exact Hr|].
    destruct (give_back_perm _ _ _ Eg) as [i Hi]. right. left. by exists (m, i).
  - injection E as <-. eapply inv_insert; [done|done| |by left]. cbn [todo held check_all].
    apply bind_Some in Hc as (h2 & -> & Hb). simpl. rewrite Hb. exact Hr.
  - injection E as <-. eapply inv_insert; [done|done| |by left]. cbn [todo held check_all].
    apply bind_Some in Hc as (ha & Ha & Hc). apply bind_Some in Hc as (hb & Hb & Hc).
    destruct (decide (ha = hb)) as [<-|]; [|done]. injection Hc as <-.
    destruct (decide (n = 0)); [rewrite Ha|rewrite Hb]; exact Hr.
  - injection E as <-. eapply inv_insert; [done|done| |by left]. cbn [todo held].
    apply bind_Some in Hc as (ha & Ha & Hc). destruct (decide (ha = h.*1)) as [->|]; [|done]. injection Hc as <-.
    destruct (decide (n = 0)); [exact Hr|]. cbn [check_all check]. rewrite Ha. simpl. rewrite Ha. simpl.
    rewrite decide_True by done. exact Hr.
  - injection E as <-. destruct (check a []) as [[|]|] eqn:Ha; try done. injection Hc as <-.
    destruct (inv_insert ts k _ (Thread rest h) I Hk Hr ltac:(by left)) as [Ho Hn]. split.
    + apply Forall_app. split; [done|]. constructor; [|done]. simpl. by rewrite Ha.
    + rewrite locks_app. simpl. by rewrite app_nil_r.
Qed.
Lemma run_inv ts ts' : inv ts -> rtc sstep ts ts' -> inv ts'.
Proof using Type. intros I. induction 1 as [|ts1 ts2 ts3 (k & n & E)]; eauto using exec_keeps. Qed.

Lemma start_inv l : Forall (fun a => ordered a = true) l -> inv (start l).
Proof using Type.
  intros Hl. unfold start. split.
  - apply Forall_fmap. eapply Forall_impl; [exact Hl|]. intros a Ha. unfold ordered in Ha. simpl.
    apply bool_decide_eq_true in Ha. by rewrite Ha.
  - clear Hl. unfold locks. induction l as [|a l IH]; simpl; [constructor|done].
Qed.

(** * No deadlock *)

(** A thread with something to do can do it, or waits for a mutex below all it holds. *)
Lemma goes_or_waits ts k t :
  inv ts -> ts !! k = Some t -> todo t <> [] ->
  can_step ts k \/
  exists m i rest, todo t = Get m i :: rest /\ is_held ts (m, i) /\
    Forall (fun d => rank m < rank d) (held t).*1.
Proof using Type.
  intros I Hk Ht. destruct t as [[|c rest] h]; [done|].
  pose proof (Forall_lookup_1 _ _ _ _ (v_ordered _ I) Hk) as Hc. cbn [todo held check_all] in Hc.
  apply bind_Some in Hc as (h1 & Hc & Hr). unfold can_step, exec. rewrite Hk.
  destruct c as [|m|m i|m|a b|a b|a|a]; try (left; exists 0; eauto; fail).
  - destruct (decide (is_held ts (m, i))) as [Hh|]; [|left; exists 0; eauto].
    right. exists m, i, rest. split; [done|]. split; [done|]. cbn [check] in Hc.
    destruct (forallb _ _) eqn:Hf; [|done]. rewrite forallb_forall in Hf. apply Forall_forall.
    intros d Hd. apply list_elem_of_In in Hd. simpl in Hd. specialize (Hf d Hd). by apply Nat.ltb_lt in Hf.
  - cbn [check] in Hc. destruct (drop_give _ _ _ Hc) as (g & Eg & _). left. exists 0. rewrite Eg. simpl. eauto.
Qed.

Lemma holder_busy ts k t x : inv ts -> ts !! k = Some t -> x ∈ held t -> todo t <> [].
Proof using Type.
  intros I Hk Hx Ht. pose proof (Forall_lookup_1 _ _ _ _ (v_ordered _ I) Hk) as Hc. simpl in Hc.
  rewrite Ht in Hc. simpl in Hc. injection Hc as Hc. apply (list_elem_of_fmap_2 fst) in Hx.
  rewrite Hc in Hx. by apply elem_of_nil in Hx.
Qed.
Lemma waits_end r : forall ts k t m i rest,
  inv ts -> ts !! k = Some t -> todo t = Get m i :: rest -> is_held ts (m, i) -> rank m < r ->
  exists k', rtc (waits ts) k k' /\ can_step ts k'.
Proof using Type.
  induction r as [|r IH]; intros ts k t m i rest I Hk Ht Hh Hr; [lia|].
  pose proof Hh as Hh'. unfold is_held in Hh. apply Exists_exists in Hh as (t' & Hin & Hx).
  apply list_elem_of_lookup in Hin as [k' Hk'].
  assert (waits ts k k') as Hw.
  { exists m, i, rest, (held t), t'. rewrite <- Ht. by destruct t. }
  destruct (goes_or_waits ts k' t' I Hk' (holder_busy _ _ _ _ I Hk' Hx)) as [Hc|(m' & i' & rest' & Ht' & Hh2 & Hlt)].
  { exists k'. split; [by apply rtc_once|done]. }
  destruct (IH ts k' t' m' i' rest' I Hk' Ht' Hh2) as (k2 & Hw2 & Hc).
  { rewrite Forall_forall in Hlt. apply (list_elem_of_fmap_2 fst) in Hx. specialize (Hlt _ Hx). simpl in Hlt. lia. }
  exists k2. split; [by eapply rtc_l|done].
Qed.

(** Threads that keep the order: whoever has something to do can go on, or waits, through others
    perhaps, for one that can; and no mutex is held twice. *)
Lemma ordered_no_deadlock l ts k t :
  Forall (fun a => ordered a = true) l -> rtc sstep (start l) ts -> ts !! k = Some t -> todo t <> [] ->
  NoDup (locks ts) /\ exists k', rtc (waits ts) k k' /\ can_step ts k'.
Proof using Type.
  intros Hl Hr Hk Ht. pose proof (run_inv _ _ (start_inv l Hl) Hr) as I. split; [apply I|].
  destruct (goes_or_waits ts k t I Hk Ht) as [Hc|(m & i & rest & Hm & Hh & _)]; [by exists k|].
  by eapply (waits_end (S (rank m))); eauto.
Qed.

(** * Deadlock *)

(** Threads that wait for each other. *)
Definition deadlocked (ts : list thread) (D : list nat) : Prop :=
  Forall (fun k => exists k', k' ∈ D /\ waits ts k k') D.

Lemma waits_stuck ts k k' n : waits ts k k' -> exec ts k n = None.
Proof using Type.
  intros (m & i & rest & h & t & Hk & Hk' & Hx). unfold exec. rewrite Hk.
  rewrite decide_True; [done|]. apply Exists_exists. exists t. split; [|done]. by eapply list_elem_of_lookup_2.
Qed.
Lemma exec_others ts k n ts' k' t : exec ts k n = Some ts' -> k' <> k -> ts !! k' = Some t -> ts' !! k' = Some t.
Proof using Type.
  unfold exec. intros E Hne Hk'. destruct (ts !! k) as [[[|c rest] h]|] eqn:Hk; try done.
  destruct c; try (injection E as <-; by rewrite list_lookup_insert_ne).
  - case_decide; [done|]. injection E as <-. by rewrite list_lookup_insert_ne.
  - apply bind_Some in E as (g & _ & [= <-]). by rewrite list_lookup_insert_ne.
  - injection E as <-. rewrite lookup_app_l; [by rewrite list_lookup_insert_ne|].
    rewrite length_insert. by eapply lookup_lt_Some.
Qed.
(** They wait for ever. *)
Lemma deadlocked_forever ts ts' D :
  deadlocked ts D -> rtc sstep ts ts' -> deadlocked ts' D /\ forall k, k ∈ D -> ts' !! k = ts !! k.
Proof using Type.
  intros HD Hr. induction Hr as [ts|ts ts1 ts' (k & n & E) _ IH]; [done|].
  assert (forall j t, j ∈ D -> ts !! j = Some t -> ts1 !! j = Some t) as Hsame.
  { intros j t Hj Ht. eapply exec_others; [exact E| |exact Ht]. intros ->.
    destruct (proj1 (Forall_forall _ _) HD k Hj) as (k' & _ & Hw). by rewrite (waits_stuck _ _ _ _ Hw) in E. }
  assert (deadlocked ts1 D) as HD1.
  { apply Forall_forall. intros j Hj. destruct (proj1 (Forall_forall _ _) HD j Hj) as (k' & Hk' & Hw).
    exists k'. split; [done|]. destruct Hw as (m & i & rest & h & t & H1 & H2 & H3).
    exists m, i, rest, h, t. split_and!; [by apply Hsame|by apply Hsame|done]. }
  destruct (IH HD1) as [HD' Hs]. split; [done|]. intros j Hj. rewrite Hs by done.
  destruct (proj1 (Forall_forall _ _) HD j Hj) as (k' & _ & (m & i & rest & h & t & H1 & _)). rewrite H1.
  by apply Hsame.
Qed.

Lemma run_reaches ts s ts' : run ts s = Some ts' -> rtc sstep ts ts'.
Proof using Type.
  revert ts. induction s as [|[k n] s IH]; simpl; intros ts E; [by injection E as <-|].
  apply bind_Some in E as (ts1 & E1 & E). eapply rtc_l; [by exists k, n|by apply IH].
Qed.
End mutexes.
