(* ===== verification/Locking.v ===== *)
(** Which mutexes the functions of the program take, and whether they can deadlock.

    The comment at the top of rsm.cc gives the rule: a module releases its locks before it calls
    up, and may keep them when it calls down, the modules being rsm over config over Paxos.  The
    definitions are the functions of rsm.cc, config.cc, paxos.cc, handle.cc, rsm_client.cc and of
    the lock and extent services, reduced to their locking ([Mutexes]); a remote call runs its
    handler while the caller waits with what it holds, or leaves it running; the mutexes inside
    the RPC library are left out.  The theorems: any
    number of threads in these functions do not deadlock, in all processes together, if no prepare
    request is answered with [oldinstance]; and where one is, the proposer calls up with its mutex
    held and two threads of the node wait for each other for ever. *)
From Stdlib Require Import ZArith Lia.
From stdpp Require Import base option relations sets list.
From S2P Require Import Prelude Mutexes.

(** The mutexes, from above to below. *)
Inductive mutex :=
| revoke_lock         (* lock_server_cache *)
| rsm_mutex           (* rsm *)
| invoke_mutex        (* rsm *)
| cfg_mutex           (* config *)
| pro_mutex           (* proposer::pxs_mutex *)
| acc_mutex           (* acceptor::pxs_mutex *)
| rsm_client_mutex    (* rsm_client *)
| client_root         (* lock_client_cache::sync_root *)
| extent_root         (* extent_client::sync_root *)
| lock_root           (* lock_server_cache::sync_root *)
| server_root         (* extent_server::_sync_root *)
| cl_mutex            (* hinfo, one for each node *)
| handle_mutex.       (* handle_mgr *)
#[global] Instance mutex_eq_dec : EqDecision mutex.
Proof. solve_decision. Defined.

Definition level (m : mutex) : nat :=
  match m with
  | revoke_lock => 12 | rsm_mutex => 11 | invoke_mutex => 10 | cfg_mutex => 9 | pro_mutex => 8
  | acc_mutex => 7 | rsm_client_mutex => 6 | client_root => 5 | extent_root => 4 | lock_root => 3
  | server_root => 2 | cl_mutex => 1 | handle_mutex => 0
  end.

Abbreviation fn := (skeleton (M := mutex)).

(** * handle.cc *)

Definition get_handle : fn := scoped handle_mutex Skip.
Definition done_handle : fn := scoped handle_mutex Skip.
Definition delete_handle : fn := scoped handle_mutex Skip.
Definition safebind : fn := maybe (scoped cl_mutex Skip).
(** A variable of type [handle] and the rest of its block. *)
Definition with_handle (a : fn) : fn := block [get_handle; a; maybe done_handle].
(** [safebind] and, if there is a client, a call that runs [a]. *)
Definition bind_call (a : fn) : fn := block [safebind; maybe (remote a)].

(** * Calls up: acceptor, config, rsm *)

Definition get_view : fn := scoped cfg_mutex Skip.
Definition ismember : fn := scoped cfg_mutex Skip.
Definition restore : fn := scoped cfg_mutex Skip.

Definition set_primary : fn := block [get_view; get_view].
Definition commit_change_wo : fn := maybe (block [set_primary; ismember]).
Definition commit_change : fn := scoped rsm_mutex commit_change_wo.

Definition paxos_commit : fn :=
  scoped cfg_mutex (block [Loop (maybe delete_handle); maybe (unlocked cfg_mutex commit_change)]).

Definition commit_wo : fn := maybe (maybe (unlocked acc_mutex paxos_commit)).
Definition commit : fn := scoped acc_mutex commit_wo.
Definition preparereq : fn := scoped acc_mutex Skip.
Definition acceptreq : fn := scoped acc_mutex Skip.
Definition decidereq : fn := scoped acc_mutex (maybe commit_wo).

(** * The proposer *)

Definition isrunning : fn := scoped pro_mutex Skip.
(** The loops of the three phases ask one node after the other. *)
Definition ask (a : fn) : fn := unlocked pro_mutex (bind_call a).

Section old.
  (** Whether a node may answer that the instance is an old one. *)
  Variable old : bool.

Definition prepare : fn :=
  block [Loop (with_handle (ask preparereq));
         (if old then maybe (with_handle (block [ask preparereq; commit])) else Skip)].
Definition accept : fn := Loop (with_handle (ask acceptreq)).
Definition decide : fn := Loop (with_handle (ask decidereq)).
Definition proposer_run : fn :=
  scoped pro_mutex (maybe (block [prepare; maybe (block [accept; maybe decide])])).

(** * config.cc *)

Definition heartbeat : fn := scoped cfg_mutex (maybe isrunning).
Definition add : fn := scoped cfg_mutex (maybe (unlocked cfg_mutex proposer_run)).
Definition remove_wo : fn := unlocked cfg_mutex proposer_run.
Definition doheartbeat : fn :=
  with_handle (block [unlocked cfg_mutex (bind_call heartbeat); maybe delete_handle]).
Definition heartbeater : fn :=
  scoped cfg_mutex (Loop (block [wait cfg_mutex; maybe (block [Loop doheartbeat; maybe remove_wo])])).

(** * rsm.cc *)

Definition joinreq : fn :=
  scoped rsm_mutex (block [ismember; maybe (block [unlocked rsm_mutex add; ismember])]).
Definition join : fn :=
  with_handle (block [unlocked rsm_mutex (bind_call joinreq); maybe restore]).
Definition sync_with_backups : fn := unlocked rsm_mutex (scoped invoke_mutex Skip).
Definition sync_with_primary : fn := Skip.
Definition recovery : fn :=
  scoped rsm_mutex (Loop (block
    [Loop (block [ismember; join; Choice commit_change_wo (unlocked rsm_mutex Skip)]); ismember;
     Choice sync_with_backups sync_with_primary; maybe (wait rsm_mutex)])).
Definition transferreq : fn := scoped rsm_mutex Skip.
Definition transferdonereq : fn := scoped rsm_mutex Skip.
Definition client_members : fn := scoped rsm_mutex get_view.
Definition client_invoke : fn := Skip.
Definition invoke : fn := Skip.
Definition amiprimary : fn := scoped rsm_mutex Skip.
Definition net_repair_wo : fn :=
  block [get_view; Loop (maybe (with_handle (block [safebind; maybe safebind])))].
Definition test_net_repairreq : fn := scoped rsm_mutex (maybe net_repair_wo).
Definition breakpointreq : fn := scoped rsm_mutex Skip.

(** What the threads of a node run: the two it starts, and the handlers. *)
Definition node : list fn :=
  [recovery; heartbeater; preparereq; acceptreq; decidereq; heartbeat; joinreq; transferreq;
   transferdonereq; client_members; client_invoke; invoke; amiprimary; test_net_repairreq; breakpointreq].

(** * rsm_client.cc *)

Definition init_members : fn := with_handle (unlocked rsm_client_mutex (bind_call client_members)).
Definition rsm_client_new : fn := scoped rsm_client_mutex init_members.
Definition rsm_invoke : fn :=
  scoped rsm_client_mutex (Loop (with_handle (block
    [unlocked rsm_client_mutex (bind_call client_invoke); maybe init_members]))).
End old.

(** * The extent service *)

Definition extent_method : fn := scoped server_root Skip.
(** [get], [getattr] and [put] of the client fetch an extent they have not. *)
Definition extent_use : fn := scoped extent_root (maybe (block [remote extent_method; remote extent_method])).
Definition extent_remove : fn := scoped extent_root (maybe (remote extent_method)).
Definition flush : fn := scoped extent_root (maybe (remote extent_method)).

(** * The lock service *)

Definition srv_acquire : fn := scoped lock_root Skip.
Definition retry_handler : fn := scoped client_root Skip.
(** [safebind] is called again for the call and for the check of its result. *)
Definition notify (a : fn) : fn :=
  with_handle (block [safebind; maybe (block [safebind; remote a]); safebind]).
Definition srv_release : fn := block [scoped lock_root Skip; maybe (notify retry_handler)].

Definition acquire_lock : fn :=
  Choice (scoped client_root Skip)
         (block [scoped client_root Skip; remote srv_acquire; scoped client_root Skip]).
Definition acquire : fn :=
  block [scoped client_root Skip;
         scoped client_root (block [maybe (unlocked client_root acquire_lock);
                                    Loop (wait client_root); Loop (wait client_root)])].
Definition dorelease : fn := flush.
Definition release : fn :=
  Choice (block [scoped client_root Skip; dorelease; remote srv_release]) (scoped client_root Skip).
Definition revoke_handler : fn :=
  Choice (block [scoped client_root dorelease; remote srv_release]) (scoped client_root Skip).

Definition enforcer : fn := Loop (scoped revoke_lock (scoped lock_root Skip)).
Definition revoker : fn := Loop (scoped revoke_lock (Loop (notify revoke_handler))).

(** What the operations of yfs_client are made of, and the threads of the services. *)
Definition file_service : list fn :=
  [acquire; release; extent_use; extent_remove; flush; revoke_handler; retry_handler; srv_acquire;
   srv_release; enforcer; revoker; extent_method].

(** * Properties *)

(** All functions a thread may start with, if no instance is old. *)
Definition functions : list fn := node false ++ [rsm_client_new; rsm_invoke] ++ file_service.

Lemma functions_ordered : Forall (fun a => ordered level a = true) functions.
Proof. unfold functions. repeat constructor. Qed.

(** C26 (no deadlock): whatever threads run the functions of the replicated state machine, of its
    clients and of the lock and extent services, on any number of nodes and in any interleaving, no
    mutex is held twice, and a thread that is not at its end can go on, or waits for a mutex whose
    holder, or the holder of the one that thread waits for, and so on, can go on; provided that no
    prepare request is answered with [oldinstance].  Remote calls run their handlers while the
    caller keeps the mutexes it holds. *)
Theorem processes_never_deadlock l ts k t :
  Forall (fun a => a ∈ functions) l -> rtc sstep (start l) ts ->
  ts !! k = Some t -> todo t <> [] ->
  NoDup (locks ts) /\ exists k', rtc (waits ts) k k' /\ can_step ts k'.
Proof.
  intros Hl. apply (ordered_no_deadlock level). eapply Forall_impl; [exact Hl|].
  intros a Ha. pose proof functions_ordered as Ho. rewrite Forall_forall in Ho. by apply Ho.
Qed.

Module locking_example.
(** The choices of a thread, as a schedule: a step that has none takes no choice.  It ends before
    the first choice that is not given. *)
Fixpoint schedule (fuel : nat) (ts : list (thread (M := mutex))) (k : nat) (cs : list nat) : list (nat * nat) :=
  match fuel, ts !! k with
  | S fuel, Some (Thread (c :: _) _) =>
      let chooses := match c with Lock _ | Choice _ _ | Loop _ => true | _ => false end in
      match cs, chooses with
      | [], true => []
      | _, _ =>
          let n := if chooses then default 0 (head cs) else 0 in
          let cs := if chooses then tail cs else cs in
          match exec ts k n with Some ts => (k, n) :: schedule fuel ts k cs | None => [] end
      end
  | _, _ => []
  end.

(** A node whose heartbeater has lost an answer and proposes to remove the other node; the
    acceptor of that one answers that the instance is decided. *)
Definition removing : list nat :=
  [0; 1; 0; 0; 1; 0; 0; 1; 0; 1; 1; 0; 1; 0; 0; 0; 0; 0; 0; 0; 0; 0; 0; 1; 0; 0; 1; 0; 0; 0; 0; 0].
(** A heartbeat of the other node, which has the next view already. *)
Definition answering : list nat := [0; 0; 0].

Definition threads : list (thread (M := mutex)) := start [heartbeater true; heartbeat].
Definition first : list (nat * nat) := Eval vm_compute in take 117 (schedule 200 threads 0 removing).
Definition before : list (thread (M := mutex)) := default [] (run threads first).
Definition second : list (nat * nat) := Eval vm_compute in schedule 200 before 1 answering.
Definition stuck : list (thread (M := mutex)) := default [] (run before second).

(** C16 (deadlock on an old instance): a proposer whose prepare request is answered with
    [oldinstance] commits the value with its own mutex held, and the commit calls up to config: a
    heartbeat from another node that arrives before it has the mutex of config, and finds that
    the views differ, has that mutex and asks the proposer for its own.  From then on neither of
    the two threads ever makes a step, whatever the others do. *)
Theorem old_instance_deadlocks :
  rtc sstep threads stuck /\ Forall (fun t => todo t <> []) stuck /\
  forall ts, rtc sstep stuck ts -> ts !! 0 = stuck !! 0 /\ ts !! 1 = stuck !! 1 /\
    ~ can_step ts 0 /\ ~ can_step ts 1.
Proof.
  split; [apply (run_reaches _ (first ++ second)); vm_compute; reflexivity|].
  split; [vm_compute; repeat constructor; discriminate|].
  assert (deadlocked stuck [0; 1]) as HD.
  { constructor; [exists 1|constructor; [exists 0|constructor]];
      (split; [set_solver|]); do 5 eexists;
      (split_and!; [vm_compute; reflexivity|vm_compute; reflexivity|by_computing]). }
  intros ts Hr. destruct (deadlocked_forever _ _ _ HD Hr) as [HD' Hs].
  split_and!; [apply Hs; set_solver..| |];
    intros [n [ts' E]]; unfold deadlocked in HD'; rewrite Forall_forall in HD';
    [destruct (HD' 0 ltac:(set_solver)) as (k & _ & Hw)|destruct (HD' 1 ltac:(set_solver)) as (k & _ & Hw)];
    by rewrite (waits_stuck _ _ _ _ Hw) in E.
Qed.

(** A revoker whose call has a client flush an extent, while another thread of the client wants to
    use one and waits for it. *)
Definition flushing : list nat := [1; 0; 1; 0; 0; 1; 0; 0; 1; 0; 0; 1; 1].
Definition work : list (nat * nat) := Eval vm_compute in
  let ts := start [revoker; acquire; extent_use] in
  let s := schedule 100 ts 0 flushing in
  s ++ schedule 100 (default [] (run ts s)) 2 [1].
Definition at_work : list (thread (M := mutex)) := default [] (run (start [revoker; acquire; extent_use]) work).

Lemma processes_never_deadlock_witness :
  ~ can_step at_work 2 /\ exists k', rtc (waits at_work) 2 k' /\ can_step at_work k'.
Proof.
  split.
  { intros [n [ts E]]. vm_compute in E. discriminate E. }
  destruct (processes_never_deadlock [revoker; acquire; extent_use] at_work 2
    (Thread [Get extent_root 1; Seq (maybe (block [remote extent_method; remote extent_method])) (Unlock extent_root)] []))
    as (_ & k' & Hw & Hc).
  - unfold functions, file_service. repeat (constructor; [set_solver|]). constructor.
  - apply (run_reaches _ work). vm_compute. reflexivity.
  - vm_compute. reflexivity.
  - discriminate.
  - exists k'. split; [exact Hw|exact Hc].
Defined.
End locking_example.
