(* ===== verification/Threads.v ===== *)
(** Starting threads and jobs on methods, and deadlines: rpc/method_thread.h, [addObjJob] of
    rpc/thr_pool.h and base::ConditionVar of lock.hpp.

    [method_thread] and [addObjJob] put an object, a method and its arguments into a record on the
    heap, whose address a new thread, or a thread of the pool, takes over: it reads the fields,
    frees the record and runs the method, the pool in the other order.  The theorem: whatever the
    order in which the threads get to run, no record is used after it was freed, every method runs
    once, on its object and with its arguments, and the records on the heap are those of the
    threads that have not run. *)
From Stdlib Require Import ZArith Lia.
From stdpp Require Import base gmap fin_maps list.
From S2P Require Import Prelude.
Local Open Scope Z_scope.

Section threads.
  (** Objects, methods and arguments; several arguments are a tuple. *)
  Context {C M A : Type}.

(** The class [XXX] inside [method_thread], and [objfunc_wrapper]. *)
Record wrapper := Wrapper { x_o : C; x_m : M; x_a : A }.

(** A method that was called. *)
Record invocation := Invocation { v_o : C; v_m : M; v_a : A }.
Definition invoked (x : wrapper) : invocation := Invocation (x_o x) (x_m x) (x_a x).

Record process := Process {
  heap : gmap positive wrapper;
  fresh : positive;
  waiting : list (positive * bool);   (* threads and, with [true], jobs that have not run *)
  ran : list invocation }.

Definition deref (p : process) (x : positive) : outcome wrapper :=
  match heap p !! x with Some w => Ret w | None => Fault Undefined end.
Definition delete_x (p : process) (x : positive) : outcome process :=
  match heap p !! x with
  | Some _ => Ret (Process (delete x (heap p)) (fresh p) (waiting p) (ran p))
  | None => Fault Undefined
  end.
Definition runs (p : process) (v : invocation) : process :=
  Process (heap p) (fresh p) (waiting p) (ran p ++ [v]).

(** [pthread_create] gives [err]; a thread that is detached is not joined. *)
Definition method_thread_parent (err : Z) (detach detached : bool) (arg : positive) (p : process)
    : outcome process :=
  if negb (err =? 0) then Fault Exited
  else
    let p := Process (heap p) (fresh p) (waiting p ++ [(arg, false)]) (ran p) in
    if detach then _ ← verify detached; Ret p else Ret p.

Definition new_x (w : wrapper) (p : process) : process * positive :=
  (Process (<[fresh p := w]> (heap p)) (Pos.succ (fresh p)) (waiting p) (ran p), fresh p).

Definition method_thread (o : C) (detach : bool) (m : M) (a : A) (err : Z) (detached : bool) (p : process)
    : outcome process :=
  let '(p, x) := new_x (Wrapper o m a) p in method_thread_parent err detach detached x p.

(** [yyy], with [method_thread_child]: it copies the fields and frees the record first. *)
Definition yyy (x : positive) (p : process) : outcome process :=
  w ← deref p x;
  p ← delete_x p x;
  Ret (runs p (invoked w)).
(** [func] of a job: the record is freed when the method has returned. *)
Definition func (x : positive) (p : process) : outcome process :=
  w ← deref p x;
  let p := runs p (invoked w) in
  delete_x p x.

(** [addObjJob], for a queue that has room or not; a job that is refused leaves its record. *)
Definition addObjJob (o : C) (m : M) (a : A) (room : bool) (p : process) : process * bool :=
  let '(p, x) := new_x (Wrapper o m a) p in
  if room then (Process (heap p) (fresh p) (waiting p ++ [(x, true)]) (ran p), true) else (p, false).

(** * Threads in any order *)

Inductive act := Start (o : C) (detach : bool) (m : M) (a : A) | Add (o : C) (m : M) (a : A) (room : bool)
  | Runs (i : nat).

Definition step (p : process) (x : act) : outcome process :=
  match x with
  | Start o detach m a => method_thread o detach m a 0 true p
  | Add o m a room => Ret (addObjJob o m a room p).1
  | Runs i =>
      match waiting p !! i with
      | Some (x, job) =>
          let p := Process (heap p) (fresh p) (delete i (waiting p)) (ran p) in
          (if job : bool then func else yyy) x p
      | None => Ret p
      end
  end.
Fixpoint steps (p : process) (l : list act) : outcome process :=
  match l with [] => Ret p | x :: l => p ← step p x; steps p l end.

Definition process_new : process := Process ∅ 1 [] [].

(** What was asked for. *)
Definition asked (x : act) : list invocation :=
  match x with
  | Start o _ m a | Add o m a true => [Invocation o m a]
  | _ => []
  end.
Definition refused (x : act) : nat := match x with Add _ _ _ false => 1 | _ => 0 end.

(** * Invariant *)

(** The methods of the threads that have not run. *)
Definition pending (p : process) : list invocation :=
  omap (fun x => invoked <$> heap p !! x.1) (waiting p).

Record inv (wanted : list invocation) (lost : nat) (p : process) : Prop := {
  v_alive : Forall (fun x => is_Some (heap p !! x.1)) (waiting p);
  v_nodup : NoDup (waiting p).*1;
  v_fresh : forall x, is_Some (heap p !! x) -> (x < fresh p)%positive;
  v_all : wanted ≡ₚ ran p ++ pending p;
  v_size : size (heap p) = (length (waiting p) + lost)%nat }.


Lemma omap_ext_in {X Y} (f g : X -> option Y) (l : list X) :
  Forall (fun x => f x = g x) l -> omap f l = omap g l.
Proof. intros Hl. apply list_omap_ext. induction Hl; by constructor. Qed.

(** A record at a fresh address changes nothing for the others. *)
Lemma inv_new wanted lost p w :
  inv wanted lost p -> heap p !! fresh p = None /\
  (forall x, x ∈ (waiting p).*1 -> x <> fresh p) /\
  omap (fun x => invoked <$> <[fresh p := w]> (heap p) !! x.1) (waiting p) = pending p.
Proof using Type.
  intros I.
  assert (heap p !! fresh p = None) as Hn.
  { destruct (heap p !! fresh p) eqn:E; [|done]. pose proof (v_fresh _ _ _ I (fresh p) ltac:(eauto)). lia. }
  assert (forall x, x ∈ (waiting p).*1 -> x <> fresh p) as Hw.
  { intros x Hx ->. apply list_elem_of_fmap in Hx as (y & Ey & Hy).
    pose proof (proj1 (Forall_forall _ _) (v_alive _ _ _ I) y Hy) as [? Ha]. rewrite <- Ey in Ha. congruence. }
  split_and!; [done|done|]. apply omap_ext_in, Forall_forall. intros y Hy.
  rewrite lookup_insert_ne; [done|]. intros E. apply (Hw y.1); [|done]. by apply list_elem_of_fmap_2.
Qed.

Lemma inv_started wanted lost p o m a job :
  inv wanted lost p ->
  inv (wanted ++ [Invocation o m a]) lost
    (Process (<[fresh p := Wrapper o m a]> (heap p)) (Pos.succ (fresh p)) (waiting p ++ [(fresh p, job)]) (ran p)).
Proof using Type.
  intros I. destruct (inv_new _ _ p (Wrapper o m a) I) as (Hn & Hw & Ho). split; simpl.
  - apply Forall_app. split; [|constructor; [simpl; rewrite lookup_insert_eq; eauto|done]].
    eapply Forall_impl; [apply (v_alive _ _ _ I)|]. intros x [y Hx]. exists (if decide (x.1 = fresh p) then Wrapper o m a else y).
    case_decide as E; [rewrite E; apply lookup_insert_eq|by rewrite lookup_insert_ne].
  - rewrite fmap_app. apply NoDup_app. split; [apply I|]. split; [|simpl; apply NoDup_singleton].
    intros x Hx Hs. apply list_elem_of_singleton in Hs. by apply (Hw x).
  - intros x [y Hx]. apply lookup_insert_Some in Hx as [[<- _]|[_ Hx]]; [lia|].
    pose proof (v_fresh _ _ _ I x ltac:(eauto)). lia.
  - unfold pending. simpl. rewrite omap_app, Ho. simpl. rewrite lookup_insert_eq. simpl.
    rewrite (v_all _ _ _ I). by rewrite <- app_assoc.
  - rewrite map_size_insert_None by done. rewrite length_app, (v_size _ _ _ I). simpl. lia.
Qed.

Lemma inv_refused wanted lost p o m a :
  inv wanted lost p ->
  inv wanted (S lost) (Process (<[fresh p := Wrapper o m a]> (heap p)) (Pos.succ (fresh p)) (waiting p) (ran p)).
Proof using Type.
  intros I. destruct (inv_new _ _ p (Wrapper o m a) I) as (Hn & Hw & Ho). split; simpl.
  - eapply Forall_impl; [apply (v_alive _ _ _ I)|]. intros x [y Hx]. exists (if decide (x.1 = fresh p) then Wrapper o m a else y).
    case_decide as E; [rewrite E; apply lookup_insert_eq|by rewrite lookup_insert_ne].
  - apply I.
  - intros x [y Hx]. apply lookup_insert_Some in Hx as [[<- _]|[_ Hx]]; [lia|].
    pose proof (v_fresh _ _ _ I x ltac:(eauto)). lia.
  - unfold pending. simpl. rewrite Ho. apply (v_all _ _ _ I).
  - rewrite map_size_insert_None by done. rewrite (v_size _ _ _ I). lia.
Qed.

Lemma inv_runs wanted lost p i x job w :
  inv wanted lost p -> waiting p !! i = Some (x, job) -> heap p !! x = Some w ->
  inv wanted lost (Process (delete x (heap p)) (fresh p) (delete i (waiting p)) (ran p ++ [invoked w])).
Proof using Type.
  intros I Hi Hx. pose proof (delete_Permutation _ _ _ Hi) as Hp.
  pose proof (v_nodup _ _ _ I) as Hn. rewrite Hp in Hn. simpl in Hn. apply NoDup_cons in Hn as [Hx' Hn].
  assert (forall y, y ∈ delete i (waiting p) -> y.1 <> x) as Hne.
  { intros y Hy <-. apply Hx'. by apply list_elem_of_fmap_2. }
  split; simpl.
  - apply Forall_forall. intros y Hy. rewrite lookup_delete_ne by (intros E; by apply (Hne y)).
    apply (proj1 (Forall_forall _ _) (v_alive _ _ _ I)). rewrite Hp. by right.
  - done.
  - intros y [z Hy]. apply lookup_delete_Some in Hy as [_ Hy]. apply (v_fresh _ _ _ I). eauto.
  - assert (pending p ≡ₚ invoked w :: omap (fun y => invoked <$> heap p !! y.1) (delete i (waiting p))) as Hpend.
    { unfold pending. etrans; [apply omap_Permutation, Hp|]. simpl. by rewrite Hx. }
    rewrite (v_all _ _ _ I), Hpend, <- app_assoc. simpl. unfold pending. simpl.
    erewrite (omap_ext_in (fun y => invoked <$> delete x (heap p) !! y.1)); [done|]. apply Forall_forall.
    intros y Hy. rewrite lookup_delete_ne; [done|]. intros E. by apply (Hne y).
  - rewrite map_size_delete_Some by eauto. rewrite (v_size _ _ _ I).
    rewrite length_delete by eauto. pose proof (lookup_lt_Some _ _ _ Hi). lia.
Qed.

Lemma step_inv wanted lost p x :
  inv wanted lost p -> exists p', step p x = Ret p' /\ inv (wanted ++ asked x) (lost + refused x) p'.
Proof using Type.
  intros I. destruct x as [o detach m a|o m a room|i]; simpl.
  - unfold method_thread_parent. simpl. rewrite Nat.add_0_r.
    exists (Process (<[fresh p := Wrapper o m a]> (heap p)) (Pos.succ (fresh p)) (waiting p ++ [(fresh p, false)]) (ran p)).
    split; [by destruct detach|]. by apply inv_started.
  - eexists. split; [done|]. unfold addObjJob. simpl. destruct room; simpl.
    + rewrite Nat.add_0_r. by apply inv_started.
    + rewrite app_nil_r, Nat.add_1_r. by apply inv_refused.
  - rewrite app_nil_r, Nat.add_0_r. destruct (waiting p !! i) as [[x job]|] eqn:Hi; [|eauto].
    destruct (Forall_lookup_1 _ _ _ _ (v_alive _ _ _ I) Hi) as [w Hw]. simpl in Hw.
    eexists. split; [|by eapply inv_runs].
    destruct job; unfold func, yyy, deref, delete_x, runs; simpl; rewrite Hw; simpl; by rewrite ?Hw.
Qed.
Lemma steps_inv l : forall wanted lost p, inv wanted lost p ->
  exists p', steps p l = Ret p' /\ inv (wanted ++ (l ≫= asked)) (lost + sum_list_with refused l) p'.
Proof using Type.
  induction l as [|x l IH]; intros wanted lost p I; simpl.
  { rewrite app_nil_r, Nat.add_0_r. eauto. }
  destruct (step_inv wanted lost p x I) as (p1 & -> & I1). simpl.
  destruct (IH _ _ p1 I1) as (p' & -> & I'). exists p'. split; [done|]. by rewrite app_assoc, Nat.add_assoc.
Qed.

Lemma process_new_inv : inv [] 0 process_new.
Proof using Type. by split; [constructor|constructor|intros x [? [=]]| |]. Qed.
End threads.

(** Every method that a thread was started on, or that was put into the queue, runs once, with
    its object and its arguments, in whatever order the threads run: none uses a record that was
    freed; what has not run is waiting; and the records left on the heap are those of the waiting,
    and one for each job that was refused. *)
Theorem methods_run_once {C M A} (l : list (act (C := C) (M := M) (A := A))) :
  exists p, steps process_new l = Ret p /\
    (l ≫= asked) ≡ₚ ran p ++ pending p /\
    (waiting p = [] -> (l ≫= asked) ≡ₚ ran p /\ size (heap p) = sum_list_with refused l) /\
    size (heap p) = (length (waiting p) + sum_list_with refused l)%nat.
Proof.
  destruct (steps_inv l [] 0 process_new process_new_inv) as (p & E & I). exists p. split; [exact E|].
  pose proof (v_all _ _ _ I) as Ha. pose proof (v_size _ _ _ I) as Hs. simpl in Ha, Hs.
  split_and!; [exact Ha| |exact Hs]. intros Hw. unfold pending in Ha. rewrite Hw in Ha, Hs.
  split; [|exact Hs]. rewrite Ha. simpl. by rewrite app_nil_r.
Qed.

(** ** The templates for no, two and three arguments *)

Section arities.
  Context {C A1 A2 A3 : Type}.

Definition method_thread0 (o : C) (detach : bool) (m : C -> unit) :=
  method_thread o detach (fun '(o, tt) => m o) tt.
Definition method_thread2 (o : C) (detach : bool) (m : C -> A1 -> A2 -> unit) (a1 : A1) (a2 : A2) :=
  method_thread o detach (fun '(o, (a1, a2)) => m o a1 a2) (a1, a2).
Definition method_thread3 (o : C) (detach : bool) (m : C -> A1 -> A2 -> A3 -> unit)
    (a1 : A1) (a2 : A2) (a3 : A3) :=
  method_thread o detach (fun '(o, (a1, a2, a3)) => m o a1 a2 a3) (a1, a2, a3).
End arities.

(** * ConditionVar::wait *)

(** The deadline 50 milliseconds ahead: [usec] is what [gettimeofday] gives, [now] what [time]
    gives after it. *)
Definition wait_deadline (usec now : Z) : Z * Z :=
  let nTimeOut := 50 in
  let tv_sec := now + Z.quot nTimeOut 1000 in
  let tv_nsec := usec * 1000 + 1000 * 1000 * Z.rem nTimeOut 1000 in
  (tv_sec + Z.quot tv_nsec (1000 * 1000 * 1000), Z.rem tv_nsec (1000 * 1000 * 1000)).

(** It is one pthread_cond_timedwait accepts, 50 milliseconds after the two readings put together;
    if a second ends between them, the thread sleeps a second longer. *)
Lemma wait_deadline_bounds sec usec now : 0 <= usec < 1000000 -> now = sec \/ now = sec + 1 ->
  let '(s, ns) := wait_deadline usec now in
  0 <= ns < 1000000000 /\
  let ahead := (s - sec) * 1000000000 + (ns - usec * 1000) in
  ahead = (now - sec) * 1000000000 + 50 * 1000000.
Proof.
  intros Hu Hn. unfold wait_deadline.
  change (Z.rem 50 1000) with 50. change (Z.quot 50 1000) with 0. change (1000 * 1000 * 1000) with 1000000000.
  set (n := usec * 1000 + 1000 * 1000 * 50). assert (0 <= n) by (unfold n; lia).
  rewrite Z.quot_div_nonneg, Z.rem_mod_nonneg by lia.
  pose proof (Z.mod_pos_bound n 1000000000 ltac:(lia)). pose proof (Z.div_mod n 1000000000 ltac:(lia)).
  split; [done|]. unfold n in *. lia.
Qed.
