(* ===== verification/Programs.v ===== *)
(** The small programs: main of fuse.cc with the constructor of yfs_client, rsm_tester.cc with
    rsmtest_client.cc, and lock_demo.cc with the constructor and [stat] of lock_client.cc.

    A program is given its arguments and what the libraries return; it gives its exit status, and
    the one of fuse.cc the calls it made.  rsm_tester and lock_demo reach their servers through
    [Remote] and [LockRsm].  The theorems: the file system is mounted and unmounted around its
    session, but where libfuse fails in between; the tester sets the break points of a node; and
    lock_demo makes the lock server abort. *)
From Stdlib Require Import ZArith Lia Ascii String.
From stdpp Require Import base gmap list strings.
From S2P Require Import Prelude TextIO Marshall Protocols RpcClient RpcServer Rpc Stubs.
From S2P Require Import Proposer Config Rsm LockRsm Remote Listener.
Local Open Scope Z_scope.

(** * fuse.cc *)

(** What libfuse returns: [f_parse] also gives the mount point. *)
Record libfuse := LibfuseResults {
  f_parse : Z * cstring; f_mount : Z; f_new : bool; f_chan : bool; f_loop : Z }.
Inductive fuse_call :=
| NewYfs (extent_dst lock_dst : cstring)
| ParseCmdline (argv : list cstring)
| Mount (mountpoint : cstring)
| LowlevelNew
| KernChanNew (fd : Z)
| SessionAddChan
| SessionLoop
| SessionDestroy
| CloseFd (fd : Z)
| Unmount (mountpoint : cstring).

(** The arguments libfuse is given, elsewhere than on a Mac. *)
Definition fuse_argv (argv0 mountpoint : cstring) : list cstring := [argv0; mountpoint; cs "-d"].

Definition fuse_main (argv : list cstring) (k : libfuse) : list fuse_call * Z :=
  match argv with
  | [argv0; mountpoint; extent_dst; lock_dst] =>
      let calls := [NewYfs extent_dst lock_dst; ParseCmdline (fuse_argv argv0 mountpoint)] in
      let '(res, mountpoint) := f_parse k in
      if res =? -1 then (calls, 0)
      else
        let calls := calls ++ [Mount mountpoint] in
        let fd := f_mount k in
        if fd =? -1 then (calls, 1)
        else
          let calls := calls ++ [LowlevelNew] in
          if negb (f_new k) then (calls, 1)
          else
            let calls := calls ++ [KernChanNew fd] in
            if negb (f_chan k) then (calls, 1)
            else
              let err := f_loop k in
              (calls ++ [SessionAddChan; SessionLoop; SessionDestroy; CloseFd fd; Unmount mountpoint],
               if negb (err =? 0) then 1 else 0)
  | _ => ([], 1)
  end.

(** The mount point that is still in use when the program has ended. *)
Definition left_mounted (k : libfuse) (calls : list fuse_call) : bool :=
  existsb (fun c => match c with Mount _ => true | _ => false end) calls
  && negb (f_mount k =? -1)
  && negb (existsb (fun c => match c with Unmount _ => true | _ => false end) calls).

(** * rsm_tester.cc *)

Definition proc_net_repair : Z := 0x12001.
Definition proc_breakpoint : Z := 0x12002.

Section tester.
  Context `{Memory} {T : Type}.

(** The calls of rsmtest_client; [r] is what is in the variable for the reply. *)
Definition test_call (proc arg r : Z) (l : link T) : outcome (link T * Z) :=
  '(l, ret, r) ← rcall (H0 := marshal_int) (H1 := marshal_int) proc arg r l;
  _ ← verify (ret =? rsm_test_protocol.OK);
  Ret (l, r).
Definition net_repair (heal r : Z) (l : link T) : outcome (link T * Z) := test_call proc_net_repair heal r l.
Definition breakpoint (b r : Z) (l : link T) : outcome (link T * Z) := test_call proc_breakpoint b r l.

(** The constructor: the client is used whether it could bind or not. *)
Definition rsmtest_client (l : link T) : outcome (link T) :=
  '(l, _) ← remote_bind l; Ret l.

Variable inet_addr : cstring -> Z.
Variable gethostbyname : cstring -> option (Z * Z).
(** A client of the server at an address. *)
Variable connect : sockaddr_in -> link T.

Definition rsm_tester_main (argv : list cstring) (r : Z) : outcome (option (link T) * Z) :=
  match argv with
  | [_; dst; command; arg] =>
      addr ← make_sockaddr inet_addr gethostbyname dst;
      l ← rsmtest_client (connect addr);
      if str_eqb command (cs "partition") then
        n ← atoi arg;
        '(l, _) ← net_repair n r l; Ret (Some l, 0)
      else if str_eqb command (cs "breakpoint") then
        b ← atoi arg;
        '(l, _) ← breakpoint b r l; Ret (Some l, 0)
      else Ret (Some l, 0)
  | _ => Ret (None, 1)
  end.
End tester.

(** The server of a node that the tester talks to (constructor of rsm). *)
Definition serve_breakpoint (s : rsm) (b : Z) : rsm * Z * Z :=
  let '(s, ret) := breakpointreq s b in (s, ret, ret).
Definition serve_net_repair `{Memory} (s : rsm) (args : unmarshall) (rep : marshall)
    : outcome (rsm * Z * marshall) :=
  let '(args, heal) := get_int args in
  if negb (okdone args) then Ret (s, rpc_const.unmarshal_args_failure, rep)
  else
    '(s, _, ret) ← test_net_repairreq s (negb (heal =? 0));
    Ret (s, ret, put_int rep ret).
Definition testsvr `{Memory} (nonce : Z) : outcome (rpcs (Remote.fn rsm)) :=
  s ← rpcs_new nonce 0 (rpcbind_fn (u32 nonce));
  s ← reg1 s proc_net_repair serve_net_repair;
  reg1 s proc_breakpoint (handler1 (H := marshal_int) (H0 := marshal_int) serve_breakpoint 0).

(** * lock_demo.cc *)

(** The request [lock_client::stat] sends: the number of the client and the lock. *)
Definition stat_request `{Memory} (id lid : Z) : marshall :=
  call2 (H0 := marshal_int) (H1 := marshal_ull) id lid.
(** The lock main asks for. *)
Definition demo_lock : Z := 1.

(** * Mounting *)

(** The session runs exactly if libfuse did what it was asked; it is unmounted afterwards.  A mount
    is left behind exactly if the session or its channel could not be made, and a command line
    libfuse refuses ends the program with success. *)
Theorem fuse_main_mounts argv0 mp ext lock k :
  let '(calls, status) := fuse_main [argv0; mp; ext; lock] k in
  (SessionLoop ∈ calls <-> (f_parse k).1 <> -1 /\ f_mount k <> -1 /\ f_new k = true /\ f_chan k = true) /\
  (left_mounted k calls = true <->
     (f_parse k).1 <> -1 /\ f_mount k <> -1 /\ (f_new k = false \/ f_chan k = false)) /\
  (status = 0 <-> (f_parse k).1 = -1 \/ SessionLoop ∈ calls /\ f_loop k = 0).
Proof.
  destruct k as [[res mp'] fd new chan err]. unfold fuse_main. cbn [f_parse f_mount f_new f_chan f_loop fst].
  destruct (Z.eqb_spec res (-1)) as [->|Hr].
  { split_and!; [|unfold left_mounted; simpl|]; (split; [|set_solver by lia]); [set_solver|done|by left]. }
  destruct (Z.eqb_spec fd (-1)) as [->|Hf].
  { split_and!; [|unfold left_mounted; simpl|]; set_solver by lia. }
  unfold left_mounted. cbn [f_mount]. rewrite (proj2 (Z.eqb_neq _ _) Hf).
  destruct new, chan; cbn [negb]; simpl; (split_and!; [| |destruct (Z.eqb_spec err 0); simpl]); set_solver by lia.
Qed.

(** * Break points *)

Section breakpoints.
  Context `{Memory}.

Definition test_table (nonce : Z) : gmap Z (Remote.fn rsm) :=
  <[proc_breakpoint := handler1 (H := marshal_int) (H0 := marshal_int) serve_breakpoint 0]>
  (<[proc_net_repair := serve_net_repair]> (<[rpc_const.bind := rpcbind_fn nonce]> ∅)).

Lemma testsvr_ok nonce : testsvr nonce = Ret (Rpcs (u32 nonce) ∅ ∅ 0 0 ∅ true (test_table (u32 nonce))).
Proof.
  unfold testsvr, rpcs_new, reg1, set_procs. simpl.
  repeat (rewrite bool_decide_true by (by rewrite ?lookup_insert_ne, ?lookup_empty); simpl).
  reflexivity.
Qed.

(** The tester sets the break point of the node it names; a number that stands for none makes the
    node answer with an error and the tester abort. *)
Theorem rsm_tester_sets_breakpoint inet_addr gethostbyname connect argv0 dst addr nonce N conn r b s :
  make_sockaddr inet_addr gethostbyname dst = Ret addr ->
  is_u32 N -> N <> 0 -> 0 <= b < 2 ^ 31 ->
  connect addr = fresh_link N (Rpcs (u32 nonce) ∅ ∅ 0 0 ∅ true (test_table (u32 nonce))) s conn ->
  if bool_decide (1 <= b <= 4) then
    exists l, rsm_tester_main inet_addr gethostbyname connect [argv0; dst; cs "breakpoint"; print_dec b] r
      = Ret (Some l, 0) /\ lk_obj l = (breakpointreq s b).1
  else rsm_tester_main inet_addr gethostbyname connect [argv0; dst; cs "breakpoint"; print_dec b] r
      = Fault AssertFail.
Proof.
  intros Ha HN HN0 Hb Hc. unfold rsm_tester_main, rsmtest_client. rewrite Ha. cbn [mbind outcome_bind]. rewrite Hc.
  destruct (remote_bind_ready N (Rpcs (u32 nonce) ∅ ∅ 0 0 ∅ true (test_table (u32 nonce))) s conn HN HN0
    (u32_range _) (lookup_empty N) eq_refl) as (l & -> & (Hl & _ & _ & HS & Hbd) & Ho & Hp & Hx & _).
  cbn [mbind outcome_bind]. change (str_eqb (cs "breakpoint") (cs "partition")) with false.
  change (str_eqb (cs "breakpoint") (cs "breakpoint")) with true. cbv iota.
  rewrite atoi_print by done. cbn [mbind outcome_bind]. unfold breakpoint, test_call.
  set (ret := (breakpointreq s b).2).
  assert (ret = if bool_decide (1 <= b <= 4) then rsm_test_protocol.OK else rsm_test_protocol.ERR) as Hret.
  { unfold ret, breakpointreq. case_bool_decide; [|by rewrite !(proj2 (Z.eqb_neq _ _)) by lia].
    assert (b = 1 \/ b = 2 \/ b = 3 \/ b = 4) as [->|[->|[->| ->]]] by lia; reflexivity. }
  destruct (rcall_spec N l (conj HN HN0) HS Hl ltac:(lia) (MA := marshal_int) (MR := marshal_int)
    serve_breakpoint 0 b ret r (breakpointreq s b).1 ret proc_breakpoint)
    with (f := handler1 (H := marshal_int) (H0 := marshal_int) serve_breakpoint 0)
    as (l' & -> & _ & Ho' & _).
  - rewrite Ho. unfold serve_breakpoint, ret. by destruct (breakpointreq s b).
  - rewrite Hret. case_bool_decide; split; by_computing.
  - split; [cbn; unfold is_s32; lia|]. rewrite Hret. case_bool_decide; by_computing.
  - rewrite !message_size. cbn [enc marshal_int]. rewrite !length_enc_uint. by_computing.
  - split; [by_computing|]. exact Hbd.
  - rewrite Hp. reflexivity.
  - reflexivity.
  - cbn [mbind outcome_bind]. rewrite Hret. case_bool_decide; [|reflexivity]. cbn. eauto.
Qed.
End breakpoints.

(** * The demo and the lock server *)

(** A handler of one number does not run on a request that has more. *)
Lemma handler1_long `{Memory} {S R} `{MR : Marshal R} (meth : S -> Z -> S * Z * R) o s u m a b :
  u_wf u -> is_u64 a -> u_left u = enc (Marshal := marshal_ull) a ++ b -> b <> [] ->
  handler1 (H := marshal_ull) meth o s u m = Ret (s, rpc_const.unmarshal_args_failure, m).
Proof.
  intros W Ha L Hb. unfold handler1. destruct (get_enc (Marshal := marshal_ull) u a o b W Ha L) as (-> & W1 & L1).
  cbn [mbind outcome_bind]. unfold okdone.
  assert (Nat.eqb (u_ind (u_adv u (length (enc (Marshal := marshal_ull) a))))
    (u_sz (u_adv u (length (enc (Marshal := marshal_ull) a)))) = false) as ->.
  { apply Nat.eqb_neq. intros E. apply Hb. rewrite <- L1. unfold u_left.
    destruct W1 as (Hl & _). rewrite E. apply drop_ge. lia. }
  by rewrite andb_false_r.
Qed.

Lemma smain_stat nonce o1 o2 r bind `{Memory} :
  exists s, smain_server nonce o1 o2 r bind = Ret s /\ nonce_ s = u32 nonce /\
    reply_window_ s = ∅ /\ counting_ s = 0 /\ procs_ s !! proc_stat = Some (handle_stat o1).
Proof.
  unfold smain_server, rpcs_new, reg1. simpl.
  repeat (rewrite bool_decide_eq_true_2 by (rewrite ?lookup_insert_ne by done; apply lookup_empty); simpl).
  eexists. split; [done|]. simpl. by split_and!.
Qed.

(** lock_demo asks for the statistics of a lock with the number of the client and that of the
    lock, and the method the server has registered takes the lock alone: the first request on a
    fresh server fails the assertion on the arguments, and the lock server aborts. *)
Theorem lock_demo_aborts `{Memory} nonce o1 o2 r bind obj c id h dead s :
  smain_server nonce o1 o2 r bind = Ret s ->
  is_s32 id -> wf_req_header h -> rq_proc h = proc_stat ->
  (rq_srv_nonce h = 0 \/ rq_srv_nonce h = u32 nonce) ->
  serve s obj c (m_bytes (pack_req_header (stat_request id demo_lock) h)) dead = Fault AssertFail.
Proof.
  intros Es Hid Hh Hp Hn. destruct (smain_stat nonce o1 o2 r bind) as (s' & E & Hno & Hw & Hcn & Hpr).
  rewrite Es in E. injection E as <-.
  change (stat_request id demo_lock) with
    (put (Marshal := marshal_pair (MA := marshal_int) (MB := marshal_ull)) marshall_new (id, demo_lock)).
  destruct (put_new (H := marshal_pair (MA := marshal_int) (MB := marshal_ull)) (id, demo_lock)) as [W1 E1].
  set (req := put _ _) in *.
  assert (Hsz : Z.of_nat (m_ind req) < 2 ^ 31).
  { unfold req. rewrite message_size. cbn [enc marshal_pair marshal_int marshal_ull fst snd].
    rewrite !length_app, !length_enc_uint. by_computing. }
  destruct (req_header_roundtrip _ h W1 Hh Hsz) as (u & Eu & Wu & Lu). rewrite E1 in Lu.
  assert (exists s1, dispatch_header s c h u = Ret (s1, Running (handle_stat o1) h u)) as [s1 Ed].
  { unfold dispatch_header. rewrite Hno, Hp, Hpr.
    replace (negb (rq_srv_nonce h =? 0) && negb (rq_srv_nonce h =? u32 nonce)) with false by (destruct Hn; lia).
    destruct (rq_clt_nonce h =? 0); [simpl; rewrite Hcn; eauto|].
    destruct (first_is_new s c h (handle_stat o1) u Hw Hcn) as [s1 E1']. exists s1. by rewrite <- Hp. }
  unfold serve, dispatch_begin. rewrite Eu. pose proof Wu as (_ & _ & _ & Hok). rewrite Hok. simpl. rewrite Ed. simpl.
  (* the eight bytes read as the lock are the number of the client and half of the lock *)
  unfold handle_stat.
  assert (exists a b, is_u64 a /\ u_left u = enc (Marshal := marshal_ull) a ++ b /\ b <> []) as (a & b & Ha & La & Hb).
  { exists (u32 id * 2 ^ 32), (enc_uint 1). pose proof (u32_range id) as Hr. unfold is_u32 in Hr.
    split; [unfold is_u64; lia|]. split; [|discriminate]. rewrite Lu.
    cbn [enc marshal_pair marshal_int marshal_ull fst snd]. change (u32 (Z.shiftr demo_lock 32)) with 0.
    change (u32 demo_lock) with 1. rewrite Z.shiftr_div_pow2, Z.div_mul by lia.
    rewrite (u32_id (u32 id)) by done. assert (u32 (u32 id * 2 ^ 32) = 0) as ->; [|done].
    unfold u32 at 1. apply Z.mod_mul. lia. }
  rewrite (handler1_long _ _ _ _ _ a b) by done. done.
Qed.
